(* ===== verification/_CoqProject ===== *)
-Q . S2P
Prelude.v
Varint.v
Simple8b.v
Deltas.v
IntegerCodec.v
TimestampCodec.v
Bits.v
BooleanCodec.v
StringCodec.v
FloatCodec.v
Sorting.v
Utils.v
Models.v
MemCache.v
FileIO.v
DataBlock.v
Tsm.v
TsmFacts.v
Tombstone.v
Lru.v
Wal.v
Bincode.v
RecordFile.v
ForwardIndex.v
Version.v
FileNames.v
TseriesFamily.v
VersionSet.v
WalManager.v
Summary.v
Flush.v
KvCore.v
Schema.v
Picker.v
PageLock.v
PageCache.v
PageClock.v
PageHands.v
PageReplace.v
PageCacheFacts.v
PageCacheLimits.v
FileScope.v
FileScopeFacts.v
FileStackFacts.v
FileStackLimits.v
AsyncRt.v
AsyncWakeup.v
