(* ===== verification/Prelude.v ===== *)
(** * A verification of the CnosDB storage engine

    CnosDB is a time series database.  Its storage engine, the crate [tskv],
    takes batches of points, gives every series and field an identifier, logs the
    batch, keeps the points in memory and flushes them to files from which it
    reads them again.  This library translates the engine into Rocq, one Module
    per Rust module, and proves what each part promises to the next one.

    ** The parts and how they meet

    A write (kvcore.rs) records new series and fields in the forward index,
    appends the batch to the write-ahead log (wal.rs) and puts the points into
    the caches of a series family (tseries_family.rs, memcache.rs).  A full cache
    is frozen and queued; the flush (compaction/flush.rs) turns the queued caches
    into blocks (tsm/block.rs), compresses them with the codecs (tsm/coders),
    writes TSM files (tsm/writer.rs) and reports a version edit, which the
    summary (summary.rs) logs in a record file (record_file).  At start-up the
    summary, the log and the index are replayed.  All files are read and written
    in pages (direct_io/file.rs) through a page cache (direct_io/cache.rs) whose
    pages are guarded by atomic locks (direct_io/cache/page/lock.rs) and which
    reads and writes the disk through file scopes (direct_io/file/scope.rs).
    Reads and writes can also be tasks of a pool of IO threads
    (direct_io/async_rt.rs, file_manager.rs).  Beside the engine are the store of
    the schemas (schema.rs) and the choice of files to compact
    (compaction/picker.rs).

    ** Files of the development

    Foundations:
    - [Prelude] (this file): results of Rust calls, machine integers, byte
      strings, tactics and the hint database [cnos]; [Sorting]: the stable sort
      of slices; [Bits]: bit strings; [Varint], [Bincode]: the interfaces of two
      crates, with instances that show their laws can hold.

    Codecs (tskv/src/tsm/coders):
    - [Simple8b] packs small integers into words; [Deltas] has the loops shared
      by [IntegerCodec] (integer.rs, unsigned.rs) and [TimestampCodec];
      [BooleanCodec], [StringCodec] and [FloatCodec] are the other three.

    Data model and memory:
    - [Utils] (hash, bloom filter, byte readers), [Models] (identifiers of series
      and fields), [MemCache] (the write buffer), [Lru] (the cache of open
      readers, a linked list with raw pointers).

    Files:
    - [PageLock], [PageCache]: the page lock and the page cache.  [PageClock],
      [PageHands] and [PageReplace] prove the list, the hands and the replacement
      of the cache, [PageCacheFacts] its contract, [PageCacheLimits] where the
      contract ends;
    - [FileScope]: the file scopes, opening and syncing files (file/system.rs), and
      the byte operations of a file over the page cache and the disk.
      [FileScopeFacts] shows that a scope is what the cache relies on,
      [FileStackFacts] that the whole stack is a list of bytes per file and when it
      is on disk, [FileStackLimits] where it is not;
    - [AsyncRt], [AsyncWakeup]: the pool of IO threads as steps of its threads, and
      how the threads are woken up;
    - [FileIO]: a file and a cursor over pages, and their contract [bytes_file],
      a list of bytes, over which the parts above are modelled;
    - [DataBlock], [Tsm], [TsmFacts], [Tombstone]: blocks, TSM files, tombstones;
    - [Wal], [RecordFile]: the two kinds of log.

    Engine:
    - [Version], [FileNames]: options, file names, levels and version edits;
    - [TseriesFamily], [VersionSet]: the families of series and their map;
    - [ForwardIndex], [Summary], [WalManager], [Flush]: the operations on disk and
      their replay;
    - [KvCore]: the engine that composes them;
    - [Schema], [Picker]: the schema store and the choice of files to compact.

    In each file the Module named after the Rust module has the translation, with
    the names of the source; references and contracts are in Modules named
    [..._spec], proofs in Modules named [..._facts], and [example] holds concrete
    data.

    ** How code becomes definitions

    - A call returns an [outcome]: [Ok], [Err], [Panic], or [OutOfFuel].
    - A fixed-width integer is a [Z] with its wrap-around written out ([u64],
      [i64], ...).  [BuildProfile] says whether overflow checks and debug
      assertions are compiled in; theorems hold for both builds unless they name
      one.
    - State is passed explicitly.  Shared objects ([Arc], raw pointers) live in a
      heap or store and are named by a location, so that aliasing is kept.
    - A loop that is not structural takes fuel.  A theorem that concludes [Ok] or
      [Err] states how much is enough: for the record reader a bound from the
      length of the file, for the codecs and the merge the length of the input,
      for the page cache [fault_fuel], a quadratic bound in the number of pages it
      may hold (each page the cold hand spares may cost a round of the hot hand).
      The loops of a file scope have one round per byte of a page, as every round
      that is not interrupted moves at least one, times one more than the number of
      interruptions in a row ([os_patience]).  A theorem about divergence is for all
      fuel.
    - Files above the cursor are a [bytes_file] each, and the directory tree is [fs]
      of Version: what the process reads, and which files have bytes that no sync
      has brought to the operating system.  [fs.restart] is the end of the process:
      synced files stay, the others may have lost anything.  A file that is created
      again while it is held keeps what the process sees of it.
    - Threads appear where the code depends on them: the page lock is a step
      relation over all interleavings of its atomic steps, the IO runtime is a
      program counter per thread and an execution any sequence of threads, a page
      fault is split where the mutex is released, the jobs of the engine are the
      answers they give.
    - Code outside the repository is a class with its documented behaviour as
      laws: [VarInt], [Snap], [Crc32], [Bincode], [Flatbuffers], the directory
      listing [ListDir], the iteration order of hash maps [HashOrder], and the
      calls [pread] and [pwrite] of the operating system, [Os].  The page cache is
      proved against the interface [Scope], which the file scopes implement.
      Examples instantiate the classes.

    ** What the theorems show

    - Round trips: each codec decodes what it encodes, a TSM file gives back its
      blocks, a log segment and a record file give back their entries, and file
      names the numbers in their range.
    - Refinement: the cursor over pages implements a list of bytes, the LRU list
      an abstract LRU map, the forward index a map of series, the summary the
      live files of its edits, the page cache an array of pages, and files, cache
      and scopes together a list of bytes per file.
    - Invariants: the caches of a family in every reachable state, the clock of
      the page cache, mutual exclusion of the page lock over all interleavings, the
      place of every IO task and the count of the workers over all interleavings,
      and the identifiers of databases.
    - Composition: a write leaves its points in index, log and caches, a flush
      moves points from caches to files the reader finds, a replay does what the
      write did, with the sync flag of the log a restart recovers every acknowledged
      write of one segment that was not flushed, and a sync leaves on disk exactly
      the bytes of the byte contract.
    - Termination and liveness: reading records and faulting pages return, every
      summary task is answered, and a sleeping pool of IO threads answers a task
      within a bounded number of steps.
    - Limits: theorems about where the code does not do what it means to (an overwritten file is cut, a full block panics, a segment that
      was not flushed is skipped, a removed LRU entry dangles, a reloaded index
      attributes fields to other series, recovery reuses a file number, held pages
      stop the page cache, a page is read before its change is written, a gap or a
      file created again loses bytes, the wake-up of an IO thread is lost, the
      schema store does not start in a relative directory and does not sync what it
      saves, the picker divides by zero).

    ** Not modelled

    - The compaction itself is a stub in the source; the services, the query
      engine and the test programs only call other libraries.
    - The operating system calls under the file scopes: they are the class [Os].
      Asking the device to write its own cache has no effect on content: a hard
      sync is modelled like a soft one, and the loss of power is not.  The parts
      above the cursor use files that do not fail ([fs], [bytes_file]).
    - Generated flatbuffers and gRPC code: the accessors are records.
    - Reading the configuration file, logging, and the thread pools. *)
From stdpp Require Export base list numbers gmap strings.
From Stdlib Require Export ZArith Lia.

#[global] Open Scope Z_scope.

(** ** Results of a Rust call

    [Ok] and [Err] are the two constructors of [Result]; [Panic] is an
    unwinding panic (failed assertion, index out of range, [unwrap] of nothing,
    arithmetic overflow in a checked build).  [OutOfFuel] is not a behaviour of
    the code: it is what a loop with an explicit iteration bound returns when the
    bound is exhausted, so that a theorem concluding [Ok _] or [Err _] also says
    that the bound is large enough. *)
Inductive outcome (E A : Type) : Type :=
| Ok (a : A)
| Err (e : E)
| Panic
| OutOfFuel.
Arguments Ok {E A} a.
Arguments Err {E A} e.
Arguments Panic {E A}.
Arguments OutOfFuel {E A}.

#[global] Instance outcome_ret {E} : MRet (outcome E) := fun A a => Ok a.
#[global] Instance outcome_bind {E} : MBind (outcome E) := fun A B k m =>
  match m with
  | Ok a => k a
  | Err e => Err e
  | Panic => Panic
  | OutOfFuel => OutOfFuel
  end.

Definition of_option {E A} (o : option A) (e : E) : outcome E A :=
  match o with Some a => Ok a | None => Err e end.

(** [x.unwrap()] on an [Option]. *)
Definition unwrap {E A} (o : option A) : outcome E A :=
  match o with Some a => Ok a | None => Panic end.

(** [m.map_err(f)]. *)
Definition map_err {E F A} (f : E -> F) (m : outcome E A) : outcome F A :=
  match m with
  | Ok a => Ok a
  | Err e => Err (f e)
  | Panic => Panic
  | OutOfFuel => OutOfFuel
  end.

(** [assert!(b)]. *)
Definition assert_ {E} (b : bool) : outcome E unit := if b then Ok tt else Panic.

(** ** Build profile

    [Cargo.toml] sets [overflow-checks = false] for the release and bench
    profiles and [true] for the test profile: a plain [+] on a machine integer
    wraps in the former and panics in the latter. *)
Class BuildProfile := overflow_checks : bool.

(** ** Machine integers *)

Definition U64 : Z := 2 ^ 64.
Definition I63 : Z := 2 ^ 63.

Definition is_u8 (x : Z) : Prop := 0 <= x < 256.
Definition is_u16 (x : Z) : Prop := 0 <= x < 2 ^ 16.
Definition is_u32 (x : Z) : Prop := 0 <= x < 2 ^ 32.
Definition is_u64 (x : Z) : Prop := 0 <= x < U64.
Definition is_i64 (x : Z) : Prop := - I63 <= x < I63.

Definition u8 (x : Z) : Z := x mod 256.
Definition u16 (x : Z) : Z := x mod 2 ^ 16.
Definition u32 (x : Z) : Z := x mod 2 ^ 32.
(** [x as u64], and the truncation of every wrapping operation on [u64]. *)
Definition u64 (x : Z) : Z := x mod U64.
(** [x as i64], and the truncation of every wrapping operation on [i64]. *)
Definition i64 (x : Z) : Z := (x + I63) mod U64 - I63.

Definition i64_MIN : Z := - I63.
Definition i64_MAX : Z := I63 - 1.
Definition u64_MAX : Z := U64 - 1.

(** [v << k] on [u64], for [k < 64]. *)
Definition shl64 (v k : Z) : Z := u64 (Z.shiftl v k).

(** A plain [a + b] (and [a += b]) on [i64] and on [u64]. *)
Definition add_i64 {E} `{BuildProfile} (a b : Z) : outcome E Z :=
  let s := a + b in
  if overflow_checks && negb ((- I63 <=? s) && (s <? I63)) then Panic else Ok (i64 s).

Definition add_u64 {E} `{BuildProfile} (a b : Z) : outcome E Z :=
  let s := a + b in
  if overflow_checks && negb (s <? U64) then Panic else Ok (u64 s).

(** [a - b] on [u8], and [a += 1] on [u32]. *)
Definition sub_u8 {E} `{BuildProfile} (a b : Z) : outcome E Z :=
  if overflow_checks && (a <? b) then Panic else Ok (u8 (a - b)).

Definition inc_u32 {E} `{BuildProfile} (a : Z) : outcome E Z :=
  if overflow_checks && negb (a + 1 <? 2 ^ 32) then Panic else Ok (u32 (a + 1)).

Definition mul_u64 {E} `{BuildProfile} (a b : Z) : outcome E Z :=
  let s := a * b in
  if overflow_checks && negb (s <? U64) then Panic else Ok (u64 s).

(** A plain [a - b] on [u64] or [usize]. *)
Definition sub_u64 {E} `{BuildProfile} (a b : Z) : outcome E Z :=
  if overflow_checks && (a <? b) then Panic else Ok (u64 (a - b)).

Definition sub_usize {E} `{BuildProfile} (a b : nat) : outcome E nat :=
  d ← sub_u64 (Z.of_nat a) (Z.of_nat b); Ok (Z.to_nat d).

(** ** Byte strings: [to_be_bytes], [from_be_bytes] and the little-endian pair *)

Fixpoint to_le_bytes (n : nat) (v : Z) : list Z :=
  match n with
  | O => []
  | S n' => v mod 256 :: to_le_bytes n' (v / 256)
  end.

Fixpoint from_le_bytes (bs : list Z) : Z :=
  match bs with
  | [] => 0
  | b :: bs' => b + 256 * from_le_bytes bs'
  end.

Definition to_be_bytes (n : nat) (v : Z) : list Z := rev (to_le_bytes n v).
Definition from_be_bytes (bs : list Z) : Z := from_le_bytes (rev bs).

(** ** Slices and vectors *)

(** [&l[i..j]]: panics unless [i <= j <= l.len()]. *)
Definition slice {E A} (l : list A) (i j : nat) : outcome E (list A) :=
  if (i <=? j)%nat && (j <=? length l)%nat then Ok (take (j - i) (drop i l)) else Panic.

(** [&l[i..]]. *)
Definition slice_from {E A} (l : list A) (i : nat) : outcome E (list A) :=
  slice l i (length l).

(** [l[i]]. *)
Definition get {E A} (l : list A) (i : nat) : outcome E A := unwrap (l !! i).

(** [l[i] = x]. *)
Definition set {E A} (l : list A) (i : nat) (x : A) : outcome E (list A) :=
  if (i <? length l)%nat then Ok (<[i := x]> l) else Panic.

(** [l[i..i + xs.len()].copy_from_slice(&xs)]. *)
Definition copy_at {E A} (l : list A) (i : nat) (xs : list A) : outcome E (list A) :=
  if (i + length xs <=? length l)%nat
  then Ok (take i l ++ xs ++ drop (i + length xs) l) else Panic.

(** [v.resize(n, x)]. *)
Definition vec_resize {A} (n : nat) (x : A) (l : list A) : list A := resize n x l.

(** ** Automation *)

Create HintDb cnos discriminated.

(** Unfold the integer ranges and call [lia]. *)
Ltac range := unfold is_u8, is_u16, is_u32, is_u64, is_i64, i64_MIN, i64_MAX, u64_MAX,
  U64, I63 in *; lia.

(** Case analysis on every boolean comparison of the goal or a hypothesis. *)
Ltac bool_cases :=
  repeat match goal with
  | |- context [Z.eqb ?a ?b] => destruct (Z.eqb_spec a b)
  | |- context [Z.ltb ?a ?b] => destruct (Z.ltb_spec a b)
  | |- context [Z.leb ?a ?b] => destruct (Z.leb_spec a b)
  | |- context [Nat.eqb ?a ?b] => destruct (Nat.eqb_spec a b)
  | |- context [Nat.ltb ?a ?b] => destruct (Nat.ltb_spec a b)
  | |- context [Nat.leb ?a ?b] => destruct (Nat.leb_spec a b)
  end.

(** Invert a bind that is known to return [Ok]. *)
Ltac bind_inv H :=
  match type of H with
  | mbind _ ?m = Ok _ =>
      let E := fresh "E" in destruct m eqn:E; simpl in H; try discriminate H
  end.

(** ** Generic lemmas *)

Lemma bind_Ok {E A B} (a : A) (k : A -> outcome E B) : mbind k (Ok a) = k a.
Proof. done. Qed.

Lemma bind_ok {E A B} (m : outcome E A) (k : A -> outcome E B) a :
  m = Ok a -> mbind k m = k a.
Proof. by intros ->. Qed.

Lemma u64_range x : is_u64 (u64 x).
Proof. unfold u64, is_u64, U64. apply Z.mod_pos_bound. lia. Qed.

Lemma u64_id x : is_u64 x -> u64 x = x.
Proof. intros. by apply Z.mod_small. Qed.

Lemma i64_range x : is_i64 (i64 x).
Proof.
  unfold i64, is_i64. pose proof (Z.mod_pos_bound (x + I63) U64). range.
Qed.

Lemma i64_id x : is_i64 x -> i64 x = x.
Proof. intros. unfold i64. rewrite Z.mod_small; range. Qed.

Lemma i64_u64 x : i64 (u64 x) = i64 x.
Proof.
  unfold i64, u64. f_equal.
  rewrite Z.add_mod_idemp_l; [done | range].
Qed.

Lemma u64_i64 x : u64 (i64 x) = u64 x.
Proof.
  unfold i64, u64.
  rewrite Zminus_mod_idemp_l. f_equal. lia.
Qed.

Lemma u64_of_i64_inj x : is_i64 x -> i64 (u64 x) = x.
Proof. intros. by rewrite i64_u64, i64_id. Qed.

Lemma u64_add_l a b : u64 (u64 a + b) = u64 (a + b).
Proof. unfold u64. apply Z.add_mod_idemp_l. range. Qed.

Lemma u64_add_r a b : u64 (a + u64 b) = u64 (a + b).
Proof. unfold u64. apply Z.add_mod_idemp_r. range. Qed.

Lemma u64_sub_l a b : u64 (u64 a - b) = u64 (a - b).
Proof. unfold u64. apply Zminus_mod_idemp_l. Qed.

Lemma u64_sub_r a b : u64 (a - u64 b) = u64 (a - b).
Proof. unfold u64. apply Zminus_mod_idemp_r. Qed.

Lemma i64_add_i64_r a b : i64 (a + i64 b) = i64 (a + b).
Proof. rewrite <- (i64_u64 (a + i64 b)), <- u64_add_r, u64_i64, u64_add_r. apply i64_u64. Qed.

Lemma i64_add_i64_l a b : i64 (i64 a + b) = i64 (a + b).
Proof. rewrite Z.add_comm, i64_add_i64_r. f_equal. lia. Qed.

#[export] Hint Resolve u64_range i64_range : cnos.

Lemma add_i64_ok {E} `{BuildProfile} a b :
  overflow_checks = false \/ is_i64 (a + b) -> add_i64 (E := E) a b = Ok (i64 (a + b)).
Proof.
  intros [Hp | Hr]; unfold add_i64; [by rewrite Hp|].
  assert ((- I63 <=? a + b) && (a + b <? I63) = true) as ->.
  { apply andb_true_intro. split; [apply Z.leb_le | apply Z.ltb_lt]; range. }
  by rewrite andb_false_r.
Qed.

Lemma add_u64_ok {E} `{BuildProfile} a b :
  is_u64 (a + b) -> add_u64 (E := E) a b = Ok (a + b).
Proof.
  intros Hr. unfold add_u64.
  assert ((a + b <? U64) = true) as -> by (apply Z.ltb_lt; range).
  rewrite andb_false_r. by rewrite u64_id.
Qed.

Lemma sub_u64_ok {E} `{BuildProfile} a b :
  0 <= b <= a -> a < U64 -> sub_u64 (E := E) a b = Ok (a - b).
Proof.
  intros Hb Ha. unfold sub_u64. rewrite (proj2 (Z.ltb_ge _ _)), andb_false_r by lia.
  rewrite u64_id; [done|range].
Qed.

Lemma sub_usize_ok {E} `{BuildProfile} a b :
  (b <= a)%nat -> Z.of_nat a < U64 -> sub_usize (E := E) a b = Ok (a - b)%nat.
Proof.
  intros Hb Ha. unfold sub_usize. rewrite sub_u64_ok by lia. rewrite bind_Ok. f_equal. lia.
Qed.

Lemma mul_u64_ok {E} `{BuildProfile} a b :
  is_u64 (a * b) -> mul_u64 (E := E) a b = Ok (a * b).
Proof.
  intros Hr. unfold mul_u64.
  assert ((a * b <? U64) = true) as -> by (apply Z.ltb_lt; range).
  rewrite andb_false_r. by rewrite u64_id.
Qed.

(** Disjoint bit patterns: [lor] is addition. *)
Lemma lor_disjoint_add a b n :
  0 <= n -> 0 <= a < 2 ^ n -> Z.lor a (Z.shiftl b n) = a + b * 2 ^ n.
Proof.
  intros Hn Ha. rewrite <- Z.shiftl_mul_pow2 by done.
  assert (Z.land a (Z.shiftl b n) = 0) as Hl.
  { apply Z.bits_inj'. intros i Hi. rewrite Z.land_spec, Z.bits_0.
    rewrite Z.shiftl_spec by done.
    destruct (Z.lt_ge_cases i n).
    - rewrite (Z.testbit_neg_r b) by lia. apply andb_false_r.
    - rewrite <- (Z.mod_small a (2 ^ n)) by done.
      by rewrite Z.mod_pow2_bits_high by lia. }
  rewrite <- Z.lxor_lor by done. symmetry. by apply Z.add_nocarry_lxor.
Qed.

Lemma land_ones_mod a n : 0 <= n -> Z.land a (Z.ones n) = a mod 2 ^ n.
Proof. intros. by apply Z.land_ones. Qed.

Lemma length_to_le_bytes n v : length (to_le_bytes n v) = n.
Proof. revert v. induction n; intros; simpl; auto. Qed.

Lemma length_to_be_bytes n v : length (to_be_bytes n v) = n.
Proof. unfold to_be_bytes. by rewrite length_rev, length_to_le_bytes. Qed.

Lemma from_to_le_bytes n v : from_le_bytes (to_le_bytes n v) = v mod 256 ^ Z.of_nat n.
Proof.
  revert v. induction n as [|n IH]; intros v; simpl to_le_bytes; simpl from_le_bytes.
  - by rewrite Z.mod_1_r.
  - rewrite IH, Nat2Z.inj_succ, Z.pow_succ_r by lia.
    rewrite Z.rem_mul_r by lia. done.
Qed.

Lemma from_to_be_bytes n v : 0 <= v < 256 ^ Z.of_nat n -> from_be_bytes (to_be_bytes n v) = v.
Proof.
  intros Hv. unfold from_be_bytes, to_be_bytes.
  rewrite rev_involutive, from_to_le_bytes. by apply Z.mod_small.
Qed.

Lemma from_to_be_bytes_u64 v : is_u64 v -> from_be_bytes (to_be_bytes 8 v) = v.
Proof. intros Hv. apply from_to_be_bytes. simpl Z.of_nat. range. Qed.

Lemma to_le_bytes_u8 n v : Forall is_u8 (to_le_bytes n v).
Proof.
  revert v. induction n as [|n IH]; intros v; simpl; constructor; auto.
  unfold is_u8. apply Z.mod_pos_bound. lia.
Qed.

Lemma to_be_bytes_u8 n v : Forall is_u8 (to_be_bytes n v).
Proof. unfold to_be_bytes. apply Forall_rev, to_le_bytes_u8. Qed.

Lemma from_le_bytes_range bs :
  Forall is_u8 bs -> 0 <= from_le_bytes bs < 256 ^ Z.of_nat (length bs).
Proof.
  induction 1 as [|b bs Hb _ IH]; [simpl; lia|].
  change (length (b :: bs)) with (S (length bs)).
  rewrite Nat2Z.inj_succ, Z.pow_succ_r by lia. unfold is_u8 in Hb. cbn [from_le_bytes]. lia.
Qed.

Lemma from_be_bytes_u64 bs : length bs = 8%nat -> Forall is_u8 bs -> is_u64 (from_be_bytes bs).
Proof.
  intros Hl Hb. unfold from_be_bytes.
  pose proof (from_le_bytes_range (rev bs) (Forall_rev Hb)) as H.
  rewrite length_rev, Hl in H. simpl Z.of_nat in H. range.
Qed.

Lemma to_from_le_bytes bs : Forall is_u8 bs -> to_le_bytes (length bs) (from_le_bytes bs) = bs.
Proof.
  induction 1 as [|b bs Hb Hbs IH]; [done|].
  cbn [length to_le_bytes from_le_bytes]. unfold is_u8 in Hb.
  rewrite (Z.mul_comm 256), Z.mod_add, Z.div_add by lia.
  rewrite Z.mod_small, Z.div_small, Z.add_0_l by lia. by rewrite IH.
Qed.

Lemma to_from_be_bytes n bs :
  length bs = n -> Forall is_u8 bs -> to_be_bytes n (from_be_bytes bs) = bs.
Proof.
  intros <- Hb. unfold to_be_bytes, from_be_bytes.
  rewrite <- (length_rev bs), to_from_le_bytes by (by apply Forall_rev).
  apply rev_involutive.
Qed.

#[export] Hint Resolve to_be_bytes_u8 to_le_bytes_u8 from_be_bytes_u64 : cnos.

Lemma slice_ok {E A} (l : list A) i j :
  (i <= j)%nat -> (j <= length l)%nat -> slice (E := E) l i j = Ok (take (j - i) (drop i l)).
Proof.
  intros H1 H2. unfold slice.
  destruct (Nat.leb_spec i j), (Nat.leb_spec j (length l)); try lia. done.
Qed.

(** A slice that is exactly the middle of a concatenation. *)
Lemma slice_panic {E A} (l : list A) i j : (length l < j)%nat -> slice (E := E) l i j = Panic.
Proof. intros. unfold slice. by rewrite (proj2 (Nat.leb_gt _ (length l))), andb_false_r. Qed.

Lemma slice_app_mid {E A} (l1 l2 l3 : list A) i j :
  i = length l1 -> j = (length l1 + length l2)%nat ->
  slice (E := E) (l1 ++ l2 ++ l3) i j = Ok l2.
Proof.
  intros -> ->. rewrite slice_ok; [|lia|rewrite !length_app; lia].
  rewrite drop_app_length. f_equal. rewrite take_app_le by lia.
  apply take_ge. lia.
Qed.

Lemma slice_from_app {E A} (l1 l2 : list A) i :
  i = length l1 -> slice_from (E := E) (l1 ++ l2) i = Ok l2.
Proof.
  intros ->. unfold slice_from. rewrite slice_ok; [|rewrite length_app; lia|done].
  rewrite drop_app_length. f_equal. apply take_ge. rewrite length_app. lia.
Qed.

Lemma copy_at_ok {E A} (l xs : list A) i :
  (i + length xs <= length l)%nat ->
  copy_at (E := E) l i xs = Ok (take i l ++ xs ++ drop (i + length xs) l).
Proof. intros. unfold copy_at. destruct (Nat.leb_spec (i + length xs) (length l)); [done|lia]. Qed.

Lemma get_middle {E A} (l1 l2 : list A) x i :
  i = length l1 -> get (E := E) (l1 ++ x :: l2) i = Ok x.
Proof. intros ->. unfold get. by rewrite list_lookup_middle. Qed.

Lemma set_middle {E A} (l1 l2 : list A) x y i :
  i = length l1 -> set (E := E) (l1 ++ x :: l2) i y = Ok (l1 ++ y :: l2).
Proof.
  intros ->. unfold set. rewrite length_app. cbn [length].
  destruct (Nat.ltb_spec (length l1) (length l1 + S (length l2))); [|lia].
  by rewrite insert_app_r_alt, Nat.sub_diag by lia.
Qed.

Lemma testbit_above v n i : 0 <= v < 2 ^ n -> 0 <= n <= i -> Z.testbit v i = false.
Proof.
  intros Hv Hi. rewrite <- (Z.mod_small v (2 ^ n)) by done. by apply Z.mod_pow2_bits_high.
Qed.

(** [v ^ 0xff..ff] is the complement. *)
Lemma lxor_ones_sub v n : 0 <= n -> 0 <= v < 2 ^ n -> Z.lxor v (Z.ones n) = Z.ones n - v.
Proof.
  intros Hn Hv. rewrite Z.sub_nocarry_ldiff; apply Z.bits_inj'; intros i Hi.
  - rewrite Z.lxor_spec, Z.ldiff_spec, Z.testbit_ones_nonneg by lia.
    destruct (Z.ltb_spec i n); [by destruct (Z.testbit v i)|].
    by rewrite (testbit_above v n) by lia.
  - rewrite Z.ldiff_spec, Z.testbit_ones_nonneg, Z.bits_0 by lia.
    destruct (Z.ltb_spec i n); [apply andb_false_r|].
    by rewrite (testbit_above v n) by lia.
Qed.

Lemma slice_app_prefix {E A} (l1 l2 : list A) j :
  j = length l1 -> slice (E := E) (l1 ++ l2) 0 j = Ok l1.
Proof. intros ->. exact (slice_app_mid [] l1 l2 0 _ eq_refl eq_refl). Qed.

Lemma get_0 {E A} (x : A) l : get (E := E) (x :: l) 0 = Ok x.
Proof. done. Qed.

Lemma get_1 {E A} (x y : A) l : get (E := E) (x :: y :: l) 1 = Ok y.
Proof. done. Qed.

Lemma set_0 {E A} (x y : A) l : set (E := E) (x :: l) 0 y = Ok (y :: l).
Proof. done. Qed.

Lemma slice_from_1 {E A} (x : A) l : slice_from (E := E) (x :: l) 1 = Ok l.
Proof. exact (slice_from_app [x] l 1 eq_refl). Qed.

(** Run the binds whose head is known to be [Ok]. *)
Ltac run := repeat (rewrite bind_Ok; cbn beta iota); cbn [of_option unwrap];
  repeat (rewrite bind_Ok; cbn beta iota).

Lemma land_pow2 v k : 0 <= k -> (Z.land v (2 ^ k) =? 0) = negb (Z.testbit v k).
Proof.
  intros Hk. destruct (Z.testbit v k) eqn:Hb.
  - apply Z.eqb_neq. intros H0. apply (f_equal (fun z => Z.testbit z k)) in H0.
    rewrite Z.land_spec, Hb, Z.pow2_bits_true, Z.bits_0 in H0 by done. done.
  - apply Z.eqb_eq. apply Z.bits_inj'. intros i Hi.
    rewrite Z.land_spec, Z.pow2_bits_eqb, Z.bits_0 by done.
    destruct (Z.eqb_spec k i) as [<-|]; [by rewrite Hb|apply andb_false_r].
Qed.

Lemma lor_range n a b : 0 <= n -> 0 <= a < 2 ^ n -> 0 <= b < 2 ^ n -> 0 <= Z.lor a b < 2 ^ n.
Proof.
  intros Hn Ha Hb. assert (Z.lor a b = Z.lor a b mod 2 ^ n) as ->.
  - apply Z.bits_inj'. intros i Hi. destruct (Z.lt_ge_cases i n).
    + by rewrite Z.mod_pow2_bits_low.
    + rewrite Z.mod_pow2_bits_high, Z.lor_spec, !(testbit_above _ n) by lia. done.
  - apply Z.mod_pos_bound. lia.
Qed.

Lemma lxor_range n a b : 0 <= n -> 0 <= a < 2 ^ n -> 0 <= b < 2 ^ n -> 0 <= Z.lxor a b < 2 ^ n.
Proof.
  intros Hn Ha Hb. assert (Z.lxor a b = Z.lxor a b mod 2 ^ n) as ->.
  - apply Z.bits_inj'. intros i Hi. destruct (Z.lt_ge_cases i n).
    + by rewrite Z.mod_pow2_bits_low.
    + rewrite Z.mod_pow2_bits_high, Z.lxor_spec, !(testbit_above _ n) by lia. done.
  - apply Z.mod_pos_bound. lia.
Qed.

Lemma u8_range x : is_u8 (u8 x).
Proof. unfold u8, is_u8. apply Z.mod_pos_bound. lia. Qed.

(** Bits of a 64-bit shift. *)
Lemma testbit_shl64 v k i :
  0 <= k -> 0 <= i < 64 -> Z.testbit (shl64 v k) i = Z.testbit v (i - k).
Proof.
  intros Hk Hi. unfold shl64, u64, U64. rewrite Z.mod_pow2_bits_low by lia. apply Z.shiftl_spec. lia.
Qed.

Lemma head_of_drop {A} (l : list A) i : head (drop i l) = l !! i.
Proof. by rewrite head_lookup, lookup_drop, Nat.add_0_r. Qed.

Lemma tail_of_drop {A} (l : list A) i : tail (drop i l) = drop (S i) l.
Proof. revert i. induction l as [|x l IH]; intros [|i]; cbn; done || apply IH. Qed.

Lemma elem_of_concat {A} (x : A) ls : x ∈ concat ls <-> exists l, l ∈ ls /\ x ∈ l.
Proof. rewrite list_elem_of_In, in_concat. by setoid_rewrite list_elem_of_In. Qed.

Lemma filter_none {A} (Q : A -> Prop) `{!forall x, Decision (Q x)} l : Forall (fun x => ~ Q x) l -> base.filter Q l = [].
Proof. induction 1 as [|x l Hx _ IH]; [done|]. by rewrite filter_cons_False. Qed.
