(* ===== verification/Varint.v ===== *)
(** * Variable-length integers

    The codecs call the [integer_encoding] crate, which is not part of the
    repository: [VarInt] is its interface (what [encode_var] writes, what
    [decode_var] reads) and [VarIntLaws] its documented behaviour.  The client
    theorems are proved against the two classes; [leb128] is the base-128 format
    the crate documents, with the proof that it satisfies the laws. *)
From S2P Require Import Prelude.

Class VarInt := {
  var_bytes : Z -> list Z;
  decode_var : list Z -> option (Z * nat)
}.

Class VarIntLaws (V : VarInt) : Prop := {
  (** [required_space]: one byte per group of seven bits. *)
  var_bytes_length v k : (1 <= k)%nat -> 0 <= v < 2 ^ (7 * Z.of_nat k) ->
    (1 <= length (var_bytes v) <= k)%nat;
  var_bytes_u8 v : is_u64 v -> Forall is_u8 (var_bytes v);
  decode_var_bytes v rest : is_u64 v ->
    decode_var (var_bytes v ++ rest) = Some (v, length (var_bytes v))
}.

(** Maximum number of bytes of a 64-bit variable-length integer
    (tskv/src/tsm/coders/mod.rs). *)
Definition MAX_VAR_INT_64 : nat := 10.
Definition MAX_VAR_INT_32 : nat := 5.

(** [v.encode_var(&mut dst[n..])]: the new destination and the number of bytes
    written; the crate asserts that the slice is long enough. *)
Definition encode_var {E} `{VarInt} (v : Z) (dst : list Z) (n : nat) : outcome E (list Z * nat) :=
  dst ← copy_at dst n (var_bytes v);
  Ok (dst, length (var_bytes v)).

Lemma var_bytes_length_u64 `{V : VarInt} {L : VarIntLaws V} v :
  is_u64 v -> (1 <= length (var_bytes v) <= MAX_VAR_INT_64)%nat.
Proof. intros Hv. apply var_bytes_length; [unfold MAX_VAR_INT_64; lia|]. unfold MAX_VAR_INT_64. simpl Z.of_nat. range. Qed.

(** Writing into a zeroed tail that is long enough, then cutting there. *)
Lemma encode_var_app {E} `{V : VarInt} v (a z : list Z) :
  (length (var_bytes v) <= length z)%nat ->
  encode_var (E := E) v (a ++ z) (length a) =
    Ok ((a ++ var_bytes v) ++ drop (length (var_bytes v)) z, length (var_bytes v)).
Proof.
  intros Hl. unfold encode_var. rewrite copy_at_ok by (rewrite length_app; lia).
  cbn [mbind outcome_bind]. rewrite take_app_length, <- app_assoc.
  by rewrite drop_app_add.
Qed.

(** ** The base-128 format *)
Module leb128.

Fixpoint enc (fuel : nat) (v : Z) : list Z :=
  match fuel with
  | O => []
  | S fuel' => if v <? 128 then [v] else (v mod 128 + 128) :: enc fuel' (v / 128)
  end.

Fixpoint dec (fuel : nat) (bs : list Z) : option (Z * nat) :=
  match fuel, bs with
  | S fuel', b :: bs' =>
      if b <? 128 then Some (b, 1%nat)
      else '(v, n) ← dec fuel' bs'; Some (b - 128 + 128 * v, S n)
  | _, _ => None
  end.

#[export] Instance varint : VarInt := {| var_bytes := enc 10; decode_var := dec 10 |}.

Lemma enc_length fuel v k :
  (1 <= k <= fuel)%nat -> 0 <= v < 2 ^ (7 * Z.of_nat k) -> (1 <= length (enc fuel v) <= k)%nat.
Proof.
  revert v k. induction fuel as [|fuel IH]; intros v k Hk Hv; [lia|].
  cbn [enc]. destruct (Z.ltb_spec v 128); [simpl; lia|].
  destruct k as [|k]; [lia|]. rewrite Nat2Z.inj_succ, Z.mul_succ_r, Z.pow_add_r in Hv by lia.
  change (2 ^ 7) with 128 in Hv.
  assert (k <> O) by (intros ->; simpl in Hv; lia).
  specialize (IH (v / 128) k ltac:(lia)). cbn [length].
  destruct IH; [|lia]. split; [apply Z.div_pos; lia|apply Z.div_lt_upper_bound; lia].
Qed.

Lemma dec_enc fuel v rest :
  0 <= v < 2 ^ (7 * Z.of_nat fuel) -> (1 <= fuel)%nat ->
  dec fuel (enc fuel v ++ rest) = Some (v, length (enc fuel v)).
Proof.
  revert v. induction fuel as [|fuel IH]; intros v Hv Hf; [lia|].
  cbn [enc]. destruct (Z.ltb_spec v 128) as [Hlt|Hge].
  { cbn [app dec length]. destruct (Z.ltb_spec v 128); [done|lia]. }
  rewrite Nat2Z.inj_succ, Z.mul_succ_r, Z.pow_add_r in Hv by lia. change (2 ^ 7) with 128 in Hv.
  assert (fuel <> O) by (intros ->; simpl in Hv; lia).
  pose proof (Z.mod_pos_bound v 128 ltac:(lia)).
  cbn [app dec length]. destruct (Z.ltb_spec (v mod 128 + 128) 128); [lia|].
  rewrite IH; [|split; [apply Z.div_pos; lia|apply Z.div_lt_upper_bound; lia]|lia].
  cbn. do 2 f_equal. pose proof (Z.div_mod v 128). lia.
Qed.

Lemma enc_u8 fuel v : 0 <= v -> Forall is_u8 (enc fuel v).
Proof.
  revert v. induction fuel as [|fuel IH]; intros v Hv; cbn [enc]; [constructor|].
  destruct (Z.ltb_spec v 128); [repeat constructor; lia|].
  pose proof (Z.mod_pos_bound v 128 ltac:(lia)).
  constructor; [unfold is_u8; lia|]. apply IH. apply Z.div_pos; lia.
Qed.

#[global] Instance varint_laws : VarIntLaws varint.
Proof.
  constructor.
  - intros v k Hk Hv. cbn [var_bytes varint].
    destruct (Nat.le_gt_cases k 10); [by apply enc_length|].
    assert (forall f x, (1 <= f)%nat -> (1 <= length (enc f x) <= f)%nat) as Hb.
    { intros f. induction f as [|f IH]; intros x Hf; [lia|]. cbn [enc].
      destruct (x <? 128); [simpl; lia|]. cbn [length].
      destruct f; [simpl; lia|]. specialize (IH (x / 128) ltac:(lia)). lia. }
    specialize (Hb 10%nat v ltac:(lia)). lia.
  - intros v Hv. apply enc_u8. range.
  - intros v rest Hv. apply dec_enc; [|lia]. simpl Z.of_nat. range.
Qed.

End leb128.
