(* ===== verification/Simple8b.v ===== *)
(** * The simple8b word packer (tskv/src/tsm/coders/simple8b.rs)

    [encode] packs a slice of [u64] values below [2^60] into 64-bit words: a
    4-bit selector and 60 bits of payload.  [decode] is the inverse.  The module
    [simple8b] translates both functions loop by loop; the theorems give the
    round trip, the exact error condition and the size of the output. *)
From S2P Require Import Prelude.

Module simple8b.

(** ** Definitions *)

Definition S8B_BIT_SIZE : Z := 60.

Definition MAX_VALUE : Z := Z.shiftl 1 60 - 1.

(** [[number of values, bits per value]] for the selectors 2 to 15. *)
Definition NUM_BITS : list (nat * Z) :=
  [(60%nat, 1); (30%nat, 2); (20%nat, 3); (15%nat, 4); (12%nat, 5); (10%nat, 6); (8%nat, 7);
   (7%nat, 8); (6%nat, 10); (5%nat, 12); (4%nat, 15); (3%nat, 20); (2%nat, 30); (1%nat, 60)].

(** [a.iter().take_while(|x| **x == 1).count()]. *)
Fixpoint count_ones (a : list Z) : nat :=
  match a with
  | x :: a' => if x =? 1 then S (count_ones a') else O
  | [] => O
  end.

(** The loop [for (k, in_v) in src[i..].iter().enumerate()]; [None] is
    [continue 'codes]. *)
Fixpoint pack (vs : list Z) (k int_n : nat) (bit_n max_val val : Z) : option Z :=
  match vs with
  | [] => Some val
  | in_v :: vs' =>
      if (k <? int_n)%nat then
        if max_val <=? in_v then None
        else pack vs' (S k) int_n bit_n max_val
               (Z.lor val (shl64 in_v (Z.land (u8 (Z.of_nat k * bit_n)) 63)))
      else Some val
  end.

(** The loop ['codes: for (idx, code) in NUM_BITS.iter().enumerate()]: the first
    code whose values all fit, as the number of values and the packed word. *)
Fixpoint codes (cs : list (nat * Z)) (idx : Z) (rest : list Z) : option (nat * Z) :=
  match cs with
  | [] => None
  | (int_n, bit_n) :: cs' =>
      if (length rest <? int_n)%nat then codes cs' (idx + 1) rest
      else
        match pack rest 0 int_n bit_n (shl64 1 (Z.land bit_n 63)) (shl64 (idx + 2) S8B_BIT_SIZE) with
        | Some val => Some (int_n, val)
        | None => codes cs' (idx + 1) rest
        end
  end.

(** One iteration of ['next_value: while i < src.len()], on [rest = src[i..]]:
    how far [i] moves and the bytes appended to [dst]. *)
Definition encode_step (rest : list Z) : outcome string (nat * list Z) :=
  let remain := length rest in
  let k := if (120 <=? remain)%nat
           then count_ones (take (if (240 <=? remain)%nat then 240 else 120) rest)
           else O in
  if ((120 <=? remain) && (k =? 240))%nat then Ok (240%nat, to_be_bytes 8 0)
  else if ((120 <=? remain) && (120 <=? k))%nat then Ok (120%nat, to_be_bytes 8 (shl64 1 60))
  else
    match codes NUM_BITS 0 rest with
    | Some (int_n, val) => Ok (int_n, to_be_bytes 8 val)
    | None => Err "value out of bounds"%string
    end.

Fixpoint encode_loop (fuel : nat) (rest dst : list Z) : outcome string (list Z) :=
  match rest with
  | [] => Ok dst
  | _ =>
      match fuel with
      | O => OutOfFuel
      | S fuel' =>
          '(n, bytes) ← encode_step rest;
          encode_loop fuel' (drop n rest) (dst ++ bytes)
      end
  end.

(** [encode(src, dst)] returns the new contents of [dst]; every iteration
    consumes at least one value, so [src.len()] iterations are enough. *)
Definition encode (src dst : list Z) : outcome string (list Z) :=
  encode_loop (length src) src dst.

(** [for i in &mut dst[0..n] { *i = v & mask; v >>= shift }]. *)
Fixpoint unpack (n : nat) (mask shift v : Z) : list Z :=
  match n with
  | O => []
  | S n' => Z.land v mask :: unpack n' mask shift (Z.shiftr v shift)
  end.

(** The values [decode_value] writes at the front of its destination; their
    number is its result. *)
Definition decode_values (v : Z) : list Z :=
  match Z.shiftr v S8B_BIT_SIZE with
  | 0 => replicate 240 1
  | 1 => replicate 120 1
  | 2 => unpack 60 0x01 1 v
  | 3 => unpack 30 0x03 2 v
  | 4 => unpack 20 0x07 3 v
  | 5 => unpack 15 0x0f 4 v
  | 6 => unpack 12 0x1f 5 v
  | 7 => unpack 10 0x3f 6 v
  | 8 => unpack 8 0x7f 7 v
  | 9 => unpack 7 0xff 8 v
  | 10 => unpack 6 0x03ff 10 v
  | 11 => unpack 5 0x0fff 12 v
  | 12 => [Z.land v 0x7fff; Z.land (Z.shiftr v 15) 0x7fff;
           Z.land (Z.shiftr v 30) 0x7fff; Z.land (Z.shiftr v 45) 0x7fff]
  | 13 => unpack 3 0x000fffff 20 v
  | 14 => unpack 2 0x3fffffff 30 v
  | 15 => [Z.land v 0x0fffffffffffffff]
  | _ => []
  end.

(** [decode_value(v, &mut dst[j..])]: the destination after the call and the
    number of values written; the slice is indexed, so it panics when short. *)
Definition decode_value (v : Z) (j : nat) (dst : list Z) : outcome string (list Z * nat) :=
  let vs := decode_values v in
  dst' ← copy_at dst j vs;
  Ok (dst', length vs).

Fixpoint decode_loop (fuel : nat) (src : list Z) (i j : nat) (dst : list Z)
    : outcome string (list Z) :=
  if (i <? length src)%nat then
    match fuel with
    | O => OutOfFuel
    | S fuel' =>
        let dst := if (length dst <? j + 240)%nat then vec_resize (j + 240) 0 dst else dst in
        buf ← slice src i (i + 8);
        '(dst, n) ← decode_value (from_be_bytes buf) j dst;
        decode_loop fuel' src (i + 8) (j + n) dst
    end
  else Ok (take j dst).

(** [decode(src, dst)]: every iteration consumes eight bytes or panics. *)
Definition decode (src dst : list Z) : outcome string (list Z) :=
  decode_loop (length src) src 0 0 dst.

(** ** Specification of one packed word *)

(** [horner b vs] is [vs] laid out in base [2^b], least significant first. *)
Fixpoint horner (b : Z) (vs : list Z) : Z :=
  match vs with
  | [] => 0
  | v :: vs' => v + 2 ^ b * horner b vs'
  end.

Definition fits (b : Z) (v : Z) : Prop := 0 <= v < 2 ^ b.

(** The selector table of [decode_value], aligned with [NUM_BITS]. *)
Definition selectors : list (Z * (nat * Z)) :=
  zip [2; 3; 4; 5; 6; 7; 8; 9; 10; 11; 12; 13; 14; 15] NUM_BITS.

(** A list of words represents the concatenation of what its words decode to. *)
Definition words_values (ws : list Z) : list Z := ws ≫= decode_values.
Definition words_bytes (ws : list Z) : list Z := ws ≫= to_be_bytes 8.

(** ** Packing and unpacking one word *)

Lemma horner_range b vs :
  0 <= b -> Forall (fits b) vs -> 0 <= horner b vs < 2 ^ (b * Z.of_nat (length vs)).
Proof.
  intros Hb. induction 1 as [|v vs Hv _ IH]; [simpl; rewrite Z.mul_0_r; lia|].
  cbn [horner length]. rewrite Nat2Z.inj_succ, Z.mul_succ_r, Z.add_comm, Z.pow_add_r by lia.
  unfold fits in Hv. nia.
Qed.

Lemma unpack_horner b vs m hi :
  0 < b -> Forall (fits b) vs -> b * Z.of_nat (length vs) <= m ->
  unpack (length vs) (2 ^ b - 1) b (horner b vs + 2 ^ m * hi) = vs.
Proof.
  intros Hb Hvs. revert m. induction Hvs as [|v vs Hv _ IH]; intros m Hm; [done|].
  cbn [length] in *. rewrite Nat2Z.inj_succ, Z.mul_succ_r in Hm.
  cbn [unpack horner].
  replace m with (b + (m - b)) by lia. rewrite Z.pow_add_r by lia.
  replace (v + 2 ^ b * horner b vs + 2 ^ b * 2 ^ (m - b) * hi)
    with (v + (horner b vs + 2 ^ (m - b) * hi) * 2 ^ b) by lia.
  replace (2 ^ b - 1) with (Z.ones b) by (rewrite Z.ones_equiv; lia).
  rewrite Z.land_ones, Z.shiftr_div_pow2, Z.mod_add, Z.div_add by lia.
  unfold fits in Hv. rewrite Z.mod_small, Z.div_small, Z.add_0_l by lia.
  replace (Z.ones b) with (2 ^ b - 1) by (rewrite Z.ones_equiv; lia).
  rewrite IH by lia. done.
Qed.

(** The value of the packing loop: [None] as soon as one of the [int_n] values
    does not fit, otherwise the Horner sum above what was already packed. *)
Lemma pack_spec vs k int_n b lo hi :
  0 < b -> Z.of_nat int_n * b <= 60 -> (k <= int_n)%nat ->
  (int_n <= k + length vs)%nat -> Forall is_u64 vs -> 0 <= lo < 2 ^ (Z.of_nat k * b) ->
  pack vs k int_n b (2 ^ b) (lo + hi * 2 ^ 60) =
    if forallb (fun v => v <? 2 ^ b) (take (int_n - k) vs)
    then Some (lo + 2 ^ (Z.of_nat k * b) * horner b (take (int_n - k) vs) + hi * 2 ^ 60)
    else None.
Proof.
  intros Hb Hn Hk Hlen Hvs. revert k lo Hk Hlen.
  induction Hvs as [|v vs Hv _ IH]; intros k lo Hk Hlen Hlo.
  { cbn [pack]. rewrite take_nil. cbn [forallb horner]. f_equal. lia. }
  cbn [pack]. destruct (Nat.ltb_spec k int_n) as [Hlt|Hge].
  2: { replace (int_n - k)%nat with O by lia. cbn [take forallb horner]. f_equal. lia. }
  replace (int_n - k)%nat with (S (int_n - S k)) by lia. cbn [take forallb horner].
  destruct (Z.leb_spec (2 ^ b) v) as [Hbig|Hfit].
  { destruct (Z.ltb_spec v (2 ^ b)); [lia|done]. }
  destruct (Z.ltb_spec v (2 ^ b)) as [_|]; [|lia]. cbn [andb].
  assert ((Z.of_nat k + 1) * b <= Z.of_nat int_n * b) by (apply Z.mul_le_mono_nonneg_r; lia).
  assert (0 <= Z.of_nat k * b <= 60 - b) as Hkb by lia.
  assert (Z.land (u8 (Z.of_nat k * b)) 63 = Z.of_nat k * b) as ->.
  { unfold u8. rewrite (Z.mod_small _ 256) by lia.
    change 63 with (Z.ones 6). rewrite Z.land_ones by lia. apply Z.mod_small. lia. }
  unfold is_u64 in Hv.
  assert (shl64 v (Z.of_nat k * b) = Z.shiftl v (Z.of_nat k * b)) as ->.
  { unfold shl64. apply u64_id. rewrite Z.shiftl_mul_pow2 by lia.
    assert (2 ^ b * 2 ^ (Z.of_nat k * b) <= 2 ^ 60).
    { rewrite <- Z.pow_add_r by lia. apply Z.pow_le_mono_r; lia. }
    unfold is_u64, U64. nia. }
  assert (0 <= lo + v * 2 ^ (Z.of_nat k * b) < 2 ^ (Z.of_nat (S k) * b)) as Hlo'.
  { rewrite Nat2Z.inj_succ, Z.mul_succ_l, Z.pow_add_r by lia. nia. }
  assert (2 ^ (Z.of_nat (S k) * b) <= 2 ^ 60) as H60 by (apply Z.pow_le_mono_r; lia).
  assert (2 ^ (Z.of_nat k * b) <= 2 ^ 60) as H60' by (apply Z.pow_le_mono_r; lia).
  rewrite <- (lor_disjoint_add lo hi 60) by lia.
  rewrite <- Z.lor_assoc, (Z.lor_comm (Z.shiftl hi 60)), Z.lor_assoc.
  rewrite (lor_disjoint_add lo v) by lia. rewrite lor_disjoint_add by lia.
  cbn [length] in Hlen. rewrite IH by lia. destruct (forallb _ _); [|done].
  f_equal. rewrite Nat2Z.inj_succ, Z.mul_succ_l, Z.pow_add_r by lia. lia.
Qed.

Lemma decode_values_selector s n b v :
  (s, (n, b)) ∈ selectors -> Z.shiftr v 60 = s ->
  decode_values v = unpack n (2 ^ b - 1) b v.
Proof.
  intros Hin Hs. unfold decode_values, S8B_BIT_SIZE. rewrite Hs.
  rewrite list_elem_of_In in Hin. cbn in Hin.
  repeat (destruct Hin as [[= <- <- <-]|Hin]; [reflexivity|]). done.
Qed.

Lemma selectors_bounds s n b :
  (s, (n, b)) ∈ selectors ->
  2 <= s <= 15 /\ 0 < b <= 60 /\ Z.of_nat n * b <= 60 /\ (1 <= n)%nat.
Proof.
  rewrite list_elem_of_In. intros Hin. cbn in Hin.
  repeat (destruct Hin as [[= <- <- <-]|Hin]; [lia|]). done.
Qed.

(** A word built by the encoder decodes to the packed values. *)
Lemma decode_values_horner s n b vs :
  (s, (n, b)) ∈ selectors -> length vs = n -> Forall (fits b) vs ->
  is_u64 (horner b vs + s * 2 ^ 60) /\
  decode_values (horner b vs + s * 2 ^ 60) = vs.
Proof.
  intros Hin Hlen Hfit. destruct (selectors_bounds _ _ _ Hin) as (Hs & Hb & Hnb & Hn).
  pose proof (horner_range b vs ltac:(lia) Hfit) as Hr.
  assert (2 ^ (b * Z.of_nat (length vs)) <= 2 ^ 60) by (apply Z.pow_le_mono_r; lia).
  split; [range|].
  rewrite (decode_values_selector s n b) by
    (done || (rewrite Z.shiftr_div_pow2, Z.div_add, Z.div_small; lia)).
  rewrite <- Hlen, (Z.mul_comm s). apply unpack_horner; [lia|done|lia].
Qed.

Lemma length_decode_values v : (length (decode_values v) <= 240)%nat.
Proof.
  assert (forall n m s x, length (unpack n m s x) = n) as Hu.
  { intros n. induction n; intros; simpl; auto. }
  unfold decode_values. repeat case_match; rewrite ?Hu, ?length_replicate; simpl; lia.
Qed.

Lemma decode_values_runs :
  decode_values 0 = replicate 240 1 /\ decode_values (shl64 1 60) = replicate 120 1.
Proof. split; reflexivity. Qed.

Lemma count_ones_take a c :
  (c <= count_ones a)%nat -> (c <= length a)%nat /\ take c a = replicate c 1.
Proof.
  revert c. induction a as [|x a IH]; intros c Hc; cbn [count_ones] in Hc.
  - replace c with O by lia. done.
  - destruct c as [|c]; [simpl; split; [lia|done]|].
    destruct (Z.eqb_spec x 1) as [->|]; [|lia].
    destruct (IH c) as [? IHc]; [lia|]. cbn [length take replicate]. split; [lia|].
    by rewrite IHc.
Qed.

(** ** The encoder *)

(** The table scan returns a word that decodes to the values it consumed, and
    fails only when even the one-value code does not fit. *)
Lemma codes_spec cs idx rest :
  Forall is_u64 rest -> rest <> [] ->
  (forall i c, cs !! i = Some c -> (idx + Z.of_nat i + 2, c) ∈ selectors) ->
  last cs = Some (1%nat, 60) ->
  match codes cs idx rest with
  | Some (n, w) => (1 <= n <= length rest)%nat /\ is_u64 w /\
                   decode_values w = take n rest /\ Forall (fits 60) (take n rest)
  | None => exists v, head rest = Some v /\ MAX_VALUE < v
  end.
Proof.
  intros Hrest Hne. revert idx. induction cs as [|[n b] cs IH]; intros idx Hin Hlast; [done|].
  assert (forall i c, cs !! i = Some c -> (idx + 1 + Z.of_nat i + 2, c) ∈ selectors) as Hin'.
  { intros i c Hc. replace (idx + 1 + Z.of_nat i) with (idx + Z.of_nat (S i)) by lia. by apply Hin. }
  assert (cs = [] -> n = 1%nat /\ b = 60) as Hend.
  { intros ->. cbn in Hlast. by injection Hlast. }
  assert (cs <> [] -> last cs = Some (1%nat, 60)) as Hlast'.
  { intros Hcs. destruct cs; [done|]. exact Hlast. }
  specialize (Hin O (n, b) eq_refl). rewrite Z.add_0_r in Hin.
  destruct (selectors_bounds _ _ _ Hin) as (Hs & Hb & Hnb & Hn).
  cbn [codes]. destruct (Nat.ltb_spec (length rest) n) as [Hlt|Hge].
  { destruct cs as [|c cs']; [|apply IH; auto].
    destruct (Hend eq_refl) as [-> _]. destruct rest; [done|simpl in Hlt; lia]. }
  assert (shl64 1 (Z.land b 63) = 2 ^ b) as ->.
  { change 63 with (Z.ones 6). rewrite Z.land_ones, (Z.mod_small b) by lia.
    unfold shl64. rewrite Z.shiftl_mul_pow2 by lia. rewrite Z.mul_1_l. apply u64_id.
    assert (2 ^ b <= 2 ^ 60) by (apply Z.pow_le_mono_r; lia). range. }
  assert (shl64 (idx + 2) S8B_BIT_SIZE = 0 + (idx + 2) * 2 ^ 60) as ->.
  { unfold shl64, S8B_BIT_SIZE. rewrite Z.shiftl_mul_pow2 by lia. apply u64_id. range. }
  rewrite pack_spec by (try done; simpl; lia).
  rewrite Nat.sub_0_r. destruct (forallb _ _) eqn:Hall.
  - apply Is_true_true, forallb_True in Hall. rewrite Forall_forall in Hall.
    assert (Forall (fits b) (take n rest)) as Hfit.
    { apply Forall_forall. intros v Hv. pose proof (Hall v Hv) as Hv'.
      apply Is_true_true, Z.ltb_lt in Hv'. split; [|done].
      apply (Forall_take _ n) in Hrest. rewrite Forall_forall in Hrest.
      specialize (Hrest v Hv). range. }
    cbn [Z.of_nat]. rewrite Z.mul_0_l, Z.pow_0_r, Z.mul_1_l, Z.add_0_l.
    destruct (decode_values_horner _ n b (take n rest) Hin) as [Hw Hdec];
      [rewrite length_take; lia|done|].
    split_and!; [lia|lia|done|done|].
    eapply Forall_impl; [exact Hfit|]. intros v [? ?].
    assert (2 ^ b <= 2 ^ 60) by (apply Z.pow_le_mono_r; lia). unfold fits. lia.
  - destruct cs as [|c cs']; [|apply IH; auto].
    destruct (Hend eq_refl) as [-> ->]. destruct rest as [|v rest]; [done|].
    exists v. split; [done|]. cbn in Hall. rewrite andb_true_r in Hall.
    apply Z.ltb_ge in Hall. unfold MAX_VALUE. change (Z.shiftl 1 60) with (2 ^ 60). lia.
Qed.

Lemma NUM_BITS_selectors i c : NUM_BITS !! i = Some c -> (0 + Z.of_nat i + 2, c) ∈ selectors.
Proof.
  intros Hc. assert (i < 14)%nat as Hi by (apply lookup_lt_Some in Hc; exact Hc).
  apply list_elem_of_lookup. exists i. unfold selectors.
  do 14 (destruct i as [|i]; [cbn in Hc; injection Hc as <-; reflexivity|]). lia.
Qed.

Lemma fits60_MAX_VALUE v : fits 60 v <-> 0 <= v <= MAX_VALUE.
Proof. unfold fits, MAX_VALUE. change (Z.shiftl 1 60) with (2 ^ 60). lia. Qed.

Lemma fits60_ones n : Forall (fits 60) (replicate n 1).
Proof. apply Forall_replicate. unfold fits. lia. Qed.

(** One iteration: progress, one word that decodes to what was consumed, and an
    error exactly on a value that no code can hold. *)
Lemma encode_step_spec rest :
  Forall is_u64 rest -> rest <> [] ->
  (exists n w, encode_step rest = Ok (n, to_be_bytes 8 w) /\ (1 <= n <= length rest)%nat /\
     is_u64 w /\ decode_values w = take n rest /\ Forall (fits 60) (take n rest)) \/
  (encode_step rest = Err "value out of bounds"%string /\ exists v, v ∈ rest /\ MAX_VALUE < v).
Proof.
  intros Hrest Hne. unfold encode_step.
  set (a := take _ rest). set (k := if (120 <=? length rest)%nat then _ else _).
  assert ((120 <= k)%nat -> forall c, (c <= k)%nat -> (c <= length a)%nat /\ take c rest = replicate c 1) as Hk.
  { intros Hk120 c Hc. unfold k in Hc, Hk120. destruct (120 <=? length rest)%nat; [|lia].
    destruct (count_ones_take a c Hc) as [Hl Ht]. split; [done|].
    unfold a in Ht, Hl. rewrite length_take in Hl. rewrite take_take in Ht.
    rewrite Nat.min_l in Ht by lia. done. }
  assert (length a <= length rest)%nat as Hal by (unfold a; rewrite length_take; lia).
  destruct decode_values_runs as [H240 H120].
  destruct ((120 <=? length rest) && (k =? 240))%nat eqn:H1.
  { apply andb_true_iff in H1 as [_ H1]. apply Nat.eqb_eq in H1.
    destruct (Hk ltac:(lia) 240%nat ltac:(lia)) as [? Ht]. left. exists 240%nat, 0.
    rewrite Ht. split_and!; [done|lia|lia|range|done|apply fits60_ones]. }
  destruct ((120 <=? length rest) && (120 <=? k))%nat eqn:H2.
  { apply andb_true_iff in H2 as [_ H2]. apply Nat.leb_le in H2.
    destruct (Hk ltac:(lia) 120%nat ltac:(lia)) as [? Ht]. left. exists 120%nat, (shl64 1 60).
    rewrite Ht. split_and!; [done|lia|lia|apply u64_range|done|apply fits60_ones]. }
  pose proof (codes_spec NUM_BITS 0 rest Hrest Hne NUM_BITS_selectors eq_refl) as Hc.
  destruct (codes NUM_BITS 0 rest) as [[n w]|].
  - left. exists n, w. destruct Hc as (? & ? & ? & ?). done.
  - right. split; [done|]. destruct Hc as (v & Hv & ?). exists v. split; [|done].
    destruct rest; [done|]. injection Hv as ->. apply list_elem_of_here.
Qed.

(** ** The two loops *)

Lemma encode_loop_spec fuel rest dst :
  (length rest <= fuel)%nat -> Forall is_u64 rest ->
  (exists ws, encode_loop fuel rest dst = Ok (dst ++ words_bytes ws) /\
     Forall is_u64 ws /\ words_values ws = rest /\ (length ws <= length rest)%nat /\
     Forall (fits 60) rest) \/
  (encode_loop fuel rest dst = Err "value out of bounds"%string /\ exists v, v ∈ rest /\ MAX_VALUE < v).
Proof.
  revert rest dst. induction fuel as [|fuel IH]; intros rest dst Hlen Hrest.
  { destruct rest; [|simpl in Hlen; lia]. left. exists []. cbn. rewrite app_nil_r.
    split_and!; done || constructor. }
  destruct rest as [|x rest'].
  { left. exists []. cbn. rewrite app_nil_r. split_and!; done || constructor. }
  set (rest := x :: rest') in *. change (encode_loop (S fuel) rest dst) with
    ('(n, bytes) ← encode_step rest; encode_loop fuel (drop n rest) (dst ++ bytes)).
  destruct (encode_step_spec rest Hrest ltac:(done)) as [(n & w & -> & Hn & Hw & Hdec & Hfit)|[-> Hbad]].
  2: { right. done. }
  cbn [mbind outcome_bind].
  destruct (IH (drop n rest) (dst ++ to_be_bytes 8 w)) as [(ws & -> & Hws & Hval & Hl & Hf)|[-> (v & Hv & Hm)]].
  { rewrite length_drop. lia. }
  { by apply Forall_drop. }
  - left. exists (w :: ws). unfold words_bytes, words_values in *. cbn [mbind list_bind].
    rewrite length_drop in Hl.
    split_and!; [by rewrite <- app_assoc|by constructor|..].
    + rewrite Hdec, Hval. apply take_drop.
    + cbn [length]. lia.
    + rewrite <- (take_drop n rest). by apply Forall_app.
  - right. split; [done|]. exists v. split; [|done].
    rewrite <- (take_drop n rest). apply elem_of_app. by right.
Qed.

Lemma length_words_bytes ws : length (words_bytes ws) = (8 * length ws)%nat.
Proof.
  induction ws as [|w ws IH]; [done|]. unfold words_bytes in *. cbn [mbind list_bind length].
  rewrite length_app, length_to_be_bytes. cbn in IH. lia.
Qed.

(** The decoder on a sequence of words, from any destination that already holds
    the [j] values decoded so far. *)
Lemma decode_loop_spec fuel ws pre done_ rest_ :
  (length ws <= fuel)%nat -> Forall is_u64 ws ->
  decode_loop fuel (pre ++ words_bytes ws) (length pre) (length done_) (done_ ++ rest_) =
    Ok (done_ ++ words_values ws).
Proof.
  revert pre fuel done_ rest_. induction ws as [|w ws IH]; intros pre fuel done_ rest_ Hfuel Hws.
  { unfold words_bytes, words_values. cbn [mbind list_bind].
    rewrite !app_nil_r.
    destruct fuel; cbn [decode_loop]; by rewrite Nat.ltb_irrefl, take_app_length. }
  inversion Hws as [|? ? Hw Hws']; subst.
  destruct fuel as [|fuel]; [simpl in Hfuel; lia|]. cbn [length] in Hfuel. cbn [decode_loop].
  assert (words_bytes (w :: ws) = to_be_bytes 8 w ++ words_bytes ws) as -> by done.
  assert (words_values (w :: ws) = decode_values w ++ words_values ws) as -> by done.
  rewrite (proj2 (Nat.ltb_lt _ _)) by (rewrite !length_app, length_to_be_bytes; lia).
  rewrite slice_app_mid by (rewrite ?length_to_be_bytes; lia). cbn [mbind outcome_bind].
  rewrite from_to_be_bytes_u64 by done. unfold decode_value.
  assert (exists tl, (if (length (done_ ++ rest_) <? length done_ + 240)%nat
    then vec_resize (length done_ + 240) 0 (done_ ++ rest_) else done_ ++ rest_) = done_ ++ tl
    /\ (240 <= length tl)%nat) as (tl & -> & Htl).
  { rewrite length_app. destruct (Nat.ltb_spec (length done_ + length rest_) (length done_ + 240)).
    - exists (rest_ ++ replicate (240 - length rest_) 0). unfold vec_resize.
      rewrite resize_ge by (rewrite length_app; lia). rewrite length_app, <- app_assoc.
      split; [do 3 f_equal; lia|]. rewrite length_app, length_replicate. lia.
    - exists rest_. split; [done|lia]. }
  pose proof (length_decode_values w) as Hd.
  rewrite copy_at_ok by (rewrite length_app; lia). cbn [mbind outcome_bind].
  rewrite take_app_length, (app_assoc done_ (decode_values w)).
  rewrite app_assoc, <- (length_app done_ (decode_values w)).
  replace (length pre + 8)%nat with (length (pre ++ to_be_bytes 8 w))
    by (rewrite length_app, length_to_be_bytes; done).
  rewrite IH by (done || lia). by rewrite <- app_assoc.
Qed.

(** ** Correctness *)

(** The round trip, as the codecs built on top use it. *)
Lemma roundtrip_app src dst dst0 :
  Forall (fun v => 0 <= v <= MAX_VALUE) src ->
  exists bytes, encode src dst = Ok (dst ++ bytes) /\
    decode bytes dst0 = Ok src /\
    (8 | length bytes)%nat /\ (length bytes <= 8 * length src)%nat.
Proof.
  intros Hsrc. assert (Forall is_u64 src) as Hu.
  { eapply Forall_impl; [exact Hsrc|]. intros v Hv. apply fits60_MAX_VALUE in Hv.
    unfold fits in Hv. range. }
  destruct (encode_loop_spec (length src) src dst (le_n _) Hu) as [(ws & He & Hws & Hv & Hl & _)|[_ (v & Hin & Hm)]].
  - exists (words_bytes ws). rewrite length_words_bytes. split_and!; [exact He|..].
    + unfold decode. pose proof (decode_loop_spec (length (words_bytes ws)) ws [] [] dst0) as Hd.
      cbn in Hd. rewrite length_words_bytes in Hd. rewrite length_words_bytes, Hd by (done || lia).
      by rewrite Hv.
    + exists (length ws). lia.
    + lia.
  - rewrite Forall_forall in Hsrc. specialize (Hsrc v Hin). lia.
Qed.

(** C18. Encoding then decoding gives the input back: on any slice of values
    within [MAX_VALUE], [encode] succeeds, appends only whole words (at most one
    per value) to its destination, and [decode] of the appended bytes returns
    the slice whatever the decoder's destination held before. *)
Theorem encode_decode_roundtrip src dst dst0 :
  Forall (fun v => 0 <= v <= MAX_VALUE) src ->
  exists bytes, encode src dst = Ok (dst ++ bytes) /\
    decode bytes dst0 = Ok src /\
    (8 | length bytes)%nat /\ (length bytes <= 8 * length src)%nat.
Proof. apply roundtrip_app. Qed.

Lemma encode_decode_roundtrip_witness :
  exists bytes, encode [1; MAX_VALUE; 0] [7] = Ok ([7] ++ bytes) /\
    decode bytes [9; 9] = Ok [1; MAX_VALUE; 0] /\
    (8 | length bytes)%nat /\ (length bytes <= 24)%nat.
Proof.
  apply (encode_decode_roundtrip [1; MAX_VALUE; 0] [7] [9; 9]).
  repeat constructor; vm_compute; discriminate.
Defined.

(** The encoder fails exactly when some value needs more than 60 bits; it
    never panics and its loop always terminates. *)
Theorem encode_error_iff src dst :
  Forall is_u64 src ->
  (encode src dst = Err "value out of bounds"%string <-> Exists (fun v => MAX_VALUE < v) src) /\
  ((exists out, encode src dst = Ok out) <-> Forall (fun v => v <= MAX_VALUE) src).
Proof.
  intros Hu. unfold encode.
  destruct (encode_loop_spec (length src) src dst (le_n _) Hu) as [(ws & -> & _ & _ & _ & Hf)|[-> (v & Hin & Hm)]].
  - assert (Forall (fun v => v <= MAX_VALUE) src) as Hle.
    { eapply Forall_impl; [exact Hf|]. intros v Hv. apply fits60_MAX_VALUE in Hv. lia. }
    split; split; [done| |done|by eexists].
    rewrite Exists_exists, Forall_forall in *. intros (v & Hin & Hm). specialize (Hle v Hin). lia.
  - split; split; [|done|by intros [? [=]]|].
    + intros _. rewrite Exists_exists. by exists v.
    + rewrite Forall_forall. intros Hle. specialize (Hle v Hin). lia.
Qed.

Lemma encode_error_iff_witness :
  (encode [1; 2 ^ 60] [] = Err "value out of bounds"%string <->
     Exists (fun v => MAX_VALUE < v) [1; 2 ^ 60]) /\
  ((exists out, encode [1; 2 ^ 60] [] = Ok out) <-> Forall (fun v => v <= MAX_VALUE) [1; 2 ^ 60]).
Proof. apply (encode_error_iff [1; 2 ^ 60] []). repeat constructor; vm_compute; easy. Defined.

End simple8b.
