(* ===== verification/Deltas.v ===== *)
(** * Delta coding shared by the integer and timestamp codecs

    Both encoders replace a vector by its adjacent differences in place, from
    the back; both decoders rebuild it with a running sum.  The loops are
    parameterised by what differs (the function applied to a difference and the
    addition used), and the lemmas say when the second undoes the first. *)
From S2P Require Import Prelude.

Module deltas.

(** [for i in (1..deltas.len()).rev() { deltas[i] = f(deltas[i], deltas[i-1]);
    if deltas[i] > max { max = deltas[i] } }], from [i] down to 1. *)
Fixpoint rev_loop {E} (f : Z -> Z -> Z) (i : nat) (deltas : list Z) (max : Z)
    : outcome E (list Z * Z) :=
  match i with
  | O => Ok (deltas, max)
  | S i' =>
      cur ← get deltas i;
      prev ← get deltas i';
      deltas ← set deltas i (f cur prev);
      rev_loop f i' deltas (if max <? f cur prev then f cur prev else max)
  end.

(** [use_rle]: [deltas[1] != deltas[i]] for no [i] in [2..deltas.len()]. *)
Definition all_equal {E} (deltas : list Z) : outcome E bool :=
  d1 ← get deltas 1;
  Ok (forallb (Z.eqb d1) (drop 2 deltas)).

(** [while i < src.len() { prev = step(prev, be(src[i..i+8])); dst.push(prev) }]. *)
Fixpoint words_loop {E} (step : Z -> Z -> outcome E Z) (fuel : nat) (src : list Z) (i : nat)
    (prev : Z) (dst : list Z) : outcome E (list Z) :=
  if (i <? length src)%nat then
    match fuel with
    | O => OutOfFuel
    | S fuel' =>
        buf ← slice src i (i + 8);
        prev ← step prev (from_be_bytes buf);
        words_loop step fuel' src (i + 8) prev (dst ++ [prev])
    end
  else Ok dst.

(** [for v in &res { next = step(next, v); dst.push(next) }]. *)
Fixpoint push_loop {E} (step : Z -> Z -> outcome E Z) (vs : list Z) (next : Z) (dst : list Z)
    : outcome E (list Z) :=
  match vs with
  | [] => Ok dst
  | v :: vs' =>
      next ← step next v;
      push_loop step vs' next (dst ++ [next])
  end.

(** ** Reference definition: the adjacent differences *)
Fixpoint adj (f : Z -> Z -> Z) (l : list Z) : list Z :=
  match l with
  | x :: ((y :: _) as t) => f y x :: adj f t
  | _ => []
  end.

(** The successive values [x, g x, g (g x), ...]. *)
Fixpoint orbit (g : Z -> Z) (n : nat) (x : Z) : list Z :=
  match n with
  | O => []
  | S n' => x :: orbit g n' (g x)
  end.

Lemma adj_snoc f p b a : adj f (p ++ [b; a]) = adj f (p ++ [b]) ++ [f a b].
Proof.
  induction p as [|x p IH]; [done|]. destruct p as [|y p]; [done|].
  change (f y x :: adj f ((y :: p) ++ [b; a]) = f y x :: (adj f ((y :: p) ++ [b]) ++ [f a b])).
  by rewrite IH.
Qed.

Lemma length_adj f x l : length (adj f (x :: l)) = length l.
Proof. revert x. induction l as [|y l IH]; intros x; [done|]. cbn. by rewrite <- (IH y). Qed.

Lemma adj_map f g h l :
  (forall x y, f (h y) (h x) = g y x) -> adj f (map h l) = adj g l.
Proof.
  intros Hfg. induction l as [|x l IH]; [done|]. destruct l as [|y l]; [done|].
  cbn in *. by rewrite Hfg, IH.
Qed.

Lemma adj_ext f g l : (forall x y, f x y = g x y) -> adj f l = adj g l.
Proof. intros H. rewrite <- (map_id l) at 1. by apply adj_map. Qed.

Lemma Forall_adj (P : Z -> Prop) f l : (forall x y, P (f x y)) -> Forall P (adj f l).
Proof.
  intros HP. induction l as [|x l IH]; [constructor|].
  destruct l as [|y l]; [constructor|]. by constructor.
Qed.

Lemma map_adj g f l : map g (adj f l) = adj (fun a b => g (f a b)) l.
Proof.
  induction l as [|x l IH]; [done|]. destruct l as [|y l]; [done|].
  change (g (f y x) :: map g (adj f (y :: l)) = g (f y x) :: adj (fun a b => g (f a b)) (y :: l)).
  by rewrite IH.
Qed.

(** The in-place loop computes the first value followed by the differences, and
    their maximum. *)
Lemma rev_loop_app {E} f pre suf max :
  pre <> [] ->
  rev_loop (E := E) f (length pre - 1) (pre ++ suf) max =
    Ok (take 1 pre ++ adj f pre ++ suf, foldr Z.max max (adj f pre)).
Proof.
  revert suf max. induction pre as [|a pre IH] using rev_ind; intros suf max Hne; [done|].
  destruct pre as [|b pre _] using rev_ind; [done|].
  rewrite <- !app_assoc. cbn [app]. rewrite adj_snoc.
  rewrite !length_app. cbn [length].
  replace (length pre + 2 - 1)%nat with (S (length pre)) by lia. cbn [rev_loop].
  assert (forall y, (pre ++ b :: y :: suf) = (pre ++ [b]) ++ y :: suf) as Hsplit
    by (intros; by rewrite <- app_assoc).
  assert (length (pre ++ [b]) = S (length pre)) as Hlb by (rewrite length_app; simpl; lia).
  rewrite (Hsplit a), (get_middle (pre ++ [b]) suf a (S (length pre))) by done. cbn [mbind outcome_bind].
  rewrite <- (Hsplit a), get_middle by done. cbn [mbind outcome_bind].
  rewrite (Hsplit a), (set_middle (pre ++ [b])) by done. cbn [mbind outcome_bind].
  replace (length pre) with (length (pre ++ [b]) - 1)%nat by lia.
  rewrite IH by (by destruct pre). rewrite foldr_app. cbn [foldr].
  do 2 f_equal.
  - rewrite <- !app_assoc. destruct pre; done.
  - f_equal. destruct (Z.ltb_spec max (f a b)); lia.
Qed.

Lemma rev_loop_spec {E} f x l max :
  rev_loop (E := E) f (length l) (x :: l) max =
    Ok (x :: adj f (x :: l), foldr Z.max max (adj f (x :: l))).
Proof.
  pose proof (rev_loop_app (E := E) f (x :: l) [] max ltac:(done)) as H.
  rewrite !app_nil_r in H. cbn [length] in H. rewrite Nat.sub_succ, Nat.sub_0_r in H. done.
Qed.

Lemma foldr_max_le m l b :
  foldr Z.max m l <= b <-> m <= b /\ Forall (fun v => v <= b) l.
Proof.
  induction l as [|v l IH]; cbn [foldr]; [split; [by split|by intros []]|].
  rewrite Z.max_lub_iff, IH, Forall_cons. tauto.
Qed.

(** ** When the running sum undoes the differences *)

Definition inverts {E} (step : Z -> Z -> outcome E Z) (f : Z -> Z -> Z) (x y : Z) : Prop :=
  step x (f y x) = Ok y.

(** [step] undoes [f] on every adjacent pair of [l]. *)
Fixpoint chain {E} (step : Z -> Z -> outcome E Z) (f : Z -> Z -> Z) (l : list Z) : Prop :=
  match l with
  | x :: ((y :: _) as t) => inverts step f x y /\ chain step f t
  | _ => True
  end.

Lemma push_loop_adj {E} (step : Z -> Z -> outcome E Z) f x l dst :
  chain step f (x :: l) -> push_loop step (adj f (x :: l)) x dst = Ok (dst ++ l).
Proof.
  revert x dst. induction l as [|y l IH]; intros x dst Hc; [by rewrite app_nil_r|].
  destruct Hc as [Hxy Hc]. change (adj f (x :: y :: l)) with (f y x :: adj f (y :: l)).
  cbn [push_loop]. rewrite Hxy. cbn [mbind outcome_bind]. rewrite IH by done.
  by rewrite <- app_assoc.
Qed.

Lemma push_loop_map {E} (step : Z -> Z -> outcome E Z) g vs x dst :
  push_loop (fun n v => step n (g v)) vs x dst = push_loop step (map g vs) x dst.
Proof.
  revert x dst. induction vs as [|v vs IH]; intros; [done|]. cbn.
  destruct (step x (g v)); cbn; [apply IH|done..].
Qed.

Lemma words_loop_push {E} (step : Z -> Z -> outcome E Z) fuel pre ws prev dst :
  (length ws <= fuel)%nat -> Forall is_u64 ws ->
  words_loop step fuel (pre ++ (ws ≫= to_be_bytes 8)) (length pre) prev dst =
    push_loop step ws prev dst.
Proof.
  revert pre fuel prev dst. induction ws as [|w ws IH]; intros pre fuel prev dst Hf Hws.
  { cbn [mbind list_bind]. rewrite app_nil_r.
    destruct fuel; cbn [words_loop]; by rewrite Nat.ltb_irrefl. }
  inversion Hws as [|? ? Hw Hws']; subst.
  destruct fuel as [|fuel]; [simpl in Hf; lia|]. cbn [length] in Hf. cbn [words_loop].
  cbn [mbind list_bind].
  rewrite (proj2 (Nat.ltb_lt _ _)) by (rewrite !length_app, length_to_be_bytes; lia).
  rewrite slice_app_mid by (rewrite ?length_to_be_bytes; lia). cbn [mbind outcome_bind].
  rewrite from_to_be_bytes_u64 by done. cbn [push_loop].
  destruct (step prev w) as [y| | |]; cbn [mbind outcome_bind]; [|done..].
  rewrite app_assoc. replace (length pre + 8)%nat with (length (pre ++ to_be_bytes 8 w))
    by (rewrite length_app, length_to_be_bytes; done).
  apply IH; [lia|done].
Qed.

Lemma length_be_words (ws : list Z) : length (ws ≫= to_be_bytes 8) = (8 * length ws)%nat.
Proof.
  induction ws as [|w ws IH]; [done|]. cbn [mbind list_bind length].
  rewrite length_app, length_to_be_bytes. cbn in IH. lia.
Qed.

(** All adjacent differences equal: the list is the orbit of its first value. *)
Lemma adj_const_orbit (P : Z -> Prop) f g d x l :
  (forall a b, P a -> P b -> f b a = d -> g a = b) ->
  Forall P (x :: l) -> Forall (eq d) (adj f (x :: l)) ->
  orbit g (S (length l)) x = x :: l.
Proof.
  intros Hg. revert x. induction l as [|y l IH]; intros x HP Hd; [done|].
  change (adj f (x :: y :: l)) with (f y x :: adj f (y :: l)) in Hd.
  inversion_clear HP as [|? ? Hx HP']. inversion_clear Hd as [|? ? Hd1 Hd'].
  assert (P y) by (by inversion HP'). cbn [length].
  change (orbit g (S (S (length l))) x) with (x :: orbit g (S (length l)) (g x)).
  rewrite (Hg x y) by auto. by rewrite IH.
Qed.

Lemma all_equal_spec {E} x d rest :
  all_equal (E := E) (x :: d :: rest) = Ok (forallb (Z.eqb d) rest).
Proof. done. Qed.

Lemma forallb_eqb d l : forallb (Z.eqb d) l = true <-> Forall (eq d) l.
Proof.
  rewrite <- Is_true_true, forallb_True. split; intros H; eapply Forall_impl; try exact H;
    intros v Hv; [apply Is_true_true, Z.eqb_eq in Hv; done|apply Is_true_true, Z.eqb_eq; done].
Qed.

End deltas.
