(* ===== verification/IntegerCodec.v ===== *)
(** * The integer and unsigned codecs
      (tskv/src/tsm/coders/integer.rs and unsigned.rs)

    [integer.encode] stores the zig-zag encoded adjacent differences of a slice
    of [i64], run-length encoded when they are all equal, as raw words when one
    is too large for simple8b, packed by simple8b otherwise.  [unsigned] is the
    same through a cast.  The theorems give the round trip through the three
    formats, the bound on the encoded size, and what the plain addition of
    [decode_simple8b] does in a build with overflow checks. *)
From S2P Require Import Prelude Varint Simple8b Deltas.

Module integer.

(** ** Definitions *)

Inductive Encoding := Uncompressed | Simple8b | Rle.

Definition Encoding_as_u8 (e : Encoding) : Z :=
  match e with Uncompressed => 0 | Simple8b => 1 | Rle => 2 end.

(** [((v << 1) ^ (v >> 63)) as u64]. *)
Definition zig_zag_encode (v : Z) : Z :=
  u64 (Z.lxor (i64 (Z.shiftl v 1)) (Z.shiftr v 63)).

(** [((v >> 1) ^ ((((v & 1) as i64) << 63) >> 63) as u64) as i64]. *)
Definition zig_zag_decode (v : Z) : Z :=
  i64 (Z.lxor (Z.shiftr v 1) (u64 (Z.shiftr (i64 (Z.shiftl (i64 (Z.land v 1)) 63)) 63))).

Definition i64_to_u64_vector (src : list Z) : list Z := map u64 src.

(** [zig_zag_encode(deltas[i].wrapping_sub(deltas[i - 1]) as i64)]. *)
Definition delta (cur prev : Z) : Z := zig_zag_encode (i64 (u64 (cur - prev))).

(** [dst[0] |= x]. *)
Definition or_first (dst : list Z) (x : Z) : outcome string (list Z) :=
  b ← get dst 0;
  set dst 0 (Z.lor b x).

Section codec.
Context {V : VarInt} {P : BuildProfile}.

Definition encode_rle (v delta count : Z) (dst : list Z) : outcome string (list Z) :=
  let dst := dst ++ [0] in
  let dst := dst ++ to_be_bytes 8 v in
  let n := 9%nat in
  let dst := if (length dst - n <=? MAX_VAR_INT_64)%nat
             then vec_resize (n + MAX_VAR_INT_64) 0 dst else dst in
  '(dst, k) ← encode_var delta dst n;
  let n := (n + k)%nat in
  let dst := if (length dst - n <=? MAX_VAR_INT_64)%nat
             then vec_resize (n + MAX_VAR_INT_64) 0 dst else dst in
  '(dst, k) ← encode_var count dst n;
  let n := (n + k)%nat in
  Ok (take n dst).

(** [encode(src, dst)]; the previous contents of [dst] are cleared. *)
Definition encode (src dst : list Z) : outcome string (list Z) :=
  let dst := [] in
  if (length src =? 0)%nat then Ok dst
  else
    '(deltas, max) ← deltas.rev_loop delta (length src - 1) (i64_to_u64_vector src) 0;
    src0 ← get src 0;
    deltas ← set deltas 0 (zig_zag_encode src0);
    use_rle ← (if (2 <? length deltas)%nat then deltas.all_equal deltas else Ok false);
    d0 ← get deltas 0;
    if (use_rle : bool) then
      d1 ← get deltas 1;
      dst ← encode_rle d0 d1 (Z.of_nat (length deltas) - 1) dst;
      or_first dst (Z.shiftl (Encoding_as_u8 Rle) 4)
    else if simple8b.MAX_VALUE <? max then
      let dst := dst ++ [Z.shiftl (Encoding_as_u8 Uncompressed) 4] in
      Ok (dst ++ (deltas ≫= to_be_bytes 8))
    else
      let dst := dst ++ [Z.shiftl (Encoding_as_u8 Simple8b) 4] in
      let dst := dst ++ to_be_bytes 8 d0 in
      rest ← slice_from deltas 1;
      simple8b.encode rest dst.

Definition decode_uncompressed (src dst : list Z) : outcome string (list Z) :=
  if (length src =? 0)%nat || negb (Z.land (Z.of_nat (length src)) 7 =? 0)
  then Err "invalid uncompressed block length"%string
  else deltas.words_loop (fun prev w => Ok (i64 (prev + zig_zag_decode w))) (length src) src 0 0 dst.

(** [for _ in 0..count { first = first.wrapping_add(delta_z); dst.push(first) }]. *)
Fixpoint rle_loop (count : nat) (first delta_z : Z) (dst : list Z) : list Z :=
  match count with
  | O => dst
  | S count' =>
      let first := i64 (first + delta_z) in
      rle_loop count' first delta_z (dst ++ [first])
  end.

Definition decode_rle (src dst : list Z) : outcome string (list Z) :=
  if (length src <? 8)%nat then Err "not enough data to decode using RLE"%string
  else
    let i := 8%nat in
    s ← slice_from src i;
    '(delta, n) ← of_option (decode_var s) "unable to decode delta"%string;
    let i := (i + n)%nat in
    s ← slice_from src i;
    '(count, _) ← of_option (decode_var s) "unable to decode count"%string;
    a ← slice src 0 8;
    let first := zig_zag_decode (from_be_bytes a) in
    let delta_z := zig_zag_decode delta in
    Ok (rle_loop (Z.to_nat count) first delta_z (dst ++ [first])).

Definition decode_simple8b (src dst : list Z) : outcome string (list Z) :=
  if (length src <? 8)%nat then Err "not enough data to decode packed integer."%string
  else
    buf ← slice src 0 8;
    let dst := dst ++ [zig_zag_decode (from_be_bytes buf)] in
    s ← slice_from src 8;
    res ← simple8b.decode s [];
    next ← get dst 0;
    deltas.push_loop (fun next v => add_i64 next (zig_zag_decode v)) res next dst.

(** [decode(src, dst)] appends to [dst]. *)
Definition decode (src dst : list Z) : outcome string (list Z) :=
  if (length src =? 0)%nat then Ok dst
  else
    b ← get src 0;
    let encoding := Z.shiftr b 4 in
    s ← slice_from src 1;
    if encoding =? Encoding_as_u8 Uncompressed then decode_uncompressed s dst
    else if encoding =? Encoding_as_u8 Rle then decode_rle s dst
    else if encoding =? Encoding_as_u8 Simple8b then decode_simple8b s dst
    else Err "invalid block encoding"%string.

End codec.

(** ** Zig-zag *)

Lemma zig_zag_encode_spec v :
  is_i64 v -> zig_zag_encode v = if v <? 0 then - 2 * v - 1 else 2 * v.
Proof.
  intros Hv. unfold zig_zag_encode.
  rewrite Z.shiftl_mul_pow2, Z.shiftr_div_pow2 by lia. change (2 ^ 1) with 2.
  destruct (Z.ltb_spec v 0).
  - replace (v / 2 ^ 63) with (-1)
      by (apply Z.div_unique with (r := v + 2 ^ 63); range).
    rewrite Z.lxor_m1_r. unfold Z.lnot. rewrite <- Z.sub_1_r.
    replace (- i64 (v * 2) - 1) with (-1 - i64 (v * 2)) by lia.
    rewrite <- u64_sub_r, u64_i64, u64_sub_r, u64_id; range.
  - rewrite Z.div_small by range. rewrite Z.lxor_0_r, u64_i64. rewrite u64_id; range.
Qed.

Lemma zig_zag_decode_even v : 0 <= v < I63 -> zig_zag_decode (2 * v) = v.
Proof.
  intros Hv. unfold zig_zag_decode. change 1 with (Z.ones 1) at 2.
  rewrite Z.land_ones, (Z.mul_comm 2), Z.mod_mul by lia.
  change (u64 _) with 0. rewrite Z.lxor_0_r, Z.shiftr_div_pow2 by lia.
  change (2 ^ 1) with 2. rewrite Z.div_mul by lia. apply i64_id. range.
Qed.

Lemma zig_zag_decode_odd v : 0 <= v < I63 -> zig_zag_decode (2 * v + 1) = - v - 1.
Proof.
  intros Hv. unfold zig_zag_decode. assert (Z.land (2 * v + 1) 1 = 1) as ->.
  { change 1 with (Z.ones 1) at 2. rewrite Z.land_ones, Z.add_comm, (Z.mul_comm 2) by lia.
    by rewrite Z.mod_add by lia. }
  rewrite (Z.add_comm _ 1), (Z.mul_comm 2).
  change (u64 _) with (Z.ones 64). rewrite Z.shiftr_div_pow2 by lia. change (2 ^ 1) with 2.
  rewrite Z.div_add, Z.add_0_l by lia.
  rewrite lxor_ones_sub by range.
  rewrite <- i64_u64. change (Z.ones 64 - v) with (U64 - 1 - v).
  replace (U64 - 1 - v) with (- v - 1 + 1 * U64) by lia.
  unfold u64. rewrite Z.mod_add by range. change ((- v - 1) mod U64) with (u64 (- v - 1)).
  rewrite i64_u64. apply i64_id. range.
Qed.

Lemma zig_zag_roundtrip v : is_i64 v -> zig_zag_decode (zig_zag_encode v) = v.
Proof.
  intros Hv. rewrite zig_zag_encode_spec by done. destruct (Z.ltb_spec v 0).
  - replace (-2 * v - 1) with (2 * (- v - 1) + 1) by lia.
    rewrite zig_zag_decode_odd by range. lia.
  - apply zig_zag_decode_even. range.
Qed.

Lemma zig_zag_encode_u64 v : is_u64 (zig_zag_encode v).
Proof. apply u64_range. Qed.
#[local] Hint Resolve zig_zag_encode_u64 zig_zag_roundtrip : cnos.

(** ** The difference and its inverse *)

(** Taking the difference on the [u64] casts is taking it on the values. *)
Lemma delta_u64 y x : delta (u64 y) (u64 x) = zig_zag_encode (i64 (y - x)).
Proof. unfold delta. by rewrite u64_sub_l, u64_sub_r, i64_u64. Qed.

Definition zz_delta (y x : Z) : Z := zig_zag_encode (i64 (y - x)).

Lemma wrapping_inverts x y :
  is_i64 x -> is_i64 y -> i64 (x + zig_zag_decode (zz_delta y x)) = y.
Proof.
  intros Hx Hy. unfold zz_delta. rewrite zig_zag_roundtrip by auto with cnos.
  rewrite i64_add_i64_r. replace (x + (y - x)) with y by lia. by apply i64_id.
Qed.

Lemma chain_wrapping l :
  Forall is_i64 l ->
  deltas.chain (E := string) (fun prev w => Ok (i64 (prev + zig_zag_decode w))) zz_delta l.
Proof.
  induction 1 as [|x l Hx Hl IH]; [done|]. destruct l as [|y l]; [done|].
  inversion Hl; subst. split; [|done]. unfold deltas.inverts. by rewrite wrapping_inverts.
Qed.

Lemma chain_plain `{BuildProfile} l :
  Forall is_i64 l -> overflow_checks = false \/ Forall is_i64 (deltas.adj Z.sub l) ->
  deltas.chain (E := string) (fun next v => add_i64 next (zig_zag_decode v)) zz_delta l.
Proof.
  intros Hl Hno. induction Hl as [|x l Hx Hl IH]; [done|]. destruct l as [|y l]; [done|].
  change (deltas.adj Z.sub (x :: y :: l)) with (y - x :: deltas.adj Z.sub (y :: l)) in Hno.
  rewrite Forall_cons in Hno. inversion Hl; subst.
  split; [|apply IH; tauto]. unfold deltas.inverts.
  rewrite add_i64_ok; [by rewrite wrapping_inverts|].
  destruct Hno as [|[Hd _]]; [by left|right].
  unfold zz_delta. rewrite zig_zag_roundtrip, i64_id by auto with cnos.
  by replace (x + (y - x)) with y by lia.
Qed.

(** The vector the three formats store. *)
Lemma deltas_vector x l :
  deltas.rev_loop (E := string) delta (length l) (i64_to_u64_vector (x :: l)) 0 =
    Ok (u64 x :: deltas.adj zz_delta (x :: l), foldr Z.max 0 (deltas.adj zz_delta (x :: l))).
Proof.
  unfold i64_to_u64_vector. cbn [map]. rewrite <- (length_map u64 l), deltas.rev_loop_spec.
  change (u64 x :: map u64 l) with (map u64 (x :: l)).
  by rewrite (deltas.adj_map delta zz_delta u64) by (intros; apply delta_u64).
Qed.

Lemma deltas_u64 l : Forall is_u64 (deltas.adj zz_delta l).
Proof. apply deltas.Forall_adj. intros. apply zig_zag_encode_u64. Qed.

(** ** The three formats *)
Section formats.
Context {V : VarInt} {L : VarIntLaws V} {P : BuildProfile}.

(** Growing a vector to leave room for one variable-length integer. *)
Lemma room_for (a z : list Z) :
  exists z', (if (length (a ++ z) - length a <=? MAX_VAR_INT_64)%nat
              then vec_resize (length a + MAX_VAR_INT_64) 0 (a ++ z) else a ++ z) = a ++ z' /\
             (MAX_VAR_INT_64 <= length z')%nat.
Proof.
  rewrite length_app. destruct (Nat.leb_spec (length a + length z - length a) MAX_VAR_INT_64).
  - exists (z ++ replicate (MAX_VAR_INT_64 - length z) 0). unfold vec_resize.
    rewrite resize_ge by (rewrite length_app; lia). rewrite length_app, <- app_assoc.
    split; [do 3 f_equal; lia|]. rewrite length_app, length_replicate. lia.
  - exists z. split; [done|lia].
Qed.

Lemma encode_rle_spec v d c :
  is_u64 d -> is_u64 c ->
  encode_rle v d c [] = Ok (0 :: to_be_bytes 8 v ++ var_bytes d ++ var_bytes c).
Proof.
  intros Hd Hc. unfold encode_rle. cbn [app].
  pose proof (var_bytes_length_u64 d Hd). pose proof (var_bytes_length_u64 c Hc).
  set (a := 0 :: to_be_bytes 8 v).
  assert (9%nat = length a) as Ha by (unfold a; cbn [length]; by rewrite length_to_be_bytes).
  rewrite Ha. destruct (room_for a []) as (z1 & Hz1 & Hl1). rewrite app_nil_r in Hz1.
  rewrite Hz1, encode_var_app by lia. run.
  rewrite <- length_app.
  destruct (room_for (a ++ var_bytes d) (drop (length (var_bytes d)) z1)) as (z2 & -> & Hl2).
  rewrite encode_var_app by lia. run.
  rewrite <- length_app, take_app_length. unfold a. by rewrite <- app_assoc.
Qed.

Lemma rle_loop_orbit n x d dst :
  rle_loop n x d (dst ++ [x]) = dst ++ deltas.orbit (fun a => i64 (a + d)) (S n) x.
Proof.
  revert x dst. induction n as [|n IH]; intros x dst; [done|].
  cbn [rle_loop]. rewrite IH, <- app_assoc. done.
Qed.

Lemma decode_rle_spec v d c dst :
  is_u64 v -> is_u64 d -> is_u64 c ->
  decode_rle (to_be_bytes 8 v ++ var_bytes d ++ var_bytes c) dst =
    Ok (dst ++ deltas.orbit (fun a => i64 (a + zig_zag_decode d)) (S (Z.to_nat c)) (zig_zag_decode v)).
Proof.
  intros Hv Hd Hc. unfold decode_rle.
  rewrite (proj2 (Nat.ltb_ge _ _)) by (rewrite length_app, length_to_be_bytes; lia).
  rewrite slice_from_app by (by rewrite length_to_be_bytes). run.
  rewrite decode_var_bytes by done. run.
  rewrite app_assoc, slice_from_app by (by rewrite length_app, length_to_be_bytes).
  run. rewrite <- (app_nil_r (var_bytes c)), decode_var_bytes by done.
  run. rewrite <- !app_assoc.
  rewrite slice_app_prefix by (by rewrite length_to_be_bytes).
  run. rewrite from_to_be_bytes_u64 by done. by rewrite rle_loop_orbit.
Qed.

(** Equal deltas: the orbit of the first value is the slice. *)
Lemma orbit_zz_delta x l d :
  Forall is_i64 (x :: l) -> Forall (eq d) (deltas.adj zz_delta (x :: l)) ->
  deltas.orbit (fun a => i64 (a + zig_zag_decode d)) (S (length l)) x = x :: l.
Proof.
  intros Hl. apply (deltas.adj_const_orbit is_i64); [|done].
  intros a b Ha Hb <-. by apply wrapping_inverts.
Qed.

Lemma decode_uncompressed_spec x l dst :
  Forall is_i64 (x :: l) ->
  decode_uncompressed ((zig_zag_encode x :: deltas.adj zz_delta (x :: l)) ≫= to_be_bytes 8) dst =
    Ok (dst ++ x :: l).
Proof.
  intros Hl. set (ws := zig_zag_encode x :: _). unfold decode_uncompressed.
  assert (length (ws ≫= to_be_bytes 8) = 8 * length ws)%nat as Hlen by apply deltas.length_be_words.
  rewrite Hlen. replace (8 * length ws =? 0)%nat with false by (symmetry; apply Nat.eqb_neq; simpl; lia).
  change 7 with (Z.ones 3). rewrite Z.land_ones, Nat2Z.inj_mul, Z.mul_comm, Z.mod_mul by lia.
  cbn [Z.eqb negb orb].
  rewrite (deltas.words_loop_push _ _ [] ws) by
    (first [lia | constructor; [apply zig_zag_encode_u64|apply deltas_u64]]).
  unfold ws. cbn [deltas.push_loop mbind outcome_bind].
  assert (is_i64 x) by (by inversion Hl).
  rewrite zig_zag_roundtrip, Z.add_0_l, i64_id by done.
  rewrite deltas.push_loop_adj by (by apply chain_wrapping). by rewrite <- app_assoc.
Qed.

Lemma decode_simple8b_spec x l bytes :
  Forall is_i64 (x :: l) -> overflow_checks = false \/ Forall is_i64 (deltas.adj Z.sub (x :: l)) ->
  simple8b.decode bytes [] = Ok (deltas.adj zz_delta (x :: l)) ->
  decode_simple8b (to_be_bytes 8 (zig_zag_encode x) ++ bytes) [] = Ok (x :: l).
Proof.
  intros Hl Hno Hdec. unfold decode_simple8b.
  rewrite (proj2 (Nat.ltb_ge _ _)) by (rewrite length_app, length_to_be_bytes; lia).
  rewrite slice_app_prefix by (by rewrite length_to_be_bytes).
  run. rewrite slice_from_app by (by rewrite length_to_be_bytes).
  run. rewrite Hdec. run. rewrite !app_nil_l.
  rewrite from_to_be_bytes_u64 by apply zig_zag_encode_u64.
  rewrite zig_zag_roundtrip by (by inversion Hl). rewrite get_0. run.
  by rewrite deltas.push_loop_adj by (by apply chain_plain).
Qed.

(** What [encode] writes, format by format. *)
Lemma encode_cons x l dst :
  Z.of_nat (length (x :: l)) < U64 ->
  let ds := deltas.adj zz_delta (x :: l) in
  encode (x :: l) dst =
    match ds with
    | d1 :: ((_ :: _) as rest) =>
        if forallb (Z.eqb d1) rest
        then Ok (0x20 :: to_be_bytes 8 (zig_zag_encode x) ++ var_bytes d1 ++
                 var_bytes (Z.of_nat (length l)))
        else if simple8b.MAX_VALUE <? foldr Z.max 0 ds
        then Ok (0 :: ((zig_zag_encode x :: ds) ≫= to_be_bytes 8))
        else simple8b.encode ds (0x10 :: to_be_bytes 8 (zig_zag_encode x))
    | _ => if simple8b.MAX_VALUE <? foldr Z.max 0 ds
           then Ok (0 :: ((zig_zag_encode x :: ds) ≫= to_be_bytes 8))
           else simple8b.encode ds (0x10 :: to_be_bytes 8 (zig_zag_encode x))
    end.
Proof.
  intros Hlen ds. unfold encode. cbn [length Nat.eqb]. rewrite Nat.sub_succ, Nat.sub_0_r.
  rewrite deltas_vector. fold ds. run.
  assert (length ds = length l) as Hds by apply deltas.length_adj.
  assert (Forall is_u64 ds) as Hu by apply deltas_u64.
  cbn [length] in Hlen. rewrite get_0. run. rewrite set_0. run.
  cbn [length]. rewrite Hds.
  destruct ds as [|d1 [|d2 rest]], l as [|y [|y' l]]; try done; cbn [length Nat.ltb Nat.leb].
  rewrite deltas.all_equal_spec. run. rewrite get_0. run.
  destruct (forallb (Z.eqb d1) (d2 :: rest)); [|by rewrite slice_from_1].
  rewrite get_1. run. cbn [length] in *.
  replace (Z.of_nat (S (S (S (length l)))) - 1) with (Z.of_nat (S (S (length l)))) by lia.
  rewrite encode_rle_spec; [done|by inversion Hu|range].
Qed.

Lemma decode_byte b s dst :
  decode (b :: s) dst =
    if Z.shiftr b 4 =? 0 then decode_uncompressed s dst
    else if Z.shiftr b 4 =? 2 then decode_rle s dst
    else if Z.shiftr b 4 =? 1 then decode_simple8b s dst
    else Err "invalid block encoding"%string.
Proof.
  unfold decode. cbn [length Nat.eqb]. rewrite get_0. run. by rewrite slice_from_1.
Qed.

(** The two formats chosen when the deltas are not all equal. *)
Lemma non_rle_roundtrip x l :
  Forall is_i64 (x :: l) -> overflow_checks = false \/ Forall is_i64 (deltas.adj Z.sub (x :: l)) ->
  let ds := deltas.adj zz_delta (x :: l) in
  exists bytes,
    (if simple8b.MAX_VALUE <? foldr Z.max 0 ds
     then Ok (0 :: ((zig_zag_encode x :: ds) ≫= to_be_bytes 8))
     else simple8b.encode ds (0x10 :: to_be_bytes 8 (zig_zag_encode x))) = Ok bytes /\
    decode bytes [] = Ok (x :: l) /\ (length bytes <= 1 + 8 * length (x :: l))%nat.
Proof.
  intros Hl Hno ds. assert (length ds = length l) as Hds by apply deltas.length_adj.
  destruct (Z.ltb_spec simple8b.MAX_VALUE (foldr Z.max 0 ds)) as [Hbig|Hsmall].
  - eexists. split; [reflexivity|]. rewrite decode_byte. cbn [Z.shiftr Z.shiftl Z.eqb].
    split; [by apply decode_uncompressed_spec|].
    cbn [length]. rewrite deltas.length_be_words. cbn [length]. lia.
  - apply deltas.foldr_max_le in Hsmall as [_ Hall].
    destruct (simple8b.roundtrip_app ds (0x10 :: to_be_bytes 8 (zig_zag_encode x)) []) as (b & He & Hd & Hlb).
    { apply Forall_and; split; [|done]. eapply Forall_impl; [apply deltas_u64|].
      intros v Hv. range. }
    exists (0x10 :: to_be_bytes 8 (zig_zag_encode x) ++ b). split; [exact He|].
    rewrite decode_byte. change (Z.shiftr 16 4) with 1. cbn [Z.eqb].
    split; [by apply decode_simple8b_spec|].
    cbn [length]. rewrite length_app, length_to_be_bytes. lia.
Qed.

End formats.

(** ** Correctness *)

(** The round trip, as [unsigned] uses it. *)
Lemma roundtrip {V : VarInt} {L : VarIntLaws V} {P : BuildProfile} src dst :
  Forall is_i64 src -> Z.of_nat (length src) < U64 ->
  overflow_checks = false \/ Forall is_i64 (deltas.adj Z.sub src) ->
  exists bytes, encode src dst = Ok bytes /\ decode bytes [] = Ok src /\
    (length bytes <= Nat.max 29 (1 + 8 * length src))%nat.
Proof.
  intros Hsrc Hlen Hno. destruct src as [|x l]; [exists []; split_and!; [done|done|simpl; lia]|].
  destruct (non_rle_roundtrip x l Hsrc Hno) as (b & Hb & Hdec & Hlb).
  rewrite encode_cons by done. set (ds := deltas.adj zz_delta (x :: l)) in *.
  assert (Forall is_u64 ds) as Hu by apply deltas_u64.
  destruct ds as [|d1 [|d2 rest]] eqn:Ed; [by exists b; split_and!; try lia..|].
  destruct (forallb (Z.eqb d1) (d2 :: rest)) eqn:Hall; [|by exists b; split_and!; try lia].
  eexists. split; [reflexivity|].
  apply deltas.forallb_eqb in Hall. inversion Hu as [|? ? Hd1]; subst.
  assert (is_u64 (Z.of_nat (length l))) as Hcount by (cbn [length] in Hlen; range).
  rewrite decode_byte. change (Z.shiftr 32 4) with 2. cbn [Z.eqb].
  rewrite decode_rle_spec by auto with cnos. rewrite Nat2Z.id, zig_zag_roundtrip by (by inversion Hsrc).
  cbn [app]. rewrite orbit_zz_delta; [|done|unfold ds in Ed; rewrite Ed; by constructor].
  split; [done|]. cbn [length]. rewrite !length_app, length_to_be_bytes.
  pose proof (var_bytes_length_u64 d1 Hd1). pose proof (var_bytes_length_u64 _ Hcount).
  unfold MAX_VAR_INT_64 in *. lia.
Qed.

(** C25. Encoding then decoding a slice of 64-bit integers gives the slice back,
    through whichever of the three formats the encoder picks, and the encoded
    block is never larger than the raw words plus a header byte (or the 29 bytes
    of a run).  The slice is any one that fits in memory; in a build with
    overflow checks the adjacent differences must not overflow. *)
Theorem encode_decode_integer {V : VarInt} {L : VarIntLaws V} {P : BuildProfile} src dst :
  Forall is_i64 src -> Z.of_nat (length src) < U64 ->
  overflow_checks = false \/ Forall is_i64 (deltas.adj Z.sub src) ->
  exists bytes, encode src dst = Ok bytes /\ decode bytes [] = Ok src /\
    (length bytes <= Nat.max 29 (1 + 8 * length src))%nat.
Proof. apply roundtrip. Qed.

Lemma encode_decode_integer_witness :
  let profile : BuildProfile := true in
  exists bytes, encode (V := leb128.varint) [5; 8; 11; 14] [1] = Ok bytes /\
    decode (V := leb128.varint) (P := profile) bytes [] = Ok [5; 8; 11; 14] /\
    (length bytes <= 33)%nat.
Proof.
  intros profile.
  apply (encode_decode_integer (V := leb128.varint) (P := profile) [5; 8; 11; 14] [1]).
  - repeat constructor; vm_compute; easy.
  - vm_compute. easy.
  - right. repeat constructor; vm_compute; easy.
Defined.

(** A slice that wraps around once and is not a run: the packed format. *)
Definition wrapping_slice : list Z := [i64_MAX; i64_MIN; 0 - I63 + 1; 0 - I63 + 3].

(** What the encoder accepts, a build with overflow checks cannot always
    decode: on a slice whose consecutive values wrap around, [encode] chooses
    the simple8b format and [decode_simple8b] panics on its plain addition,
    where the release build returns the slice. *)
Theorem checked_decode_panics {V : VarInt} :
  exists bytes, encode wrapping_slice [] = Ok bytes /\
    decode (P := (true : BuildProfile)) bytes [] = Panic /\
    decode (P := (false : BuildProfile)) bytes [] = Ok wrapping_slice.
Proof. eexists. split_and!; [vm_compute; reflexivity..]. Qed.

End integer.

Module unsigned.

Definition u64_to_i64_vector (src : list Z) : list Z := map i64 src.

Section codec.
Context {V : VarInt} {P : BuildProfile}.

Definition encode (src dst : list Z) : outcome string (list Z) :=
  let signed := u64_to_i64_vector src in
  integer.encode signed dst.

(** [decode(src, dst)], with [capacity] the capacity of [dst].  When the result
    is shorter than the capacity, [signed_results.len() - dst.capacity()]
    panics in a checked build; in an unchecked one it wraps to more than
    [isize::MAX] and [reserve_exact] panics with a capacity overflow. *)
Definition decode (src dst : list Z) (capacity : nat) : outcome string (list Z) :=
  if (length src =? 0)%nat then Ok dst
  else
    signed_results ← integer.decode src [];
    if (length signed_results <? capacity)%nat then Panic
    else Ok (map u64 signed_results).

End codec.

Lemma u64_to_i64_vector_i64 src : Forall is_i64 (u64_to_i64_vector src).
Proof. apply Forall_map, Forall_true. intros. apply i64_range. Qed.

Lemma map_u64_i64 src : Forall is_u64 src -> map u64 (u64_to_i64_vector src) = src.
Proof.
  induction 1 as [|x src Hx _ IH]; [done|].
  unfold u64_to_i64_vector in *. cbn [map]. by rewrite u64_i64, u64_id, IH.
Qed.

Lemma decode_encode {V : VarInt} {L : VarIntLaws V} {P : BuildProfile} src dst dst' capacity :
  Forall is_u64 src -> src <> [] -> Z.of_nat (length src) < U64 ->
  overflow_checks = false \/ Forall is_i64 (deltas.adj Z.sub (u64_to_i64_vector src)) ->
  exists bytes, encode src dst = Ok bytes /\
    decode bytes dst' capacity = if (length src <? capacity)%nat then Panic else Ok src.
Proof.
  intros Hsrc Hne Hlen Hno.
  destruct (integer.roundtrip (u64_to_i64_vector src) dst) as (b & He & Hd & _);
    [apply u64_to_i64_vector_i64|unfold u64_to_i64_vector; by rewrite length_map|done|].
  exists b. split; [exact He|]. unfold decode.
  destruct b as [|b0 b].
  { exfalso. apply Hne. injection Hd as Hd. by destruct src. }
  cbn [length Nat.eqb]. rewrite Hd. run. rewrite map_u64_i64 by done.
  unfold u64_to_i64_vector. by rewrite length_map.
Qed.

Lemma unsigned_roundtrip {V : VarInt} {L : VarIntLaws V} {P : BuildProfile} src dst dst' capacity :
  Forall is_u64 src -> src <> [] -> Z.of_nat (length src) < U64 -> (capacity <= length src)%nat ->
  overflow_checks = false \/ Forall is_i64 (deltas.adj Z.sub (u64_to_i64_vector src)) ->
  exists bytes, encode src dst = Ok bytes /\ decode bytes dst' capacity = Ok src.
Proof.
  intros Hsrc Hne Hlen Hcap Hno. destruct (decode_encode src dst dst' capacity) as (b & He & Hd); auto.
  exists b. rewrite Hd. by rewrite (proj2 (Nat.ltb_ge _ _)).
Qed.

(** Encoding then decoding a slice of unsigned integers gives it back when
    the destination's capacity does not exceed the number of values (a fresh
    vector always qualifies). *)
Theorem encode_decode_unsigned {V : VarInt} {L : VarIntLaws V} {P : BuildProfile} src dst dst' capacity :
  Forall is_u64 src -> src <> [] -> Z.of_nat (length src) < U64 -> (capacity <= length src)%nat ->
  overflow_checks = false \/ Forall is_i64 (deltas.adj Z.sub (u64_to_i64_vector src)) ->
  exists bytes, encode src dst = Ok bytes /\ decode bytes dst' capacity = Ok src.
Proof. apply unsigned_roundtrip. Qed.

Lemma encode_decode_unsigned_witness :
  let profile : BuildProfile := false in
  exists bytes, encode (V := leb128.varint) [u64_MAX; 3; 7] [] = Ok bytes /\
    decode (V := leb128.varint) (P := profile) bytes [9] 1 = Ok [u64_MAX; 3; 7].
Proof.
  intros profile.
  apply (encode_decode_unsigned (V := leb128.varint) (P := profile)
           [u64_MAX; 3; 7] [] [9] 1).
  - repeat constructor; vm_compute; easy.
  - discriminate.
  - vm_compute. easy.
  - simpl. lia.
  - by left.
Defined.

(** Decoding panics as soon as the destination vector has room for more
    values than the block holds, in every build profile. *)
Theorem unsigned_decode_capacity_panics {V : VarInt} {L : VarIntLaws V} {P : BuildProfile} src dst dst' capacity :
  Forall is_u64 src -> src <> [] -> Z.of_nat (length src) < U64 -> (length src < capacity)%nat ->
  overflow_checks = false \/ Forall is_i64 (deltas.adj Z.sub (u64_to_i64_vector src)) ->
  exists bytes, encode src dst = Ok bytes /\ decode bytes dst' capacity = Panic.
Proof.
  intros Hsrc Hne Hlen Hcap Hno. destruct (decode_encode src dst dst' capacity) as (b & He & Hd); auto.
  exists b. rewrite Hd. by rewrite (proj2 (Nat.ltb_lt _ _)).
Qed.

Lemma unsigned_decode_capacity_panics_witness :
  let profile : BuildProfile := false in
  exists bytes, encode (V := leb128.varint) [1; 3; 7] [] = Ok bytes /\
    decode (V := leb128.varint) (P := profile) bytes [] 4 = Panic.
Proof.
  intros profile.
  apply (unsigned_decode_capacity_panics (V := leb128.varint) (P := profile)
           [1; 3; 7] [] [] 4).
  - repeat constructor; vm_compute; easy.
  - discriminate.
  - vm_compute. easy.
  - simpl. lia.
  - by left.
Defined.

End unsigned.
