(* ===== verification/TimestampCodec.v ===== *)
(** * The timestamp codec (tskv/src/tsm/coders/timestamp.rs)

    Like the integer codec without the zig-zag step, and with the differences of
    the packed and run-length formats divided by the largest power of ten (up to
    [10^12]) that divides them all, stored in the low four bits of the header.
    The theorems give the round trip, the choice of the divisor, and the error
    paths of the decoder. *)
From S2P Require Import Prelude Varint Simple8b Deltas IntegerCodec.

Module timestamp.

(** ** Definitions *)

Inductive Encoding := Uncompressed | Simple8b | Rle.

Definition Encoding_as_u8 (e : Encoding) : Z :=
  match e with Uncompressed => 0 | Simple8b => 1 | Rle => 2 end.

Definition i64_to_u64_vector (src : list Z) : list Z := map u64 src.

(** [deltas[i].wrapping_sub(deltas[i - 1])]. *)
Definition delta (cur prev : Z) : Z := u64 (cur - prev).

(** [1_000_000_000_000]. *)
Definition MAX_DIV : Z := 1000000000000.

(** [while div > 1 && delta % div != 0 { div /= 10 }]; [div] is at most
    [10^12], so twelve iterations are enough. *)
Fixpoint find_div (fuel : nat) (delta div : Z) : outcome string Z :=
  if (1 <? div) && negb (delta mod div =? 0) then
    match fuel with
    | O => OutOfFuel
    | S fuel' => find_div fuel' delta (div / 10)
    end
  else Ok div.

(** [for delta in deltas.iter().skip(1) { if div <= 1 { break; } while ... }]. *)
Fixpoint find_divs (ds : list Z) (div : Z) : outcome string Z :=
  match ds with
  | [] => Ok div
  | d :: ds' =>
      if div <=? 1 then Ok div
      else div ← find_div 12 d div; find_divs ds' div
  end.

(** [((div as f64).log10()) as u8] for a power of ten [div]. *)
Fixpoint log10_loop (fuel : nat) (v : Z) : Z :=
  match fuel with
  | O => 0
  | S fuel' => if v <? 10 then 0 else 1 + log10_loop fuel' (v / 10)
  end.
Definition log10 (v : Z) : Z := log10_loop 20 v.

Section codec.
Context {V : VarInt} {P : BuildProfile}.

Definition encode_rle (v delta count : Z) (dst : list Z) : outcome string (list Z) :=
  let dst := dst ++ [0] in
  let n := 1%nat in
  let dst := dst ++ to_be_bytes 8 v in
  let n := (n + 8)%nat in
  div ← find_div 12 delta MAX_DIV;
  let dst := if (length dst <=? n + MAX_VAR_INT_64)%nat
             then vec_resize (n + MAX_VAR_INT_64) 0 dst else dst in
  '(dst, k) ← (if 1 <? div then
     let scaler := log10 div in
     _ ← assert_ (scaler <=? 15);
     dst ← integer.or_first dst scaler;
     encode_var (delta / div) dst n
   else encode_var delta dst n);
  let n := (n + k)%nat in
  let dst := if (length dst - n <=? MAX_VAR_INT_64)%nat
             then vec_resize (n + MAX_VAR_INT_64) 0 dst else dst in
  '(dst, k) ← encode_var count dst n;
  let n := (n + k)%nat in
  Ok (take n dst).

(** [encode(src, dst)]; the previous contents of [dst] are cleared. *)
Definition encode (src dst : list Z) : outcome string (list Z) :=
  let dst := [] in
  if (length src =? 0)%nat then Ok dst
  else
    let deltas := i64_to_u64_vector src in
    '(deltas, max, use_rle) ← (if (1 <? length deltas)%nat then
       '(deltas, max) ← deltas.rev_loop delta (length deltas - 1) deltas 0;
       use_rle ← deltas.all_equal deltas;
       Ok (deltas, max, use_rle)
     else Ok (deltas, 0, false));
    d0 ← get deltas 0;
    if (use_rle : bool) then
      d1 ← get deltas 1;
      dst ← encode_rle d0 d1 (Z.of_nat (length deltas)) dst;
      integer.or_first dst (Z.shiftl (Encoding_as_u8 Rle) 4)
    else if simple8b.MAX_VALUE <? max then
      let dst := dst ++ [Z.shiftl (Encoding_as_u8 Uncompressed) 4] in
      Ok (dst ++ (deltas ≫= to_be_bytes 8))
    else
      div ← find_divs (drop 1 deltas) MAX_DIV;
      let deltas := if 1 <? div then take 1 deltas ++ map (fun d => d / div) (drop 1 deltas)
                    else deltas in
      let dst := dst ++ [Z.shiftl (Encoding_as_u8 Simple8b) 4] in
      dst ← integer.or_first dst (log10 div);
      let dst := dst ++ to_be_bytes 8 d0 in
      rest ← slice_from deltas 1;
      simple8b.encode rest dst.

Definition decode_uncompressed (src dst : list Z) : outcome string (list Z) :=
  if (length src =? 0)%nat || negb (Z.land (Z.of_nat (length src)) 7 =? 0)
  then Err "invalid uncompressed block length"%string
  else deltas.words_loop (fun prev w => add_i64 prev (i64 w)) (length src) src 0 0 dst.

(** [for _ in 0..count { dst.push(first); first = first.wrapping_add(delta as i64) }]. *)
Fixpoint rle_loop (count : nat) (first delta : Z) (dst : list Z) : list Z :=
  match count with
  | O => dst
  | S count' => rle_loop count' (i64 (first + i64 delta)) delta (dst ++ [first])
  end.

Definition decode_rle (src dst : list Z) : outcome string (list Z) :=
  if (length src <? 9)%nat then Err "not enough data to decode using RLE"%string
  else
    b ← get src 0;
    let scaler := 10 ^ Z.land b 15 in
    let i := 1%nat in
    a ← slice src i (i + 8);
    let i := (i + 8)%nat in
    s ← slice_from src i;
    '(delta, n) ← of_option (decode_var s) "unable to decode delta"%string;
    let i := (i + n)%nat in
    delta ← mul_u64 delta scaler;
    s ← slice_from src i;
    '(count, _) ← of_option (decode_var s) "unable to decode count"%string;
    let first := i64 (from_be_bytes a) in
    Ok (rle_loop (Z.to_nat count) first delta dst).

Definition decode_simple8b (src dst : list Z) : outcome string (list Z) :=
  if (length src <? 9)%nat then Err "not enough data to decode packed timestamp"%string
  else
    b ← get src 0;
    let scaler := 10 ^ Z.land b 15 in
    buf ← slice src 1 9;
    let dst := dst ++ [i64 (from_be_bytes buf)] in
    s ← slice_from src 9;
    res ← simple8b.decode s [];
    next ← get dst (length dst - 1);
    if 1 <? scaler then
      deltas.push_loop (fun next v => w ← mul_u64 v scaler; add_i64 next (i64 w)) res next dst
    else deltas.push_loop (fun next v => add_i64 next (i64 v)) res next dst.

(** [decode(src, dst)] appends to [dst]. *)
Definition decode (src dst : list Z) : outcome string (list Z) :=
  if (length src =? 0)%nat then Ok dst
  else
    b ← get src 0;
    let encoding := Z.shiftr b 4 in
    if encoding =? Encoding_as_u8 Uncompressed then
      s ← slice_from src 1; decode_uncompressed s dst
    else if encoding =? Encoding_as_u8 Rle then decode_rle src dst
    else if encoding =? Encoding_as_u8 Simple8b then decode_simple8b src dst
    else Err "invalid block encoding"%string.

End codec.

(** ** The divisor *)

(** A power of ten the encoder may choose. *)
Definition pow10 (k : nat) : Z := 10 ^ Z.of_nat k.

Lemma pow10_pos k : 0 < pow10 k.
Proof. apply Z.pow_pos_nonneg; lia. Qed.

Lemma pow10_S k : pow10 (S k) = 10 * pow10 k.
Proof. unfold pow10. rewrite Nat2Z.inj_succ, Z.pow_succ_r by lia. done. Qed.

Lemma pow10_divide j k : (j <= k)%nat -> (pow10 j | pow10 k).
Proof.
  intros Hjk. exists (pow10 (k - j)). unfold pow10. rewrite <- Z.pow_add_r by lia. f_equal. lia.
Qed.

Lemma find_div_spec fuel d k :
  (k <= fuel)%nat ->
  exists j, (j <= k)%nat /\ find_div fuel d (pow10 k) = Ok (pow10 j) /\ (pow10 j | d).
Proof.
  revert k. induction fuel as [|fuel IH]; intros k Hk.
  { replace k with O by lia. exists O. split_and!; [lia|done|apply Z.divide_1_l]. }
  cbn [find_div]. pose proof (pow10_pos k) as Hpos.
  destruct (Z.ltb_spec 1 (pow10 k)) as [Hlt|Hge]; cbn [andb].
  2: { exists k. split_and!; [lia|done|]. replace (pow10 k) with 1 by lia. apply Z.divide_1_l. }
  destruct (Z.eqb_spec (d mod pow10 k) 0) as [He|Hne]; cbn [negb].
  { exists k. split_and!; [lia|done|]. apply Z.mod_divide; lia. }
  destruct k as [|k]; [done|]. rewrite pow10_S, Z.mul_comm, Z.div_mul by lia.
  destruct (IH k ltac:(lia)) as (j & ? & ? & ?). exists j. split_and!; [lia|done..].
Qed.

Lemma find_divs_spec ds k :
  (k <= 12)%nat ->
  exists j, (j <= k)%nat /\ find_divs ds (pow10 k) = Ok (pow10 j) /\
    Forall (fun d => (pow10 j | d)) ds.
Proof.
  revert k. induction ds as [|d ds IH]; intros k Hk; [by exists k|].
  cbn [find_divs]. pose proof (pow10_pos k) as Hpos.
  destruct (Z.leb_spec (pow10 k) 1) as [Hle|Hgt].
  { exists k. split_and!; [lia|done|]. replace (pow10 k) with 1 by lia.
    apply Forall_true. intros. apply Z.divide_1_l. }
  destruct (find_div_spec 12 d k Hk) as (i & Hi & -> & Hd). run.
  destruct (IH i ltac:(lia)) as (j & Hj & Hf & Hall). exists j. split_and!; [lia|done|].
  constructor; [|done]. etrans; [apply (pow10_divide j i); lia|done].
Qed.

Lemma log10_pow10 k : (k <= 12)%nat -> log10 (pow10 k) = Z.of_nat k.
Proof. intros. do 13 (destruct k as [|k]; [reflexivity|]). lia. Qed.

(** The header byte: encoding in the high half, exponent in the low half. *)
Lemma header_spec (k : nat) e :
  (k <= 12)%nat -> e = 1 \/ e = 2 ->
  Z.lor (Z.of_nat k) (Z.shiftl e 4) = 16 * e + Z.of_nat k /\
  Z.lor (Z.shiftl e 4) (Z.of_nat k) = 16 * e + Z.of_nat k /\
  Z.shiftr (16 * e + Z.of_nat k) 4 = e /\ Z.land (16 * e + Z.of_nat k) 15 = Z.of_nat k.
Proof.
  intros Hk [-> | ->]; do 13 (destruct k as [|k]; [by repeat split|]); lia.
Qed.

Lemma divided_u64 d k : is_u64 d -> is_u64 (d / pow10 k).
Proof.
  intros Hd. pose proof (pow10_pos k). unfold is_u64 in *.
  split; [apply Z.div_pos; lia|]. apply Z.le_lt_trans with d; [|lia]. apply Z.div_le_upper_bound; nia.
Qed.

Lemma divided_exact d k : (pow10 k | d) -> d / pow10 k * pow10 k = d.
Proof. intros [q ->]. pose proof (pow10_pos k). by rewrite Z.div_mul by lia. Qed.

(** ** Differences *)

(** The difference of the [u64] casts, on the values themselves. *)
Definition wrapping_delta (y x : Z) : Z := u64 (y - x).

Lemma ts_delta_u64 y x : delta (u64 y) (u64 x) = wrapping_delta y x.
Proof. unfold delta, wrapping_delta. by rewrite u64_sub_l, u64_sub_r. Qed.

Lemma ts_wrapping_inverts x y : is_i64 y -> i64 (x + i64 (wrapping_delta y x)) = y.
Proof.
  intros Hy. unfold wrapping_delta. rewrite i64_u64, i64_add_i64_r.
  replace (x + (y - x)) with y by lia. by apply i64_id.
Qed.

Lemma ts_chain_plain {P : BuildProfile} l :
  Forall is_i64 l -> overflow_checks = false \/ Forall is_i64 (deltas.adj Z.sub l) ->
  deltas.chain (E := string) (fun next v => add_i64 next (i64 v)) wrapping_delta l.
Proof.
  intros Hl Hno. induction Hl as [|x l Hx Hl IH]; [done|]. destruct l as [|y l]; [done|].
  change (deltas.adj Z.sub (x :: y :: l)) with (y - x :: deltas.adj Z.sub (y :: l)) in Hno.
  rewrite Forall_cons in Hno. inversion Hl; subst.
  split; [|apply IH; tauto]. unfold deltas.inverts.
  rewrite add_i64_ok; [by rewrite ts_wrapping_inverts|].
  destruct Hno as [|[Hd _]]; [by left|right].
  unfold wrapping_delta. rewrite i64_u64, i64_id by done.
  by replace (x + (y - x)) with y by lia.
Qed.

Lemma ts_deltas_u64 l : Forall is_u64 (deltas.adj wrapping_delta l).
Proof. apply deltas.Forall_adj. intros. apply u64_range. Qed.

Lemma ts_deltas_vector x l :
  deltas.rev_loop (E := string) delta (length l) (i64_to_u64_vector (x :: l)) 0 =
    Ok (u64 x :: deltas.adj wrapping_delta (x :: l),
        foldr Z.max 0 (deltas.adj wrapping_delta (x :: l))).
Proof.
  unfold i64_to_u64_vector. cbn [map]. rewrite <- (length_map u64 l), deltas.rev_loop_spec.
  change (u64 x :: map u64 l) with (map u64 (x :: l)).
  by rewrite (deltas.adj_map delta wrapping_delta u64) by (intros; apply ts_delta_u64).
Qed.

(** ** The three formats *)
Section formats.
Context {V : VarInt} {L : VarIntLaws V} {P : BuildProfile}.

Lemma room_for_at (a : list Z) :
  (length a = 9)%nat ->
  (if (length a <=? 9 + MAX_VAR_INT_64)%nat then vec_resize (9 + MAX_VAR_INT_64) 0 a else a) =
    a ++ replicate MAX_VAR_INT_64 0.
Proof.
  intros Ha. rewrite Ha. cbn [Nat.leb MAX_VAR_INT_64 Nat.add]. unfold vec_resize.
  rewrite resize_ge by lia. by rewrite Ha.
Qed.

Lemma ts_encode_rle_spec v d c :
  is_u64 d -> is_u64 c ->
  exists k, (k <= 12)%nat /\ (pow10 k | d) /\
    encode_rle v d c [] =
      Ok (Z.of_nat k :: to_be_bytes 8 v ++ var_bytes (d / pow10 k) ++ var_bytes c).
Proof.
  intros Hd Hc. destruct (find_div_spec 12 d 12 (le_n _)) as (k & Hk & Hf & Hdiv).
  exists k. split_and!; [done|done|]. unfold encode_rle. rewrite app_nil_l.
  change MAX_DIV with (pow10 12). rewrite Hf. run.
  set (e := d / pow10 k). assert (is_u64 e) as He by (by apply divided_u64).
  pose proof (var_bytes_length_u64 e He). pose proof (var_bytes_length_u64 c Hc).
  assert (forall z, length (z :: to_be_bytes 8 v) = 9%nat) as Ha
    by (intros; cbn [length]; by rewrite length_to_be_bytes).
  change ([0] ++ to_be_bytes 8 v) with (0 :: to_be_bytes 8 v). change (1 + 8)%nat with 9%nat.
  rewrite room_for_at by done.
  set (z1 := replicate MAX_VAR_INT_64 0). set (a := Z.of_nat k :: to_be_bytes 8 v).
  match goal with |- mbind _ ?m = _ => assert (m = encode_var e (a ++ z1) 9) as -> end.
  { pose proof (pow10_pos k). destruct (Z.ltb_spec 1 (pow10 k)) as [Hlt|Hge].
    - rewrite log10_pow10 by done. unfold assert_.
      rewrite (proj2 (Z.leb_le _ _)) by lia. run. unfold integer.or_first. cbn [app].
      rewrite get_0. run. by rewrite set_0.
    - assert (k = O) as ->.
      { destruct k; [done|]. rewrite pow10_S in Hge. pose proof (pow10_pos k). lia. }
      unfold e, a. change (pow10 0) with 1. by rewrite Z.div_1_r. }
  assert (9%nat = length a) as Ha' by (symmetry; apply Ha).
  rewrite Ha', encode_var_app by (unfold z1; rewrite length_replicate; lia). run.
  rewrite <- length_app.
  destruct (integer.room_for (a ++ var_bytes e) (drop (length (var_bytes e)) z1)) as (z2 & -> & Hl2).
  rewrite encode_var_app by lia. run.
  rewrite <- length_app, take_app_length. unfold a. by rewrite <- app_assoc.
Qed.

Lemma ts_rle_loop_orbit n x d dst :
  rle_loop n x d dst = dst ++ deltas.orbit (fun a => i64 (a + i64 d)) n x.
Proof.
  revert x dst. induction n as [|n IH]; intros x dst; cbn [rle_loop deltas.orbit];
    [by rewrite app_nil_r|]. by rewrite IH, <- app_assoc.
Qed.

Lemma ts_decode_rle_spec k v d c dst :
  (k <= 12)%nat -> (pow10 k | d) -> is_u64 v -> is_u64 d -> is_u64 c ->
  decode_rle ((32 + Z.of_nat k) :: to_be_bytes 8 v ++ var_bytes (d / pow10 k) ++ var_bytes c) dst =
    Ok (dst ++ deltas.orbit (fun a => i64 (a + i64 d)) (Z.to_nat c) (i64 v)).
Proof.
  intros Hk Hdiv Hv Hd Hc. unfold decode_rle. set (b := 32 + Z.of_nat k).
  rewrite (proj2 (Nat.ltb_ge _ _)) by (cbn [length]; rewrite length_app, length_to_be_bytes; lia).
  rewrite get_0. run. destruct (header_spec k 2 Hk) as (_ & _ & _ & Hland); [by right|].
  change (Z.land b 15) with (Z.land (16 * 2 + Z.of_nat k) 15). rewrite Hland.
  set (e := d / pow10 k). assert (is_u64 e) as He by (by apply divided_u64).
  set (t := var_bytes e ++ var_bytes c).
  rewrite (slice_app_mid [b] (to_be_bytes 8 v) t) by (rewrite ?length_to_be_bytes; done). run.
  change (b :: to_be_bytes 8 v ++ t) with ((b :: to_be_bytes 8 v) ++ t).
  rewrite slice_from_app by (cbn [length]; by rewrite length_to_be_bytes). run.
  change (decode_var t) with (decode_var (var_bytes e ++ var_bytes c)).
  rewrite decode_var_bytes by done. run.
  change (10 ^ Z.of_nat k) with (pow10 k).
  assert (e * pow10 k = d) as Hex by (by apply divided_exact).
  rewrite mul_u64_ok by (by rewrite Hex). run. rewrite Hex. unfold t.
  rewrite app_assoc, slice_from_app
    by (rewrite length_app; cbn [length]; by rewrite length_to_be_bytes).
  run. rewrite <- (app_nil_r (var_bytes c)), decode_var_bytes by done. run.
  by rewrite from_to_be_bytes_u64, ts_rle_loop_orbit by done.
Qed.

Lemma orbit_wrapping_delta x l d :
  Forall is_i64 (x :: l) -> Forall (eq d) (deltas.adj wrapping_delta (x :: l)) ->
  deltas.orbit (fun a => i64 (a + i64 d)) (S (length l)) x = x :: l.
Proof.
  intros Hl. apply (deltas.adj_const_orbit is_i64); [|done].
  intros a b Ha Hb <-. by apply ts_wrapping_inverts.
Qed.

Lemma ts_decode_uncompressed_spec x l dst :
  Forall is_i64 (x :: l) -> overflow_checks = false \/ Forall is_i64 (deltas.adj Z.sub (x :: l)) ->
  decode_uncompressed ((u64 x :: deltas.adj wrapping_delta (x :: l)) ≫= to_be_bytes 8) dst =
    Ok (dst ++ x :: l).
Proof.
  intros Hl Hno. set (ws := u64 x :: _). unfold decode_uncompressed.
  assert (length (ws ≫= to_be_bytes 8) = 8 * length ws)%nat as Hlen by apply deltas.length_be_words.
  rewrite Hlen. replace (8 * length ws =? 0)%nat with false by (symmetry; apply Nat.eqb_neq; simpl; lia).
  change 7 with (Z.ones 3). rewrite Z.land_ones, Nat2Z.inj_mul, Z.mul_comm, Z.mod_mul by lia.
  cbn [Z.eqb negb orb].
  rewrite (deltas.words_loop_push _ _ [] ws) by
    (first [lia | constructor; [apply u64_range|apply ts_deltas_u64]]).
  unfold ws. cbn [deltas.push_loop]. assert (is_i64 x) by (by inversion Hl).
  rewrite i64_u64, (i64_id x), add_i64_ok by (done || by right). run.
  rewrite Z.add_0_l, i64_id by done.
  rewrite deltas.push_loop_adj by (by apply ts_chain_plain). by rewrite <- app_assoc.
Qed.

(** Multiplying back by the scaler, for every divided difference. *)
Lemma push_loop_scaled k ds next dst :
  Forall (fun d => (pow10 k | d)) ds -> Forall is_u64 ds ->
  deltas.push_loop (E := string) (fun next v => w ← mul_u64 v (pow10 k); add_i64 next (i64 w))
    (map (fun d => d / pow10 k) ds) next dst =
  deltas.push_loop (fun next v => add_i64 next (i64 v)) ds next dst.
Proof.
  intros Hdiv. revert next dst. induction Hdiv as [|d ds Hd _ IH]; intros next dst Hu; [done|].
  inversion_clear Hu. cbn [map deltas.push_loop].
  assert (d / pow10 k * pow10 k = d) as Hex by (by apply divided_exact).
  rewrite mul_u64_ok by (by rewrite Hex). run. rewrite Hex.
  destruct (add_i64 next (i64 d)); [run; by apply IH|done..].
Qed.

Lemma ts_decode_simple8b_spec k x l ds bytes :
  (k <= 12)%nat -> Forall is_i64 (x :: l) ->
  overflow_checks = false \/ Forall is_i64 (deltas.adj Z.sub (x :: l)) ->
  ds = deltas.adj wrapping_delta (x :: l) -> Forall (fun d => (pow10 k | d)) ds ->
  simple8b.decode bytes [] = Ok (map (fun d => d / pow10 k) ds) ->
  decode_simple8b ((16 + Z.of_nat k) :: to_be_bytes 8 (u64 x) ++ bytes) [] = Ok (x :: l).
Proof.
  intros Hk Hl Hno Hds Hdiv Hdec. assert (is_i64 x) as Hx by (by inversion Hl).
  assert (Forall is_u64 ds) as Hu by (subst; apply ts_deltas_u64).
  unfold decode_simple8b. set (b := 16 + Z.of_nat k).
  rewrite (proj2 (Nat.ltb_ge _ _)) by (cbn [length]; rewrite length_app, length_to_be_bytes; lia).
  rewrite get_0. run. destruct (header_spec k 1 Hk) as (_ & _ & _ & Hland); [by left|].
  change (Z.land b 15) with (Z.land (16 * 1 + Z.of_nat k) 15). rewrite Hland.
  rewrite (slice_app_mid [b] (to_be_bytes 8 (u64 x)) bytes) by (rewrite ?length_to_be_bytes; done). run.
  change (b :: to_be_bytes 8 (u64 x) ++ bytes) with ((b :: to_be_bytes 8 (u64 x)) ++ bytes).
  rewrite slice_from_app by (cbn [length]; by rewrite length_to_be_bytes). run.
  rewrite Hdec. run. rewrite app_nil_l. cbn [length Nat.sub]. rewrite get_0. run.
  rewrite from_to_be_bytes_u64, i64_u64, i64_id by auto with cnos.
  change (10 ^ Z.of_nat k) with (pow10 k).
  assert (deltas.push_loop (E := string) (fun next v => add_i64 next (i64 v)) ds x [x] = Ok (x :: l)) as Hp
    by (subst ds; by rewrite deltas.push_loop_adj by (by apply ts_chain_plain)).
  destruct (Z.ltb_spec 1 (pow10 k)) as [Hlt|Hge]; [by rewrite push_loop_scaled|].
  replace (map (fun d => d / pow10 k) ds) with ds; [done|].
  pose proof (pow10_pos k). replace (pow10 k) with 1 by lia.
  rewrite (map_ext _ id); [by rewrite map_id|]. intros. apply Z.div_1_r.
Qed.

(** What [encode] writes, format by format. *)
Lemma ts_encode_cons x l dst :
  let ds := deltas.adj wrapping_delta (x :: l) in
  encode (x :: l) dst =
    match ds with
    | d1 :: rest =>
        if forallb (Z.eqb d1) rest
        then out ← encode_rle (u64 x) d1 (Z.of_nat (S (length l))) [];
             integer.or_first out 0x20
        else if simple8b.MAX_VALUE <? foldr Z.max 0 ds
        then Ok (0 :: ((u64 x :: ds) ≫= to_be_bytes 8))
        else div ← find_divs ds MAX_DIV;
             out ← integer.or_first [0x10] (log10 div);
             simple8b.encode (if 1 <? div then map (fun d => d / div) ds else ds)
               (out ++ to_be_bytes 8 (u64 x))
    | [] => simple8b.encode [] (0x1c :: to_be_bytes 8 (u64 x))
    end.
Proof.
  intros ds. unfold encode. cbn [length Nat.eqb].
  assert (length ds = length l) as Hds by apply deltas.length_adj.
  assert (length (i64_to_u64_vector (x :: l)) = S (length l)) as Hlen
    by (unfold i64_to_u64_vector; by rewrite length_map).
  rewrite Hlen, Nat.sub_succ, Nat.sub_0_r, ts_deltas_vector. fold ds.
  destruct ds as [|d1 rest], l as [|y l]; try done. cbn [length Nat.ltb Nat.leb]. run.
  rewrite deltas.all_equal_spec. run. rewrite get_0. run.
  destruct (forallb (Z.eqb d1) rest).
  { rewrite get_1. run. cbn [length] in *. injection Hds as ->. done. }
  destruct (simple8b.MAX_VALUE <? _); [done|]. cbn [drop].
  destruct (find_divs _ _) as [div| | |]; [run|done..].
  cbn [app]. change (Z.shiftl (Encoding_as_u8 Simple8b) 4) with 16.
  destruct (integer.or_first [16] (log10 div)) as [o| | |]; [run|done..].
  destruct (1 <? div); cbn [take map app]; by rewrite slice_from_1.
Qed.

Lemma ts_decode_byte b s dst :
  decode (b :: s) dst =
    if Z.shiftr b 4 =? 0 then decode_uncompressed s dst
    else if Z.shiftr b 4 =? 2 then decode_rle (b :: s) dst
    else if Z.shiftr b 4 =? 1 then decode_simple8b (b :: s) dst
    else Err "invalid block encoding"%string.
Proof.
  unfold decode. cbn [length Nat.eqb]. rewrite get_0. run. by rewrite slice_from_1.
Qed.

Lemma rle_roundtrip x l d1 rest :
  Forall is_i64 (x :: l) -> Z.of_nat (length (x :: l)) < U64 ->
  deltas.adj wrapping_delta (x :: l) = d1 :: rest -> forallb (Z.eqb d1) rest = true ->
  exists bytes, (out ← encode_rle (u64 x) d1 (Z.of_nat (S (length l))) [];
                 integer.or_first out 0x20) = Ok bytes /\
    decode bytes [] = Ok (x :: l) /\ (length bytes <= 29)%nat.
Proof.
  intros Hl Hlen Hds Hall. pose proof (ts_deltas_u64 (x :: l)) as Hu. rewrite Hds in Hu.
  assert (is_u64 (Z.of_nat (S (length l)))) as Hc by (cbn [length] in Hlen; range).
  assert (is_u64 d1) as Hd1 by (by inversion Hu).
  destruct (ts_encode_rle_spec (u64 x) d1 (Z.of_nat (S (length l)))) as (k & Hk & Hdiv & ->); [done..|].
  run. unfold integer.or_first. rewrite get_0. run. rewrite set_0. eexists. split; [reflexivity|].
  destruct (header_spec k 2 Hk (or_intror eq_refl)) as (Hor & _ & Hsh & _).
  change 32 with (Z.shiftl 2 4). rewrite Hor, ts_decode_byte, Hsh. cbn [Z.eqb Pos.eqb].
  change (16 * 2) with 32. rewrite ts_decode_rle_spec by auto with cnos.
  rewrite Nat2Z.id, i64_u64, (i64_id x) by (by inversion Hl). rewrite app_nil_l.
  rewrite orbit_wrapping_delta; [|done|rewrite Hds; constructor; [done|by apply deltas.forallb_eqb]].
  split; [done|]. cbn [length]. rewrite !length_app, length_to_be_bytes.
  pose proof (var_bytes_length_u64 (d1 / pow10 k) (divided_u64 _ _ Hd1)).
  pose proof (var_bytes_length_u64 _ Hc). unfold MAX_VAR_INT_64 in *. lia.
Qed.

Lemma packed_roundtrip x l :
  Forall is_i64 (x :: l) -> overflow_checks = false \/ Forall is_i64 (deltas.adj Z.sub (x :: l)) ->
  let ds := deltas.adj wrapping_delta (x :: l) in
  Forall (fun v => v <= simple8b.MAX_VALUE) ds ->
  exists bytes, (div ← find_divs ds MAX_DIV;
                 out ← integer.or_first [0x10] (log10 div);
                 simple8b.encode (if 1 <? div then map (fun d => d / div) ds else ds)
                   (out ++ to_be_bytes 8 (u64 x))) = Ok bytes /\
    decode bytes [] = Ok (x :: l) /\ (length bytes <= 1 + 8 * length (x :: l))%nat.
Proof.
  intros Hl Hno ds Hmax. assert (length ds = length l) as Hds by apply deltas.length_adj.
  destruct (find_divs_spec ds 12 (le_n _)) as (k & Hk & Hf & Hdiv).
  change MAX_DIV with (pow10 12). rewrite Hf. run. rewrite log10_pow10 by lia.
  unfold integer.or_first. rewrite get_0. run. rewrite set_0. run.
  destruct (header_spec k 1 Hk (or_introl eq_refl)) as (_ & Hor & Hsh & _).
  change 16 with (Z.shiftl 1 4) at 1. rewrite Hor.
  assert ((if 1 <? pow10 k then map (fun d => d / pow10 k) ds else ds) =
          map (fun d => d / pow10 k) ds) as ->.
  { destruct (Z.ltb_spec 1 (pow10 k)); [done|]. pose proof (pow10_pos k).
    replace (pow10 k) with 1 by lia. rewrite (map_ext _ id); [by rewrite map_id|].
    intros. apply Z.div_1_r. }
  assert (Forall is_u64 ds) as Hu by apply ts_deltas_u64.
  destruct (simple8b.roundtrip_app (map (fun d => d / pow10 k) ds)
              ([16 * 1 + Z.of_nat k] ++ to_be_bytes 8 (u64 x)) []) as (b & He & Hd & _ & Hlb).
  { apply Forall_map. rewrite Forall_forall in *. intros d Hin. pose proof (pow10_pos k).
    specialize (Hu d Hin). specialize (Hmax d Hin). unfold is_u64 in Hu.
    split; [apply Z.div_pos; lia|]. etrans; [|exact Hmax]. apply Z.div_le_upper_bound; nia. }
  rewrite He. eexists. split; [reflexivity|]. cbn [app].
  rewrite ts_decode_byte, Hsh. cbn [Z.eqb]. change (16 * 1) with 16.
  split; [by eapply ts_decode_simple8b_spec|].
  rewrite length_map in Hlb. cbn [length]. rewrite length_app, length_to_be_bytes. lia.
Qed.

End formats.

(** ** Correctness *)

Lemma timestamp_roundtrip {V : VarInt} {L : VarIntLaws V} {P : BuildProfile} src dst :
  Forall is_i64 src -> Z.of_nat (length src) < U64 ->
  overflow_checks = false \/ Forall is_i64 (deltas.adj Z.sub src) ->
  exists bytes, encode src dst = Ok bytes /\ decode bytes [] = Ok src /\
    (length bytes <= Nat.max 29 (1 + 8 * length src))%nat.
Proof.
  intros Hl Hlen Hno. destruct src as [|x l]; [exists []; split_and!; [done|done|simpl; lia]|].
  pose proof (packed_roundtrip x l Hl Hno) as Hpack. cbv zeta in Hpack.
  rewrite ts_encode_cons. set (ds := deltas.adj wrapping_delta (x :: l)) in *.
  destruct ds as [|d1 rest] eqn:Eds.
  { destruct (Hpack ltac:(constructor)) as (b & Hb & ? & ?). exists b. split_and!; [exact Hb|done|lia]. }
  destruct (forallb (Z.eqb d1) rest) eqn:Hall.
  { destruct (rle_roundtrip x l d1 rest Hl Hlen Eds Hall) as (b & ? & ? & ?).
    exists b. split_and!; [done|done|lia]. }
  rewrite <- Eds in *. destruct (Z.ltb_spec simple8b.MAX_VALUE (foldr Z.max 0 ds)) as [Hbig|Hsmall].
  - eexists. split; [reflexivity|]. rewrite ts_decode_byte. cbn [Z.shiftr Z.shiftl Z.eqb].
    split; [by apply ts_decode_uncompressed_spec|].
    cbn [length]. rewrite deltas.length_be_words. cbn [length].
    unfold ds. rewrite deltas.length_adj. lia.
  - apply deltas.foldr_max_le in Hsmall as [_ Hsmall].
    destruct (Hpack Hsmall) as (b & ? & ? & ?). exists b. split_and!; [done|done|lia].
Qed.

(** C20. Encoding then decoding a block of timestamps gives it back, whichever
    format and divisor the encoder picks; the block is at most the raw words
    plus a header byte, or the 29 bytes of a run.  In a build with overflow checks
    the adjacent differences must not overflow. *)
Theorem encode_decode_timestamp {V : VarInt} {L : VarIntLaws V} {P : BuildProfile} src dst :
  Forall is_i64 src -> Z.of_nat (length src) < U64 ->
  overflow_checks = false \/ Forall is_i64 (deltas.adj Z.sub src) ->
  exists bytes, encode src dst = Ok bytes /\ decode bytes [] = Ok src /\
    (length bytes <= Nat.max 29 (1 + 8 * length src))%nat.
Proof. apply timestamp_roundtrip. Qed.

Lemma encode_decode_timestamp_witness :
  let profile : BuildProfile := true in
  exists bytes, encode (V := leb128.varint) [1000; 4000; 9000] [1] = Ok bytes /\
    decode (V := leb128.varint) (P := profile) bytes [] = Ok [1000; 4000; 9000] /\
    (length bytes <= 29)%nat.
Proof.
  intros profile.
  apply (encode_decode_timestamp (V := leb128.varint) (P := profile) [1000; 4000; 9000] [1]).
  - repeat constructor; vm_compute; easy.
  - vm_compute. easy.
  - right. repeat constructor; vm_compute; easy.
Defined.

End timestamp.
