(* ===== verification/Bits.v ===== *)
(** * Bit strings

    Bytes and words read most significant bit first, as the boolean and float
    codecs do.  [zbits k x] are the [k] low bits of [x], [top k x] the [k] high
    bits of a 64-bit word, [bits_of l] the bits of a byte string, and [bit l p]
    its bit at position [p] (false past the end). *)
From S2P Require Import Prelude.

Definition zbits (k : nat) (x : Z) : list bool :=
  map (fun j => Z.testbit x (Z.of_nat k - 1 - Z.of_nat j)) (seq 0 k).

Definition top (k : nat) (c : Z) : list bool :=
  map (fun j => Z.testbit c (63 - Z.of_nat j)) (seq 0 k).

Definition bits_of (l : list Z) : list bool := l ≫= zbits 8.

Definition bit (l : list Z) (p : nat) : bool :=
  match l !! (p / 8)%nat with
  | Some b => Z.testbit b (7 - Z.of_nat (p mod 8))
  | None => false
  end.

Lemma mod8 p : (p mod 8 < 8)%nat.
Proof. apply Nat.mod_upper_bound. lia. Qed.

Lemma div8 p : p = (p / 8 * 8 + p mod 8)%nat.
Proof. pose proof (Nat.div_mod_eq p 8). lia. Qed.

(** A position as a byte and a bit. *)
Lemma split8 i r : (r < 8)%nat -> ((i * 8 + r) / 8 = i /\ (i * 8 + r) mod 8 = r)%nat.
Proof.
  intros. rewrite Nat.add_comm, Nat.div_add, Nat.Div0.mod_add by lia.
  by rewrite Nat.div_small, Nat.mod_small.
Qed.

Lemma length_zbits k x : length (zbits k x) = k.
Proof. unfold zbits. by rewrite length_map, length_seq. Qed.

Lemma length_top k x : length (top k x) = k.
Proof. unfold top. by rewrite length_map, length_seq. Qed.

Lemma zbits_lookup k x j :
  (j < k)%nat -> zbits k x !! j = Some (Z.testbit x (Z.of_nat k - 1 - Z.of_nat j)).
Proof. intros. unfold zbits. by rewrite list_lookup_fmap, lookup_seq_lt. Qed.

Lemma top_lookup k x j : (j < k)%nat -> top k x !! j = Some (Z.testbit x (63 - Z.of_nat j)).
Proof. intros. unfold top. by rewrite list_lookup_fmap, lookup_seq_lt. Qed.

(** Two ways to prove that a bit string is [zbits] or [top]. *)
Lemma zbits_ext k x y :
  (forall i, 0 <= i < Z.of_nat k -> Z.testbit x i = Z.testbit y i) -> zbits k x = zbits k y.
Proof.
  intros H. apply list_eq. intros j. destruct (Nat.lt_ge_cases j k).
  - rewrite !zbits_lookup by done. f_equal. apply H. lia.
  - by rewrite !lookup_ge_None_2 by (rewrite length_zbits; lia).
Qed.

Lemma zbits_eq_top k x c :
  (forall i, 0 <= i < Z.of_nat k -> Z.testbit x i = Z.testbit c (64 - Z.of_nat k + i)) ->
  zbits k x = top k c.
Proof.
  intros H. apply list_eq. intros j. destruct (Nat.lt_ge_cases j k).
  - rewrite zbits_lookup, top_lookup by done. f_equal. rewrite H by lia. f_equal. lia.
  - by rewrite !lookup_ge_None_2 by (rewrite ?length_zbits, ?length_top; lia).
Qed.

Lemma zbits_testbit k x y i :
  zbits k x = zbits k y -> 0 <= i < Z.of_nat k -> Z.testbit x i = Z.testbit y i.
Proof.
  intros Heq Hi. set (j := Z.to_nat (Z.of_nat k - 1 - i)).
  assert (zbits k x !! j = zbits k y !! j) as Hj by (by rewrite Heq).
  rewrite !zbits_lookup in Hj by lia. injection Hj as Hj.
  by replace (Z.of_nat k - 1 - Z.of_nat j) with i in Hj by lia.
Qed.

(** Masking a word whose low bits are those of a small number gives it back. *)
Lemma zbits_mod k x y :
  zbits k x = zbits k y -> 0 <= y < 2 ^ Z.of_nat k -> Z.land x (Z.ones (Z.of_nat k)) = y.
Proof.
  intros Heq Hy. apply Z.bits_inj'. intros i Hi. rewrite Z.land_spec, Z.testbit_ones_nonneg by lia.
  destruct (Z.ltb_spec i (Z.of_nat k)).
  - rewrite andb_true_r. by apply (zbits_testbit k).
  - rewrite andb_false_r. symmetry. apply (testbit_above y (Z.of_nat k)); lia.
Qed.

Lemma zbits_app a b x :
  zbits (a + b) x = zbits a (Z.shiftr x (Z.of_nat b)) ++ zbits b x.
Proof.
  apply list_eq. intros j. destruct (Nat.lt_ge_cases j (a + b)) as [Hj|Hj].
  - rewrite zbits_lookup by done. destruct (Nat.lt_ge_cases j a).
    + rewrite lookup_app_l by (by rewrite length_zbits). rewrite zbits_lookup by done.
      rewrite Z.shiftr_spec by lia. do 2 f_equal. lia.
    + rewrite lookup_app_r by (rewrite length_zbits; lia). rewrite length_zbits, zbits_lookup by lia.
      do 2 f_equal. lia.
  - by rewrite !lookup_ge_None_2 by (rewrite ?length_app, !length_zbits; lia).
Qed.

Lemma length_bits_of l : length (bits_of l) = (8 * length l)%nat.
Proof.
  induction l as [|b l IH]; [done|]. unfold bits_of in *. cbn [mbind list_bind].
  rewrite length_app, length_zbits. cbn [length mbind] in *. lia.
Qed.

Lemma bits_of_app l1 l2 : bits_of (l1 ++ l2) = bits_of l1 ++ bits_of l2.
Proof. unfold bits_of. apply bind_app. Qed.

Lemma bits_of_lookup l p : (p < 8 * length l)%nat -> bits_of l !! p = Some (bit l p).
Proof.
  revert p. induction l as [|v l IH]; intros p Hp; cbn [length] in Hp; [lia|].
  change (bits_of (v :: l)) with (zbits 8 v ++ bits_of l). unfold bit.
  destruct (Nat.lt_ge_cases p 8).
  - rewrite lookup_app_l by (by rewrite length_zbits). rewrite zbits_lookup by done.
    by rewrite Nat.div_small, Nat.mod_small by done.
  - rewrite lookup_app_r by (by rewrite length_zbits). rewrite length_zbits.
    assert (exists q, p = q + 1 * 8)%nat as [q ->] by (exists (p - 8)%nat; lia).
    replace (q + 1 * 8 - 8)%nat with q by lia. rewrite IH by lia. unfold bit.
    rewrite Nat.div_add, Nat.Div0.mod_add by lia. by rewrite Nat.add_1_r.
Qed.

Lemma bit_past l p : (8 * length l <= p)%nat -> bit l p = false.
Proof.
  intros Hp. unfold bit. rewrite lookup_ge_None_2; [done|].
  pose proof (div8 p). pose proof (mod8 p). lia.
Qed.

Lemma bit_drop l k p : bit (drop k l) p = bit l (k * 8 + p)%nat.
Proof.
  unfold bit. rewrite lookup_drop.
  rewrite (Nat.add_comm (k * 8)), Nat.div_add, Nat.Div0.mod_add by lia. by rewrite Nat.add_comm.
Qed.

Lemma bit_take l k p : (p / 8 < k)%nat -> bit (take k l) p = bit l p.
Proof. intros. unfold bit. by rewrite lookup_take_lt. Qed.

(** Appending zero bytes changes no bit. *)
Lemma bit_app_zeros l k p : bit (l ++ replicate k 0) p = bit l p.
Proof.
  unfold bit. destruct (Nat.lt_ge_cases (p / 8) (length l)) as [Hlt|Hge].
  - by rewrite lookup_app_l.
  - rewrite lookup_app_r, (lookup_ge_None_2 l) by done.
    destruct (replicate k 0 !! _) eqn:E; [|done]. apply lookup_replicate_1 in E as [-> _].
    apply Z.bits_0.
Qed.

Lemma bits_of_be_bytes n v : bits_of (to_be_bytes n v) = zbits (8 * n) v.
Proof.
  revert v. induction n as [|n IH]; intros v; [done|].
  assert (to_be_bytes (S n) v = to_be_bytes n (v / 256) ++ [v mod 256]) as -> by done.
  rewrite bits_of_app, IH. change (bits_of [v mod 256]) with (zbits 8 (v mod 256) ++ []).
  rewrite app_nil_r. replace (8 * S n)%nat with (8 * n + 8)%nat by lia. rewrite zbits_app.
  rewrite Z.shiftr_div_pow2 by lia. f_equal. apply zbits_ext. intros i Hi.
  change 256 with (2 ^ 8). by rewrite Z.mod_pow2_bits_low by lia.
Qed.

Lemma bits_of_from_be bs :
  Forall is_u8 bs -> bits_of bs = zbits (8 * length bs) (from_be_bytes bs).
Proof.
  intros Hb. rewrite <- (to_from_be_bytes (length bs) bs eq_refl Hb) at 1. apply bits_of_be_bytes.
Qed.

(** ** Positions of a written word *)

(** [or]ing a byte. *)
Lemma bit_or l i b x p :
  l !! i = Some b ->
  bit (<[i := Z.lor b (u8 x)]> l) p =
    bit l p || ((p / 8 =? i)%nat && Z.testbit x (7 - Z.of_nat (p mod 8))).
Proof.
  intros Hb. pose proof (lookup_lt_Some _ _ _ Hb). pose proof (mod8 p). unfold bit.
  destruct (Nat.eqb_spec (p / 8) i) as [He|Hne].
  - rewrite He, list_lookup_insert_eq, Hb by done. rewrite Z.lor_spec. cbn [andb]. f_equal.
    unfold u8. change 256 with (2 ^ 8). by rewrite Z.mod_pow2_bits_low by lia.
  - rewrite list_lookup_insert_ne by done. by rewrite orb_false_r.
Qed.

(** Copying the bytes of a word at a byte boundary. *)
Lemma bit_copy l k v p :
  (k + 8 <= length l)%nat ->
  bit (take k l ++ to_be_bytes 8 v ++ drop (k + length (to_be_bytes 8 v)) l) p =
    if decide (k * 8 <= p < k * 8 + 64)%nat
    then Z.testbit v (63 - (Z.of_nat p - 8 * Z.of_nat k)) else bit l p.
Proof.
  intros Hk. rewrite length_to_be_bytes. pose proof (div8 p). pose proof (mod8 p).
  assert (length (take k l) = k) as Ht by (rewrite length_take; lia).
  destruct (decide (k * 8 <= p < k * 8 + 64)%nat) as [Hin|Hout].
  - pose proof (bits_of_lookup (to_be_bytes 8 v) (p - k * 8)) as Hl.
    rewrite length_to_be_bytes, bits_of_be_bytes, zbits_lookup in Hl by lia.
    specialize (Hl ltac:(lia)). injection Hl as Hl.
    replace (63 - (Z.of_nat p - 8 * Z.of_nat k)) with (Z.of_nat 64 - 1 - Z.of_nat (p - k * 8)) by lia.
    rewrite Hl. unfold bit. assert ((p - k * 8) / 8 = p / 8 - k /\ (p - k * 8) mod 8 = p mod 8)%nat as [-> ->].
    { replace (p - k * 8)%nat with ((p / 8 - k) * 8 + p mod 8)%nat by lia. by apply split8. }
    rewrite lookup_app_r, Ht by lia. rewrite lookup_app_l by (rewrite length_to_be_bytes; lia). done.
  - unfold bit. destruct (Nat.lt_ge_cases (p / 8) k).
    + by rewrite lookup_app_l, lookup_take_lt by lia.
    + rewrite lookup_app_r, Ht by lia. rewrite lookup_app_r by (rewrite length_to_be_bytes; lia).
      rewrite length_to_be_bytes, lookup_drop.
      by replace (k + 8 + (p / 8 - k - 8))%nat with (p / 8)%nat by lia.
Qed.

Lemma bits_of_take k l : bits_of (take k l) = take (8 * k) (bits_of l).
Proof.
  destruct (Nat.le_gt_cases k (length l)).
  - rewrite <- (take_drop k l) at 2. rewrite bits_of_app, take_app_le.
    + symmetry. apply take_ge. rewrite length_bits_of, length_take. lia.
    + rewrite length_bits_of, length_take. lia.
  - rewrite !take_ge; rewrite ?length_bits_of; lia || done.
Qed.

Lemma bits_of_drop k l : bits_of (drop k l) = drop (8 * k) (bits_of l).
Proof.
  destruct (Nat.le_gt_cases k (length l)).
  - rewrite <- (take_drop k l) at 2. rewrite bits_of_app, drop_app_length'; [done|].
    rewrite length_bits_of, length_take. lia.
  - rewrite !drop_ge; rewrite ?length_bits_of; lia || done.
Qed.

(** Bytes whose bits are those of a number spell it. *)
Lemma from_be_of_bits bs n v :
  Forall is_u8 bs -> length bs = n -> bits_of bs = zbits (8 * n) v -> 0 <= v < 2 ^ Z.of_nat (8 * n) ->
  from_be_bytes bs = v.
Proof.
  intros Hu <- Hb Hv. rewrite bits_of_from_be in Hb by done.
  rewrite <- (zbits_mod _ _ _ Hb Hv), Z.land_ones by lia. symmetry. apply Z.mod_small.
  unfold from_be_bytes. pose proof (from_le_bytes_range (rev bs) ltac:(by apply Forall_rev)) as Hr.
  rewrite length_rev in Hr. change 256 with (2 ^ 8) in Hr. rewrite <- Z.pow_mul_r in Hr by lia.
  by replace (Z.of_nat (8 * length bs)) with (8 * Z.of_nat (length bs)) by lia.
Qed.
