(* ===== verification/BooleanCodec.v ===== *)
(** * The boolean codec (tskv/src/tsm/coders/boolean.rs)

    A header byte, the number of values as a variable-length integer, then one
    bit per value, most significant bit first.  The theorem is the round trip
    for every slice whose length takes at most eight bytes, the space the
    encoder reserves for it. *)
From S2P Require Import Prelude Varint Bits.

Module boolean.

(** ** Definitions *)

Definition HEADER_LEN : nat := 1.
Definition BOOLEAN_COMPRESSED_BIT_PACKED : Z := 1.

(** [128 >> (n & 7)]. *)
Definition bit_mask (n : nat) : Z := Z.shiftr 128 (Z.of_nat (n mod 8)).

(** [for &v in src]: set or clear bit [n] of the byte [n >> 3], then [n += 1]. *)
Fixpoint bits_loop (src : list bool) (n : nat) (dst : list Z) : outcome string (list Z * nat) :=
  match src with
  | [] => Ok (dst, n)
  | v :: src' =>
      let index := (n / 8)%nat in
      b ← get dst index;
      dst ← set dst index
        (if (v : bool) then Z.lor b (bit_mask n) else Z.land b (Z.lxor 255 (bit_mask n)));
      bits_loop src' (S n) dst
  end.

(** [let mut i = 128; while i > 0 && j < count { dst.push(v & i != 0); i >>= 1;
    j += 1 }]; [i] runs through [masks]. *)
Definition masks : list Z := [128; 64; 32; 16; 8; 4; 2; 1].

Fixpoint byte_loop (ms : list Z) (v : Z) (count j : nat) (dst : list bool) : list bool * nat :=
  match ms with
  | [] => (dst, j)
  | i :: ms' =>
      if (j <? count)%nat
      then byte_loop ms' v count (S j) (dst ++ [negb (Z.land v i =? 0)])
      else (dst, j)
  end.

(** [for &v in src { ... }]. *)
Fixpoint bytes_loop (src : list Z) (count j : nat) (dst : list bool) : list bool :=
  match src with
  | [] => dst
  | v :: src' =>
      let '(dst, j) := byte_loop masks v count j dst in
      bytes_loop src' count j dst
  end.

Section codec.
Context {V : VarInt}.

Definition encode (src : list bool) (dst : list Z) : outcome string (list Z) :=
  let dst := [] in
  if (length src =? 0)%nat then Ok dst
  else
    let size := (HEADER_LEN + 8 + (length src + 7) / 8)%nat in
    let dst := vec_resize size 0 dst in
    dst ← set dst 0 (Z.shiftl BOOLEAN_COMPRESSED_BIT_PACKED 4);
    let n := 8%nat in
    '(dst, i) ← encode_var (Z.of_nat (length src)) dst 1;
    let n := (n + i * 8)%nat in
    '(dst, n) ← bits_loop src n dst;
    let length := (n / 8)%nat in
    let length := if (0 <? n mod 8)%nat then S length else length in
    Ok (take length dst).

(** [decode(src, dst)] appends to [dst]. *)
Definition decode (src : list Z) (dst : list bool) : outcome string (list bool) :=
  if (length src =? 0)%nat then Ok dst
  else
    b ← get src 0;
    _ ← assert_ (b =? Z.shiftl BOOLEAN_COMPRESSED_BIT_PACKED 4);
    src ← slice_from src HEADER_LEN;
    '(count, num_bytes_read) ← of_option (decode_var src) "boolean decoder: invalid count"%string;
    src ← slice_from src num_bytes_read;
    let min := (length src * 8)%nat in
    let count := Nat.min min (Z.to_nat count) in
    Ok (bytes_loop src count 0 dst).

End codec.

(** ** Bits of a byte string *)

Lemma bit_mask_pow n : bit_mask n = 2 ^ (7 - Z.of_nat (n mod 8)).
Proof.
  unfold bit_mask. pose proof (mod8 n) as Hn. set (k := (n mod 8)%nat) in *.
  do 8 (destruct k as [|k]; [done|]). lia.
Qed.

(** What the two updates of [bits_loop] do to the bits of the byte. *)
Lemma testbit_update (v : bool) b n j :
  0 <= j < 8 ->
  Z.testbit (if v then Z.lor b (bit_mask n) else Z.land b (Z.lxor 255 (bit_mask n))) j =
    if j =? 7 - Z.of_nat (n mod 8) then v else Z.testbit b j.
Proof.
  intros Hj. rewrite bit_mask_pow. pose proof (mod8 n). change 255 with (Z.ones 8).
  destruct v; rewrite ?Z.lor_spec, ?Z.land_spec, ?Z.lxor_spec, Z.pow2_bits_eqb by lia;
    rewrite ?Z.testbit_ones_nonneg by lia.
  - destruct (Z.eqb_spec j (7 - Z.of_nat (n mod 8))), (Z.eqb_spec (7 - Z.of_nat (n mod 8)) j);
      rewrite ?orb_true_r, ?orb_false_r; lia || done.
  - destruct (Z.ltb_spec j 8); [|lia].
    destruct (Z.eqb_spec j (7 - Z.of_nat (n mod 8))), (Z.eqb_spec (7 - Z.of_nat (n mod 8)) j);
      rewrite ?andb_true_r, ?andb_false_r; lia || done.
Qed.

(** One iteration changes one bit of the string. *)
Lemma bit_insert (v : bool) l n b p :
  l !! (n / 8)%nat = Some b ->
  bit (<[(n / 8)%nat := if v then Z.lor b (bit_mask n)
                        else Z.land b (Z.lxor 255 (bit_mask n))]> l) p =
    if (p =? n)%nat then v else bit l p.
Proof.
  intros Hb. pose proof (lookup_lt_Some _ _ _ Hb). unfold bit.
  pose proof (Nat.div_mod_eq p 8) as Hp. pose proof (Nat.div_mod_eq n 8) as Hn.
  pose proof (mod8 p). pose proof (mod8 n).
  destruct (decide (p / 8 = n / 8)%nat) as [He|Hne].
  - rewrite He, list_lookup_insert_eq by done. rewrite testbit_update by lia.
    rewrite Hb. destruct (Z.eqb_spec (7 - Z.of_nat (p mod 8)) (7 - Z.of_nat (n mod 8)));
      destruct (Nat.eqb_spec p n); try lia; done.
  - rewrite list_lookup_insert_ne by done. destruct (Nat.eqb_spec p n); [congruence|done].
Qed.

(** The encoder's loop writes the source at the current position and nothing
    else. *)
Lemma bits_loop_spec src n dst :
  (n + length src <= 8 * length dst)%nat ->
  exists dst', bits_loop src n dst = Ok (dst', (n + length src)%nat) /\
    length dst' = length dst /\
    (forall i, (i < n / 8)%nat -> dst' !! i = dst !! i) /\
    (forall p, (p < n)%nat -> bit dst' p = bit dst p) /\
    (forall k v, src !! k = Some v -> bit dst' (n + k)%nat = v).
Proof.
  revert n dst. induction src as [|v src IH]; intros n dst Hlen; cbn [bits_loop length] in *.
  { exists dst. rewrite Nat.add_0_r. split_and!; done. }
  assert (n / 8 < length dst)%nat as Hi by (apply Nat.Div0.div_lt_upper_bound; lia).
  destruct (lookup_lt_is_Some_2 dst _ Hi) as [b Hb].
  unfold get. rewrite Hb. run. unfold set. rewrite (proj2 (Nat.ltb_lt _ _)) by done. run.
  set (dst1 := <[_ := _]> dst).
  destruct (IH (S n) dst1) as (dst' & -> & Hl & Hpre & Hbit & Hsrc).
  { unfold dst1. rewrite length_insert. lia. }
  exists dst'. split_and!; [do 2 f_equal; lia|unfold dst1 in Hl; by rewrite length_insert in Hl|..].
  - intros i Hin. assert (n / 8 <= S n / 8)%nat by (apply Nat.Div0.div_le_mono; lia).
    rewrite Hpre by lia. unfold dst1. by rewrite list_lookup_insert_ne by lia.
  - intros p Hp. rewrite Hbit by lia. unfold dst1. rewrite bit_insert by done.
    destruct (Nat.eqb_spec p n); [lia|done].
  - intros [|k] w Hw; cbn in Hw.
    + injection Hw as ->. rewrite Nat.add_0_r, Hbit by lia. unfold dst1.
      rewrite bit_insert by done. by rewrite Nat.eqb_refl.
    + rewrite Nat.add_succ_r. by apply (Hsrc k).
Qed.

(** All the bits of a byte, in the order the decoder tests them. *)
Definition byte_bits (v : Z) : list bool := map (fun i => negb (Z.land v i =? 0)) masks.

Lemma land_mask_bits v : byte_bits v = zbits 8 v.
Proof.
  unfold byte_bits, zbits, masks. cbn [map seq].
  repeat f_equal; match goal with |- negb (Z.land v ?m =? 0) = Z.testbit v ?k =>
    change m with (2 ^ k); rewrite land_pow2 by lia; apply negb_involutive end.
Qed.

Lemma byte_loop_spec ms v count j dst :
  byte_loop ms v count j dst =
    (dst ++ take (count - j) (map (fun i => negb (Z.land v i =? 0)) ms),
     (j + Nat.min (length ms) (count - j))%nat).
Proof.
  revert j dst. induction ms as [|i ms IH]; intros j dst; cbn [byte_loop map length].
  { by rewrite take_nil, app_nil_r, Nat.min_0_l, Nat.add_0_r. }
  destruct (Nat.ltb_spec j count) as [Hlt|Hge].
  - rewrite IH. replace (count - j)%nat with (S (count - S j)) by lia. cbn [take].
    rewrite <- app_assoc. f_equal. lia.
  - replace (count - j)%nat with O by lia. cbn [take]. by rewrite app_nil_r, Nat.min_0_r, Nat.add_0_r.
Qed.

Lemma bytes_loop_spec l count j dst :
  bytes_loop l count j dst = dst ++ take (count - j) (bits_of l).
Proof.
  revert j dst. induction l as [|v l IH]; intros j dst; cbn [bytes_loop].
  { change (bits_of []) with (@nil bool). by rewrite take_nil, app_nil_r. }
  rewrite byte_loop_spec, IH. change (bits_of (v :: l)) with (zbits 8 v ++ bits_of l).
  rewrite <- land_mask_bits, take_app, <- app_assoc. do 2 f_equal. f_equal.
  change (length (byte_bits v)) with 8%nat. change (length masks) with 8%nat. lia.
Qed.

(** ** Correctness *)

Section correct.
Context {V : VarInt} {L : VarIntLaws V}.

(** The bytes [encode] produces. *)
Lemma encode_spec src dst :
  src <> [] -> Z.of_nat (length src) < 2 ^ 56 ->
  exists data, encode src dst = Ok (16 :: var_bytes (Z.of_nat (length src)) ++ data) /\
    length data = ((length src + 7) / 8)%nat /\
    forall k v, src !! k = Some v -> bit data k = v.
Proof.
  intros Hne Hlen. unfold encode.
  destruct (Nat.eqb_spec (length src) 0) as [E|_]; [by destruct src|].
  set (w := Z.of_nat (length src)) in *. set (m := ((length src + 7) / 8)%nat).
  destruct (var_bytes_length w 8 ltac:(lia)) as [Hl1 Hl2]; [simpl Z.of_nat; lia|].
  set (i := length (var_bytes w)) in *.
  assert (length src <= m * 8)%nat as Hm.
  { unfold m. pose proof (Nat.div_mod_eq (length src + 7) 8). pose proof (mod8 (length src + 7)). lia. }
  change (vec_resize (HEADER_LEN + 8 + m) 0 []) with (0 :: replicate (8 + m) 0).
  rewrite set_0. run. change (Z.shiftl _ 4) with 16.
  rewrite (encode_var_app w [16] (replicate (8 + m) 0)) by (rewrite length_replicate; lia). run.
  rewrite drop_replicate. fold i.
  set (d := ([16] ++ var_bytes w) ++ replicate (8 + m - i) 0).
  assert (length d = 9 + m)%nat as Hd
    by (unfold d; rewrite !length_app, length_replicate; fold i; cbn [length]; lia).
  destruct (bits_loop_spec src (8 + i * 8) d) as (d' & -> & Hl & Hpre & _ & Hbits); [lia|]. run.
  set (n := (8 + i * 8 + length src)%nat).
  assert ((if (0 <? n mod 8)%nat then S (n / 8) else n / 8)%nat = 1 + i + m)%nat as ->.
  { unfold n, m. replace (8 + i * 8 + length src)%nat with (length src + (1 + i) * 8)%nat by lia.
    rewrite Nat.div_add, Nat.Div0.mod_add by lia.
    pose proof (Nat.div_mod_eq (length src) 8). pose proof (mod8 (length src)).
    destruct (Nat.ltb_spec 0 (length src mod 8)).
    - replace (length src + 7)%nat with (length src mod 8 - 1 + (length src / 8 + 1) * 8)%nat by lia.
      rewrite Nat.div_add, (Nat.div_small (_ - _)) by lia. lia.
    - replace (length src + 7)%nat with (7 + length src / 8 * 8)%nat by lia.
      rewrite Nat.div_add, (Nat.div_small 7) by lia. lia. }
  exists (drop (1 + i) (take (1 + i + m) d')). split_and!.
  - f_equal. rewrite <- (take_drop (1 + i) (take (1 + i + m) d')) at 1.
    change (16 :: var_bytes w ++ ?z) with (([16] ++ var_bytes w) ++ z). f_equal.
    rewrite take_take, Nat.min_l by lia.
    assert (([16] ++ var_bytes w) = take (1 + i) d) as ->.
    { unfold d. rewrite take_app_le by (rewrite length_app; done). by rewrite take_ge. }
    apply list_eq. intros k. destruct (Nat.lt_ge_cases k (1 + i)).
    + rewrite !lookup_take_lt by done. apply Hpre.
      replace (8 + i * 8)%nat with ((1 + i) * 8)%nat by lia. by rewrite Nat.div_mul by lia.
    + by rewrite !lookup_take_ge by done.
  - rewrite length_drop, length_take. lia.
  - intros k v Hk. rewrite bit_drop. pose proof (lookup_lt_Some _ _ _ Hk).
    replace ((1 + i) * 8 + k)%nat with (8 + i * 8 + k)%nat by lia.
    rewrite bit_take; [by apply Hbits|].
    apply Nat.Div0.div_lt_upper_bound. lia.
Qed.

Lemma decode_spec count data dst :
  is_u64 count ->
  decode (16 :: var_bytes count ++ data) dst =
    Ok (dst ++ take (Nat.min (length data * 8) (Z.to_nat count)) (bits_of data)).
Proof.
  intros Hc. unfold decode. cbn [length Nat.eqb]. rewrite get_0. run. unfold assert_.
  change (16 =? _) with true. run. unfold HEADER_LEN. rewrite slice_from_1. run.
  rewrite decode_var_bytes by done. run. rewrite slice_from_app by done. run.
  by rewrite bytes_loop_spec, Nat.sub_0_r.
Qed.

Lemma boolean_roundtrip src dst dst' :
  src <> [] -> Z.of_nat (length src) < 2 ^ 56 ->
  exists bytes, encode src dst = Ok bytes /\ decode bytes dst' = Ok (dst' ++ src) /\
    (length bytes <= 9 + (length src + 7) / 8)%nat.
Proof.
  intros Hne Hlen. destruct (encode_spec src dst Hne Hlen) as (data & He & Hl & Hbits).
  eexists. split; [exact He|]. assert (length src <= length data * 8)%nat as Hm.
  { rewrite Hl. pose proof (Nat.div_mod_eq (length src + 7) 8). pose proof (mod8 (length src + 7)). lia. }
  destruct (var_bytes_length (Z.of_nat (length src)) 8 ltac:(lia)) as [Hl1 Hl2]; [simpl Z.of_nat; lia|].
  split; [|cbn [length]; rewrite length_app; lia].
  rewrite decode_spec by range. rewrite Nat2Z.id, Nat.min_r by done. do 2 f_equal.
  apply list_eq. intros k. destruct (src !! k) as [v|] eqn:Hk.
  - pose proof (lookup_lt_Some _ _ _ Hk). rewrite lookup_take_lt, bits_of_lookup by lia.
    by rewrite (Hbits k v Hk).
  - apply lookup_ge_None in Hk. by rewrite lookup_take_ge.
Qed.

(** Encoding then decoding a slice of booleans appends the slice to the
    decoder's destination, and the encoding takes one bit per value, rounded up
    to a byte, after the header. *)
Theorem encode_decode_boolean src dst dst' :
  src <> [] -> Z.of_nat (length src) < 2 ^ 56 ->
  exists bytes, encode src dst = Ok bytes /\ decode bytes dst' = Ok (dst' ++ src) /\
    (length bytes <= 9 + (length src + 7) / 8)%nat.
Proof. apply boolean_roundtrip. Qed.

End correct.

Lemma encode_decode_boolean_witness :
  exists bytes, encode (V := leb128.varint) [true; false; true] [] = Ok bytes /\
    decode (V := leb128.varint) bytes [false] = Ok ([false] ++ [true; false; true]) /\
    (length bytes <= 10)%nat.
Proof.
  apply (encode_decode_boolean (V := leb128.varint) [true; false; true] [] [false]);
    [discriminate|vm_compute; easy].
Defined.

End boolean.
