(* ===== verification/StringCodec.v ===== *)
(** * The string codec (tskv/src/tsm/coders/string.rs)

    Length-prefixed byte strings, concatenated and compressed with Snappy.  The
    [snap] crate is not part of the repository: [Snap] is the part of its
    interface the codec calls and [SnapLaws] what its documentation promises.
    The theorems give the round trip and the two ways the encoder refuses its
    input. *)
From S2P Require Import Prelude Varint.

(** [max_compress_len], [Encoder::compress] and [Decoder::decompress_vec].
    [compress data] is what the encoder writes at the front of its output. *)
Class Snap := {
  max_compress_len : nat -> nat;
  compress : list Z -> list Z;
  decompress_vec : list Z -> outcome string (list Z)
}.

Class SnapLaws (Sn : Snap) : Prop := {
  (** A bound for a buffer is a bound for every shorter one. *)
  max_compress_len_mono n m : (n <= m)%nat -> max_compress_len m <> O ->
    max_compress_len n <> O /\ (max_compress_len n <= max_compress_len m)%nat;
  compress_length data : max_compress_len (length data) <> O ->
    (length (compress data) <= max_compress_len (length data))%nat;
  decompress_compress data : max_compress_len (length data) <> O ->
    decompress_vec (compress data) = Ok data
}.

Module string_codec.

(** ** Definitions *)

Definition STRING_COMPRESSED_SNAPPY : Z := 1.
Definition HEADER_LEN : nat := 1.
(** [i32::MAX as usize]. *)
Definition MAX_I32 : Z := 2 ^ 31 - 1.

(** [src.iter().map(|s| { assert!(len < MAX_I32); len }).sum()]. *)
Fixpoint sum_of_lengths (src : list (list Z)) : outcome string nat :=
  match src with
  | [] => Ok O
  | s :: src' =>
      _ ← assert_ (Z.of_nat (length s) <? MAX_I32);
      n ← sum_of_lengths src';
      Ok (length s + n)%nat
  end.

Section codec.
Context {V : VarInt} {Sn : Snap} {P : BuildProfile}.

(** [for s in src { ... }] on the buffer [data], from offset [n]. *)
Fixpoint write_loop (src : list (list Z)) (n : nat) (data : list Z) : outcome string (list Z * nat) :=
  match src with
  | [] => Ok (data, n)
  | s :: src' =>
      '(data, k) ← encode_var (Z.of_nat (length s)) data n;
      let n := (n + k)%nat in
      data ← copy_at data n s;
      write_loop src' (n + length s) data
  end.

(** [encoder.compress(data, out)]: an output shorter than the documented bound is
    refused. *)
Definition compress_into (data out : list Z) : outcome string (list Z * nat) :=
  if (max_compress_len (length data) =? 0)%nat || (length out <? max_compress_len (length data))%nat
  then Err "snappy: output buffer too small"%string
  else out ← copy_at out 0 (compress data); Ok (out, length (compress data)).

(** [encode(src, dst)]; the previous contents of [dst] are cleared. *)
Definition encode (src : list (list Z)) (dst : list Z) : outcome string (list Z) :=
  let dst := [] in
  if (length src =? 0)%nat then Ok dst
  else
    let length_of_lengths := (length src * MAX_VAR_INT_32)%nat in
    sum ← sum_of_lengths src;
    let source_size := (2 + length_of_lengths + sum)%nat in
    let max_encoded_len := max_compress_len source_size in
    if (max_encoded_len =? 0)%nat then Err "source length too large"%string
    else
      let compressed_size := (max_encoded_len + HEADER_LEN)%nat in
      let total_size := (source_size + compressed_size)%nat in
      let dst := if (length dst <? total_size)%nat then vec_resize total_size 0 dst else dst in
      let compressed_data := take compressed_size dst in
      let data := drop compressed_size dst in
      '(data, n) ← write_loop src 0 data;
      input ← slice data 0 n;
      let header := take HEADER_LEN compressed_data in
      let compressed_data := drop HEADER_LEN compressed_data in
      header ← set header 0 (Z.shiftl STRING_COMPRESSED_SNAPPY 4);
      '(compressed_data, actual_compressed_size) ← compress_into input compressed_data;
      Ok (take (HEADER_LEN + actual_compressed_size) (header ++ compressed_data ++ data)).

(** [while i < num_decoded_bytes { ... }]; the offsets are [usize]. *)
Fixpoint read_loop (fuel : nat) (decoded_bytes : list Z) (i : Z) (dst : list (list Z))
    : outcome string (list (list Z)) :=
  let num_decoded_bytes := Z.of_nat (length decoded_bytes) in
  if i <? num_decoded_bytes then
    match fuel with
    | O => OutOfFuel
    | S fuel' =>
        s ← slice_from decoded_bytes (Z.to_nat i);
        '(length, num_bytes_read) ← of_option (decode_var s) "invalid encoded string length"%string;
        lower ← add_u64 i (Z.of_nat num_bytes_read);
        upper ← add_u64 lower length;
        if upper <? lower then Err "length overflow"%string
        else if num_decoded_bytes <? upper then Err "short buffer"%string
        else
          str ← slice decoded_bytes (Z.to_nat lower) (Z.to_nat upper);
          step ← add_u64 length (Z.of_nat num_bytes_read);
          i ← add_u64 i step;
          read_loop fuel' decoded_bytes i (dst ++ [str])
    end
  else Ok dst.

(** [decode(src, dst)] appends to [dst]; every iteration reads at least the byte
    of a length, so [decoded_bytes.len()] iterations are enough. *)
Definition decode (src : list Z) (dst : list (list Z)) : outcome string (list (list Z)) :=
  if (length src =? 0)%nat then Ok dst
  else
    s ← slice_from src HEADER_LEN;
    decoded_bytes ← decompress_vec s;
    read_loop (length decoded_bytes) decoded_bytes 0 dst.

End codec.

(** ** The uncompressed payload *)

Definition payload {V : VarInt} (src : list (list Z)) : list Z :=
  src ≫= fun s => var_bytes (Z.of_nat (length s)) ++ s.

Section correct.
Context {V : VarInt} {L : VarIntLaws V} {Sn : Snap} {SL : SnapLaws Sn} {P : BuildProfile}.

Definition short (s : list Z) : Prop := Z.of_nat (length s) < MAX_I32.

Lemma sum_of_lengths_ok src :
  Forall short src -> sum_of_lengths src = Ok (list_sum (map length src)).
Proof.
  induction 1 as [|s src Hs _ IH]; [done|]. cbn [sum_of_lengths map list_sum foldr].
  unfold short in Hs. rewrite (proj2 (Z.ltb_lt _ _)) by done. cbn [assert_]. run. by rewrite IH.
Qed.

Lemma sum_of_lengths_panic src : Exists (fun s => ~ short s) src -> sum_of_lengths src = Panic.
Proof.
  induction 1 as [s src Hs|s src _ IH]; cbn [sum_of_lengths]; unfold assert_.
  - unfold short in Hs. by rewrite (proj2 (Z.ltb_ge _ _)) by lia.
  - destruct (_ <? _); [|done]. run. by rewrite IH.
Qed.

Lemma short_var_length s : short s -> (1 <= length (var_bytes (Z.of_nat (length s))) <= 5)%nat.
Proof.
  intros Hs. apply var_bytes_length; [lia|]. unfold short, MAX_I32 in Hs. simpl Z.of_nat. lia.
Qed.

Lemma short_u64 s : short s -> is_u64 (Z.of_nat (length s)).
Proof. unfold short, MAX_I32. range. Qed.

Lemma length_payload src :
  Forall short src ->
  (length (payload src) <= length src * MAX_VAR_INT_32 + list_sum (map length src))%nat.
Proof.
  induction 1 as [|s src Hs _ IH]; [done|]. pose proof (short_var_length s Hs).
  change (payload (s :: src)) with ((var_bytes (Z.of_nat (length s)) ++ s) ++ payload src).
  cbn [length map].
  change (list_sum (length s :: map length src)) with (length s + list_sum (map length src))%nat.
  rewrite !length_app. unfold MAX_VAR_INT_32 in *. lia.
Qed.

(** The writing loop lays the payload out at the current offset. *)
Lemma write_loop_spec src pre room :
  Forall short src -> (length (payload src) <= length room)%nat ->
  exists rest, write_loop src (length pre) (pre ++ room) =
    Ok ((pre ++ payload src) ++ rest, (length pre + length (payload src))%nat).
Proof.
  intros Hs. revert pre room. induction Hs as [|s src Hs _ IH]; intros pre room Hl.
  { exists room. cbn. by rewrite app_nil_r, Nat.add_0_r. }
  change (payload (s :: src)) with ((var_bytes (Z.of_nat (length s)) ++ s) ++ payload src) in *.
  rewrite !length_app in Hl. cbn [write_loop].
  set (w := var_bytes _) in *. rewrite encode_var_app by (fold w; lia). fold w. run.
  rewrite <- length_app.
  rewrite copy_at_ok by (rewrite (length_app (pre ++ w)), length_drop; lia). run.
  rewrite take_app_length, drop_app_add. rewrite app_assoc, <- length_app.
  destruct (IH ((pre ++ w) ++ s) (drop (length s) (drop (length w) room))) as [rest ->].
  { rewrite !length_drop. lia. }
  exists rest. rewrite <- !app_assoc, !length_app. do 2 f_equal. lia.
Qed.

(** The reading loop undoes it. *)
Lemma read_loop_spec fuel src pre dst :
  Forall short src -> (length (payload src) <= fuel)%nat ->
  is_u64 (Z.of_nat (length (pre ++ payload src))) ->
  read_loop fuel (pre ++ payload src) (Z.of_nat (length pre)) dst = Ok (dst ++ src).
Proof.
  intros Hs. revert fuel pre dst. induction Hs as [|s src Hs _ IH]; intros fuel pre dst Hf Hu.
  { unfold payload. cbn [mbind list_bind]. rewrite !app_nil_r.
    destruct fuel; cbn [read_loop]; by rewrite Z.ltb_irrefl. }
  change (payload (s :: src)) with ((var_bytes (Z.of_nat (length s)) ++ s) ++ payload src) in *.
  pose proof (short_var_length s Hs) as Hw. pose proof (short_u64 s Hs).
  set (w := var_bytes _) in *. rewrite !length_app in Hf.
  destruct fuel as [|fuel]; [lia|]. cbn [read_loop].
  rewrite !length_app in *. rewrite (proj2 (Z.ltb_lt _ _)) by lia.
  rewrite Nat2Z.id, slice_from_app by done. run.
  assert (forall rest, decode_var (w ++ rest) = Some (Z.of_nat (length s), length w)) as Hdv
    by (intros; by apply decode_var_bytes).
  rewrite <- app_assoc, Hdv. run.
  do 3 (rewrite add_u64_ok by range; run).
  rewrite (proj2 (Z.ltb_ge _ _)) by lia. rewrite (proj2 (Z.ltb_ge _ _)) by lia.
  rewrite <- !Nat2Z.inj_add, !Nat2Z.id.
  rewrite app_assoc, slice_app_mid by (rewrite !length_app; lia). run.
  rewrite add_u64_ok by range. run. rewrite app_assoc.
  replace (Z.of_nat (length pre) + Z.of_nat (length s + length w)) with
    (Z.of_nat (length ((pre ++ w) ++ s))) by (rewrite !length_app; lia).
  rewrite IH; [by rewrite <- app_assoc|lia|]. rewrite !length_app. range.
Qed.

(** The size of the region the encoder reserves for the payload. *)
Definition source_size (src : list (list Z)) : nat :=
  (2 + length src * MAX_VAR_INT_32 + list_sum (map length src))%nat.

Lemma encode_ok src dst :
  src <> [] -> Forall short src -> max_compress_len (source_size src) <> O ->
  encode src dst = Ok (16 :: compress (payload src)).
Proof.
  intros Hne Hs Hmax. unfold encode.
  destruct (Nat.eqb_spec (length src) 0) as [E|_]; [by destruct src|].
  rewrite sum_of_lengths_ok by done. run. fold (source_size src).
  set (m := max_compress_len (source_size src)) in *.
  destruct (Nat.eqb_spec m 0) as [|_]; [done|].
  set (total := (source_size src + (m + HEADER_LEN))%nat).
  rewrite (proj2 (Nat.ltb_lt (length []) total)) by (unfold total, HEADER_LEN; simpl; lia).
  change (vec_resize total 0 []) with (replicate total 0). unfold HEADER_LEN in total.
  unfold HEADER_LEN. rewrite take_replicate, !drop_replicate.
  assert (length (payload src) <= source_size src)%nat as Hp
    by (pose proof (length_payload src Hs); unfold source_size; lia).
  destruct (write_loop_spec src [] (replicate (total - (m + 1)) 0)) as [rest Hw];
    [done|rewrite length_replicate; unfold total; lia|].
  cbn [length app Nat.add] in Hw. rewrite Hw. run.
  rewrite slice_app_prefix by done. run.
  replace (Nat.min (m + 1) total) with (S m) by (unfold total; lia).
  rewrite Nat.sub_succ, Nat.sub_0_r. cbn [replicate take]. rewrite set_0. run. unfold compress_into. rewrite length_replicate.
  destruct (max_compress_len_mono _ _ Hp Hmax) as [Hnz Hle]. fold m in Hle.
  destruct (Nat.eqb_spec (max_compress_len (length (payload src))) 0); [done|].
  rewrite (proj2 (Nat.ltb_ge m _)) by done. cbn [orb].
  pose proof (compress_length (payload src) Hnz).
  rewrite copy_at_ok by (rewrite length_replicate; lia). run.
  cbn [take app Nat.add]. do 2 f_equal. rewrite !take_0, !app_nil_l, <- app_assoc.
  by rewrite take_app_length.
Qed.

Lemma string_roundtrip src dst dst' :
  src <> [] -> Forall short src -> max_compress_len (source_size src) <> O ->
  Z.of_nat (source_size src) < U64 ->
  exists bytes, encode src dst = Ok bytes /\ decode bytes dst' = Ok (dst' ++ src).
Proof.
  intros Hne Hs Hmax Hfit. eexists. split; [by apply encode_ok|].
  assert (length (payload src) <= source_size src)%nat as Hp
    by (pose proof (length_payload src Hs); unfold source_size; lia).
  unfold decode. cbn [length Nat.eqb]. unfold HEADER_LEN. rewrite slice_from_1. run.
  destruct (max_compress_len_mono _ _ Hp Hmax) as [Hnz _].
  rewrite decompress_compress by done. run.
  apply (read_loop_spec _ src [] dst'); [done|lia|]. cbn [app]. range.
Qed.

(** Encoding then decoding a list of byte strings appends it to the
    decoder's destination, for every list whose strings are shorter than
    [i32::MAX] and whose total size Snappy accepts. *)
Theorem encode_decode_string src dst dst' :
  src <> [] -> Forall short src -> max_compress_len (source_size src) <> O ->
  Z.of_nat (source_size src) < U64 ->
  exists bytes, encode src dst = Ok bytes /\ decode bytes dst' = Ok (dst' ++ src).
Proof. apply string_roundtrip. Qed.

(** The encoder refuses its input in exactly two ways: it panics on the
    assertion when a string has [i32::MAX] bytes or more, and returns an error
    when the total size is too large for Snappy. *)
Theorem encode_refuses src dst :
  src <> [] ->
  (Exists (fun s => ~ short s) src -> encode src dst = Panic) /\
  (Forall short src -> max_compress_len (source_size src) = O ->
   encode src dst = Err "source length too large"%string).
Proof.
  intros Hne. unfold encode. destruct (Nat.eqb_spec (length src) 0) as [E|_]; [by destruct src|].
  split; [intros Hex; by rewrite sum_of_lengths_panic|].
  intros Hs Hmax. rewrite sum_of_lengths_ok by done. run. fold (source_size src). by rewrite Hmax.
Qed.

End correct.

(** ** A concrete compressor: the stored format, with Snappy's length bound *)

Definition stored : Snap := {|
  max_compress_len := fun n => if Z.of_nat n <? 2 ^ 31 then (32 + n + n / 6)%nat else O;
  compress := fun data => data;
  decompress_vec := fun data => Ok data
|}.

#[global] Instance stored_laws : SnapLaws stored.
Proof.
  constructor; cbn [stored max_compress_len compress decompress_vec].
  - intros n m Hnm. destruct (Z.ltb_spec (Z.of_nat m) (2 ^ 31)); [|done].
    destruct (Z.ltb_spec (Z.of_nat n) (2 ^ 31)); [|lia]. intros _.
    pose proof (Nat.Div0.div_le_mono n m 6 Hnm). lia.
  - intros data. destruct (_ <? _); [lia|done].
  - done.
Qed.

Lemma encode_decode_string_witness :
  let profile : BuildProfile := true in
  exists bytes, encode (V := leb128.varint) (Sn := stored) [[104; 105]; []; [33]] [7] = Ok bytes /\
    decode (V := leb128.varint) (Sn := stored) (P := profile) bytes [[1]] =
      Ok ([[1]] ++ [[104; 105]; []; [33]]).
Proof.
  intros profile.
  apply (encode_decode_string (V := leb128.varint) (Sn := stored) (P := profile)
           [[104; 105]; []; [33]] [7] [[1]]).
  - discriminate.
  - repeat constructor; vm_compute; easy.
  - vm_compute. discriminate.
  - vm_compute. easy.
Defined.

Lemma encode_refuses_witness :
  (Exists (fun s => ~ short s) [[1]] -> encode (V := leb128.varint) (Sn := stored) [[1]] [] = Panic) /\
  (Forall short [[1]] -> max_compress_len (Snap := stored) (source_size [[1]]) = O ->
   encode (V := leb128.varint) (Sn := stored) [[1]] [] = Err "source length too large"%string).
Proof. apply (encode_refuses (V := leb128.varint) (Sn := stored) [[1]] []). discriminate. Defined.

End string_codec.
