(* ===== verification/FloatCodec.v ===== *)
(** * The float codec (tskv/src/tsm/coders/float.rs)

    Gorilla encoding: every value is XORed with its predecessor; a zero bit
    stands for an equal value, otherwise the significant bits of the XOR follow,
    in the window of the previous value or in a new one.  A NaN pattern that no
    value may have ends the block.  Floats are represented by their 64 bits.

    The module [float] translates the encoder and the decoder with their byte
    buffers and their 64-bit cache.  [code] is the bit string of one value; the
    encoder writes the concatenation of the codes, the decoder's cache reads any
    bit string, and reading back a code returns the value, which gives the round
    trip. *)
From S2P Require Import Prelude Bits.

Module float.

(** ** Definitions *)

Definition SENTINEL : Z := 0x7ff80000000000ff.
Definition SENTINEL_INFLUXDB : Z := 0x7ff8000000000001.

Definition is_sentinel_u64 (v sentinel : Z) : bool := v =? sentinel.

(** [u64::leading_zeros] and [u64::trailing_zeros]. *)
Definition leading_zeros (v : Z) : Z := if v =? 0 then 64 else 63 - Z.log2 v.

Fixpoint pos_trailing_zeros (p : positive) : Z :=
  match p with
  | xO p' => 1 + pos_trailing_zeros p'
  | _ => 0
  end.
Definition trailing_zeros (v : Z) : Z :=
  match v with Zpos p => pos_trailing_zeros p | _ => 64 end.

(** [while k >= dst.len() { dst.push(0) }] and the same with [if]. *)
Definition grow (k : nat) (dst : list Z) : list Z := dst ++ replicate (S k - length dst) 0.
Definition grow1 (k : nat) (dst : list Z) : list Z :=
  if (length dst <=? k)%nat then dst ++ [0] else dst.

(** [dst[i] |= x as u8]. *)
Definition or_at (dst : list Z) (i : nat) (x : Z) : outcome string (list Z) :=
  b ← get dst i;
  set dst i (Z.lor b (u8 x)).

(** Write the [l] most significant bits of [v], [l] at most 8, at bit [n]: in the
    current byte, or in the current and the next one. *)
Definition write_short (l : nat) (v : Z) (dst : list Z) (n : nat) : outcome string (list Z * nat) :=
  let m := (n mod 8)%nat in
  let mask := Z.shiftr v 56 in
  if (m + l <=? 8)%nat then
    dst ← or_at dst (n / 8) (Z.shiftr mask (Z.of_nat m));
    Ok (dst, (n + l)%nat)
  else
    let written := (8 - m)%nat in
    dst ← or_at dst (n / 8) (Z.shiftr mask (Z.of_nat m));
    let n := (n + written)%nat in
    let mask := Z.shiftr (shl64 v (Z.of_nat written)) 56 in
    let m := (n mod 8)%nat in
    dst ← or_at dst (n / 8) (Z.shiftr mask (Z.of_nat m));
    Ok (dst, (n + (l - written))%nat).

(** Write the [l] most significant bits of [v] at bit [n]: fill the current byte,
    then copy the eight bytes of what remains. *)
Definition write_long (l : nat) (v : Z) (dst : list Z) (n : nat) : outcome string (list Z * nat) :=
  let m := (n mod 8)%nat in
  let written := if (0 <? m)%nat then (if (l <? 8 - m)%nat then l else (8 - m)%nat) else O in
  '(dst, n) ← (if (0 <? m)%nat then
     dst ← or_at dst (n / 8) (Z.shiftr (Z.shiftr v 56) (Z.of_nat m));
     Ok (dst, (n + written)%nat)
   else Ok (dst, n));
  if (0 <? m)%nat && (l - written =? 0)%nat then Ok (dst, n)
  else
    let vv := shl64 v (Z.of_nat written) in
    let dst := grow (n / 8 + 8) dst in
    let k := (n / 8)%nat in
    dst ← copy_at dst k (to_be_bytes 8 vv);
    Ok (dst, (n + (l - written))%nat).

Record enc_state := mkEnc {
  e_dst : list Z; e_n : nat; e_prev : Z; e_leading : Z; e_trailing : Z }.

(** One iteration of [for i in 1..=src.len()], with [cur] the bits of the value. *)
Definition encode_value (st : enc_state) (cur : Z) : outcome string enc_state :=
  let '(mkEnc dst n prev prev_leading prev_trailing) := st in
  let v_delta := Z.lxor cur prev in
  if v_delta =? 0 then Ok (mkEnc dst (S n) cur prev_leading prev_trailing)
  else
    let dst := grow (n / 8) dst in
    dst ← or_at dst (n / 8) (Z.shiftr 128 (Z.of_nat (n mod 8)));
    let n := S n in
    let leading := Z.land (leading_zeros v_delta) 31 in
    let trailing := trailing_zeros v_delta in
    let dst := grow1 ((n + 2) / 8) dst in
    if negb (prev_leading =? u64_MAX) && (prev_leading <=? leading) && (prev_trailing <=? trailing) then
      let n := S n in
      let l := 64 - prev_leading - prev_trailing in
      let dst := grow ((n + 1) / 8) dst in
      let v := shl64 (Z.shiftr v_delta prev_trailing) (64 - l) in
      '(dst, n) ← write_long (Z.to_nat l) v dst n;
      Ok (mkEnc dst n cur prev_leading prev_trailing)
    else
      dst ← or_at dst (n / 8) (Z.shiftr 128 (Z.of_nat (n mod 8)));
      let n := S n in
      let dst := grow1 ((n + 5) / 8) dst in
      '(dst, n) ← write_short 5 (shl64 leading 59) dst n;
      let sig_bits := 64 - leading - trailing in
      let dst := grow1 ((n + 6) / 8) dst in
      '(dst, n) ← write_short 6 (shl64 sig_bits 58) dst n;
      let l := Z.to_nat sig_bits in
      let v := shl64 (Z.shiftr v_delta trailing) (64 - sig_bits) in
      let dst := grow ((n + l) / 8) dst in
      '(dst, n) ← write_long l v dst n;
      Ok (mkEnc dst n cur leading trailing).

(** The values after the first, then the sentinel. *)
Fixpoint encode_loop (src : list Z) (st : enc_state) : outcome string enc_state :=
  match src with
  | [] => encode_value st SENTINEL
  | x :: src' =>
      if is_sentinel_u64 x SENTINEL then Err "unsupported value"%string
      else st ← encode_value st x; encode_loop src' st
  end.

Definition encode (src dst : list Z) : outcome string (list Z) :=
  match src with
  | [] => Ok []
  | first :: src' =>
      let dst := [Z.shiftl 1 4] ++ to_be_bytes 8 first in
      st ← encode_loop src' (mkEnc dst 72 first u64_MAX 0);
      let n := e_n st in
      let length := if (0 <? n mod 8)%nat then S (n / 8) else (n / 8)%nat in
      Ok (take length (e_dst st))
  end.

(** The table of masks: all bits for index 0, [i] low bits for index [i]. *)
Definition BIT_MASK (i : Z) : Z := if i =? 0 then u64_MAX else Z.ones i.

Definition rotate_left (v k : Z) : Z :=
  let k := k mod 64 in u64 (Z.lor (Z.shiftl v k) (Z.shiftr v (64 - k))).
Definition rotate_right (v k : Z) : Z := rotate_left v (64 - k mod 64).

(** The cached word, how many of its most significant bits are valid, and the
    position of the next byte. *)
Record reader := mkReader { br_cached_val : Z; br_valid_bits : Z; br_i : nat }.

Definition refill_cache (src : list Z) (i : nat) : outcome string reader :=
  let remaining_bytes := (length src - i)%nat in
  if (8 <=? remaining_bytes)%nat then
    buf ← slice src i (i + 8);
    Ok (mkReader (from_be_bytes buf) 64 (i + 8))
  else if (0 <? remaining_bytes)%nat then
    let br_valid_bits := u8 (Z.of_nat remaining_bytes * 8) in
    let v := foldl (fun acc b => Z.lor (shl64 acc 8) b) 0 (drop i src) in
    Ok (mkReader (rotate_right v br_valid_bits) br_valid_bits (i + remaining_bytes))
  else Err "unexpected end of block"%string.

Section decoder.
Context {P : BuildProfile}.

(** [if br_valid_bits == 0 { refill }; br_valid_bits -= 1;
    br_cached_val = br_cached_val.rotate_left(1)]: the bit read. *)
Definition read_bit (src : list Z) (r : reader) : outcome string (bool * reader) :=
  r ← (if br_valid_bits r =? 0 then refill_cache src (br_i r) else Ok r);
  valid ← sub_u8 (br_valid_bits r) 1;
  let c := rotate_left (br_cached_val r) 1 in
  Ok (negb (Z.land c 1 =? 0), mkReader c valid (br_i r)).

(** Read [k] bits (the low bits of the result): from the cache, or what the cache
    has left and the rest after a refill. The remaining count is subtracted with
    a plain or a wrapping subtraction. *)
Definition read_bits (wrapping : bool) (k : Z) (src : list Z) (r : reader)
    : outcome string (Z * reader) :=
  if k <=? br_valid_bits r then
    valid ← sub_u8 (br_valid_bits r) k;
    let c := rotate_left (br_cached_val r) k in
    Ok (c, mkReader c valid (br_i r))
  else
    '(bits, need) ← (if 0 <? br_valid_bits r then
       need ← sub_u8 k (br_valid_bits r);
       Ok (rotate_left (br_cached_val r) k, need)
     else Ok (0, k));
    r ← refill_cache src (br_i r);
    let c := rotate_left (br_cached_val r) need in
    valid ← (if wrapping then Ok (u8 (br_valid_bits r - need)) else sub_u8 (br_valid_bits r) need);
    let mask := BIT_MASK (Z.land need 63) in
    let bits := Z.land bits (Z.lxor mask u64_MAX) in
    Ok (Z.lor bits (Z.land c mask), mkReader c valid (br_i r)).

(** The window of a delta that brings a new one: 5 bits of leading zeros and 6
    of length, where 0 stands for the whole word. *)
Definition fresh_window (lm_bits : Z) (r : reader) : outcome string (Z * Z * reader) :=
  let lm_bits := Z.land lm_bits 0x7ff in
  let leading_n := Z.land (u8 (Z.shiftr lm_bits 6)) 0x1f in
  let meaningful_n := Z.land lm_bits 0x3f in
  if 0 <? meaningful_n then
    t ← sub_u8 64 leading_n;
    trailing_n ← sub_u8 t meaningful_n;
    Ok (trailing_n, meaningful_n, r)
  else Ok (0, 64, r).

(** The [loop]: [val] is the last value, [trailing_n] and [meaningful_n] the
    window of the last delta. *)
Fixpoint decode_loop (fuel : nat) (src : list Z) (sentinel : Z) (r : reader)
    (val trailing_n meaningful_n : Z) (dst : list Z) : outcome string (list Z) :=
  match fuel with
  | O => OutOfFuel
  | S fuel' =>
      '(b, r) ← read_bit src r;
      if negb b then decode_loop fuel' src sentinel r val trailing_n meaningful_n (dst ++ [val])
      else
        '(b, r) ← read_bit src r;
        '(trailing_n, meaningful_n, r) ← (if (b : bool) then
           '(lm_bits, r) ← read_bits false 11 src r;
           fresh_window lm_bits r
         else Ok (trailing_n, meaningful_n, r));
        '(s_bits, r) ← read_bits true meaningful_n src r;
        let s_bits := Z.land s_bits (BIT_MASK (Z.land meaningful_n 63)) in
        let val := Z.lxor val (shl64 s_bits (Z.land trailing_n 63)) in
        if is_sentinel_u64 val sentinel then Ok dst
        else decode_loop fuel' src sentinel r val trailing_n meaningful_n (dst ++ [val])
  end.

(** Every iteration takes a bit from the cache, which holds at most 255, and
    every refill takes a byte: [256 * (src.len() + 1)] iterations are enough. *)
Definition decode_with_sentinel (src dst : list Z) (sentinel : Z) : outcome string (list Z) :=
  if (length src <? 9)%nat then Ok dst
  else
    let i := 1%nat in
    buf ← slice src i (i + 8);
    let val := from_be_bytes buf in
    let i := (i + 8)%nat in
    let dst := dst ++ [val] in
    r ← refill_cache src i;
    decode_loop (256 * (length src + 1)) src sentinel r val 0 64 dst.

Definition decode (src dst : list Z) : outcome string (list Z) :=
  decode_with_sentinel src dst SENTINEL.

Definition decode_influxdb (src dst : list Z) : outcome string (list Z) :=
  decode_with_sentinel src dst SENTINEL_INFLUXDB.

End decoder.

(** ** Writing bits *)

(** [dst] holds the bits [out] and nothing after them. *)
Definition holds (dst : list Z) (out : list bool) : Prop :=
  Forall is_u8 dst /\ forall p, bit dst p = nth p out false.

(** Only the [l] most significant bits of [v] may be set. *)
Definition left_aligned (l : nat) (v : Z) : Prop :=
  is_u64 v /\ forall i, i < 64 - Z.of_nat l -> Z.testbit v i = false.

(** The bit of [v] that lands on position [p] when [v] is written at [n]. *)
Definition placed (v : Z) (n p : nat) : bool := Z.testbit v (63 - (Z.of_nat p - Z.of_nat n)).

Lemma holds_past dst out p : holds dst out -> (length out <= p)%nat -> bit dst p = false.
Proof. intros [_ Hb] Hp. rewrite Hb. by apply nth_overflow. Qed.

Lemma holds_extend dst dst' out l v :
  holds dst out -> Forall is_u8 dst' -> left_aligned l v ->
  (forall p, bit dst' p = if decide (p < length out)%nat then bit dst p else placed v (length out) p) ->
  holds dst' (out ++ top l v).
Proof.
  intros [_ Hb] Hu [_ Hz] Hp. split; [done|]. intros p. rewrite Hp.
  destruct (decide (p < length out)%nat); [by rewrite Hb, app_nth1|].
  rewrite app_nth2 by lia. rewrite nth_lookup. unfold placed.
  destruct (Nat.lt_ge_cases (p - length out) l).
  - rewrite top_lookup by done. cbn [from_option id]. f_equal. lia.
  - rewrite lookup_ge_None_2 by (by rewrite length_top). cbn [from_option]. apply Hz. lia.
Qed.

Lemma holds_grow dst out k : holds dst out -> holds (grow k dst) out.
Proof.
  intros [Hu Hb]. split; [|intros p; by rewrite <- Hb; apply bit_app_zeros].
  apply Forall_app. split; [done|]. apply Forall_replicate. range.
Qed.

Lemma length_grow k dst : length (grow k dst) = Nat.max (length dst) (S k).
Proof. unfold grow. rewrite length_app, length_replicate. lia. Qed.

Lemma holds_grow1 dst out k : holds dst out -> holds (grow1 k dst) out.
Proof.
  intros [Hu Hb]. unfold grow1. destruct (_ <=? _)%nat; [|done].
  split; [|intros p; by rewrite <- Hb; apply (bit_app_zeros dst 1)].
  apply Forall_app. split; [done|]. constructor; [range|constructor].
Qed.

Lemma length_grow1 k dst : (k <= length dst)%nat -> (S k <= length (grow1 k dst))%nat /\ (length dst <= length (grow1 k dst))%nat.
Proof. intros Hk. unfold grow1. destruct (Nat.leb_spec (length dst) k); rewrite ?length_app; cbn [length]; lia. Qed.

Lemma or_at_ok dst i x :
  Forall is_u8 dst -> (i < length dst)%nat ->
  exists dst', or_at dst i x = Ok dst' /\ Forall is_u8 dst' /\ length dst' = length dst /\
    forall p, bit dst' p = bit dst p || ((p / 8 =? i)%nat && Z.testbit x (7 - Z.of_nat (p mod 8))).
Proof.
  intros Hu Hi. destruct (lookup_lt_is_Some_2 dst i Hi) as [b Hb].
  unfold or_at, get. rewrite Hb. run. unfold set. rewrite (proj2 (Nat.ltb_lt _ _)) by done.
  eexists. split; [reflexivity|]. split_and!; [|by rewrite length_insert|intros p; by apply bit_or].
  apply Forall_insert; [done|]. apply (lor_range 8); [lia| |].
  - rewrite Forall_forall in Hu. apply Hu. by eapply list_elem_of_lookup_2.
  - apply u8_range.
Qed.

(** The current byte takes the bits of [v] that fit in it. *)
Lemma or_word dst out v :
  let n := length out in
  holds dst out -> is_u64 v -> (n / 8 < length dst)%nat ->
  exists dst', or_at dst (n / 8) (Z.shiftr (Z.shiftr v 56) (Z.of_nat (n mod 8))) = Ok dst' /\
    Forall is_u8 dst' /\ length dst' = length dst /\
    forall p, bit dst' p = if decide (p < n)%nat then bit dst p
                           else if decide (p / 8 = n / 8)%nat then placed v n p else false.
Proof.
  intros n Hh Hv Hi. destruct (or_at_ok dst (n / 8) (Z.shiftr (Z.shiftr v 56) (Z.of_nat (n mod 8))))
    as (dst' & He & Hu & Hl & Hb); [apply Hh|done|].
  exists dst'. split_and!; [done|done|done|]. intros p. rewrite Hb.
  pose proof (div8 p). pose proof (mod8 p). pose proof (div8 n). pose proof (mod8 n).
  rewrite !Z.shiftr_spec by lia.
  destruct (decide (p < n)%nat) as [Hlt|Hge].
  - destruct (Nat.eqb_spec (p / 8) (n / 8)); [|by rewrite orb_false_r].
    rewrite (testbit_above v 64) by (unfold is_u64, U64 in Hv; lia). by rewrite orb_false_r.
  - rewrite (holds_past _ _ _ Hh) by (fold n; lia). cbn [orb].
    destruct (Nat.eqb_spec (p / 8) (n / 8)), (decide (p / 8 = n / 8)%nat); try done.
    cbn [andb]. unfold placed. f_equal. lia.
Qed.

(** A control bit. *)
Lemma or_one dst out :
  let n := length out in
  holds dst out -> (n / 8 < length dst)%nat ->
  exists dst', or_at dst (n / 8) (Z.shiftr 128 (Z.of_nat (n mod 8))) = Ok dst' /\
    holds dst' (out ++ [true]) /\ length dst' = length dst.
Proof.
  intros n Hh Hi. destruct (or_word dst out (2 ^ 63) Hh) as (dst' & He & Hu & Hl & Hb); [range|done|].
  fold n in He, Hb. change (Z.shiftr (2 ^ 63) 56) with 128 in He. exists dst'.
  split_and!; [done| |done]. change [true] with (top 1 (2 ^ 63)).
  assert (left_aligned 1 (2 ^ 63)) as Hla.
  { split; [range|]. intros i Hi'. apply Z.pow2_bits_false. lia. }
  apply (holds_extend dst); [done|done|done|]. intros p. rewrite Hb. fold n.
  destruct (decide (p < n)%nat); [done|].
  destruct (decide (p / 8 = n / 8)%nat) as [|Hne]; [done|]. unfold placed. symmetry. apply Hla.
  assert (p <> n) by congruence. lia.
Qed.

(** The bits that do not fit in the current byte: [x] is the next byte boundary
    and [w] the number of bits already placed before it. *)
Lemma copy_word l v dst out d w x :
  let n := length out in
  holds dst out -> left_aligned l v -> (1 <= l <= 64)%nat ->
  Forall is_u8 d -> (x mod 8 = 0)%nat -> (x = n + w)%nat -> (w <= 8)%nat -> (w <= l)%nat ->
  (forall p, bit d p = if decide (p < n)%nat then bit dst p
                       else if decide (p < x)%nat then placed v n p else false) ->
  exists dst', (let vv := shl64 v (Z.of_nat w) in
     d' ← copy_at (grow (x / 8 + 8) d) (x / 8) (to_be_bytes 8 vv);
     Ok (d', (x + (l - w))%nat)) = Ok (E := string) (dst', (n + l)%nat) /\
    holds dst' (out ++ top l v) /\ (n + l <= 8 * length dst')%nat.
Proof.
  intros n Hh Hv Hl Hu Hmod Hx Hw8 Hwl Hb. cbv zeta. pose proof (div8 x) as Ho.
  set (k := (x / 8)%nat) in *. pose proof (length_grow (k + 8) d) as Hg.
  rewrite copy_at_ok by (rewrite length_to_be_bytes; lia). run.
  eexists. split; [do 2 f_equal; lia|]. split.
  - apply (holds_extend dst); [done| |done|].
    + assert (Forall is_u8 (grow (k + 8) d)) as Hgu.
      { apply Forall_app. split; [done|]. apply Forall_replicate. range. }
      rewrite !Forall_app. split_and!; [by apply Forall_take|apply to_be_bytes_u8|by apply Forall_drop].
    + intros p. rewrite bit_copy by lia.
      assert (forall q, bit (grow (k + 8) d) q = bit d q) as -> by (intros; apply bit_app_zeros).
      rewrite Hb. fold n. destruct (decide (p < n)%nat), (decide (k * 8 <= p < k * 8 + 64)%nat),
        (decide (p < x)%nat); try lia; try done.
      * rewrite testbit_shl64 by lia. unfold placed. f_equal. lia.
      * unfold placed. symmetry. apply Z.testbit_neg_r. lia.
  - rewrite !length_app, length_to_be_bytes, length_take, length_drop. lia.
Qed.

Lemma write_long_spec l v dst out :
  let n := length out in
  holds dst out -> left_aligned l v -> (1 <= l <= 64)%nat ->
  (0 < n mod 8 -> n / 8 < length dst)%nat ->
  exists dst', write_long l v dst n = Ok (dst', (n + l)%nat) /\ holds dst' (out ++ top l v) /\
    (n + l <= 8 * length dst')%nat.
Proof.
  intros n Hh Hv Hl Hroom. unfold write_long. pose proof (mod8 n). pose proof (div8 n).
  destruct (Nat.ltb_spec 0 (n mod 8)) as [Hm|Hm].
  - destruct (or_word dst out v Hh) as (d1 & He & Hu1 & Hl1 & Hb1); [apply Hv|auto|].
    fold n in He, Hb1. rewrite He. run.
    set (w := if (l <? 8 - n mod 8)%nat then l else (8 - n mod 8)%nat).
    assert (w = Nat.min l (8 - n mod 8)) as Hw by (unfold w; bool_cases; lia).
    destruct (Nat.eqb_spec (l - w) 0) as [E0|Hne]; cbn [andb].
    + exists d1. split_and!; [do 2 f_equal; lia| |rewrite Hl1; specialize (Hroom Hm); lia].
      apply (holds_extend dst); [done|done|done|]. intros p. rewrite Hb1. fold n.
      destruct (decide (p < n)%nat); [done|]. destruct (decide (p / 8 = n / 8)%nat); [done|].
      unfold placed. symmetry. apply Hv. pose proof (div8 p). pose proof (mod8 p). lia.
    + apply (copy_word l v dst out d1 w (n + w)); [done..| |done|lia|lia|].
      * replace (n + w)%nat with ((n / 8 + 1) * 8)%nat by lia. apply Nat.Div0.mod_mul.
      * intros p. fold n. rewrite Hb1. pose proof (div8 p). pose proof (mod8 p).
        destruct (decide (p < n)%nat), (decide (p / 8 = n / 8)%nat), (decide (p < n + w)%nat); try lia; done.
  - cbn [andb]. run. apply (copy_word l v dst out dst O n); [done..|apply Hh|lia|fold n; lia|lia|lia|].
    intros p. fold n. destruct (decide (p < n)%nat); [done|]. apply (holds_past dst out); [done|fold n; lia].
Qed.

Lemma write_short_spec l v dst out :
  let n := length out in
  holds dst out -> left_aligned l v -> (1 <= l <= 8)%nat -> ((n + l) / 8 < length dst)%nat ->
  exists dst', write_short l v dst n = Ok (dst', (n + l)%nat) /\ holds dst' (out ++ top l v) /\
    length dst' = length dst.
Proof.
  intros n Hh Hv Hl Hroom. unfold write_short. pose proof (mod8 n). pose proof (div8 n).
  assert (n / 8 <= (n + l) / 8)%nat by (apply Nat.Div0.div_le_mono; lia).
  destruct (or_word dst out v Hh) as (d1 & He & Hu1 & Hl1 & Hb1); [apply Hv|fold n; lia|].
  fold n in He, Hb1. rewrite He. run. destruct (Nat.leb_spec (n mod 8 + l) 8) as [Hfit|Hover].
  - exists d1. split_and!; [done| |done]. apply (holds_extend dst); [done..|]. intros p. rewrite Hb1. fold n.
    destruct (decide (p < n)%nat); [done|]. destruct (decide (p / 8 = n / 8)%nat); [done|].
    unfold placed. symmetry. apply Hv. pose proof (div8 p). pose proof (mod8 p). lia.
  - set (w := (8 - n mod 8)%nat). replace (n + w)%nat with ((n / 8 + 1) * 8)%nat by lia.
    rewrite Nat.Div0.mod_mul, Nat.div_mul by lia. cbn [Z.of_nat]. rewrite Z.shiftr_0_r.
    assert (n / 8 + 1 <= (n + l) / 8)%nat.
    { apply Nat.div_le_lower_bound; lia. }
    destruct (or_at_ok d1 (n / 8 + 1) (Z.shiftr (shl64 v (Z.of_nat w)) 56)) as (d2 & He2 & Hu2 & Hl2 & Hb2);
      [done|lia|].
    rewrite He2. run. exists d2. split_and!; [do 2 f_equal; lia| |lia].
    apply (holds_extend dst); [done..|]. intros p. rewrite Hb2, Hb1. fold n.
    pose proof (div8 p). pose proof (mod8 p). rewrite Z.shiftr_spec by lia.
    destruct (decide (p < n)%nat).
    { destruct (Nat.eqb_spec (p / 8) (n / 8 + 1)); [lia|]. by rewrite orb_false_r. }
    destruct (decide (p / 8 = n / 8)%nat), (Nat.eqb_spec (p / 8) (n / 8 + 1)); try lia;
      cbn [andb orb]; [by rewrite orb_false_r|..]; unfold placed.
    + rewrite testbit_shl64 by lia. f_equal. lia.
    + symmetry. apply Hv. lia.
Qed.

(** ** The code of one value *)

Lemma left_aligned_shl x l : (l <= 64)%nat -> left_aligned l (shl64 x (64 - Z.of_nat l)).
Proof.
  intros Hl. split; [apply u64_range|]. intros i Hi.
  destruct (Z.lt_ge_cases i 0); [by apply Z.testbit_neg_r|].
  rewrite testbit_shl64 by lia. apply Z.testbit_neg_r. lia.
Qed.

Lemma top_shl x l : (l <= 64)%nat -> top l (shl64 x (64 - Z.of_nat l)) = zbits l x.
Proof.
  intros Hl. symmetry. apply zbits_eq_top. intros i Hi. rewrite testbit_shl64 by lia. f_equal. lia.
Qed.

(** The window of significant bits of the previous delta. *)
Definition window : Type := option (Z * Z).

Definition code (w : window) (prev cur : Z) : list bool * window :=
  let d := Z.lxor cur prev in
  let leading := Z.land (leading_zeros d) 31 in
  let trailing := trailing_zeros d in
  let sig := 64 - leading - trailing in
  let fresh := ([true; true] ++ zbits 5 leading ++ zbits 6 sig ++
                zbits (Z.to_nat sig) (Z.shiftr d trailing), Some (leading, trailing)) in
  if d =? 0 then ([false], w)
  else match w with
       | Some (pl, pt) =>
           if (pl <=? leading) && (pt <=? trailing)
           then ([true; false] ++ zbits (Z.to_nat (64 - pl - pt)) (Z.shiftr d pt), w)
           else fresh
       | None => fresh
       end.

Definition window_ok (w : window) : Prop :=
  match w with Some (pl, pt) => 0 <= pl <= 31 /\ 0 <= pt /\ pl + pt <= 63 | None => True end.

(** The window of a non-zero delta. *)
Lemma trailing_zeros_spec d :
  0 < d -> 0 <= trailing_zeros d <= Z.log2 d /\ (2 ^ trailing_zeros d | d).
Proof.
  intros Hd. destruct d as [|p|]; try lia. cbn [trailing_zeros].
  assert (0 <= pos_trailing_zeros p /\ (2 ^ pos_trailing_zeros p | Z.pos p)) as [H0 H1].
  { clear Hd. induction p as [p _|p [IH0 IH1]|]; cbn [pos_trailing_zeros]; [split; [lia|apply Z.divide_1_l]| |
      split; [lia|apply Z.divide_1_l]].
    split; [lia|]. rewrite Z.pow_add_r, (Pos2Z.inj_xO p) by lia. by apply Z.mul_divide_mono_l. }
  split; [|done]. split; [done|]. apply Z.log2_le_pow2; [lia|]. by apply Z.divide_pos_le.
Qed.

Lemma leading_spec d :
  0 < d < U64 ->
  let leading := Z.land (leading_zeros d) 31 in
  0 <= leading <= 31 /\ leading <= 63 - Z.log2 d /\ d < 2 ^ (64 - leading).
Proof.
  intros Hd leading. assert (0 <= Z.log2 d <= 63) as Hlog.
  { split; [apply Z.log2_nonneg|]. enough (Z.log2 d < 64) by lia. apply Z.log2_lt_pow2; range. }
  assert (leading = (63 - Z.log2 d) mod 32) as Hl.
  { unfold leading, leading_zeros. destruct (Z.eqb_spec d 0); [lia|]. by apply (Z.land_ones _ 5). }
  pose proof (Z.mod_pos_bound (63 - Z.log2 d) 32 ltac:(lia)).
  pose proof (Z.mod_le (63 - Z.log2 d) 32 ltac:(lia) ltac:(lia)).
  split_and!; [lia|lia|lia|]. apply Z.log2_lt_pow2; lia.
Qed.

Lemma code_window w prev cur :
  window_ok w -> is_u64 prev -> is_u64 cur -> window_ok (code w prev cur).2.
Proof.
  intros Hw Hp Hc. unfold code. destruct (Z.eqb_spec (Z.lxor cur prev) 0) as [|Hne]; [done|].
  set (d := Z.lxor cur prev) in *.
  assert (0 < d < U64) as Hd by (pose proof (lxor_range 64 cur prev ltac:(lia) Hc Hp); range).
  destruct (leading_spec d Hd) as (H1 & H2 & _). destruct (trailing_zeros_spec d) as [H3 _]; [lia|].
  destruct w as [[pl pt]|]; [destruct (_ && _)|]; cbn [snd window_ok]; done || lia.
Qed.

(** ** The encoder writes the codes *)

Definition enc_inv (st : enc_state) (out : list bool) (w : window) (prev : Z) : Prop :=
  holds (e_dst st) out /\ e_n st = length out /\ e_prev st = prev /\
  match w with
  | Some (pl, pt) => e_leading st = pl /\ e_trailing st = pt
  | None => e_leading st = u64_MAX
  end.

Lemma encode_reuse dst out d cur pl pt :
  holds dst out -> is_u64 cur -> 0 <= pl <= 31 -> 0 <= pt -> pl + pt <= 63 ->
  let l := 64 - pl - pt in
  exists st', (let n := S (length out) in
     let dst := grow ((n + 1) / 8) dst in
     let v := shl64 (Z.shiftr d pt) (64 - l) in
     '(dst, n) ← write_long (Z.to_nat l) v dst n;
     Ok (mkEnc dst n cur pl pt)) = Ok (E := string) st' /\
    enc_inv st' (out ++ [false] ++ zbits (Z.to_nat l) (Z.shiftr d pt)) (Some (pl, pt)) cur /\
    (e_n st' <= 8 * length (e_dst st'))%nat.
Proof.
  intros Hh Hc Hpl Hpt Hsum l. cbv zeta.
  assert (holds dst (out ++ [false])) as Hh'.
  { destruct Hh as [Hu Hb]. split; [done|]. intros p. rewrite Hb.
    destruct (Nat.lt_ge_cases p (length out)); [by rewrite app_nth1|].
    rewrite app_nth2 by done. rewrite nth_overflow by done. by destruct (p - length out)%nat as [|[]]. }
  assert (S (length out) = length (out ++ [false])) as Hn by (rewrite length_app; cbn; lia).
  rewrite Hn. set (n := length (out ++ [false])) in *.
  assert (n / 8 <= (n + 1) / 8)%nat by (apply Nat.Div0.div_le_mono; lia).
  assert (l = Z.of_nat (Z.to_nat l)) as Hl by lia.
  destruct (write_long_spec (Z.to_nat l) (shl64 (Z.shiftr d pt) (64 - l)) (grow ((n + 1) / 8) dst) (out ++ [false]))
    as (dst' & He & Hh2 & Hr).
  { by apply holds_grow. }
  { rewrite Hl at 2. apply left_aligned_shl. lia. }
  { lia. }
  { rewrite length_grow. fold n. lia. }
  fold n in He. rewrite He. run. eexists. split; [reflexivity|]. split; [|done].
  split_and!; [|cbn [e_n]|done|done|done].
  - cbn [e_dst]. rewrite Hl in Hh2 at 2. rewrite top_shl in Hh2 by lia. by rewrite app_assoc.
  - rewrite app_assoc, (length_app (out ++ [false])), length_zbits. done.
Qed.

(** Making room for [k] more bits when the current byte exists. *)
Lemma grow1_room k n dst :
  (k <= 8)%nat -> (n / 8 < length dst)%nat -> ((n + k) / 8 < length (grow1 ((n + k) / 8) dst))%nat.
Proof.
  intros Hk Hn. assert ((n + k) / 8 <= n / 8 + 1)%nat.
  { pose proof (div8 n). pose proof (mod8 n). apply Nat.lt_succ_r. apply Nat.Div0.div_lt_upper_bound. lia. }
  destruct (length_grow1 ((n + k) / 8) dst); lia.
Qed.

Lemma encode_fresh dst out d cur leading trailing :
  holds dst out -> is_u64 cur -> ((length out + 2) / 8 < length dst)%nat ->
  0 <= leading <= 31 -> 0 <= trailing -> leading + trailing <= 63 ->
  let sig := 64 - leading - trailing in
  exists st', (let n := length out in
     dst ← or_at dst (n / 8) (Z.shiftr 128 (Z.of_nat (n mod 8)));
     let n := S n in
     let dst := grow1 ((n + 5) / 8) dst in
     '(dst, n) ← write_short 5 (shl64 leading 59) dst n;
     let dst := grow1 ((n + 6) / 8) dst in
     '(dst, n) ← write_short 6 (shl64 sig 58) dst n;
     let l := Z.to_nat sig in
     let v := shl64 (Z.shiftr d trailing) (64 - sig) in
     let dst := grow ((n + l) / 8) dst in
     '(dst, n) ← write_long l v dst n;
     Ok (mkEnc dst n cur leading trailing)) = Ok (E := string) st' /\
    enc_inv st' (out ++ [true] ++ zbits 5 leading ++ zbits 6 sig ++
                 zbits (Z.to_nat sig) (Z.shiftr d trailing)) (Some (leading, trailing)) cur /\
    (e_n st' <= 8 * length (e_dst st'))%nat.
Proof.
  intros Hh Hc Hroom Hl Ht Hs sig. cbv zeta. set (n := length out) in *.
  assert (n / 8 <= (n + 1) / 8 /\ (n + 1) / 8 <= (n + 2) / 8)%nat by (split; apply Nat.Div0.div_le_mono; lia).
  destruct (or_one dst out Hh) as (d1 & He1 & Hh1 & Hl1); [fold n; lia|].
  fold n in He1. rewrite He1. run.
  assert (S n = length (out ++ [true])) as Hn1 by (rewrite length_app; cbn; lia).
  set (o1 := out ++ [true]) in *. rewrite Hn1.
  destruct (write_short_spec 5 (shl64 leading 59) (grow1 ((length o1 + 5) / 8) d1) o1)
    as (d2 & -> & Hh2 & Hl2); [by apply holds_grow1|by apply (left_aligned_shl _ 5); lia|lia| |].
  { apply grow1_room; [lia|]. rewrite <- Hn1, Hl1. replace (S n) with (n + 1)%nat by lia. lia. }
  run. change 59 with (64 - Z.of_nat 5) in Hh2. rewrite top_shl in Hh2 by lia. set (o2 := o1 ++ zbits 5 leading) in *.
  assert (length o1 + 5 = length o2)%nat as Hn2 by (unfold o2; rewrite length_app, length_zbits; lia).
  assert ((length o1 + 5) / 8 < length d2)%nat as Hr2.
  { rewrite Hl2. apply grow1_room; [lia|]. rewrite <- Hn1, Hl1. replace (S n) with (n + 1)%nat by lia. lia. }
  rewrite Hn2 in *.
  destruct (write_short_spec 6 (shl64 sig 58) (grow1 ((length o2 + 6) / 8) d2) o2)
    as (d3 & -> & Hh3 & Hl3);
    [by apply holds_grow1|by apply (left_aligned_shl _ 6); lia|lia|apply grow1_room; [lia|done]|].
  run. change 58 with (64 - Z.of_nat 6) in Hh3. rewrite top_shl in Hh3 by lia. set (o3 := o2 ++ zbits 6 sig) in *.
  assert (length o2 + 6 = length o3)%nat as Hn3 by (unfold o3; rewrite length_app, length_zbits; lia).
  assert (sig = Z.of_nat (Z.to_nat sig)) as Hsig by lia. set (l := Z.to_nat sig) in *.
  rewrite Hn3 in *.
  assert (length o3 / 8 <= (length o3 + l) / 8)%nat by (apply Nat.Div0.div_le_mono; lia).
  destruct (write_long_spec l (shl64 (Z.shiftr d trailing) (64 - sig)) (grow ((length o3 + l) / 8) d3) o3)
    as (d4 & -> & Hh4 & Hr4); [by apply holds_grow| |lia|rewrite length_grow; lia|].
  { rewrite Hsig. apply left_aligned_shl. lia. }
  run. eexists. split; [reflexivity|]. split; [|done]. rewrite Hsig in Hh4 at 1.
  rewrite top_shl in Hh4 by lia.
  assert (out ++ [true] ++ zbits 5 leading ++ zbits 6 sig ++ zbits l (Z.shiftr d trailing) =
    o3 ++ zbits l (Z.shiftr d trailing)) as -> by (unfold o3, o2, o1; by rewrite <- !app_assoc).
  split_and!; [done|cbn [e_n]; by rewrite (length_app o3), length_zbits|done..].
Qed.

Lemma encode_value_spec st out w prev cur :
  enc_inv st out w prev -> window_ok w -> is_u64 prev -> is_u64 cur ->
  exists st', encode_value st cur = Ok st' /\
    enc_inv st' (out ++ (code w prev cur).1) (code w prev cur).2 cur /\
    (cur <> prev -> e_n st' <= 8 * length (e_dst st'))%nat.
Proof.
  intros (Hh & Hn & Hp & Hw) Hwo Hpu Hcu. destruct st as [dst n prev' pl pt].
  cbn [e_dst e_n e_prev e_leading e_trailing] in *. subst n prev'.
  unfold encode_value, code. set (d := Z.lxor cur prev).
  destruct (Z.eqb_spec d 0) as [E|Hne].
  { eexists. split; [reflexivity|]. cbn [fst snd]. split.
    - split_and!; [|cbn; rewrite length_app; cbn; lia|done|done]. cbn [e_dst].
      destruct Hh as [Hu Hb]. split; [done|]. intros p. rewrite Hb.
      destruct (Nat.lt_ge_cases p (length out)); [by rewrite app_nth1|].
      rewrite app_nth2 by done. rewrite nth_overflow by done. by destruct (p - length out)%nat as [|[]].
    - intros Hx. exfalso. apply Hx. by apply Z.lxor_eq. }
  assert (0 < d < U64) as Hd by (pose proof (lxor_range 64 cur prev ltac:(lia) Hcu Hpu); range).
  destruct (leading_spec d Hd) as (H1 & H2 & _). destruct (trailing_zeros_spec d) as [H3 _]; [lia|].
  set (leading := Z.land (leading_zeros d) 31) in *. set (trailing := trailing_zeros d) in *.
  destruct (or_one (grow (length out / 8) dst) out) as (d1 & -> & Hh1 & Hl1);
    [by apply holds_grow|rewrite length_grow; lia|]. run.
  assert (S (length out) = length (out ++ [true])) as Hn1 by (rewrite length_app; cbn; lia).
  set (o1 := out ++ [true]) in *. rewrite Hn1.
  assert (length out / 8 < length d1)%nat as Hr by (rewrite Hl1, length_grow; lia).
  assert ((length o1 + 2) / 8 < length (grow1 ((length o1 + 2) / 8) d1))%nat as Hroom.
  { replace (length o1 + 2)%nat with (length out + 3)%nat by lia. apply grow1_room; [lia|done]. }
  pose proof (holds_grow1 d1 o1 ((length o1 + 2) / 8) Hh1) as Hh2.
  pose proof (encode_fresh _ o1 d cur leading trailing Hh2 Hcu Hroom) as Hfresh.
  pose proof (encode_reuse _ o1 d cur pl pt Hh2 Hcu) as Hreuse. cbv zeta in Hfresh, Hreuse.
  destruct w as [[pl' pt']|]; cbn [window_ok] in Hwo.
  - destruct Hw as [-> ->]. rewrite (proj2 (Z.eqb_neq _ _)) by range. cbn [negb andb].
    destruct ((pl' <=? leading) && (pt' <=? trailing)).
    + destruct Hreuse as (st' & -> & Hi & Hr'); [lia..|]. exists st'. split; [done|]. cbn [fst snd].
      split; [|done]. unfold o1 in Hi. by rewrite <- app_assoc in Hi.
    + destruct Hfresh as (st' & -> & Hi & Hr'); [lia..|]. exists st'. split; [done|]. cbn [fst snd].
      split; [|done]. unfold o1 in Hi. by rewrite <- app_assoc in Hi.
  - rewrite Hw, Z.eqb_refl. cbn [negb andb].
    destruct Hfresh as (st' & -> & Hi & Hr'); [lia..|]. exists st'. split; [done|]. cbn [fst snd].
    split; [|done]. unfold o1 in Hi. by rewrite <- app_assoc in Hi.
Qed.

(** The codes of a sequence of values. *)
Fixpoint codes (w : window) (prev : Z) (xs : list Z) : list bool :=
  match xs with
  | [] => []
  | x :: xs' => (code w prev x).1 ++ codes (code w prev x).2 x xs'
  end.

Lemma float_loop_spec src st out w prev :
  enc_inv st out w prev -> window_ok w -> is_u64 prev -> Forall is_u64 src ->
  Forall (fun x => x <> SENTINEL) src -> (src = [] -> prev <> SENTINEL) ->
  exists st', encode_loop src st = Ok st' /\
    holds (e_dst st') (out ++ codes w prev (src ++ [SENTINEL])) /\
    e_n st' = length (out ++ codes w prev (src ++ [SENTINEL])) /\
    (e_n st' <= 8 * length (e_dst st'))%nat.
Proof.
  revert st out w prev. induction src as [|x src IH]; intros st out w prev Hi Hw Hp Hu Hs Hlast;
    cbn [encode_loop app codes].
  - destruct (encode_value_spec st out w prev SENTINEL Hi Hw Hp) as (st' & He & (Hh & Hn & _) & Hr);
      [unfold SENTINEL; range|].
    exists st'. rewrite app_nil_r. split_and!; [done|done|done|]. apply Hr. intros E. by apply (Hlast eq_refl).
  - inversion_clear Hu as [|? ? Hx Hu']. inversion_clear Hs as [|? ? Hxs Hs'].
    unfold is_sentinel_u64. rewrite (proj2 (Z.eqb_neq _ _)) by done.
    destruct (encode_value_spec st out w prev x Hi Hw Hp Hx) as (st1 & -> & Hi1 & _). run.
    destruct (IH st1 _ _ _ Hi1) as (st' & He & Hh & Hn & Hr);
      [by apply code_window|done|done|done|by intros|].
    exists st'. rewrite <- app_assoc in Hh, Hn. done.
Qed.

(** ** Reading bits *)

Lemma testbit_rotate_left c k j :
  is_u64 c -> 0 <= k -> 0 <= j < 64 -> Z.testbit (rotate_left c k) j = Z.testbit c ((j - k) mod 64).
Proof.
  intros Hc Hk Hj. unfold rotate_left, u64, U64. rewrite Z.mod_pow2_bits_low by lia.
  pose proof (Z.mod_pos_bound k 64 ltac:(lia)). set (r := k mod 64) in *.
  assert ((j - k) mod 64 = if j <? r then j - r + 64 else j - r) as ->.
  { unfold r in *. rewrite Zminus_mod. destruct (Z.ltb_spec j (k mod 64)).
    - rewrite (Z.mod_small j) by lia. symmetry. apply Z.mod_unique with (q := -1); lia.
    - rewrite (Z.mod_small j) by lia. apply Z.mod_small. lia. }
  rewrite Z.lor_spec, Z.shiftl_spec, Z.shiftr_spec by lia. destruct (Z.ltb_spec j r).
  - rewrite Z.testbit_neg_r by lia. cbn [orb]. f_equal. lia.
  - rewrite (testbit_above c 64 (j + (64 - r))) by (unfold is_u64, U64 in Hc; lia). apply orb_false_r.
Qed.

Lemma rotate_left_u64 c k : is_u64 (rotate_left c k).
Proof. apply u64_range. Qed.

(** The bits still to be read: those of the cache, then those of the bytes not
    loaded yet. *)
Definition reads (src : list Z) (r : reader) (bs : list bool) : Prop :=
  exists valid : nat, br_valid_bits r = Z.of_nat valid /\ (valid <= 64)%nat /\
    is_u64 (br_cached_val r) /\ (br_i r <= length src)%nat /\
    bs = top valid (br_cached_val r) ++ bits_of (drop (br_i r) src).

Lemma foldl_from_be bs :
  Forall is_u8 bs -> (length bs <= 8)%nat ->
  foldl (fun acc b => Z.lor (shl64 acc 8) b) 0 bs = from_be_bytes bs.
Proof.
  induction bs as [|b bs IH] using rev_ind; intros Hu Hl; [done|].
  rewrite Forall_app in Hu. destruct Hu as [Hu Hb]. inversion_clear Hb as [|? ? Hb' _].
  rewrite length_app in Hl. cbn [length] in Hl.
  rewrite foldl_app. cbn [foldl]. rewrite IH by (done || lia).
  unfold from_be_bytes. rewrite rev_app_distr. cbn [rev app from_le_bytes].
  fold (from_be_bytes bs). pose proof (from_le_bytes_range (rev bs)) as Hr.
  rewrite length_rev in Hr. specialize (Hr ltac:(by apply Forall_rev)). fold (from_be_bytes bs) in Hr.
  assert (256 ^ Z.of_nat (length bs) <= 256 ^ 7) by (apply Z.pow_le_mono_r; lia).
  unfold shl64. rewrite u64_id by (rewrite Z.shiftl_mul_pow2 by lia; range).
  rewrite Z.lor_comm, lor_disjoint_add by (unfold is_u8 in Hb'; lia). lia.
Qed.

(** A refill at the end of the cache. *)
Lemma refill_spec src i :
  Forall is_u8 src -> (i < length src)%nat ->
  exists r, refill_cache src i = Ok r /\ reads src r (bits_of (drop i src)) /\
    Z.to_nat (br_valid_bits r) = Nat.min 64 (8 * (length src - i)).
Proof.
  intros Hu Hi. unfold refill_cache.
  assert (Forall is_u8 (drop i src)) as Hud by (by apply Forall_drop).
  destruct (Nat.leb_spec 8 (length src - i)) as [Hge|Hlt].
  - rewrite slice_ok by lia. run. replace (i + 8 - i)%nat with 8%nat by lia.
    eexists. split; [reflexivity|]. cbn [br_valid_bits]. split; [|lia].
    assert (length (take 8 (drop i src)) = 8%nat) as Hl by (rewrite length_take, length_drop; lia).
    assert (is_u64 (from_be_bytes (take 8 (drop i src)))) as Hc.
    { apply from_be_bytes_u64; [done|by apply Forall_take]. }
    exists 64%nat. cbn [br_cached_val br_valid_bits br_i]. split_and!; [done|lia|done|lia|].
    rewrite <- (take_drop 8 (drop i src)) at 1. rewrite bits_of_app, drop_drop. f_equal.
    rewrite bits_of_from_be, Hl by (by apply Forall_take). by apply zbits_eq_top.
  - rewrite (proj2 (Nat.ltb_lt _ _)) by lia. eexists. split; [reflexivity|].
    set (k := (length src - i)%nat) in *.
    assert (length (drop i src) = k) as Hl by (by rewrite length_drop).
    rewrite foldl_from_be by (done || lia). set (v := from_be_bytes (drop i src)).
    assert (u8 (Z.of_nat k * 8) = Z.of_nat (8 * k)) as Hv by (unfold u8; rewrite Z.mod_small; lia).
    cbn [br_valid_bits]. rewrite Hv. split; [|lia].
    assert (is_u64 v) as Hvu.
    { pose proof (from_le_bytes_range (rev (drop i src)) ltac:(by apply Forall_rev)) as Hr.
      rewrite length_rev, Hl in Hr. fold (from_be_bytes (drop i src)) in Hr. fold v in Hr.
      assert (256 ^ Z.of_nat k <= 256 ^ 7) by (apply Z.pow_le_mono_r; lia). range. }
    exists (8 * k)%nat. cbn [br_cached_val br_valid_bits br_i].
    split_and!; [done|lia|apply rotate_left_u64|lia|].
    rewrite (drop_ge src (i + k)) by lia. unfold bits_of at 2. cbn [mbind list_bind]. rewrite app_nil_r.
    rewrite bits_of_from_be, Hl by done. fold v. apply zbits_eq_top. intros j Hj.
    unfold rotate_right. rewrite (Z.mod_small (Z.of_nat (8 * k))) by lia.
    rewrite testbit_rotate_left by (done || lia). f_equal. symmetry.
    replace (64 - Z.of_nat (8 * k) + j - (64 - Z.of_nat (8 * k))) with j by lia. apply Z.mod_small. lia.
Qed.

Section reading.
Context {P : BuildProfile}.

Lemma sub_u8_ok {E} a b : 0 <= b <= a -> a < 256 -> sub_u8 (E := E) a b = Ok (a - b).
Proof.
  intros Hb Ha. unfold sub_u8. rewrite (proj2 (Z.ltb_ge _ _)), andb_false_r by lia.
  unfold u8. by rewrite Z.mod_small by lia.
Qed.

(** Rotating by [k] keeps the bits after the first [k]. *)
Lemma top_rotate c k m :
  is_u64 c -> (k + m <= 64)%nat -> top m (rotate_left c (Z.of_nat k)) = drop k (top (k + m) c).
Proof.
  intros Hc Hk. apply list_eq. intros j. rewrite lookup_drop. destruct (Nat.lt_ge_cases j m).
  - rewrite !top_lookup by lia. f_equal. rewrite testbit_rotate_left by (done || lia). f_equal.
    rewrite Z.mod_small; lia.
  - by rewrite !lookup_ge_None_2 by (rewrite length_top; lia).
Qed.

Lemma zbits_rotate c k :
  is_u64 c -> (k <= 64)%nat -> zbits k (rotate_left c (Z.of_nat k)) = top k c.
Proof.
  intros Hc Hk. apply zbits_eq_top. intros i Hi. rewrite testbit_rotate_left by (done || lia).
  f_equal. symmetry. apply Z.mod_unique with (q := -1); lia.
Qed.

Lemma take_top k m c : (k <= m)%nat -> take k (top m c) = top k c.
Proof.
  intros. apply list_eq. intros j. destruct (Nat.lt_ge_cases j k).
  - by rewrite lookup_take_lt, !top_lookup by lia.
  - by rewrite !lookup_ge_None_2 by (rewrite ?length_take, length_top; lia).
Qed.

(** Reading from a cache that has enough bits. *)
Lemma reads_cached src r bs1 bs2 :
  reads src r (bs1 ++ bs2) -> Z.of_nat (length bs1) <= br_valid_bits r ->
  let k := Z.of_nat (length bs1) in
  let c := rotate_left (br_cached_val r) k in
  zbits (length bs1) c = bs1 /\ reads src (mkReader c (br_valid_bits r - k) (br_i r)) bs2.
Proof.
  intros (valid & Hv & Hv64 & Hc & Hi & Hbs) Hle k c. rewrite Hv in Hle.
  assert (bs1 = top (length bs1) (br_cached_val r)) as H1.
  { rewrite <- (take_top _ valid) by lia. rewrite <- (take_app_length bs1 bs2) at 1.
    rewrite Hbs, take_app_le by (rewrite length_top; lia). done. }
  split; [unfold c, k; rewrite zbits_rotate by (done || lia); by symmetry|].
  exists (valid - length bs1)%nat. cbn [br_valid_bits br_cached_val br_i].
  split_and!; [lia|lia|apply rotate_left_u64|done|].
  unfold c, k. rewrite top_rotate by (done || lia). replace (length bs1 + (valid - length bs1))%nat with valid by lia.
  rewrite <- drop_app_le by (rewrite length_top; lia). rewrite <- Hbs. by rewrite drop_app_length.
Qed.

Lemma read_bit_spec src r b bs :
  Forall is_u8 src -> reads src r (b :: bs) ->
  exists r', read_bit src r = Ok (b, r') /\ reads src r' bs.
Proof.
  intros Hu Hr. unfold read_bit.
  assert (exists r1, (if br_valid_bits r =? 0 then refill_cache src (br_i r) else Ok r) = Ok r1 /\
    reads src r1 (b :: bs) /\ 1 <= br_valid_bits r1) as (r1 & -> & Hr1 & Hv1).
  { destruct Hr as (valid & Hv & Hv64 & Hc & Hi & Hbs). destruct (Z.eqb_spec (br_valid_bits r) 0) as [E|Hne].
    - assert (valid = O) as -> by lia. cbn [top map seq app] in Hbs.
      assert (br_i r < length src)%nat as Hlt.
      { apply (f_equal length) in Hbs. rewrite length_bits_of, length_drop in Hbs. cbn [length] in Hbs. lia. }
      destruct (refill_spec src (br_i r) Hu Hlt) as (r1 & -> & Hr1 & Hn). exists r1.
      split_and!; [done|by rewrite Hbs|lia].
    - exists r. split_and!; [done|by exists valid|lia]. }
  run. destruct (reads_cached src r1 [b] bs Hr1 Hv1) as [Hz Hr2].
  assert (br_valid_bits r1 <= 64) as H64 by (destruct Hr1 as (valid & -> & ? & _); lia).
  rewrite sub_u8_ok by lia. run. eexists. split; [|exact Hr2]. do 2 f_equal.
  cbn [length] in Hz. change (Z.of_nat 1) with 1 in Hz. unfold zbits in Hz. cbn [map seq] in Hz.
  injection Hz as Hz. change 1 with (2 ^ 0) at 2. rewrite land_pow2, negb_involutive by lia. exact Hz.
Qed.

Lemma BIT_MASK_ones k : 1 <= k <= 64 -> BIT_MASK (Z.land k 63) = Z.ones k.
Proof.
  intros Hk. assert (k = 64 \/ k < 64) as [->|Hlt] by lia; [reflexivity|].
  change 63 with (Z.ones 6). rewrite Z.land_ones, Z.mod_small by lia. unfold BIT_MASK.
  by rewrite (proj2 (Z.eqb_neq _ _)) by lia.
Qed.

(** The two halves of a read across a refill. *)
Lemma zbits_join v need c c' :
  is_u64 c -> (1 <= need)%nat -> (v + need <= 64)%nat ->
  zbits (v + need)
    (Z.lor (Z.land (if (0 <? v)%nat then rotate_left c (Z.of_nat (v + need)) else 0)
              (Z.lxor (Z.ones (Z.of_nat need)) u64_MAX))
           (Z.land c' (Z.ones (Z.of_nat need))))
  = top v c ++ zbits need c'.
Proof.
  intros Hc Hn Hv. change u64_MAX with (Z.ones 64). rewrite zbits_app. f_equal.
  - apply zbits_eq_top. intros i Hi. rewrite (proj2 (Nat.ltb_lt 0 v)) by lia.
    rewrite Z.shiftr_spec, Z.lor_spec, !Z.land_spec, Z.lxor_spec, !Z.testbit_ones_nonneg by lia.
    rewrite (proj2 (Z.ltb_ge _ _)), (proj2 (Z.ltb_lt _ 64)) by lia.
    rewrite andb_false_r, orb_false_r, andb_true_r, testbit_rotate_left by (done || lia).
    f_equal. symmetry. apply Z.mod_unique with (q := -1); lia.
  - apply zbits_ext. intros i Hi.
    rewrite Z.lor_spec, !Z.land_spec, Z.lxor_spec, !Z.testbit_ones_nonneg by lia.
    rewrite (proj2 (Z.ltb_lt i (Z.of_nat need))), (proj2 (Z.ltb_lt i 64)) by lia.
    by rewrite andb_false_r, andb_true_r.
Qed.

(** Reading [k] bits, across a refill when needed. *)
Lemma read_bits_spec wrapping src r bs1 bs2 :
  Forall is_u8 src -> reads src r (bs1 ++ bs2) -> (1 <= length bs1 <= 64)%nat ->
  exists x r', read_bits wrapping (Z.of_nat (length bs1)) src r = Ok (x, r') /\
    zbits (length bs1) x = bs1 /\ reads src r' bs2.
Proof.
  intros Hu Hr Hk. set (k := length bs1) in *. unfold read_bits.
  assert (br_valid_bits r <= 64) as H64 by (destruct Hr as (valid & -> & ? & _); lia).
  destruct (Z.leb_spec (Z.of_nat k) (br_valid_bits r)) as [Hle|Hgt].
  { destruct (reads_cached src r bs1 bs2 Hr Hle) as [Hz Hr2]. rewrite sub_u8_ok by lia. run.
    by eexists _, _. }
  destruct Hr as (valid & Hv & _ & Hc & Hi & Hbs). rewrite Hv in *.
  set (need := (k - valid)%nat).
  assert (k <= valid + 8 * (length src - br_i r))%nat as Hlen.
  { apply (f_equal length) in Hbs. rewrite !length_app, length_top, length_bits_of, length_drop in Hbs.
    fold k in Hbs. lia. }
  assert ((if 0 <? Z.of_nat valid then
       need ← sub_u8 (Z.of_nat k) (Z.of_nat valid);
       Ok (rotate_left (br_cached_val r) (Z.of_nat k), need)
     else Ok (0, Z.of_nat k)) =
     Ok (E := string) (if (0 <? valid)%nat then rotate_left (br_cached_val r) (Z.of_nat k) else 0,
         Z.of_nat need)) as ->.
  { destruct (Nat.ltb_spec 0 valid).
    - rewrite (proj2 (Z.ltb_lt _ _)), sub_u8_ok by lia. run. do 2 f_equal. lia.
    - rewrite (proj2 (Z.ltb_ge _ _)) by lia. do 2 f_equal. lia. }
  run. destruct (refill_spec src (br_i r) Hu ltac:(lia)) as (r2 & -> & Hr2 & Hv2). run.
  assert (take valid bs1 = top valid (br_cached_val r) /\
    bits_of (drop (br_i r) src) = drop valid bs1 ++ bs2) as [Ht Hd].
  { split.
    - rewrite <- (take_app_le bs1 bs2) by lia. rewrite Hbs. by rewrite take_app_length' by (by rewrite length_top).
    - rewrite <- drop_app_le, Hbs by lia. by rewrite drop_app_length' by (by rewrite length_top). }
  rewrite Hd in Hr2. assert (length (drop valid bs1) = need) as Hneed by (rewrite length_drop; lia).
  destruct (reads_cached src r2 _ _ Hr2 ltac:(lia)) as [Hz Hr3]. rewrite Hneed in Hz, Hr3.
  assert ((if wrapping then Ok (u8 (br_valid_bits r2 - Z.of_nat need))
           else sub_u8 (br_valid_bits r2) (Z.of_nat need)) =
     Ok (E := string) (br_valid_bits r2 - Z.of_nat need)) as ->.
  { destruct wrapping; [|by rewrite sub_u8_ok by lia]. unfold u8. rewrite Z.mod_small by lia. done. }
  run. rewrite BIT_MASK_ones by lia. eexists _, _. split; [reflexivity|]. split; [|exact Hr3].
  replace k with (valid + need)%nat by lia. rewrite zbits_join by (done || lia).
  rewrite Hz, <- Ht. apply take_drop.
Qed.

(** What the decoder keeps of the window; before the first delta it is not used. *)
Definition window_rel (w : window) (trailing_n meaningful_n : Z) : Prop :=
  match w with
  | Some (pl, pt) => trailing_n = pt /\ meaningful_n = 64 - pl - pt
  | None => True
  end.

(** The bits of a window give the delta back. *)
Lemma window_value d pl pt x :
  0 < d -> 0 <= pl -> 0 <= pt -> pl + pt <= 63 -> d < 2 ^ (64 - pl) -> (2 ^ pt | d) ->
  let l := 64 - pl - pt in
  zbits (Z.to_nat l) x = zbits (Z.to_nat l) (Z.shiftr d pt) ->
  shl64 (Z.land x (BIT_MASK (Z.land l 63))) (Z.land pt 63) = d.
Proof.
  intros Hd Hpl Hpt Hsum Hlt [q ->] l Hz.
  assert (Z.shiftr (q * 2 ^ pt) pt = q) as Hq by (rewrite Z.shiftr_div_pow2, Z.div_mul; lia).
  rewrite Hq in Hz. rewrite BIT_MASK_ones by lia. change 63 with (Z.ones 6).
  rewrite (Z.land_ones pt), (Z.mod_small pt) by lia. rewrite <- (Z2Nat.id l) by lia.
  assert (q < 2 ^ l).
  { apply (Z.mul_lt_mono_pos_r (2 ^ pt)); [lia|]. rewrite <- Z.pow_add_r by lia.
    by replace (l + pt) with (64 - pl) by lia. }
  rewrite (zbits_mod _ _ q Hz) by (rewrite Z2Nat.id by lia; nia).
  unfold shl64. rewrite Z.shiftl_mul_pow2 by lia. apply u64_id.
  assert (2 ^ (64 - pl) <= 2 ^ 64) by (apply Z.pow_le_mono_r; lia). range.
Qed.

(** Reading the significant bits of a delta. *)
Lemma read_window src r prev cur pl pt bs (k : Z -> reader -> outcome string (list Z)) :
  Forall is_u8 src -> 0 < Z.lxor cur prev -> 0 <= pl -> 0 <= pt -> pl + pt <= 63 ->
  Z.lxor cur prev < 2 ^ (64 - pl) -> (2 ^ pt | Z.lxor cur prev) ->
  reads src r (zbits (Z.to_nat (64 - pl - pt)) (Z.shiftr (Z.lxor cur prev) pt) ++ bs) ->
  exists r', reads src r' bs /\
    ('(s_bits, r) ← read_bits true (64 - pl - pt) src r;
     let s_bits := Z.land s_bits (BIT_MASK (Z.land (64 - pl - pt) 63)) in
     let val := Z.lxor prev (shl64 s_bits (Z.land pt 63)) in k val r) = k cur r'.
Proof.
  intros Hu Hd Hpl Hpt Hsum Hlt Hdiv Hr.
  destruct (read_bits_spec true src r _ _ Hu Hr) as (x & r' & Hx & Hz & Hr'); rewrite length_zbits in *; [lia|].
  rewrite Z2Nat.id in Hx by lia. exists r'. split; [done|]. rewrite Hx. run. cbv zeta.
  rewrite (window_value (Z.lxor cur prev)) by done. f_equal.
  rewrite (Z.lxor_comm cur), <- Z.lxor_assoc, Z.lxor_nilpotent. apply Z.lxor_0_l.
Qed.

(** The 11 bits of a fresh window: 5 of leading zeros, 6 of length modulo 64. *)
Lemma header_bits x leading sig :
  0 <= leading <= 31 -> zbits 11 x = zbits 5 leading ++ zbits 6 sig ->
  Z.land x 0x7ff = leading * 64 + sig mod 64.
Proof.
  intros Hl Hx. set (y := leading * 64 + sig mod 64).
  pose proof (Z.mod_pos_bound sig 64 ltac:(lia)) as Hm. change 0x7ff with (Z.ones (Z.of_nat 11)).
  apply zbits_mod; [|unfold y; lia]. rewrite Hx. change 11%nat with (5 + 6)%nat. rewrite zbits_app. f_equal.
  - f_equal. rewrite Z.shiftr_div_pow2 by lia. change (2 ^ Z.of_nat 6) with 64.
    apply Z.div_unique with (r := sig mod 64); unfold y; lia.
  - apply zbits_ext. intros i Hi.
    rewrite <- (Z.mod_pow2_bits_low sig 6), <- (Z.mod_pow2_bits_low y 6) by lia. f_equal.
    change (2 ^ 6) with 64. unfold y. by rewrite Z.add_comm, Z.mod_add, Z.mod_mod by lia.
Qed.

Lemma fresh_window_spec x r leading trailing :
  0 <= leading <= 31 -> 0 <= trailing -> leading + trailing <= 63 ->
  zbits 11 x = zbits 5 leading ++ zbits 6 (64 - leading - trailing) ->
  fresh_window x r = Ok (trailing, 64 - leading - trailing, r).
Proof.
  intros Hl Ht Hsum Hx. unfold fresh_window. rewrite (header_bits x _ _ Hl Hx).
  set (sig := 64 - leading - trailing) in *. pose proof (Z.mod_pos_bound sig 64 ltac:(lia)) as Hm.
  assert (Z.shiftr (leading * 64 + sig mod 64) 6 = leading) as ->.
  { rewrite Z.shiftr_div_pow2 by lia. symmetry. apply Z.div_unique with (r := sig mod 64); lia. }
  assert (Z.land (leading * 64 + sig mod 64) 0x3f = sig mod 64) as ->.
  { change 0x3f with (Z.ones 6). rewrite Z.land_ones by lia. change (2 ^ 6) with 64.
    by rewrite Z.add_comm, Z.mod_add, Z.mod_mod by lia. }
  assert (Z.land (u8 leading) 0x1f = leading) as ->.
  { unfold u8. rewrite (Z.mod_small leading) by lia. change 0x1f with (Z.ones 5).
    rewrite Z.land_ones by lia. apply Z.mod_small. lia. }
  assert (sig = 64 \/ sig < 64) as [E|Hlt] by lia.
  - rewrite E. cbn. do 3 f_equal; lia.
  - rewrite (Z.mod_small sig) by lia. rewrite (proj2 (Z.ltb_lt _ _)) by lia.
    rewrite !sub_u8_ok by lia. run. rewrite sub_u8_ok by lia. run. do 3 f_equal. lia.
Qed.

(** ** The decoder reads the codes back *)

Lemma decode_reuse fuel src sentinel r prev cur pl pt bs dst :
  Forall is_u8 src -> 0 < Z.lxor cur prev -> 0 <= pl -> 0 <= pt -> pl + pt <= 63 ->
  Z.lxor cur prev < 2 ^ (64 - pl) -> (2 ^ pt | Z.lxor cur prev) ->
  reads src r ([true; false] ++
    zbits (Z.to_nat (64 - pl - pt)) (Z.shiftr (Z.lxor cur prev) pt) ++ bs) ->
  exists r', reads src r' bs /\
    decode_loop (S fuel) src sentinel r prev pt (64 - pl - pt) dst =
    if cur =? sentinel then Ok dst
    else decode_loop fuel src sentinel r' cur pt (64 - pl - pt) (dst ++ [cur]).
Proof.
  intros Hu Hd Hpl Hpt Hsum Hlt Hdiv Hr. cbn [decode_loop].
  destruct (read_bit_spec src r true _ Hu Hr) as (r1 & -> & Hr1). run.
  destruct (read_bit_spec src r1 false _ Hu Hr1) as (r2 & -> & Hr2). run.
  apply (read_window src r2 prev cur pl pt bs (fun val r =>
    if is_sentinel_u64 val sentinel then Ok dst
    else decode_loop fuel src sentinel r val pt (64 - pl - pt) (dst ++ [val]))); done.
Qed.

Lemma decode_fresh fuel src sentinel r prev cur pl pt bs t m dst :
  Forall is_u8 src -> 0 < Z.lxor cur prev -> 0 <= pl <= 31 -> 0 <= pt -> pl + pt <= 63 ->
  Z.lxor cur prev < 2 ^ (64 - pl) -> (2 ^ pt | Z.lxor cur prev) ->
  reads src r ([true; true] ++ zbits 5 pl ++ zbits 6 (64 - pl - pt) ++
    zbits (Z.to_nat (64 - pl - pt)) (Z.shiftr (Z.lxor cur prev) pt) ++ bs) ->
  exists r', reads src r' bs /\
    decode_loop (S fuel) src sentinel r prev t m dst =
    if cur =? sentinel then Ok dst
    else decode_loop fuel src sentinel r' cur pt (64 - pl - pt) (dst ++ [cur]).
Proof.
  intros Hu Hd Hpl Hpt Hsum Hlt Hdiv Hr. cbn [decode_loop].
  destruct (read_bit_spec src r true _ Hu Hr) as (r1 & -> & Hr1). run.
  destruct (read_bit_spec src r1 true _ Hu Hr1) as (r2 & -> & Hr2). run.
  rewrite (app_assoc (zbits 5 pl)) in Hr2.
  destruct (read_bits_spec false src r2 _ _ Hu Hr2) as (x & r3 & Hx & Hz & Hr3);
    rewrite length_app, !length_zbits in *; [lia|].
  change (Z.of_nat (5 + 6)) with 11 in Hx. rewrite Hx. run. rewrite (fresh_window_spec x r3 pl pt) by done. run.
  apply (read_window src r3 prev cur pl pt bs (fun val r =>
    if is_sentinel_u64 val sentinel then Ok dst
    else decode_loop fuel src sentinel r val pt (64 - pl - pt) (dst ++ [val]))); done || lia.
Qed.

Lemma decode_step fuel src sentinel r w prev cur bs t m dst :
  Forall is_u8 src -> window_ok w -> is_u64 prev -> is_u64 cur -> window_rel w t m ->
  reads src r ((code w prev cur).1 ++ bs) ->
  exists r' t' m', window_rel (code w prev cur).2 t' m' /\ reads src r' bs /\
    decode_loop (S fuel) src sentinel r prev t m dst =
    if negb (cur =? prev) && (cur =? sentinel) then Ok dst
    else decode_loop fuel src sentinel r' cur t' m' (dst ++ [cur]).
Proof.
  intros Hu Hw Hp Hc Hrel. unfold code. set (d := Z.lxor cur prev). destruct (Z.eqb_spec d 0) as [E|Hne].
  { intros Hr. assert (cur = prev) as -> by (by apply Z.lxor_eq). rewrite Z.eqb_refl. cbn [negb andb fst snd] in *.
    destruct (read_bit_spec src r false bs Hu Hr) as (r1 & H1 & Hr1). exists r1, t, m.
    split_and!; [done|done|]. cbn [decode_loop]. by rewrite H1. }
  assert (0 < d < U64) as Hd by (pose proof (lxor_range 64 cur prev ltac:(lia) Hc Hp); range).
  assert ((cur =? prev) = false) as ->.
  { apply Z.eqb_neq. intros ->. apply Hne. apply Z.lxor_nilpotent. }
  destruct (leading_spec d Hd) as (Hl & Hl' & Hlt). destruct (trailing_zeros_spec d) as [Ht Hdiv]; [lia|].
  set (leading := Z.land (leading_zeros d) 31) in *. set (trailing := trailing_zeros d) in *.
  cbn [negb andb].
  assert (reads src r (([true; true] ++ zbits 5 leading ++ zbits 6 (64 - leading - trailing) ++
                zbits (Z.to_nat (64 - leading - trailing)) (Z.shiftr d trailing)) ++ bs) ->
    exists r' t' m', window_rel (Some (leading, trailing)) t' m' /\ reads src r' bs /\
      decode_loop (S fuel) src sentinel r prev t m dst =
      if cur =? sentinel then Ok dst
      else decode_loop fuel src sentinel r' cur t' m' (dst ++ [cur])) as Hfresh.
  { intros Hr. rewrite <- !app_assoc in Hr.
    destruct (decode_fresh fuel src sentinel r prev cur leading trailing bs t m dst) as (r' & Hr' & He);
      try done || lia. by exists r', trailing, (64 - leading - trailing). }
  destruct w as [[pl pt]|]; [|exact Hfresh].
  destruct (Z.leb_spec pl leading), (Z.leb_spec pt trailing); try exact Hfresh.
  cbn [andb fst snd]. clear Hfresh. intros Hr. destruct Hrel as [-> ->]. cbn in Hw.
  rewrite <- !app_assoc in Hr.
  destruct (decode_reuse fuel src sentinel r prev cur pl pt bs dst) as (r' & Hr' & He); try done || lia.
  - apply Z.lt_le_trans with (1 := Hlt). apply Z.pow_le_mono_r; lia.
  - apply Z.divide_trans with (2 := Hdiv). exists (2 ^ (trailing - pt)). rewrite <- Z.pow_add_r by lia.
    f_equal. lia.
  - by exists r', pt, (64 - pl - pt).
Qed.

Lemma decode_codes fuel src bs xs r w prev t m dst :
  Forall is_u8 src -> window_ok w -> is_u64 prev -> Forall is_u64 xs -> window_rel w t m ->
  Forall (fun x => x <> SENTINEL) xs -> (xs = [] -> prev <> SENTINEL) -> (length xs < fuel)%nat ->
  reads src r (codes w prev (xs ++ [SENTINEL]) ++ bs) ->
  decode_loop fuel src SENTINEL r prev t m dst = Ok (dst ++ xs).
Proof.
  intros Hu. revert fuel r w prev t m dst.
  induction xs as [|x xs IH]; intros [|fuel] r w prev t m dst Hw Hp Hxs Hrel Hs Hlast Hf Hr;
    cbn [length] in Hf; try lia; cbn [app codes] in Hr; rewrite <- app_assoc in Hr.
  - destruct (decode_step fuel src SENTINEL r w prev SENTINEL _ t m dst Hu Hw Hp
      ltac:(unfold SENTINEL; range) Hrel Hr) as (r' & t' & m' & _ & _ & ->).
    rewrite (proj2 (Z.eqb_neq _ prev)), Z.eqb_refl by (by intros <-; apply Hlast). by rewrite app_nil_r.
  - inversion_clear Hxs as [|? ? Hx Hxs']. inversion_clear Hs as [|? ? Hxn Hs'].
    destruct (decode_step fuel src SENTINEL r w prev x _ t m dst Hu Hw Hp Hx Hrel Hr)
      as (r' & t' & m' & Hrel' & Hr' & ->).
    rewrite (proj2 (Z.eqb_neq x SENTINEL)), andb_false_r by done.
    rewrite (IH fuel r' (code w prev x).2 x t' m') by (done || lia || by apply code_window).
    by rewrite <- app_assoc.
Qed.

Lemma codes_length w prev xs : (length xs <= length (codes w prev xs))%nat.
Proof.
  revert w prev. induction xs as [|x xs IH]; intros w prev; [done|]. cbn [codes length].
  rewrite length_app. specialize (IH (code w prev x).2 x).
  assert (1 <= length (code w prev x).1)%nat; [|lia].
  unfold code. destruct (_ =? 0); [done|]. destruct w as [[pl pt]|]; [destruct (_ && _)|]; cbn; lia.
Qed.

Lemma holds_bits dst out :
  holds dst out -> (length out <= 8 * length dst)%nat -> exists pad, bits_of dst = out ++ pad.
Proof.
  intros [_ Hb] Hl. exists (drop (length out) (bits_of dst)).
  rewrite <- (take_drop (length out) (bits_of dst)) at 1. f_equal.
  apply list_eq. intros p. destruct (Nat.lt_ge_cases p (length out)) as [Hp|].
  - rewrite lookup_take_lt, bits_of_lookup, Hb by lia. destruct (lookup_lt_is_Some_2 out p Hp) as [x Hx].
    by rewrite nth_lookup, Hx.
  - by rewrite !lookup_ge_None_2 by (rewrite ?length_take; lia).
Qed.

(** The state before the loop. *)
Lemma enc_inv_first first :
  enc_inv (mkEnc (Z.shiftl 1 4 :: to_be_bytes 8 first) 72 first u64_MAX 0)
    (zbits 8 16 ++ zbits 64 first) None first.
Proof.
  assert (bits_of (Z.shiftl 1 4 :: to_be_bytes 8 first) = zbits 8 16 ++ zbits 64 first) as Hb.
  { by rewrite <- (bits_of_be_bytes 8). }
  split_and!; [|done|done|done]. cbn [e_dst]. split.
  - constructor; [by vm_compute|]. apply to_be_bytes_u8.
  - intros p. rewrite <- Hb, nth_lookup. destruct (Nat.lt_ge_cases p 72) as [Hp|Hp].
    + by rewrite bits_of_lookup by done.
    + rewrite bit_past by done. by rewrite lookup_ge_None_2.
Qed.

(** The stream of a block: the encoding byte, the first value, the codes of the
    others and of the sentinel, padding to a byte. *)
Lemma encode_stream first src dst :
  is_u64 first -> Forall is_u64 src -> Forall (fun x => x <> SENTINEL) src ->
  (src = [] -> first <> SENTINEL) ->
  exists b pad, encode (first :: src) dst = Ok b /\ Forall is_u8 b /\
    bits_of b = zbits 8 16 ++ zbits 64 first ++ codes None first (src ++ [SENTINEL]) ++ pad.
Proof.
  intros Hf Hu Hs Hlast. unfold encode. cbn [app].
  pose proof (enc_inv_first first) as Hi. set (out := zbits 8 16 ++ zbits 64 first) in *.
  destruct (float_loop_spec src _ out None first Hi I Hf Hu Hs Hlast) as (st & -> & Hh & Hn & Hle). run.
  set (n := e_n st) in *. set (len := if (0 <? n mod 8)%nat then S (n / 8) else (n / 8)%nat).
  assert (n <= 8 * len)%nat as Hlen.
  { unfold len. pose proof (div8 n). pose proof (mod8 n). destruct (Nat.ltb_spec 0 (n mod 8)); lia. }
  rewrite Hn in Hle. destruct (holds_bits _ _ Hh Hle) as [pad Hpad].
  eexists _, (take (8 * len - n) pad). split; [reflexivity|]. split; [by apply Forall_take, Hh|].
  rewrite bits_of_take, Hpad, take_app, <- Hn, take_ge by lia. unfold out. by rewrite <- !app_assoc.
Qed.

Lemma float_roundtrip (first : Z) (src dst dst' : list Z) :
  is_u64 first -> Forall is_u64 src -> Forall (fun x => x <> SENTINEL) src ->
  (src = [] -> first <> SENTINEL) ->
  exists b, encode (first :: src) dst = Ok b /\ decode b dst' = Ok (dst' ++ first :: src).
Proof.
  intros Hf Hu Hs Hlast. destruct (encode_stream first src dst Hf Hu Hs Hlast) as (b & pad & He & Hb8 & Hbits).
  exists b. split; [done|]. unfold decode, decode_with_sentinel.
  assert (length src + 73 <= 8 * length b)%nat as Hlen.
  { rewrite <- length_bits_of, Hbits, !length_app, !length_zbits.
    pose proof (codes_length None first (src ++ [SENTINEL])) as Hc. rewrite length_app in Hc. cbn in Hc. lia. }
  rewrite (proj2 (Nat.ltb_ge _ _)) by lia. rewrite slice_ok by lia. run. cbn [Nat.add Nat.sub].
  assert (from_be_bytes (take 8 (drop 1 b)) = first) as ->.
  { apply (from_be_of_bits _ 8); [by apply Forall_take, Forall_drop|rewrite length_take, length_drop; lia| |done].
    rewrite bits_of_take, bits_of_drop, Hbits, !drop_app_length', take_app_length' by done. done. }
  destruct (refill_spec b 9 Hb8 ltac:(lia)) as (r & -> & Hr & _). run.
  rewrite (decode_codes _ _ pad src r None first 0 64 (dst' ++ [first])); try done; [by rewrite <- app_assoc|lia|].
  rewrite bits_of_drop, Hbits in Hr. rewrite (app_assoc (zbits 8 16)) in Hr.
  by rewrite drop_app_length' in Hr by done.
Qed.

(** C19. Encoding float bits and decoding them gives the values back, for a
    non-empty column whose values after the first are not the sentinel NaN, and
    whose first value is not the sentinel either when it stands alone. *)
Theorem encode_decode_float (first : Z) (src dst dst' : list Z) :
  is_u64 first -> Forall is_u64 src -> Forall (fun x => x <> SENTINEL) src ->
  (src = [] -> first <> SENTINEL) ->
  exists b, encode (first :: src) dst = Ok b /\ decode b dst' = Ok (dst' ++ first :: src).
Proof. apply float_roundtrip. Qed.

(** A value before the sentinel is encoded, the sentinel is refused. *)
Lemma encode_loop_sentinel pre post st out w prev :
  enc_inv st out w prev -> window_ok w -> is_u64 prev -> Forall is_u64 pre ->
  encode_loop (pre ++ SENTINEL :: post) st = Err "unsupported value"%string.
Proof.
  revert st out w prev. induction pre as [|x pre IH]; intros st out w prev Hi Hw Hp Hu; [done|].
  inversion_clear Hu as [|? ? Hx Hu']. cbn [app encode_loop].
  destruct (is_sentinel_u64 x SENTINEL); [done|].
  destruct (encode_value_spec st out w prev x Hi Hw Hp Hx) as (st1 & -> & Hi1 & _). run.
  apply (IH _ _ _ _ Hi1); [by apply code_window|done|done].
Qed.

(** The encoder refuses a column that holds the sentinel NaN after its first
    value, wherever it is. *)
Theorem encode_refuses_sentinel (first : Z) (pre post dst : list Z) :
  is_u64 first -> Forall is_u64 pre ->
  encode (first :: pre ++ SENTINEL :: post) dst = Err "unsupported value"%string.
Proof.
  intros Hf Hu. unfold encode. cbn [app].
  by rewrite (encode_loop_sentinel pre post _ _ None first (enc_inv_first first)).
Qed.

End reading.

Lemma encode_decode_float_witness :
  exists b, encode [0x3ff8000000000000; 0x4000000000000000; 0x4000000000000000; 0x400921fb54442d18] [] = Ok b /\
    decode (P := (true : BuildProfile)) b [7] =
      Ok [7; 0x3ff8000000000000; 0x4000000000000000; 0x4000000000000000; 0x400921fb54442d18].
Proof.
  apply (encode_decode_float (P := (true : BuildProfile)) 0x3ff8000000000000
    [0x4000000000000000; 0x4000000000000000; 0x400921fb54442d18] [] [7]).
  - by vm_compute.
  - by repeat constructor.
  - by repeat constructor.
  - done.
Defined.

Lemma encode_refuses_sentinel_witness :
  encode [0x3ff8000000000000; 0x4000000000000000; SENTINEL; 5] [] = Err "unsupported value"%string.
Proof.
  apply (encode_refuses_sentinel 0x3ff8000000000000 [0x4000000000000000] [5] []).
  - by vm_compute.
  - by repeat constructor.
Defined.

(** A column of the sentinel NaN alone is not refused: its block has no
    terminator, and the decoder rejects it. *)
Theorem lone_sentinel_undecodable {P : BuildProfile} (dst : list Z) :
  exists b, encode [SENTINEL] dst = Ok b /\ decode b [] = Err "unexpected end of block"%string.
Proof.
  exists (16 :: to_be_bytes 8 SENTINEL). split; [vm_compute; reflexivity|].
  unfold decode, decode_with_sentinel. rewrite slice_ok by (vm_compute; lia). run. reflexivity.
Qed.

End float.
