(* ===== verification/Sorting.v ===== *)
(** * Stable sorting

    [slice::sort_by] is a stable sort; the model is insertion sort on a boolean
    comparison, which computes the same list.  The lemmas give the properties
    the components use: the result is a sorted permutation, a sorted input is
    left alone, and the result does not depend on the order of the input when no
    two elements compare equal. *)
From S2P Require Import Prelude.
From Stdlib Require Import Sorting.Permutation Sorting.Sorted.

Section sort.
Context {A : Type} (le : A -> A -> bool).

Fixpoint insert_by (x : A) (l : list A) : list A :=
  match l with
  | [] => [x]
  | y :: l' => if le x y then x :: l else y :: insert_by x l'
  end.

(** [l.sort_by(..)]. *)
Fixpoint sort_by (l : list A) : list A :=
  match l with
  | [] => []
  | x :: l' => insert_by x (sort_by l')
  end.

Definition le_rel (x y : A) : Prop := le x y = true.

Class TotalPreorder : Prop := {
  le_total x y : le x y = true \/ le y x = true;
  le_trans' x y z : le x y = true -> le y z = true -> le x z = true
}.

Lemma insert_by_perm x l : Permutation (x :: l) (insert_by x l).
Proof.
  induction l as [|y l IH]; [done|]. cbn [insert_by]. destruct (le x y); [done|].
  etrans; [apply perm_swap|]. by constructor.
Qed.

Lemma sort_by_perm l : Permutation l (sort_by l).
Proof.
  induction l as [|x l IH]; [done|]. cbn [sort_by].
  etrans; [|apply insert_by_perm]. by constructor.
Qed.

Lemma insert_by_le x y l : le_rel y x -> Forall (le_rel y) l -> Forall (le_rel y) (insert_by x l).
Proof.
  intros Hx Hl. eapply Permutation_Forall; [apply insert_by_perm|]. by constructor.
Qed.

(** A sorted list is left alone, whatever the order. *)
Lemma sort_by_sorted l : StronglySorted le_rel l -> sort_by l = l.
Proof.
  induction 1 as [|x l Hs IH Hf]; [done|]. cbn [sort_by]. rewrite IH.
  destruct l as [|y l]; [done|]. cbn [insert_by]. inversion Hf as [|? ? Hxy]; subst.
  unfold le_rel in Hxy. by rewrite Hxy.
Qed.

Context {TP : TotalPreorder}.

Lemma insert_by_sorted x l : StronglySorted le_rel l -> StronglySorted le_rel (insert_by x l).
Proof.
  induction 1 as [|y l Hs IH Hf]; cbn [insert_by]; [repeat constructor|].
  destruct (le x y) eqn:Hxy.
  - constructor; [by constructor|]. constructor; [done|].
    eapply Forall_impl; [exact Hf|]. intros z Hz. by eapply le_trans'.
  - constructor; [done|]. apply insert_by_le; [|done].
    destruct (le_total x y) as [H|H]; [congruence|done].
Qed.

Lemma sort_by_is_sorted l : StronglySorted le_rel (sort_by l).
Proof. induction l as [|x l IH]; [constructor|]. by apply insert_by_sorted. Qed.

(** Two sorted permutations of each other are equal when elements that compare
    equal both ways are equal. *)
Lemma sorted_perm_unique l l' :
  (forall x y, x ∈ l -> y ∈ l -> le x y = true -> le y x = true -> x = y) ->
  StronglySorted le_rel l -> StronglySorted le_rel l' -> Permutation l l' -> l = l'.
Proof.
  intros Hanti Hl. revert l' Hanti. induction Hl as [|x l Hs IH Hf]; intros l' Hanti Hl' Hp.
  { by apply Permutation_nil in Hp. }
  destruct l' as [|y l']; [by apply Permutation_sym, Permutation_nil in Hp|].
  inversion Hl' as [|? ? Hs' Hf']; subst.
  assert (x = y) as ->.
  { assert (y ∈ x :: l) as Hy by (rewrite Hp; apply list_elem_of_here).
    assert (x ∈ y :: l') as Hx by (rewrite <- Hp; apply list_elem_of_here).
    apply elem_of_cons in Hy as [->|Hy]; [done|]. apply elem_of_cons in Hx as [->|Hx]; [done|].
    rewrite Forall_forall in Hf, Hf'. apply Hanti; [apply list_elem_of_here|by right| |].
    - by apply Hf. - by apply Hf'. }
  f_equal. apply IH; [|done|by apply Permutation_cons_inv in Hp].
  intros a b Ha Hb. apply Hanti; by right.
Qed.

(** The sorted list does not depend on the order of the input. *)
Lemma sort_by_order_free l l' :
  (forall x y, x ∈ l -> y ∈ l -> le x y = true -> le y x = true -> x = y) ->
  Permutation l l' -> sort_by l = sort_by l'.
Proof.
  intros Hanti Hp. apply sorted_perm_unique; [|apply sort_by_is_sorted..|].
  - intros x y Hx Hy. rewrite <- sort_by_perm in Hx, Hy. by apply Hanti.
  - by rewrite <- !sort_by_perm.
Qed.

End sort.

(** Lexicographic order on byte strings ([Vec<u8>: Ord]). *)
Fixpoint bytes_le (a b : list Z) : bool :=
  match a, b with
  | [], _ => true
  | _ :: _, [] => false
  | x :: a', y :: b' => if x <? y then true else if y <? x then false else bytes_le a' b'
  end.

Lemma bytes_le_total a b : bytes_le a b = true \/ bytes_le b a = true.
Proof.
  revert b. induction a as [|x a IH]; intros [|y b]; cbn; auto.
  destruct (Z.ltb_spec x y), (Z.ltb_spec y x); try lia; auto.
Qed.

Lemma bytes_le_antisym a b : bytes_le a b = true -> bytes_le b a = true -> a = b.
Proof.
  revert b. induction a as [|x a IH]; intros [|y b]; cbn; try done.
  destruct (Z.ltb_spec x y), (Z.ltb_spec y x); try done; try lia.
  intros. assert (x = y) as -> by lia. f_equal. auto.
Qed.

Lemma bytes_le_trans a b c : bytes_le a b = true -> bytes_le b c = true -> bytes_le a c = true.
Proof.
  revert b c. induction a as [|x a IH]; intros [|y b] [|z c]; cbn; try done.
  destruct (Z.ltb_spec x y), (Z.ltb_spec y x), (Z.ltb_spec y z), (Z.ltb_spec z y),
    (Z.ltb_spec x z), (Z.ltb_spec z x); try done; try lia. apply IH.
Qed.
