(* ===== verification/Utils.v ===== *)
(** * Hashing, the bloom filter and the byte readers
      (utils/src/bkdr_hash.rs, utils/src/bloom_filter.rs, tskv/src/byte_utils.rs)

    The bloom filter uses one hash function: a filter after a sequence of
    insertions answers [true] exactly on the data whose location collides with
    an inserted one, so it never forgets an insertion.  The module also says
    when a filter rebuilt from its own bytes is the filter it came from. *)
From S2P Require Import Prelude.

Module bkdr_hash.

Definition SEED : Z := 1313.

Record BkdrHasher := mkBkdrHasher { prefix : option Z; number : Z }.

Definition new : BkdrHasher := mkBkdrHasher None 0.
Definition with_prefix (p : Z) : BkdrHasher := mkBkdrHasher (Some p) 0.
Definition with_number (n : Z) : BkdrHasher := mkBkdrHasher None n.

(** [self.number.wrapping_mul(SEED).wrapping_add(c)]. *)
Definition step (n c : Z) : Z := u64 (u64 (n * SEED) + c).

Definition write (h : BkdrHasher) (bytes : list Z) : BkdrHasher :=
  mkBkdrHasher (prefix h) (foldl step (number h) bytes).

Definition hash_with (h : BkdrHasher) (bytes : list Z) : BkdrHasher := write h bytes.
Definition finish (h : BkdrHasher) : Z := number h.

(** The [u128] with the prefix in the high half. *)
Definition number_with_prefix (h : BkdrHasher) : Z :=
  match prefix h with
  | Some p => Z.lor (Z.shiftl p 64) (number h)
  | None => number h
  end.

Lemma write_u64 h bytes : is_u64 (number h) -> is_u64 (number (write h bytes)).
Proof.
  intros Hh. cbn [write number]. revert Hh. generalize (number h).
  induction bytes as [|c bytes IH]; intros n Hn; [done|]. cbn [foldl]. apply IH, u64_range.
Qed.

(** Hashing in pieces is hashing the concatenation. *)
Lemma write_app h a b : write (write h a) b = write h (a ++ b).
Proof. unfold write. cbn [number prefix]. by rewrite foldl_app. Qed.

End bkdr_hash.

Module bloom_filter.

Record BloomFilter := mkBloomFilter { bf_b : list Z; bf_mask : Z }.

(** [let mut i = 8; while i < 1 << 62 { if i >= num { return i } i *= 2 } panic!]. *)
Fixpoint pow2_loop (fuel : nat) (i num : Z) : outcome string Z :=
  if i <? Z.shiftl 1 62 then
    if num <=? i then Ok i
    else match fuel with
         | O => OutOfFuel
         | S fuel' => pow2_loop fuel' (i * 2) num
         end
  else Panic.

(** From [2^3] the bound [2^62] is reached after 59 doublings. *)
Definition pow2 (num : Z) : outcome string Z := pow2_loop 59 8 num.

Definition new (m : Z) : outcome string BloomFilter :=
  m ← pow2 m;
  let l := Z.to_nat (Z.shiftr m 3) in
  Ok (mkBloomFilter (vec_resize l 0 []) (m - 1)).

Definition with_data (data : list Z) : outcome string BloomFilter :=
  l ← pow2 (Z.of_nat (length data));
  let b := if negb (l =? Z.of_nat (length data)) then vec_resize (Z.to_nat l) 0 data else data in
  let m := Z.shiftl l 3 in
  Ok (mkBloomFilter b (m - 1)).

Definition hash (data : list Z) : Z := bkdr_hash.number (bkdr_hash.hash_with bkdr_hash.new data).

Definition location (f : BloomFilter) (h : Z) : Z := Z.land h (bf_mask f).

Definition insert (f : BloomFilter) (data : list Z) : outcome string BloomFilter :=
  let loc := location f (hash data) in
  let i := Z.to_nat (Z.shiftr loc 3) in
  x ← get (bf_b f) i;
  b ← set (bf_b f) i (Z.lor x (Z.shiftl 1 (Z.land loc 7)));
  Ok (mkBloomFilter b (bf_mask f)).

Definition contains (f : BloomFilter) (data : list Z) : outcome string bool :=
  let loc := location f (hash data) in
  x ← get (bf_b f) (Z.to_nat (Z.shiftr loc 3));
  Ok (negb (Z.land x (Z.shiftl 1 (Z.land loc 7)) =? 0)).

Definition len (f : BloomFilter) : nat := length (bf_b f).
Definition bytes (f : BloomFilter) : list Z := bf_b f.

(** A sequence of insertions. *)
Fixpoint insert_all (f : BloomFilter) (ds : list (list Z)) : outcome string BloomFilter :=
  match ds with
  | [] => Ok f
  | d :: ds' => f ← insert f d; insert_all f ds'
  end.

(** ** Invariant: a power-of-two number of bits, and the mask that selects one *)

Definition wf (f : BloomFilter) : Prop :=
  exists k, 3 <= k <= 62 /\ Z.of_nat (length (bf_b f)) = 2 ^ (k - 3) /\ bf_mask f = 2 ^ k - 1.

Lemma hash_u64 d : is_u64 (hash d).
Proof. unfold hash. apply bkdr_hash.write_u64. cbn. range. Qed.

Lemma pow2_loop_spec fuel k num :
  3 <= k -> 62 <= k + Z.of_nat fuel ->
  (exists j, k <= j < 62 /\ pow2_loop fuel (2 ^ k) num = Ok (2 ^ j) /\ num <= 2 ^ j /\
     (j = k \/ 2 ^ (j - 1) < num)) \/
  (pow2_loop fuel (2 ^ k) num = Panic /\ (k < 62 -> 2 ^ 61 < num)).
Proof.
  revert k. induction fuel as [|fuel IH]; intros k Hk Hf; cbn [pow2_loop];
    change (Z.shiftl 1 62) with (2 ^ 62).
  { rewrite (proj2 (Z.ltb_ge _ _)) by (apply Z.pow_le_mono_r; lia). right. split; [done|lia]. }
  destruct (Z.lt_ge_cases k 62) as [Hlt|Hge].
  2: { rewrite (proj2 (Z.ltb_ge _ _)) by (apply Z.pow_le_mono_r; lia). right. split; [done|lia]. }
  rewrite (proj2 (Z.ltb_lt _ _)) by (apply Z.pow_lt_mono_r; lia).
  destruct (Z.leb_spec num (2 ^ k)) as [Hle|Hgt].
  { left. exists k. split_and!; [lia|lia|done|done|by left]. }
  replace (2 ^ k * 2) with (2 ^ (k + 1)) by (rewrite Z.pow_add_r; lia).
  destruct (IH (k + 1)) as [(j & Hj & He & Hn & Hmin)|[He Hp]]; [lia|lia|..].
  - left. exists j. split_and!; [lia|lia|done|done|]. right. destruct Hmin as [->|?]; [|done].
    by replace (k + 1 - 1) with k by lia.
  - right. split; [done|]. intros _. destruct (decide (k = 61)) as [->|]; [done|]. apply Hp. lia.
Qed.

(** [pow2] returns the least power of two that is at least [num] and at least 8. *)
Lemma pow2_ok num : num <= 2 ^ 61 ->
  exists j, 3 <= j < 62 /\ pow2 num = Ok (2 ^ j) /\ num <= 2 ^ j /\ (j = 3 \/ 2 ^ (j - 1) < num).
Proof.
  intros Hn. unfold pow2. change 8 with (2 ^ 3).
  destruct (pow2_loop_spec 59 3 num) as [?|[_ Hp]]; [lia|lia|done|]. specialize (Hp ltac:(lia)). lia.
Qed.

Lemma pow2_exact k : 3 <= k < 62 -> pow2 (2 ^ k) = Ok (2 ^ k).
Proof.
  intros Hk. destruct (pow2_ok (2 ^ k)) as (j & Hj & He & Hn & Hmin).
  { apply Z.pow_le_mono_r; lia. }
  assert (k <= j) by (apply (Z.pow_le_mono_r_iff 2); lia).
  destruct Hmin as [->|Hlt]; [assert (k = 3) as -> by lia; done|].
  apply Z.pow_lt_mono_r_iff in Hlt; [|lia|lia]. by assert (k = j) as -> by lia.
Qed.

Lemma wf_new m : m <= 2 ^ 61 -> exists f, new m = Ok f /\ wf f /\ bf_b f = replicate (len f) 0.
Proof.
  intros Hm. destruct (pow2_ok m Hm) as (j & Hj & He & _ & _). unfold new. rewrite He. run.
  eexists. split; [reflexivity|]. unfold len. cbn [bf_b bf_mask]. unfold vec_resize.
  rewrite resize_nil, length_replicate. split; [|done]. exists j.
  cbn [bf_b bf_mask]. rewrite length_replicate. split; [lia|split; [|lia]].
  rewrite Z.shiftr_div_pow2 by lia. rewrite <- Z.pow_sub_r by lia. rewrite Z2Nat.id; [done|].
  apply Z.pow_nonneg. lia.
Qed.

(** The byte and the bit a location selects. *)
Lemma location_spec f d : wf f ->
  exists i k, Z.to_nat (Z.shiftr (location f (hash d)) 3) = i /\ (i < length (bf_b f))%nat /\
    Z.land (location f (hash d)) 7 = k /\ 0 <= k < 8 /\ location f (hash d) = 8 * Z.of_nat i + k.
Proof.
  intros (j & Hj & Hlen & Hmask). unfold location. rewrite Hmask.
  replace (2 ^ j - 1) with (Z.ones j) by (rewrite Z.ones_equiv; lia).
  rewrite Z.land_ones by lia. set (l := hash d mod 2 ^ j).
  assert (0 <= l < 2 ^ j) as Hl by (apply Z.mod_pos_bound, Z.pow_pos_nonneg; lia).
  change 7 with (Z.ones 3). rewrite Z.land_ones, Z.shiftr_div_pow2 by lia. change (2 ^ 3) with 8.
  pose proof (Z.div_mod l 8 ltac:(lia)). pose proof (Z.mod_pos_bound l 8 ltac:(lia)).
  assert (0 <= l / 8) by (apply Z.div_pos; lia).
  eexists _, _. split_and!; [reflexivity| |reflexivity|lia|lia|].
  - assert (2 ^ j = 8 * 2 ^ (j - 3)).
    { change 8 with (2 ^ 3). rewrite <- Z.pow_add_r by lia. f_equal. lia. }
    lia.
  - rewrite Z2Nat.id by done. lia.
Qed.

(** One insertion: the filter keeps its shape and answers [true] in addition on
    the data that share the location. *)
Lemma insert_spec f d : wf f ->
  exists f', insert f d = Ok f' /\ wf f' /\ bf_mask f' = bf_mask f /\
    forall x, exists r, contains f x = Ok r /\
      contains f' x = Ok ((location f (hash d) =? location f (hash x)) || r).
Proof.
  intros Hwf. destruct (location_spec f d Hwf) as (i & k & Ei & Hi & Ek & Hk & El).
  unfold insert. rewrite Ei, Ek. destruct (lookup_lt_is_Some_2 (bf_b f) i Hi) as [y Hy].
  unfold get at 1. rewrite Hy. run. unfold set. rewrite (proj2 (Nat.ltb_lt _ _)) by done. run.
  eexists. split; [reflexivity|]. split_and!; [|done|].
  { destruct Hwf as (j & ? & ? & ?). exists j. cbn [bf_b bf_mask]. by rewrite length_insert. }
  intros x. destruct (location_spec f x Hwf) as (i' & k' & Ei' & Hi' & Ek' & Hk' & El').
  unfold contains. cbn [bf_b].
  change (location (mkBloomFilter ?b (bf_mask f)) (hash x)) with (location f (hash x)).
  rewrite Ei', Ek'.
  destruct (lookup_lt_is_Some_2 (bf_b f) i' Hi') as [y' Hy']. unfold get. rewrite Hy'. run.
  eexists. split; [reflexivity|]. rewrite !Z.shiftl_1_l, land_pow2 by lia.
  destruct (decide (i = i')) as [<-|Hne].
  - rewrite list_lookup_insert_eq by done. run. rewrite Hy in Hy'. injection Hy' as <-.
    rewrite land_pow2, Z.lor_spec, Z.pow2_bits_eqb, !negb_involutive by lia.
    rewrite orb_comm. do 2 f_equal.
    destruct (Z.eqb_spec k k'), (Z.eqb_spec (location f (hash d)) (location f (hash x))); lia || done.
  - rewrite list_lookup_insert_ne by done. rewrite Hy'. run. rewrite land_pow2 by lia.
    destruct (Z.eqb_spec (location f (hash d)) (location f (hash x))); [lia|done].
Qed.

Lemma insert_all_spec f ds : wf f ->
  exists f', insert_all f ds = Ok f' /\ wf f' /\ bf_mask f' = bf_mask f /\
    forall x, exists r, contains f x = Ok r /\
      contains f' x =
        Ok (existsb (fun d => location f (hash d) =? location f (hash x)) ds || r).
Proof.
  revert f. induction ds as [|d ds IH]; intros f Hwf; cbn [insert_all existsb].
  { exists f. split_and!; [done|done|done|]. intros x.
    destruct (insert_spec f x Hwf) as (f' & _ & _ & _ & Hc). destruct (Hc x) as (r & Hr & _).
    exists r. by rewrite Hr. }
  destruct (insert_spec f d Hwf) as (f1 & -> & Hwf1 & Hm1 & Hc1). run.
  destruct (IH f1 Hwf1) as (f' & -> & Hwf' & Hm' & Hc'). exists f'.
  split_and!; [done|done|congruence|]. intros x.
  destruct (Hc1 x) as (r & Hr & Hr1). destruct (Hc' x) as (r1 & Hr1' & Hr').
  exists r. split; [done|]. rewrite Hr'. rewrite Hr1 in Hr1'. injection Hr1' as <-.
  unfold location. rewrite Hm1. f_equal.
  rewrite orb_assoc. f_equal. apply orb_comm.
Qed.

Lemma contains_empty f x : wf f -> bf_b f = replicate (len f) 0 -> contains f x = Ok false.
Proof.
  intros Hwf Hz. destruct (location_spec f x Hwf) as (i & k & Ei & Hi & Ek & Hk & _).
  unfold contains. rewrite Ei, Ek, Hz. unfold get.
  rewrite lookup_replicate_2 by (unfold len in *; done). done.
Qed.

(** ** Correctness *)

(** A filter created by [new] and filled by any sequence of insertions
    answers [true] exactly on the data whose location is the location of an
    inserted datum: every inserted datum is found, and a false answer is always
    right.  No insertion and no query panics. *)
Theorem no_false_negative m ds :
  m <= 2 ^ 61 ->
  exists f f', new m = Ok f /\ insert_all f ds = Ok f' /\
    (forall x, contains f' x =
       Ok (existsb (fun d => location f (hash d) =? location f (hash x)) ds)) /\
    Forall (fun d => contains f' d = Ok true) ds.
Proof.
  intros Hm. destruct (wf_new m Hm) as (f & Hf & Hwf & Hz).
  destruct (insert_all_spec f ds Hwf) as (f' & He & _ & _ & Hc).
  assert (forall x, contains f' x =
    Ok (existsb (fun d => location f (hash d) =? location f (hash x)) ds)) as Hex.
  { intros x. destruct (Hc x) as (r & Hr & ->). rewrite contains_empty in Hr by done.
    injection Hr as <-. by rewrite orb_false_r. }
  exists f, f'. split_and!; [done|done|done|]. apply Forall_forall. intros d Hd. rewrite Hex. f_equal.
  apply existsb_exists. exists d. split; [by apply list_elem_of_In|apply Z.eqb_refl].
Qed.

Lemma no_false_negative_witness :
  exists f f', new 64 = Ok f /\ insert_all f [[1; 2]; [3]] = Ok f' /\
    (forall x, contains f' x =
       Ok (existsb (fun d => location f (hash d) =? location f (hash x)) [[1; 2]; [3]])) /\
    Forall (fun d => contains f' d = Ok true) [[1; 2]; [3]].
Proof. apply (no_false_negative 64 [[1; 2]; [3]]). vm_compute. discriminate. Defined.

(** The filter of a file is written as its bytes and rebuilt from them. *)
Lemma with_data_bytes f k :
  6 <= k < 62 -> Z.of_nat (length (bf_b f)) = 2 ^ (k - 3) -> bf_mask f = 2 ^ k - 1 ->
  with_data (bytes f) = Ok f.
Proof.
  intros Hk Hlen Hmask. unfold with_data, bytes. rewrite Hlen, pow2_exact by lia. run.
  rewrite Z.eqb_refl. cbn [negb]. destruct f as [b mask]. cbn [bf_b bf_mask] in *. do 2 f_equal.
  rewrite Hmask, Z.shiftl_mul_pow2 by lia. rewrite <- Z.pow_add_r by lia. do 2 f_equal. lia.
Qed.

(** A filter of at least 64 bits rebuilt from its bytes, as a reader of the
    file footer does, is the same filter: it still answers every query the same
    way. *)
Theorem with_data_roundtrip m ds f f' :
  64 <= m <= 2 ^ 61 -> new m = Ok f -> insert_all f ds = Ok f' -> with_data (bytes f') = Ok f'.
Proof.
  intros Hm Hf He. destruct (pow2_ok m ltac:(lia)) as (j & Hj & Hp & Hle & _).
  assert (6 <= j) as Hj6.
  { destruct (Z.lt_ge_cases j 6); [|done]. assert (2 ^ j <= 2 ^ 5) by (apply Z.pow_le_mono_r; lia). lia. }
  destruct (wf_new m ltac:(lia)) as (f0 & Hf0 & Hwf & _). rewrite Hf in Hf0. injection Hf0 as <-.
  destruct (insert_all_spec f ds Hwf) as (f1 & He1 & (k & Hk & Hlen & Hmask) & Hm1 & _).
  rewrite He in He1. injection He1 as <-.
  assert (bf_mask f = 2 ^ j - 1) as Hj'.
  { unfold new in Hf. rewrite Hp in Hf. revert Hf. run. by intros [= <-]. }
  assert (k = j) as -> by (apply (Z.pow_inj_r 2); lia).
  by apply (with_data_bytes f' j); [lia|..].
Qed.

Lemma with_data_roundtrip_witness :
  let f := mkBloomFilter (replicate 8 0) 63 in
  let f' := mkBloomFilter [2; 0; 0; 0; 0; 0; 0; 0] 63 in
  new 64 = Ok f /\ insert_all f [[1]] = Ok f' /\ with_data (bytes f') = Ok f'.
Proof.
  intros f f'. assert (new 64 = Ok f) as Hf by reflexivity.
  assert (insert_all f [[1]] = Ok f') as Hi by (vm_compute; reflexivity).
  split_and!; [exact Hf|exact Hi|]. apply (with_data_roundtrip 64 [[1]] f f'); [lia|exact Hf|exact Hi].
Defined.

End bloom_filter.

Module byte_utils.

(** The readers cast the slice to a fixed-size array without a length check:
    [None] stands for the out-of-bounds read (undefined behaviour). *)
Definition read_be (n : nat) (key : list Z) : option Z :=
  if (n <=? length key)%nat then Some (from_be_bytes (take n key)) else None.

Definition decode_be_u16 (key : list Z) : option Z := read_be 2 key.
Definition decode_be_u32 (key : list Z) : option Z := read_be 4 key.
Definition decode_be_u64 (key : list Z) : option Z := read_be 8 key.
Definition decode_be_u128 (key : list Z) : option Z := read_be 16 key.
Definition decode_be_i64 (key : list Z) : option Z := i64 <$> read_be 8 key.
(** An [f64] is represented by its bits. *)
Definition decode_be_f64 (key : list Z) : option Z := read_be 8 key.
Definition decode_be_bool (key : list Z) : option bool := (fun val => 0 <? val) <$> read_be 1 key.

Lemma read_be_spec n v rest :
  0 <= v < 256 ^ Z.of_nat n -> read_be n (to_be_bytes n v ++ rest) = Some v.
Proof.
  intros Hv. unfold read_be. rewrite (proj2 (Nat.leb_le _ _))
    by (rewrite length_app, length_to_be_bytes; lia).
  rewrite <- (length_to_be_bytes n v) at 1. rewrite take_app_length. by rewrite from_to_be_bytes.
Qed.

(** Each reader returns the value whose big-endian bytes start the slice. *)
Lemma byte_utils_read v rest :
  (is_u16 v -> decode_be_u16 (to_be_bytes 2 v ++ rest) = Some v) /\
  (is_u32 v -> decode_be_u32 (to_be_bytes 4 v ++ rest) = Some v) /\
  (is_u64 v -> decode_be_u64 (to_be_bytes 8 v ++ rest) = Some v) /\
  (is_i64 v -> decode_be_i64 (to_be_bytes 8 (u64 v) ++ rest) = Some v) /\
  (is_u8 v -> decode_be_bool (to_be_bytes 1 v ++ rest) = Some (0 <? v)).
Proof.
  split_and!; intros Hv;
    unfold decode_be_u16, decode_be_u32, decode_be_u64, decode_be_i64, decode_be_bool.
  - apply read_be_spec. simpl Z.of_nat. range.
  - apply read_be_spec. simpl Z.of_nat. range.
  - apply read_be_spec. simpl Z.of_nat. range.
  - rewrite read_be_spec; [cbn; by rewrite u64_of_i64_inj|].
    pose proof (u64_range v). simpl Z.of_nat. range.
  - rewrite read_be_spec; [done|]. simpl Z.of_nat. range.
Qed.

End byte_utils.
