(* ===== verification/Models.v ===== *)
(** * The data model (models/src/field_info.rs, tag.rs, series_info.rs, points.rs)

    Series and field identifiers are hashes of tags and names.  A point arrives
    as a flatbuffers message, generated code that is represented by the record
    of its accessors.  The theorems say when the two places that compute a
    series identifier agree, and that identifiers do not depend on the order in
    which a client lists the tags. *)
From S2P Require Import Prelude Sorting Utils.
From Stdlib Require Import Sorting.Permutation Sorting.Sorted.

(** ** The accessors of the generated flatbuffers types (protos::models) *)
Inductive fb_FieldType := FbInteger | FbFloat | FbString | FbBoolean | FbUnsigned | FbUnknown.

Record fb_Tag := mk_fb_Tag { fb_key : option (list Z); fb_value : option (list Z) }.
Record fb_Field := mk_fb_Field {
  fb_name : option (list Z); fb_type : fb_FieldType; fb_fvalue : option (list Z) }.
Record fb_Point := mk_fb_Point {
  fb_tags : option (list fb_Tag); fb_fields : option (list fb_Field); fb_timestamp : Z }.

Module field_info.

Inductive ValueType := Unknown | Float | Integer | Unsigned | Boolean | String_.

#[global] Instance ValueType_eq_dec : EqDecision ValueType.
Proof. solve_decision. Defined.

(** [From<u8> for ValueType]. *)
Definition from_u8 (v : Z) : ValueType :=
  if v =? 0 then Float else if v =? 1 then Integer else if v =? 2 then Boolean
  else if v =? 3 then String_ else if v =? 4 then Unsigned else Unknown.

(** [From<ValueType> for u8]. *)
Definition to_u8 (v : ValueType) : Z :=
  match v with
  | Float => 0 | Integer => 1 | Boolean => 2 | String_ => 3 | Unsigned => 4 | Unknown => 5
  end.

(** [From<protos::models::FieldType>]. *)
Definition from_fb (t : fb_FieldType) : ValueType :=
  match t with
  | FbFloat => Float | FbInteger => Integer | FbUnsigned => Unsigned
  | FbBoolean => Boolean | FbString => String_ | FbUnknown => Unknown
  end.

Definition FIELD_NAME_MAX_LEN : nat := 512.

Record FieldInfo := mkFieldInfo { id : Z; name : list Z; value_type : ValueType; finished : bool }.

Definition generate_field_id (n : list Z) (sid : Z) : Z :=
  bkdr_hash.number (bkdr_hash.hash_with (bkdr_hash.with_number sid) n).

Definition finish (f : FieldInfo) (series_id : Z) : FieldInfo :=
  mkFieldInfo (generate_field_id (name f) series_id) (name f) (value_type f) true.

Definition new (series_id : Z) (n : list Z) (t : ValueType) : FieldInfo :=
  finish (mkFieldInfo 0 n t true) series_id.

Definition from_flatbuffers (f : fb_Field) : outcome string FieldInfo :=
  n ← of_option (fb_name f) EmptyString;
  Ok (mkFieldInfo 0 n (from_fb (fb_type f)) false).

Definition check (f : FieldInfo) : outcome string unit :=
  if (FIELD_NAME_MAX_LEN <? length (name f))%nat
  then Err "TagKey exceeds the FIELD_NAME_MAX_LEN"%string else Ok tt.

Lemma from_to_u8 v : from_u8 (to_u8 v) = v.
Proof. by destruct v. Qed.

Lemma to_u8_u8 v : is_u8 (to_u8 v).
Proof. destruct v; cbn; range. Qed.

End field_info.

Module tag.

Record Tag := mkTag { key : list Z; value : list Z }.

#[global] Instance Tag_eq_dec : EqDecision Tag.
Proof. solve_decision. Defined.

Definition TAG_KEY_MAX_LEN : nat := 512.
Definition TAG_VALUE_MAX_LEN : nat := 4096.

Definition tag_le (a b : Tag) : bool := bytes_le (key a) (key b).

Definition sort_tags (tags : list Tag) : list Tag := sort_by tag_le tags.

Definition from_flatbuffers (t : fb_Tag) : outcome string Tag :=
  k ← of_option (fb_key t) "Tag key cannot be empty"%string;
  v ← of_option (fb_value t) "Tag value cannot be emptyt"%string;
  Ok (mkTag k v).

Definition check (t : Tag) : outcome string unit :=
  if (length (key t) =? 0)%nat then Err "Tag key cannot be empty"%string
  else if (length (value t) =? 0)%nat then Err "Tag value cannot be empty"%string
  else if (TAG_KEY_MAX_LEN <? length (key t))%nat then Err "Tag key exceeds the TAG_KEY_MAX_LEN"%string
  else if (TAG_VALUE_MAX_LEN <? length (value t))%nat then Err "Tag value exceeds the TAG_VALUE_MAX_LEN"%string
  else Ok tt.

Definition to_bytes (t : Tag) : list Z := key t ++ value t.

#[global] Instance tag_preorder : TotalPreorder tag_le.
Proof.
  constructor; unfold tag_le; intros; [apply bytes_le_total|by eapply bytes_le_trans].
Qed.

End tag.

(** [for x in xs { out.push(f(x)?) }]. *)
Fixpoint try_map {E A B} (f : A -> outcome E B) (l : list A) : outcome E (list B) :=
  match l with
  | [] => Ok []
  | x :: l' => y ← f x; ys ← try_map f l'; Ok (y :: ys)
  end.

Module series_info.

Record SeriesInfo := mkSeriesInfo {
  id : Z; tags : list tag.Tag; field_infos : list field_info.FieldInfo; finished : bool }.

(** [hasher.hash_with(&tag.key); hasher.hash_with(&tag.value)] for each tag. *)
Definition generate_series_id (ts : list tag.Tag) : Z :=
  bkdr_hash.number
    (foldl (fun h t => bkdr_hash.hash_with (bkdr_hash.hash_with h (tag.key t)) (tag.value t))
       bkdr_hash.new ts).

Definition sort_tags (s : SeriesInfo) : SeriesInfo :=
  mkSeriesInfo (id s) (tag.sort_tags (tags s)) (field_infos s) (finished s).

Definition finish (s : SeriesInfo) : SeriesInfo :=
  let s := sort_tags s in
  let i := generate_series_id (tags s) in
  mkSeriesInfo i (tags s) (map (fun f => field_info.finish f i) (field_infos s)) (finished s).

Definition new (ts : list tag.Tag) (fs : list field_info.FieldInfo) : SeriesInfo :=
  finish (mkSeriesInfo 0 ts fs true).

Definition from_flatbuffers (p : fb_Point) : outcome string SeriesInfo :=
  ts ← of_option (fb_tags p) "Point tags cannot be empty"%string;
  ts ← try_map tag.from_flatbuffers ts;
  fs ← of_option (fb_fields p) "Point fields cannot be empty"%string;
  fs ← try_map field_info.from_flatbuffers fs;
  Ok (finish (mkSeriesInfo 0 ts fs true)).

Definition push_field_info (s : SeriesInfo) (f : field_info.FieldInfo) : SeriesInfo :=
  mkSeriesInfo (id s) (tags s) (field_infos s ++ [f]) (finished s).

Definition field_info_with_id (s : SeriesInfo) (fid : Z) : list field_info.FieldInfo :=
  base.filter (fun f => field_info.id f = fid) (field_infos s).

Definition field_info_with_name (s : SeriesInfo) (n : list Z) : list field_info.FieldInfo :=
  base.filter (fun f => field_info.name f = n) (field_infos s).

End series_info.

Module points.

Record FieldValue := mkFieldValue {
  field_id : Z; fv_type : field_info.ValueType; fv_value : list Z }.
Record InMemPoint := mkInMemPoint { series_id : Z; timestamp : Z; fields : list FieldValue }.

Definition value_from_flatbuffers (f : fb_Field) : outcome string FieldValue :=
  Ok (mkFieldValue 0 (field_info.from_fb (fb_type f))
        (match fb_fvalue f with Some v => v | None => [] end)).

Definition from_flatbuffers (p : fb_Point) : outcome string InMemPoint :=
  fs ← of_option (fb_fields p) "Point fields cannot be empty"%string;
  fs ← try_map value_from_flatbuffers fs;
  Ok (mkInMemPoint 0 (fb_timestamp p) fs).

(** [From<fb_models::Point>]: an absent vector counts as empty, an absent key,
    value or name panics. *)
Definition from_tag (t : fb_Tag) : outcome string tag.Tag :=
  k ← unwrap (fb_key t);
  v ← unwrap (fb_value t);
  Ok (tag.mkTag k v).

Definition from_field (sid : Z) (f : fb_Field) : outcome string FieldValue :=
  n ← unwrap (fb_name f);
  v ← unwrap (fb_fvalue f);
  Ok (mkFieldValue (field_info.generate_field_id n sid) (field_info.from_fb (fb_type f)) v).

Definition from_point (p : fb_Point) : outcome string InMemPoint :=
  ts ← try_map from_tag (default [] (fb_tags p));
  let sid := series_info.generate_series_id ts in
  fs ← try_map (from_field sid) (default [] (fb_fields p));
  Ok (mkInMemPoint sid (fb_timestamp p) fs).

End points.

(** ** Facts *)
Module model_facts.

Lemma series_id_bytes ts :
  series_info.generate_series_id ts =
    bkdr_hash.number (bkdr_hash.write bkdr_hash.new (ts ≫= tag.to_bytes)).
Proof.
  unfold series_info.generate_series_id. f_equal.
  assert (forall h, foldl (fun h t => bkdr_hash.hash_with (bkdr_hash.hash_with h (tag.key t)) (tag.value t)) h ts =
    bkdr_hash.write h (ts ≫= tag.to_bytes)) as Hg; [|apply Hg].
  induction ts as [|t ts IH]; intros h.
  - by destruct h.
  - cbn [foldl mbind list_bind]. rewrite IH. unfold bkdr_hash.hash_with.
    rewrite !bkdr_hash.write_app. unfold tag.to_bytes. by rewrite <- app_assoc.
Qed.

Lemma NoDup_keys_antisym ts x y :
  NoDup (map tag.key ts) -> x ∈ ts -> y ∈ ts ->
  tag.tag_le x y = true -> tag.tag_le y x = true -> x = y.
Proof.
  intros Hnd Hx Hy Hxy Hyx.
  assert (tag.key x = tag.key y) as Hk by (by apply bytes_le_antisym).
  apply list_elem_of_lookup in Hx as [i Hi]. apply list_elem_of_lookup in Hy as [j Hj].
  assert (i = j) as ->; [|congruence].
  eapply NoDup_lookup; [exact Hnd| |]; rewrite list_lookup_fmap; [by rewrite Hi|]. rewrite Hj. cbn. by rewrite Hk.
Qed.

(** The identifier of a series does not depend on the order in which its
    tags are listed, nor do the identifiers of its fields: two series with the
    same tags, each key once, get the same identifier, and every field gets the
    identifier derived from it. *)
Theorem series_id_order_free ts ts' fs :
  NoDup (map tag.key ts) -> Permutation ts ts' ->
  series_info.new ts fs = series_info.new ts' fs /\
  Forall (fun f => field_info.id f =
    field_info.generate_field_id (field_info.name f) (series_info.id (series_info.new ts fs)))
    (series_info.field_infos (series_info.new ts fs)).
Proof.
  intros Hnd Hp. split.
  - unfold series_info.new, series_info.finish, series_info.sort_tags, tag.sort_tags.
    cbn [series_info.tags series_info.field_infos].
    rewrite (sort_by_order_free tag.tag_le ts ts'); [done| |done].
    intros x y. by apply NoDup_keys_antisym.
  - unfold series_info.new, series_info.finish. cbn [series_info.field_infos series_info.id].
    apply Forall_map, Forall_true. done.
Qed.

Lemma series_id_order_free_witness :
  let a := tag.mkTag [97] [1] in let b := tag.mkTag [98] [2] in
  let f := field_info.mkFieldInfo 0 [120] field_info.Integer false in
  series_info.new [b; a] [f] = series_info.new [a; b] [f] /\
  Forall (fun f' => field_info.id f' =
    field_info.generate_field_id (field_info.name f') (series_info.id (series_info.new [b; a] [f])))
    (series_info.field_infos (series_info.new [b; a] [f])).
Proof.
  intros a b f. apply (series_id_order_free [b; a] [a; b] [f]).
  - apply (bool_decide_unpack _). vm_compute. exact I.
  - apply perm_swap.
Defined.

(** A point whose message carries every optional part. *)
Definition complete_tag (t : tag.Tag) : fb_Tag := mk_fb_Tag (Some (tag.key t)) (Some (tag.value t)).
Definition complete_point (ts : list tag.Tag) (fs : list (list Z * fb_FieldType * list Z)) (now : Z) : fb_Point :=
  mk_fb_Point (Some (map complete_tag ts))
    (Some (map (fun '(n, t, v) => mk_fb_Field (Some n) t (Some v)) fs)) now.

Lemma try_map_tags ts :
  try_map points.from_tag (map complete_tag ts) = Ok ts /\
  try_map tag.from_flatbuffers (map complete_tag ts) = Ok ts.
Proof.
  induction ts as [|[k v] ts [IH1 IH2]]; [done|]. cbn [map try_map].
  unfold points.from_tag, tag.from_flatbuffers, complete_tag in *. cbn [fb_key fb_value tag.key tag.value].
  run. rewrite IH1, IH2. run. done.
Qed.

Lemma try_map_fields fs sid :
  let fb := map (fun '(n, t, v) => mk_fb_Field (Some n) t (Some v)) fs in
  (exists vs, try_map (points.from_field sid) fb = Ok vs /\
     map points.field_id vs = map (fun '(n, _, _) => field_info.generate_field_id n sid) fs) /\
  (exists infos, try_map field_info.from_flatbuffers fb = Ok infos /\
     map field_info.name infos = map (fun '(n, _, _) => n) fs).
Proof.
  induction fs as [|[[n t] v] fs [(vs & H1 & H2) (infos & H3 & H4)]]; [split; eexists; done|].
  cbn [map try_map].
  assert (points.from_field sid (mk_fb_Field (Some n) t (Some v)) =
    Ok (points.mkFieldValue (field_info.generate_field_id n sid) (field_info.from_fb t) v)) as -> by done.
  assert (field_info.from_flatbuffers (mk_fb_Field (Some n) t (Some v)) =
    Ok (field_info.mkFieldInfo 0 n (field_info.from_fb t) false)) as -> by done.
  run. rewrite H1, H3. run.
  split; eexists; (split; [reflexivity|]); cbn [map points.field_id field_info.name]; by f_equal.
Qed.

(** When the client lists the tags of a point in the order of their keys,
    the write path ([InMemPoint]) and the index ([SeriesInfo]) compute the same
    series identifier and the same field identifiers. *)
Theorem point_ids_agree ts fs now :
  StronglySorted (le_rel tag.tag_le) ts ->
  exists p s, points.from_point (complete_point ts fs now) = Ok p /\
    series_info.from_flatbuffers (complete_point ts fs now) = Ok s /\
    points.series_id p = series_info.id s /\
    map points.field_id (points.fields p) = map field_info.id (series_info.field_infos s).
Proof.
  intros Hs. destruct (try_map_tags ts) as [Ht1 Ht2].
  destruct (try_map_fields fs (series_info.generate_series_id ts)) as [(vs & H1 & H2) (infos & H3 & H4)].
  unfold points.from_point, series_info.from_flatbuffers, complete_point. cbn [fb_tags fb_fields from_option id].
  run. rewrite Ht1, Ht2. run. cbv zeta. rewrite H1. run. rewrite H3. run.
  eexists _, _. split_and!; [reflexivity|reflexivity|..];
    unfold series_info.finish, series_info.sort_tags, tag.sort_tags;
    cbn [points.series_id series_info.id series_info.tags points.fields series_info.field_infos];
    rewrite sort_by_sorted by done; [done|].
  rewrite H2, map_map. cbn [field_info.finish field_info.id].
  rewrite <- (map_map field_info.name (fun n => field_info.generate_field_id n _)).
  rewrite H4, map_map. apply map_ext. by intros [[? ?] ?].
Qed.

Lemma point_ids_agree_witness :
  let ts := [tag.mkTag [97] [1]; tag.mkTag [98] [2]] in
  exists p s, points.from_point (complete_point ts [([120], FbFloat, [0])] 5) = Ok p /\
    series_info.from_flatbuffers (complete_point ts [([120], FbFloat, [0])] 5) = Ok s /\
    points.series_id p = series_info.id s /\
    map points.field_id (points.fields p) = map field_info.id (series_info.field_infos s).
Proof.
  intros ts. apply (point_ids_agree ts [([120], FbFloat, [0])] 5). repeat constructor.
Defined.

(** With the tags in another order the two identifiers differ: the point is
    stored under a series the index does not know. *)
Theorem unsorted_point_ids_differ :
  exists msg p s, points.from_point msg = Ok p /\ series_info.from_flatbuffers msg = Ok s /\
    points.series_id p <> series_info.id s.
Proof.
  exists (complete_point [tag.mkTag [98] [2]; tag.mkTag [97] [1]] [([120], FbFloat, [0])] 5).
  eexists _, _. split_and!; [vm_compute; reflexivity..|]. vm_compute. discriminate.
Qed.

End model_facts.
