(* ===== verification/MemCache.v ===== *)
(** * The write buffer (tskv/src/memcache.rs)

    A [MemCache] maps a field to the cells written to it since the last flush,
    with the smallest and largest timestamp seen.  The invariant says those
    bounds enclose the cells; the theorems describe insertion, deletion of a
    time range, the sort that freezes a cache, and how much the overlap test
    prunes. *)
From S2P Require Import Prelude Sorting Utils Models.
From Stdlib Require Import Sorting.Permutation Sorting.Sorted.

(** [TimeRange] (tskv/src/tseries_family.rs). *)
Module time_range.

Record TimeRange := mkTimeRange { max_ts : Z; min_ts : Z }.

Definition new (mx mn : Z) : TimeRange := mkTimeRange mx mn.

Definition overlaps (self range : TimeRange) : bool :=
  negb ((max_ts range <? min_ts self) || (max_ts self <? min_ts range)).

End time_range.
Import time_range.

Module memcache.
Import field_info.

(** ** Definitions *)

Record DataCell (T : Type) := mkDataCell { ts : Z; val : T }.
Arguments mkDataCell {T}.
Arguments ts {T}.
Arguments val {T}.

(** [u64], [i64] and the bits of an [f64] are integers; a string is its bytes. *)
Inductive DataType :=
| U64 (c : DataCell Z)
| I64 (c : DataCell Z)
| Str (c : DataCell (list Z))
| F64 (c : DataCell Z)
| Bool (c : DataCell bool).

Definition timestamp (d : DataType) : Z :=
  match d with
  | U64 c => ts c | I64 c => ts c | Str c => ts c | F64 c => ts c | Bool c => ts c
  end.

Record MemEntry := mkMemEntry {
  ts_min : Z; ts_max : Z; field_type : ValueType; cells : list DataType }.

(** [MemEntry::default()]. *)
Definition default_entry : MemEntry := mkMemEntry i64_MAX i64_MIN Unknown [].

(** [read_cell] logs the cells it selects; the model returns them. *)
Definition read_cell (e : MemEntry) (r : TimeRange) : list DataType :=
  base.filter (fun d => min_ts r < timestamp d < max_ts r) (cells e).

Definition overlap (e : MemEntry) (r : TimeRange) : bool :=
  negb ((max_ts r <? ts_min e) && (ts_max e <? min_ts r)).

(** [self.cells.retain(..)]. *)
Definition delete_data_cell (e : MemEntry) (r : TimeRange) : MemEntry :=
  mkMemEntry (ts_min e) (ts_max e) (field_type e)
    (base.filter (fun d => timestamp d < min_ts r \/ max_ts r < timestamp d) (cells e)).

Record MemCache := mkMemCache {
  immutable : bool; tf_id : Z; seq_no : Z; max_buf_size : Z;
  data_cache : gmap Z MemEntry; cache_size : Z; is_delta : bool }.

Definition new (tf max_size seq : Z) (delta : bool) : MemCache :=
  mkMemCache false tf seq max_size ∅ 0 delta.

(** The entry after one cell. *)
Definition push_cell (item : MemEntry) (d : DataType) (value_type : ValueType) : MemEntry :=
  let t := timestamp d in
  mkMemEntry (if t <? ts_min item then t else ts_min item)
    (if ts_max item <? t then t else ts_max item) value_type (cells item ++ [d]).

Section cache.
(** [size_of_val(&val)]: the size of the enum, the same for every variant. *)
Context (size_of_val : Z).

Definition insert (m : MemCache) (field_id : Z) (d : DataType) (value_type : ValueType) : MemCache :=
  let item := default default_entry (data_cache m !! field_id) in
  mkMemCache (immutable m) (tf_id m) (seq_no m) (max_buf_size m)
    (<[field_id := push_cell item d value_type]> (data_cache m))
    (cache_size m + size_of_val) (is_delta m).

(** The cell a raw value stands for; [None] is [todo!()] for an unknown type or
    the out-of-bounds read of a value that is too short. *)
Definition raw_cell (t : Z) (field_type : ValueType) (buf : list Z) : option DataType :=
  match field_type with
  | Unsigned => (fun v => U64 (mkDataCell t v)) <$> byte_utils.decode_be_u64 buf
  | Integer => (fun v => I64 (mkDataCell t v)) <$> byte_utils.decode_be_i64 buf
  | Float => (fun v => F64 (mkDataCell t v)) <$> byte_utils.decode_be_f64 buf
  | String_ => Some (Str (mkDataCell t buf))
  | Boolean => (fun v => Bool (mkDataCell t v)) <$> byte_utils.decode_be_bool buf
  | Unknown => None
  end.

Definition insert_raw (m : MemCache) (seq field_id t : Z) (field_type : ValueType) (buf : list Z)
    : outcome string MemCache :=
  let m := mkMemCache (immutable m) (tf_id m) seq (max_buf_size m) (data_cache m)
             (cache_size m) (is_delta m) in
  d ← unwrap (raw_cell t field_type buf);
  Ok (insert m field_id d field_type).

Definition cell_le (a b : DataType) : bool := timestamp a <=? timestamp b.

Definition sort_cells (e : MemEntry) : MemEntry :=
  mkMemEntry (ts_min e) (ts_max e) (field_type e) (sort_by cell_le (cells e)).

Definition switch_to_immutable (m : MemCache) : MemCache :=
  mkMemCache true (tf_id m) (seq_no m) (max_buf_size m) (sort_cells <$> data_cache m)
    (cache_size m) (is_delta m).

Definition is_full (m : MemCache) : bool := max_buf_size m <=? cache_size m.

(** ** Invariant *)

(** The bounds of an entry enclose its cells and are reached. *)
Definition entry_wf (e : MemEntry) : Prop :=
  Forall (fun d => ts_min e <= timestamp d <= ts_max e) (cells e) /\
  (cells e <> [] -> ts_min e ∈ (timestamp <$> cells e) /\ ts_max e ∈ (timestamp <$> cells e)).

Definition wf (m : MemCache) : Prop :=
  map_Forall (fun (_ : Z) (e : MemEntry) => entry_wf e /\ cells e <> []) (data_cache m).

(** The cells of a field. *)
Definition cells_of (m : MemCache) (field_id : Z) : list DataType :=
  match data_cache m !! field_id with Some e => cells e | None => [] end.

#[global] Instance cell_preorder : TotalPreorder cell_le.
Proof. constructor; unfold cell_le; intros; rewrite ?Z.leb_le in *; lia. Qed.

(** A cell whose timestamp is an [i64] keeps the bounds right. *)
Lemma push_cell_wf e d vt :
  entry_wf e -> (cells e = [] -> e = default_entry) -> is_i64 (timestamp d) ->
  entry_wf (push_cell e d vt).
Proof.
  intros [Hb Hr] Hdef Hd. unfold push_cell, entry_wf. cbn [ts_min ts_max cells].
  set (t := timestamp d) in *. set (lo := if t <? ts_min e then t else ts_min e).
  set (hi := if ts_max e <? t then t else ts_max e).
  assert (lo <= t <= hi /\ lo <= ts_min e /\ ts_max e <= hi /\ (lo = t \/ lo = ts_min e) /\
    (hi = t \/ hi = ts_max e)) as (Ht & Hlo & Hhi & Hlo' & Hhi').
  { unfold lo, hi. bool_cases; lia. }
  split.
  - apply Forall_app. split; [|constructor; [exact Ht|constructor]].
    eapply Forall_impl; [exact Hb|]. cbn. lia.
  - intros _. rewrite fmap_app, !elem_of_app.
    destruct (decide (cells e = [])) as [E|Hne].
    + rewrite (Hdef E) in *. cbn in Hlo', Hhi'. unfold lo, hi in *. cbn [ts_min ts_max default_entry] in *.
      split; right; apply list_elem_of_singleton; fold t; bool_cases; range.
    + destruct (Hr Hne) as [H1 H2]. split.
      * destruct Hlo' as [->| ->]; [right; by apply list_elem_of_singleton|by left].
      * destruct Hhi' as [->| ->]; [right; by apply list_elem_of_singleton|by left].
Qed.

Lemma insert_lookup m fid d vt :
  data_cache (insert m fid d vt) !! fid =
    Some (push_cell (default default_entry (data_cache m !! fid)) d vt).
Proof. unfold insert. cbn [data_cache]. by rewrite lookup_insert_eq. Qed.

Lemma insert_wf m fid d vt : wf m -> is_i64 (timestamp d) -> wf (insert m fid d vt).
Proof.
  intros Hwf Hd. unfold wf, insert. cbn [data_cache]. apply map_Forall_insert_2; [|done].
  split; [|unfold push_cell; cbn [cells]; by destruct (cells _)].
  destruct (data_cache m !! fid) as [e|] eqn:E; cbn [from_option].
  - destruct (Hwf fid e E) as [He Hne]. apply push_cell_wf; [done|by intros|done].
  - apply push_cell_wf; [|done|done]. split; [constructor|done].
Qed.

Lemma cells_of_insert m fid d vt fid' :
  cells_of (insert m fid d vt) fid' = if decide (fid' = fid) then cells_of m fid ++ [d] else cells_of m fid'.
Proof.
  unfold cells_of. destruct (decide (fid' = fid)) as [->|Hne].
  - rewrite insert_lookup. unfold push_cell. cbn [cells]. by destruct (data_cache m !! fid).
  - unfold insert. cbn [data_cache]. by rewrite lookup_insert_ne.
Qed.

(** Writing a value appends exactly one cell, with the decoded value, to its
    field, leaves every other field alone, records the sequence number, grows
    the size by one cell, and keeps the time bounds of the entry exact. *)
Theorem insert_raw_spec m seq fid t ft buf d :
  wf m -> is_i64 t -> raw_cell t ft buf = Some d ->
  exists m', insert_raw m seq fid t ft buf = Ok m' /\ wf m' /\
    (forall fid', cells_of m' fid' =
       if decide (fid' = fid) then cells_of m fid ++ [d] else cells_of m fid') /\
    seq_no m' = seq /\ cache_size m' = cache_size m + size_of_val /\ timestamp d = t.
Proof.
  intros Hwf Ht Hraw. assert (timestamp d = t) as Hts.
  { unfold raw_cell in Hraw. destruct ft; try done;
      try (apply fmap_Some in Hraw as (v & _ & ->); done). by injection Hraw as <-. }
  unfold insert_raw. rewrite Hraw. run. eexists. split; [reflexivity|].
  split; [apply insert_wf; [done|by rewrite Hts]|]. split; [|done].
  intros fid'. rewrite cells_of_insert. done.
Qed.

(** Freezing a cache sorts the cells of every field by timestamp, keeps
    them all, and keeps cells of equal timestamp in the order they were
    written. *)
Theorem switch_to_immutable_spec m fid :
  let m' := switch_to_immutable m in
  StronglySorted (le_rel cell_le) (cells_of m' fid) /\
  Permutation (cells_of m fid) (cells_of m' fid) /\
  (forall t, base.filter (fun d => timestamp d = t) (cells_of m' fid) =
             base.filter (fun d => timestamp d = t) (cells_of m fid)) /\
  immutable m' = true.
Proof.
  cbv zeta. assert (cells_of (switch_to_immutable m) fid = sort_by cell_le (cells_of m fid)) as ->.
  { unfold cells_of, switch_to_immutable. cbn [data_cache]. rewrite lookup_fmap.
    by destruct (data_cache m !! fid). }
  split_and!; [apply sort_by_is_sorted; apply _|apply sort_by_perm| |done]. intros t.
  induction (cells_of m fid) as [|d l IH]; [done|]. cbn [sort_by].
  assert (forall l', base.filter (fun d => timestamp d = t) (insert_by cell_le d l') =
    base.filter (fun d => timestamp d = t) (d :: l')) as Hins.
  { intros l'. induction l' as [|y l' IH']; [done|]. cbn [insert_by].
    unfold cell_le at 1. destruct (Z.leb_spec (timestamp d) (timestamp y)); [done|].
    rewrite !filter_cons, IH', filter_cons. repeat case_decide; done || lia. }
  rewrite Hins, !filter_cons, IH. done.
Qed.

(** The overlap test never excludes an entry that has a cell in the range,
    and deleting a range removes exactly the cells in it; but the test excludes
    nothing: it is true of every entry that has a cell, whatever the range. *)
Theorem overlap_and_delete e r :
  entry_wf e -> cells e <> [] -> min_ts r <= max_ts r ->
  overlap e r = true /\
  (forall d, d ∈ cells (delete_data_cell e r) <->
     d ∈ cells e /\ ~ (min_ts r <= timestamp d <= max_ts r)) /\
  Forall (fun d => ts_min e <= timestamp d <= ts_max e) (cells (delete_data_cell e r)).
Proof.
  intros [Hb Hr] Hne Hle. destruct (cells e) as [|d0 l] eqn:Ec; [done|].
  inversion Hb as [|? ? Hd0 _]; subst. split_and!.
  - unfold overlap. bool_cases; cbn; done || lia.
  - intros d. unfold delete_data_cell. cbn [cells]. rewrite list_elem_of_filter, Ec. split; [|intros [? ?]; split; [lia|done]].
    intros [? ?]. split; [done|lia].
  - unfold delete_data_cell. cbn [cells]. apply Forall_forall. intros d Hd.
    apply list_elem_of_filter in Hd as [_ Hd]. rewrite Ec in Hd. rewrite Forall_forall in Hb. by apply Hb.
Qed.

End cache.

(** ** Witnesses *)

Lemma insert_raw_spec_witness :
  let m := new 1 1000 7 false in
  let d := I64 (mkDataCell 42 5) in
  exists m', insert_raw 40 m 9 3 42 Integer [0; 0; 0; 0; 0; 0; 0; 5] = Ok m' /\ wf m' /\
    (forall fid', cells_of m' fid' = if decide (fid' = 3) then cells_of m 3 ++ [d] else cells_of m fid') /\
    seq_no m' = 9 /\ cache_size m' = cache_size m + 40 /\ timestamp d = 42.
Proof.
  intros m d. apply (insert_raw_spec 40 m 9 3 42 Integer [0; 0; 0; 0; 0; 0; 0; 5] d).
  - apply map_Forall_empty.
  - range.
  - reflexivity.
Defined.

Lemma overlap_and_delete_witness :
  let e := push_cell default_entry (I64 (mkDataCell 42 5)) Integer in
  let r := mkTimeRange 10 0 in
  overlap e r = true /\
  (forall d, d ∈ cells (delete_data_cell e r) <-> d ∈ cells e /\ ~ (min_ts r <= timestamp d <= max_ts r)) /\
  Forall (fun d => ts_min e <= timestamp d <= ts_max e) (cells (delete_data_cell e r)).
Proof.
  intros e r. apply (overlap_and_delete e r).
  - split; [repeat constructor; vm_compute; discriminate|].
    intros _. split; apply list_elem_of_here.
  - discriminate.
  - cbn. lia.
Defined.

End memcache.
