(* ===== verification/FileIO.v ===== *)
(** * Files over the page cache
      (tskv/src/direct_io/file.rs, file/cursor.rs, file/scope.rs)

    A [File] reads and writes whole pages of the cache and keeps the logical
    length of the file; a [FileCursor] adds a position.  [file] and [cursor]
    translate the page loops, the page guards and the length update that runs
    when a write guard is dropped.  [bytes_file] is what they promise: a file is
    a list of bytes, reading is a slice, and writing replaces a slice, except
    that a write that does not end on a page boundary also cuts the file there.
    The theorems prove that the page-level code implements that contract for
    every operation and every sequence of operations; the components that keep
    files (TSM, WAL, record files, tombstones) are modelled over the contract. *)
From S2P Require Import Prelude.

(** The page length of the cache, and what a page buffer holds when the cache
    hands out a page that has no data in the file yet (zeros, or what the
    previous page left in the buffer). *)
Class PageIO := {
  page_len : nat;
  page_len_pos : (0 < page_len)%nat;
  page_len_u32 : Z.of_nat page_len < 2 ^ 32;
  fresh_page : nat -> list Z;
  fresh_page_length id : length (fresh_page id) = page_len
}.

(** The errors of [std::io] the code can see here. *)
Inductive io_error := InvalidInput.

Module file.

(** ** Definitions *)

Section file.
Context {PIO : PageIO}.

(** The pages the cache and the disk hold, and the [AtomicU64] length of the
    scope. *)
Record File := mkFile { pages : gmap nat (list Z); flen : nat }.

Definition page (f : File) (id : nat) : list Z := default (fresh_page id) (pages f !! id).

(** [PageId] is [u32]. *)
Definition page_id_at {E} (pos : nat) : outcome E (nat * nat) :=
  let id := (pos / page_len)%nat in
  if Z.of_nat id <? 2 ^ 32 then Ok (id, (pos mod page_len)%nat) else Panic.

(** [FileScope::page_pos]; a product of two [u32] values does not overflow. *)
Definition page_pos (id : nat) : nat := (id * page_len)%nat.

(** [FileScope::page_span]. *)
Definition page_span (f : File) (id : nat) : nat * nat :=
  let pos := page_pos id in
  (pos, if (pos <? flen f)%nat then Nat.min (flen f - pos) page_len else O).

(** [pos.checked_add(len).unwrap()]. *)
Definition checked_add {E} (a b : nat) : outcome E nat :=
  if Z.of_nat (a + b) <? U64 then Ok (a + b)%nat else Panic.

(** [read_at(pos, buf)] with [n = buf.len()]: the bytes read. *)
Fixpoint read_loop {E} (fuel : nat) (f : File) (pos n : nat) (acc : list Z) : outcome E (list Z) :=
  if (n =? 0)%nat then Ok acc
  else match fuel with
  | O => OutOfFuel
  | S fuel' =>
      '(id, offset) ← page_id_at pos;
      let '(_, len) := page_span f id in
      rest ← slice_from (take len (page f id)) offset;
      if (length rest =? 0)%nat then Ok acc
      else
        let len := Nat.min (length rest) n in
        pos ← checked_add pos len;
        read_loop fuel' f pos (n - len) (acc ++ take len rest)
  end.

Definition read_at {E} (f : File) (pos n : nat) : outcome E (list Z) := read_loop n f pos n [].

(** [Drop for PageWriteGuard]: the new file length. *)
Definition drop_guard (f : File) (id old_len len : nat) : nat :=
  if (len =? old_len)%nat then flen f
  else
    let pos := page_pos id in
    let new_file_len := (pos + len)%nat in
    let update := if (old_len <? len)%nat then (flen f <? new_file_len)%nat
                  else (new_file_len <? flen f)%nat in
    if update then new_file_len else flen f.

Fixpoint write_loop {E} (fuel : nat) (f : File) (pos : nat) (buf : list Z) : outcome E File :=
  if (length buf =? 0)%nat then Ok f
  else match fuel with
  | O => OutOfFuel
  | S fuel' =>
      '(id, offset) ← page_id_at pos;
      let '(_, old_len) := page_span f id in
      let len := Nat.min (length buf) (page_len - offset) in
      _ ← assert_ (offset + len <=? page_len)%nat;
      data ← copy_at (page f id) offset (take len buf);
      let f := mkFile (<[id := data]> (pages f)) (drop_guard f id old_len (offset + len)) in
      pos ← checked_add pos len;
      write_loop fuel' f pos (drop len buf)
  end.

(** [write_at(pos, buf)]; it returns [buf.len()]. *)
Definition write_at {E} (f : File) (pos : nat) (buf : list Z) : outcome E File :=
  write_loop (length buf) f pos buf.

End file.
End file.

Module cursor.

Inductive SeekFrom :=
| Start (pos : nat)
| End_ (delta : Z)
| Current (delta : Z).

(** [checked_add] and [checked_sub] on [u64]. *)
Definition checked_add (a : nat) (d : Z) : option nat :=
  if Z.of_nat a + d <? U64 then Some (Z.to_nat (Z.of_nat a + d)) else None.
Definition checked_sub (a : nat) (d : Z) : option nat :=
  if d <=? Z.of_nat a then Some (Z.to_nat (Z.of_nat a - d)) else None.

Section cursor.
Context {P : BuildProfile}.

(** [if delta >= 0 { base.checked_add(delta as u64) } else {
    base.checked_sub(-delta as u64) }]; negating [i64::MIN] panics in a checked
    build and wraps to itself, whose cast is [2^63], otherwise. *)
Definition move_by (base : nat) (delta : Z) : outcome io_error (option nat) :=
  if 0 <=? delta then Ok (checked_add base delta)
  else if overflow_checks && (delta =? i64_MIN) then Panic
  else Ok (checked_sub base (u64 (- delta))).

(** The position [seek] computes, for a file of length [len]. *)
Definition seek_to (len pos : nat) (s : SeekFrom) : outcome io_error nat :=
  o ← (match s with
       | Start p => Ok (Some p)
       | End_ d => move_by len d
       | Current d => move_by pos d
       end);
  of_option o InvalidInput.

Context {PIO : PageIO}.

Record FileCursor := mkFileCursor { file : file.File; pos : nat }.

(** [From<File>]. *)
Definition from_file (f : file.File) : FileCursor := mkFileCursor f 0.
Definition set_pos (c : FileCursor) (p : nat) : FileCursor := mkFileCursor (file c) p.

Definition seek (c : FileCursor) (s : SeekFrom) : outcome io_error (FileCursor * nat) :=
  p ← seek_to (file.flen (file c)) (pos c) s;
  Ok (mkFileCursor (file c) p, p).

(** [self.seek(SeekFrom::Current(n.try_into().unwrap())).unwrap()]. *)
Definition advance (c : FileCursor) (n : nat) : outcome io_error FileCursor :=
  if I63 <=? Z.of_nat n then Panic
  else match seek c (Current (Z.of_nat n)) with
       | Ok (c, _) => Ok c
       | Err _ => Panic
       | Panic => Panic
       | OutOfFuel => OutOfFuel
       end.

(** [read(buf)] with [n = buf.len()]: the bytes read. *)
Definition read (c : FileCursor) (n : nat) : outcome io_error (FileCursor * list Z) :=
  bytes ← file.read_at (file c) (pos c) n;
  c ← advance c (length bytes);
  Ok (c, bytes).

Definition write (c : FileCursor) (buf : list Z) : outcome io_error FileCursor :=
  f ← file.write_at (file c) (pos c) buf;
  advance (mkFileCursor f (pos c)) (length buf).

End cursor.
End cursor.

(** ** The contract: a file is a list of bytes *)
Module bytes_file.

Section bytes_file.
Context {PIO : PageIO} {P : BuildProfile}.

(** Writing at [pos] replaces the bytes there; a write that ends inside a page
    cuts the file at its end. *)
Definition write_at (data : list Z) (pos : nat) (buf : list Z) : list Z :=
  let e := (pos + length buf)%nat in
  if (length buf =? 0)%nat then data
  else if (e mod page_len =? 0)%nat then take pos data ++ buf ++ drop e data
  else take pos data ++ buf.

(** Reading past the end panics, unless the position is on a page boundary. *)
Definition read_at {E} (data : list Z) (pos n : nat) : outcome E (list Z) :=
  if (n =? 0)%nat then Ok []
  else if (pos <=? length data)%nat then Ok (take n (drop pos data))
  else if (pos mod page_len =? 0)%nat then Ok [] else Panic.

Record Cursor := mkCursor { data : list Z; at_ : nat }.

Definition seek (c : Cursor) (s : cursor.SeekFrom) : outcome io_error (Cursor * nat) :=
  p ← cursor.seek_to (length (data c)) (at_ c) s;
  Ok (mkCursor (data c) p, p).

Definition read (c : Cursor) (n : nat) : outcome io_error (Cursor * list Z) :=
  bytes ← read_at (data c) (at_ c) n;
  Ok (mkCursor (data c) (at_ c + length bytes), bytes).

Definition write (c : Cursor) (buf : list Z) : outcome io_error Cursor :=
  Ok (mkCursor (write_at (data c) (at_ c) buf) (at_ c + length buf)).

End bytes_file.
End bytes_file.

(** ** The page-level code implements the contract *)
Module file_facts.
Import file.

Section facts.
Context {PIO : PageIO}.

Definition wf (f : File) : Prop := map_Forall (fun _ p => length p = page_len) (pages f).

(** All pages the file can touch have an [u32] number. *)
Definition addressable (n : nat) : Prop := Z.of_nat n < 2 ^ 32 * Z.of_nat page_len.

Definition byte_at (f : File) (p : nat) : Z := nth (p mod page_len) (page f (p / page_len)) 0.

(** The bytes of the file. *)
Definition contents (f : File) : list Z := map (byte_at f) (seq 0 (flen f)).

Lemma length_page f id : wf f -> length (page f id) = page_len.
Proof.
  intros Hwf. unfold page. destruct (pages f !! id) as [p|] eqn:E; cbn [default].
  - by apply (Hwf id).
  - apply fresh_page_length.
Qed.

Lemma page_mod p : (p mod page_len < page_len)%nat.
Proof. pose proof page_len_pos. apply Nat.mod_upper_bound. lia. Qed.

Lemma page_div_mod p : p = (p / page_len * page_len + p mod page_len)%nat.
Proof. pose proof page_len_pos. pose proof (Nat.div_mod_eq p page_len). lia. Qed.

(** Where a byte of page [id] lives in the file. *)
Lemma page_split id k :
  (k < page_len)%nat -> ((id * page_len + k) / page_len = id /\ (id * page_len + k) mod page_len = k)%nat.
Proof.
  intros Hk. pose proof page_len_pos. rewrite Nat.add_comm, Nat.div_add, Nat.Div0.mod_add by lia.
  rewrite Nat.div_small, Nat.mod_small by done. done.
Qed.

Lemma page_byte f id k : wf f -> (k < page_len)%nat ->
  page f id !! k = Some (byte_at f (id * page_len + k)).
Proof.
  intros Hwf Hk. unfold byte_at. destruct (page_split id k Hk) as [-> ->].
  destruct (lookup_lt_is_Some_2 (page f id) k) as [x Hx]; [by rewrite length_page|].
  rewrite Hx. f_equal. symmetry. by apply nth_lookup_Some.
Qed.

Lemma length_contents f : length (contents f) = flen f.
Proof. unfold contents. by rewrite length_map, length_seq. Qed.

Lemma contents_lookup f p :
  contents f !! p = if (p <? flen f)%nat then Some (byte_at f p) else None.
Proof.
  unfold contents. rewrite list_lookup_fmap. destruct (Nat.ltb_spec p (flen f)).
  - rewrite lookup_seq_lt by done. done.
  - rewrite lookup_seq_ge by done. done.
Qed.

Lemma page_id_at_ok {E} pos : addressable pos ->
  page_id_at (E := E) pos = Ok (pos / page_len, pos mod page_len)%nat.
Proof.
  intros Ha. unfold page_id_at. rewrite (proj2 (Z.ltb_lt _ _)); [done|].
  unfold addressable in Ha. pose proof page_len_pos. rewrite Nat2Z.inj_div.
  apply Z.div_lt_upper_bound; lia.
Qed.

Lemma checked_add_ok {E} a b : addressable (a + b) -> checked_add (E := E) a b = Ok (a + b)%nat.
Proof.
  intros Ha. unfold checked_add. rewrite (proj2 (Z.ltb_lt _ _)); [done|].
  unfold addressable in Ha. pose proof page_len_u32. unfold U64. lia.
Qed.

Lemma addressable_le a b : (a <= b)%nat -> addressable b -> addressable a.
Proof. unfold addressable. lia. Qed.

(** The part of a page from [pos] to the end of its valid bytes. *)
Lemma page_rest f pos :
  wf f -> (pos <= flen f)%nat ->
  let id := (pos / page_len)%nat in let offset := (pos mod page_len)%nat in
  exists len, page_span f id = (id * page_len, len)%nat /\ (offset <= len)%nat /\
    (len - offset = Nat.min (flen f - pos) (page_len - offset))%nat /\
    drop offset (take len (page f id)) = take (len - offset) (drop pos (contents f)).
Proof.
  intros Hwf Hpos id offset. pose proof page_len_pos as HL. pose proof (page_mod pos) as Hoff.
  pose proof (page_div_mod pos) as Hdm. fold id offset in Hdm, Hoff.
  unfold page_span, page_pos. eexists. split; [reflexivity|].
  set (len := if (_ <? _)%nat then _ else _).
  assert (len - offset = Nat.min (flen f - pos) (page_len - offset) /\ offset <= len)%nat as [Hl Ho].
  { unfold len. destruct (Nat.ltb_spec (id * page_len) (flen f)); lia. }
  split_and!; [done|done|]. apply list_eq. intros k.
  rewrite lookup_drop. destruct (Nat.lt_ge_cases k (len - offset)) as [Hk|Hk].
  - rewrite !lookup_take_lt by lia. rewrite page_byte by (done || lia).
    rewrite lookup_drop, contents_lookup. rewrite (proj2 (Nat.ltb_lt _ _)) by lia.
    do 2 f_equal. lia.
  - by rewrite !lookup_take_ge by lia.
Qed.

Lemma page_read_loop_spec {E} fuel f pos n acc :
  wf f -> (n <= fuel)%nat -> (pos <= flen f)%nat -> addressable (flen f) ->
  read_loop (E := E) fuel f pos n acc = Ok (acc ++ take n (drop pos (contents f))).
Proof.
  revert pos n acc. induction fuel as [|fuel IH]; intros pos n acc Hwf Hn Hpos Ha; cbn [read_loop].
  { replace n with O by lia. cbn. by rewrite app_nil_r. }
  destruct (Nat.eqb_spec n 0) as [->|Hn0]; [cbn; by rewrite app_nil_r|].
  rewrite page_id_at_ok by (by eapply addressable_le). run.
  destruct (page_rest f pos Hwf Hpos) as (len & -> & Hol & Hlen & Hrest).
  pose proof (length_page f (pos / page_len) Hwf) as Hlp. pose proof (page_mod pos).
  unfold slice_from. rewrite slice_ok; [|rewrite length_take; lia|done]. run.
  rewrite (take_ge (drop _ _)) by (rewrite length_drop; lia). rewrite Hrest.
  rewrite length_take, length_drop, length_contents.
  destruct (Nat.eqb_spec (Nat.min (len - pos mod page_len) (flen f - pos)) 0) as [Hz|Hnz].
  { rewrite drop_ge by (rewrite length_contents; lia). by rewrite take_nil, app_nil_r. }
  set (l := Nat.min (Nat.min (len - pos mod page_len) (flen f - pos)) n).
  rewrite checked_add_ok by (eapply addressable_le; [|exact Ha]; lia). run.
  rewrite IH by (done || lia). f_equal. rewrite <- app_assoc. f_equal.
  rewrite take_take. replace (Nat.min l (len - pos mod page_len)) with l by lia.
  rewrite <- drop_drop. rewrite <- (take_drop l (take n (drop pos (contents f)))).
  rewrite take_take. replace (Nat.min l n) with l by lia. f_equal.
  by rewrite skipn_firstn_comm.
Qed.

Lemma read_at_spec {E} f pos n :
  wf f -> addressable (flen f) -> addressable pos ->
  read_at (E := E) f pos n = bytes_file.read_at (contents f) pos n.
Proof.
  intros Hwf Ha Hp. unfold read_at, bytes_file.read_at. rewrite length_contents.
  destruct (Nat.eqb_spec n 0) as [->|Hn]; [done|].
  destruct (Nat.leb_spec pos (flen f)) as [Hle|Hgt]; [by rewrite page_read_loop_spec|].
  destruct n as [|n]; [done|]. cbn [read_loop Nat.eqb]. rewrite page_id_at_ok by done. run.
  pose proof (page_mod pos). pose proof (page_div_mod pos) as Hdm.
  unfold page_span, page_pos. set (len := if (_ <? _)%nat then _ else _).
  assert (len = 0 \/ (0 < pos mod page_len /\ len < pos mod page_len))%nat as Hl.
  { unfold len. destruct (Nat.ltb_spec (pos / page_len * page_len) (flen f)); lia. }
  unfold slice_from, slice. rewrite length_take, length_page by done.
  destruct (Nat.eqb_spec (pos mod page_len) 0) as [Hz|Hnz].
  - rewrite Hz. cbn [Nat.leb andb]. rewrite Nat.leb_refl. run.
    replace (Nat.min len page_len) with O by lia. done.
  - destruct (Nat.leb_spec (pos mod page_len) (Nat.min len page_len)); [lia|done].
Qed.

(** *** One iteration of the write loop *)

(** The new file length, in the terms of the contract. *)
Lemma drop_guard_spec f pos len :
  (pos <= flen f)%nat -> (0 < len)%nat -> (pos mod page_len + len <= page_len)%nat ->
  drop_guard f (pos / page_len) (snd (page_span f (pos / page_len))) (pos mod page_len + len) =
    if ((pos + len) mod page_len =? 0)%nat then Nat.max (flen f) (pos + len) else (pos + len)%nat.
Proof.
  intros Hpos Hlen Hfit. pose proof page_len_pos. pose proof (page_mod pos).
  pose proof (page_div_mod pos) as Hdm. set (id := (pos / page_len)%nat) in *.
  set (o := (pos mod page_len)%nat) in *.
  assert ((pos + len) mod page_len = if decide (o + len = page_len) then 0 else o + len)%nat as ->.
  { destruct (decide (o + len = page_len)%nat) as [He|He].
    - replace (pos + len)%nat with ((id + 1) * page_len)%nat by lia. by rewrite Nat.Div0.mod_mul.
    - replace (pos + len)%nat with (id * page_len + (o + len))%nat by lia.
      apply page_split. lia. }
  unfold drop_guard, page_span, page_pos. cbn [snd]. fold id.
  destruct (decide (o + len = page_len)%nat);
  repeat match goal with
  | |- context [(?a <? ?b)%nat] => destruct (Nat.ltb_spec a b)
  | |- context [(?a =? ?b)%nat] => destruct (Nat.eqb_spec a b)
  end; lia.
Qed.

Lemma page_insert f id d l j :
  page (mkFile (<[id := d]> (pages f)) l) j = if decide (j = id) then d else page f j.
Proof.
  unfold page. cbn [pages]. destruct (decide (j = id)) as [->|Hne].
  - by rewrite lookup_insert_eq.
  - by rewrite lookup_insert_ne.
Qed.

(** The bytes of the page after the copy. *)
Lemma nth_copied (pg chunk : list Z) o k :
  (o + length chunk <= length pg)%nat -> (k < length pg)%nat ->
  nth k (take o pg ++ chunk ++ drop (o + length chunk) pg) 0 =
    if decide (o <= k < o + length chunk)%nat then nth (k - o) chunk 0 else nth k pg 0.
Proof.
  intros Hfit Hk. assert (length (take o pg) = o) as Ht by (rewrite length_take; lia).
  destruct (decide (o <= k < o + length chunk)%nat) as [Hin|Hout].
  - rewrite app_nth2, Ht, app_nth1 by lia. done.
  - destruct (Nat.lt_ge_cases k o).
    + rewrite app_nth1 by lia. by rewrite !nth_lookup, lookup_take_lt by lia.
    + rewrite app_nth2, Ht, app_nth2 by lia. rewrite !nth_lookup, lookup_drop.
      do 2 f_equal. lia.
Qed.

(** A write, byte by byte. *)
Lemma write_at_lookup data pos buf p :
  (pos <= length data)%nat -> (0 < length buf)%nat ->
  bytes_file.write_at data pos buf !! p =
    if decide (pos <= p < pos + length buf)%nat then buf !! (p - pos)%nat
    else if decide (p < pos)%nat then data !! p
    else if ((pos + length buf) mod page_len =? 0)%nat then data !! p else None.
Proof.
  intros Hpos Hlen. unfold bytes_file.write_at. destruct (Nat.eqb_spec (length buf) 0); [lia|].
  assert (length (take pos data) = pos) as Ht by (rewrite length_take; lia).
  destruct (decide (p < pos)%nat) as [Hlt|Hge].
  { destruct (decide (pos <= p < pos + length buf)%nat); [lia|].
    destruct (_ =? _)%nat; rewrite lookup_app_l, lookup_take_lt by lia; done. }
  destruct (decide (pos <= p < pos + length buf)%nat) as [Hin|Hout].
  - destruct (_ =? _)%nat; rewrite lookup_app_r, Ht by lia; [by rewrite lookup_app_l by lia|done].
  - destruct (_ =? _)%nat; rewrite lookup_app_r, Ht by lia.
    + rewrite lookup_app_r, lookup_drop by lia. f_equal. lia.
    + apply lookup_ge_None_2. lia.
Qed.

Lemma length_write_at data pos buf :
  (pos <= length data)%nat ->
  length (bytes_file.write_at data pos buf) =
    if (length buf =? 0)%nat then length data
    else if ((pos + length buf) mod page_len =? 0)%nat then Nat.max (length data) (pos + length buf)
    else (pos + length buf)%nat.
Proof.
  intros Hpos. unfold bytes_file.write_at. destruct (_ =? _)%nat; [done|].
  destruct (_ =? _)%nat; rewrite !length_app, length_take; [rewrite length_drop|]; lia.
Qed.

(** Two writes, the first ending on a page boundary, are one. *)
Lemma write_at_app data pos b1 b2 :
  (pos <= length data)%nat -> (0 < length b1)%nat -> (0 < length b2)%nat ->
  ((pos + length b1) mod page_len = 0)%nat ->
  bytes_file.write_at (bytes_file.write_at data pos b1) (pos + length b1) b2 =
    bytes_file.write_at data pos (b1 ++ b2).
Proof.
  intros Hpos H1 H2 Hal. apply list_eq. intros p.
  assert (pos + length b1 <= length (bytes_file.write_at data pos b1))%nat as Hl.
  { rewrite length_write_at, Hal by done. destruct (Nat.eqb_spec (length b1) 0); [lia|]. cbn. lia. }
  rewrite (write_at_lookup _ (pos + length b1)) by done.
  rewrite !write_at_lookup by (rewrite ?length_app; lia).
  rewrite Hal, length_app, Nat.add_assoc. cbn [Nat.eqb].
  repeat match goal with |- context [decide ?P] => destruct (decide P) end; try lia; try done.
  - rewrite lookup_app_r by lia. f_equal. lia.
  - by rewrite lookup_app_l by lia.
Qed.

Lemma write_chunk {E} f pos chunk :
  wf f -> (pos <= flen f)%nat -> (0 < length chunk)%nat ->
  (pos mod page_len + length chunk <= page_len)%nat ->
  let id := (pos / page_len)%nat in let o := (pos mod page_len)%nat in
  exists d, copy_at (E := E) (page f id) o chunk = Ok d /\
    let f' := mkFile (<[id := d]> (pages f))
                (drop_guard f id (snd (page_span f id)) (o + length chunk)) in
    wf f' /\ contents f' = bytes_file.write_at (contents f) pos chunk.
Proof.
  intros Hwf Hpos Hlen Hfit id o. pose proof (length_page f id Hwf) as Hlp.
  rewrite copy_at_ok by (fold o in Hfit; lia). eexists. split; [reflexivity|].
  set (d := take o (page f id) ++ chunk ++ drop (o + length chunk) (page f id)).
  set (g := drop_guard _ _ _ _). cbv zeta.
  assert (length d = page_len) as Hd.
  { unfold d. rewrite !length_app, length_take, length_drop. fold o in Hfit. lia. }
  split; [by apply map_Forall_insert_2|].
  pose proof (drop_guard_spec f pos (length chunk) Hpos Hlen Hfit) as Hg. fold id o g in Hg.
  pose proof page_len_pos. pose proof (page_div_mod pos) as Hdm. fold id o in Hdm.
  set (f' := mkFile _ g).
  assert (forall p, byte_at f' p =
    if decide (pos <= p < pos + length chunk)%nat then nth (p - pos) chunk 0 else byte_at f p) as Hb.
  { intros p. pose proof (page_mod p). pose proof (page_div_mod p) as Hp.
    unfold byte_at, f'. rewrite page_insert. destruct (decide (p / page_len = id)%nat) as [He|He].
    - unfold d. rewrite nth_copied by (fold o in Hfit; lia). rewrite He in *.
      destruct (decide (o <= p mod page_len < o + length chunk)%nat),
        (decide (pos <= p < pos + length chunk)%nat); solve [lia | done | f_equal; lia].
    - destruct (decide (pos <= p < pos + length chunk)%nat) as [Hin|]; [|done]. exfalso. apply He.
      fold o in Hfit. replace p with (id * page_len + (p - id * page_len))%nat by lia.
      apply page_split. lia. }
  apply list_eq. intros p. rewrite contents_lookup. unfold f' at 1. cbn [flen]. rewrite Hg, Hb.
  rewrite write_at_lookup by (rewrite ?length_contents; lia). rewrite contents_lookup.
  destruct (decide (pos <= p < pos + length chunk)%nat) as [Hin|Hout].
  - assert (p < (if ((pos + length chunk) mod page_len =? 0)%nat
                 then Nat.max (flen f) (pos + length chunk) else pos + length chunk))%nat as Hlt
      by (destruct (_ =? _)%nat; lia).
    rewrite (proj2 (Nat.ltb_lt _ _) Hlt).
    destruct (lookup_lt_is_Some_2 chunk (p - pos)%nat) as [x Hx]; [lia|].
    rewrite Hx. f_equal. by apply nth_lookup_Some.
  - destruct ((pos + length chunk) mod page_len =? 0)%nat; destruct (decide (p < pos)%nat); bool_cases;
      done || lia.
Qed.

(** *** The whole loop *)
Lemma page_write_loop_spec {E} fuel f pos buf :
  (length buf <= fuel)%nat -> wf f -> (pos <= flen f)%nat -> addressable (pos + length buf) ->
  exists f', write_loop (E := E) fuel f pos buf = Ok f' /\ wf f' /\
    contents f' = bytes_file.write_at (contents f) pos buf.
Proof.
  revert f pos buf. induction fuel as [|fuel IH]; intros f pos buf Hfuel Hwf Hpos Ha; cbn [write_loop].
  { destruct buf; [|simpl in Hfuel; lia]. exists f. done. }
  destruct (Nat.eqb_spec (length buf) 0) as [E0|Hne].
  { exists f. split_and!; [done|done|]. unfold bytes_file.write_at. by rewrite E0. }
  pose proof (page_mod pos) as Hm. rewrite page_id_at_ok by (eapply addressable_le; [|exact Ha]; lia). run.
  set (o := (pos mod page_len)%nat) in *. set (len := Nat.min (length buf) (page_len - o)).
  rewrite (surjective_pairing (page_span f (pos / page_len))). unfold assert_.
  rewrite (proj2 (Nat.leb_le _ _)) by lia. run.
  assert (length (take len buf) = len) as Hc by (rewrite length_take; lia).
  destruct (write_chunk (E := E) f pos (take len buf)) as (d & Hd & Hwf' & Hcont);
    [done|done|lia|fold o; lia|].
  fold o in Hd, Hwf', Hcont. rewrite Hd. run. rewrite Hc in Hwf', Hcont.
  set (f1 := mkFile _ _) in *.
  rewrite checked_add_ok by (eapply addressable_le; [|exact Ha]; lia). run.
  assert (length (contents f1) = flen f1) as Hfl by apply length_contents.
  rewrite Hcont, length_write_at, Hc, length_contents in Hfl by (rewrite length_contents; lia).
  destruct (Nat.eqb_spec len 0); [lia|].
  destruct (IH f1 (pos + len)%nat (drop len buf)) as (f' & Hf' & Hw & Hcf).
  { rewrite length_drop. lia. }
  { done. }
  { destruct (_ =? _)%nat; lia. }
  { rewrite length_drop. by replace (pos + len + (length buf - len))%nat with (pos + length buf)%nat by lia. }
  exists f'. split_and!; [done|done|]. rewrite Hcf, Hcont.
  destruct (decide (len = length buf)) as [Heq|Hlt].
  { rewrite drop_ge, take_ge by lia. done. }
  pose proof (write_at_app (contents f) pos (take len buf) (drop len buf)) as Happ.
  rewrite take_drop, Hc in Happ.
  apply Happ; [rewrite length_contents; lia|lia|rewrite length_drop; lia|].
  assert (len = page_len - o)%nat as -> by lia. pose proof (page_div_mod pos).
  replace (pos + (page_len - o))%nat with ((pos / page_len + 1) * page_len)%nat by lia.
  apply Nat.Div0.mod_mul.
Qed.

Lemma write_at_spec {E} f pos buf :
  wf f -> (pos <= flen f)%nat -> addressable (pos + length buf) ->
  exists f', write_at (E := E) f pos buf = Ok f' /\ wf f' /\
    contents f' = bytes_file.write_at (contents f) pos buf.
Proof. by apply page_write_loop_spec. Qed.

End facts.
End file_facts.

(** ** Sequences of operations on a cursor *)
Module cursor_facts.

(** The calls the rest of the code makes on a cursor, and their results. *)
Inductive op := Read (n : nat) | Write (buf : list Z) | Seek (s : cursor.SeekFrom).
Inductive reply := Bytes (l : list Z) | Done | At (p : nat).

Section facts.
Context {PIO : PageIO} {P : BuildProfile}.

Definition step (c : cursor.FileCursor) (o : op) : outcome io_error (cursor.FileCursor * reply) :=
  match o with
  | Read n => '(c, l) ← cursor.read c n; Ok (c, Bytes l)
  | Write buf => c ← cursor.write c buf; Ok (c, Done)
  | Seek s => '(c, p) ← cursor.seek c s; Ok (c, At p)
  end.

Definition spec_step (c : bytes_file.Cursor) (o : op) : outcome io_error (bytes_file.Cursor * reply) :=
  match o with
  | Read n => '(c, l) ← bytes_file.read c n; Ok (c, Bytes l)
  | Write buf => c ← bytes_file.write c buf; Ok (c, Done)
  | Seek s => '(c, p) ← bytes_file.seek c s; Ok (c, At p)
  end.

Fixpoint steps {C} (next : C -> op -> outcome io_error (C * reply)) (c : C) (os : list op)
    : outcome io_error (C * list reply) :=
  match os with
  | [] => Ok (c, [])
  | o :: os' => '(c, r) ← next c o; '(c, rs) ← steps next c os'; Ok (c, r :: rs)
  end.

(** The page-level cursor [c] represents the byte-level cursor [a]. *)
Definition rep (c : cursor.FileCursor) (a : bytes_file.Cursor) : Prop :=
  file_facts.wf (cursor.file c) /\ file_facts.contents (cursor.file c) = bytes_file.data a /\
  cursor.pos c = bytes_file.at_ a.

(** The operation stays within the addressable pages, and does not write past
    the end of the file (nothing in the code does); a buffer is at most
    [isize::MAX] bytes long. *)
Definition legal (a : bytes_file.Cursor) (o : op) : Prop :=
  file_facts.addressable (length (bytes_file.data a)) /\
  match o with
  | Read n => file_facts.addressable (bytes_file.at_ a) /\ Z.of_nat n < I63
  | Write buf => (bytes_file.at_ a <= length (bytes_file.data a))%nat /\
      file_facts.addressable (bytes_file.at_ a + length buf) /\ Z.of_nat (length buf) < I63
  | Seek _ => True
  end.

(** Every operation of the sequence is legal when its turn comes. *)
Fixpoint legal_run (a : bytes_file.Cursor) (os : list op) : Prop :=
  match os with
  | [] => True
  | o :: os' => legal a o /\ forall a' r, spec_step a o = Ok (a', r) -> legal_run a' os'
  end.

(** Two results agree: the same failure, or related cursors and the same reply. *)
Definition agree {R} (x : outcome io_error (cursor.FileCursor * R))
    (y : outcome io_error (bytes_file.Cursor * R)) : Prop :=
  match x, y with
  | Ok (c, r), Ok (a, r') => rep c a /\ r = r'
  | Err e, Err e' => e = e'
  | Panic, Panic => True
  | _, _ => False
  end.

Lemma addressable_u64 n : file_facts.addressable n -> Z.of_nat n < U64 /\ Z.of_nat n < 2 ^ 64.
Proof. unfold file_facts.addressable. pose proof page_len_u32. range. Qed.

Lemma advance_ok c n :
  file_facts.addressable (cursor.pos c + n) -> Z.of_nat n < I63 ->
  cursor.advance c n = Ok (cursor.mkFileCursor (cursor.file c) (cursor.pos c + n)).
Proof.
  intros Ha Hn. destruct (addressable_u64 _ Ha) as [Hu _]. unfold cursor.advance.
  rewrite (proj2 (Z.leb_gt _ _)) by done. unfold cursor.seek, cursor.seek_to, cursor.move_by.
  rewrite (proj2 (Z.leb_le _ _)) by lia. unfold cursor.checked_add.
  rewrite (proj2 (Z.ltb_lt _ _)) by lia. run. do 2 f_equal. lia.
Qed.

(** What a read returns fits in the buffer and in the file. *)
Lemma read_at_length {E} d p n bytes :
  bytes_file.read_at (E := E) d p n = Ok bytes ->
  (length bytes <= n)%nat /\ (length bytes = 0 \/ p + length bytes <= length d)%nat.
Proof.
  unfold bytes_file.read_at. destruct (Nat.eqb_spec n 0) as [->|]; [intros [= <-]; cbn; lia|].
  destruct (Nat.leb_spec p (length d)).
  - intros [= <-]. rewrite length_take, length_drop. lia.
  - destruct (_ =? _)%nat; [intros [= <-]; cbn; lia|done].
Qed.

Lemma read_agree c a n : rep c a -> legal a (Read n) -> agree (cursor.read c n) (bytes_file.read a n).
Proof.
  intros (Hwf & Hc & Hp) [Ha [Hat Hn]]. destruct c as [f p], a as [d p'].
  cbn [cursor.file cursor.pos bytes_file.data bytes_file.at_] in *. subst p'.
  unfold cursor.read, bytes_file.read. cbn [cursor.file cursor.pos bytes_file.data bytes_file.at_].
  rewrite file_facts.read_at_spec, Hc by (rewrite ?Hc, <- ?Hc, ?file_facts.length_contents in *; done).
  destruct (bytes_file.read_at d p n) as [bytes|e| |] eqn:Hr; [|done|done|].
  2: { unfold bytes_file.read_at in Hr. by repeat case_match. }
  destruct (read_at_length _ _ _ _ Hr) as [Hl1 Hl2]. run. rewrite advance_ok.
  - run. done.
  - cbn [cursor.pos]. destruct Hl2 as [->|Hl2]; [by rewrite Nat.add_0_r|].
    by eapply file_facts.addressable_le.
  - lia.
Qed.

Lemma write_agree c a buf :
  rep c a -> legal a (Write buf) ->
  agree (c ← cursor.write c buf; Ok (c, Done)) (a ← bytes_file.write a buf; Ok (a, Done)).
Proof.
  intros (Hwf & Hc & Hp) [Ha (Hle & Hat & Hn)]. destruct c as [f p], a as [d p'].
  cbn [cursor.file cursor.pos bytes_file.data bytes_file.at_] in *. subst p'.
  unfold cursor.write, bytes_file.write. cbn [cursor.file cursor.pos bytes_file.data bytes_file.at_].
  destruct (file_facts.write_at_spec (E := io_error) f p buf) as (f' & -> & Hwf' & Hc');
    [done|rewrite <- file_facts.length_contents; by rewrite Hc|done|].
  run. rewrite advance_ok by done. run. split; [|done]. split_and!; [done|cbn; by rewrite Hc', Hc|done].
Qed.

Lemma seek_agree c a s : rep c a -> agree (cursor.seek c s) (bytes_file.seek a s).
Proof.
  intros (Hwf & Hc & Hp). destruct c as [f p], a as [d p'].
  cbn [cursor.file cursor.pos bytes_file.data bytes_file.at_] in *. subst p' d.
  unfold cursor.seek, bytes_file.seek. cbn [cursor.file cursor.pos bytes_file.data bytes_file.at_].
  rewrite file_facts.length_contents.
  destruct (cursor.seek_to (file.flen f) p s) eqn:E; [run; done|done|done|].
  unfold cursor.seek_to, cursor.move_by, of_option in E.
  destruct s; cbn in E; repeat (case_match; cbn in E); simplify_eq.
Qed.

(** One operation. *)
Lemma step_agree c a o : rep c a -> legal a o -> agree (step c o) (spec_step a o).
Proof.
  intros Hrep Hl. destruct o as [n|buf|s]; cbn [step spec_step].
  - pose proof (read_agree c a n Hrep Hl) as H.
    destruct (cursor.read c n) as [[? ?]| | |], (bytes_file.read a n) as [[? ?]| | |]; try done.
    destruct H as [? ->]. done.
  - by apply write_agree.
  - pose proof (seek_agree c a s Hrep) as H.
    destruct (cursor.seek c s) as [[? ?]| | |], (bytes_file.seek a s) as [[? ?]| | |]; try done.
    destruct H as [? ->]. done.
Qed.

(** C15. The page-level file and cursor implement a file of bytes: any sequence
    of reads, writes and seeks, in which every write starts at or before the end
    of the file, gives the same replies, the same errors and the same panics as on
    the byte list, and leaves a file whose bytes are the byte list's. *)
Theorem cursor_refines_bytes c a os :
  rep c a -> legal_run a os -> agree (steps step c os) (steps spec_step a os).
Proof.
  revert c a. induction os as [|o os IH]; intros c a Hrep Hl; [done|].
  destruct Hl as [Ho Hl]. cbn [steps]. pose proof (step_agree c a o Hrep Ho) as Hs.
  destruct (step c o) as [[c1 r]| | |], (spec_step a o) as [[a1 r']| | |]; try done.
  destruct Hs as [Hrep1 ->]. run. specialize (IH c1 a1 Hrep1 (Hl a1 r' eq_refl)).
  destruct (steps step c1 os) as [[c2 rs]| | |], (steps spec_step a1 os) as [[a2 rs']| | |]; try done.
  destruct IH as [? ->]. done.
Qed.

End facts.

(** *** A concrete page size *)
Definition page16 : PageIO.
Proof.
  refine {| page_len := 16; fresh_page := fun _ => replicate 16 170 |}.
  - lia.
  - vm_compute. easy.
  - intros _. reflexivity.
Defined.

Lemma cursor_refines_bytes_witness :
  let c := cursor.from_file (file.mkFile ∅ 0) in
  let os := [Write [1; 2; 3]; Seek (cursor.Start 1); Read 2] in
  agree (PIO := page16) (steps (step (PIO := page16) (P := (true : BuildProfile))) c os)
    (steps (spec_step (PIO := page16) (P := (true : BuildProfile))) (bytes_file.mkCursor [] 0) os).
Proof.
  intros c os. apply (cursor_refines_bytes (PIO := page16) (P := (true : BuildProfile))).
  - split_and!; [apply map_Forall_empty|done|done].
  - split; [split; [vm_compute; reflexivity|split_and!; [cbn; lia|vm_compute; reflexivity..]]|].
    intros a' r [= <- <-]. split; [split; [vm_compute; reflexivity|exact I]|].
    intros a' r [= <- <-]. split; [split; [|split]; vm_compute; reflexivity|done].
Defined.

(** Overwriting inside a file cuts it: after a write that ends inside a page
    the bytes that followed it are gone.  A caller that seeks to the start to
    rewrite a header loses the rest of the file. *)
Theorem overwrite_truncates {PIO : PageIO} f pos buf :
  file_facts.wf f -> (pos + length buf < file.flen f)%nat -> (0 < length buf)%nat ->
  file_facts.addressable (file.flen f) -> ((pos + length buf) mod page_len <> 0)%nat ->
  exists f', file.write_at (E := io_error) f pos buf = Ok f' /\
    file_facts.contents f' = take pos (file_facts.contents f) ++ buf /\
    file.flen f' = (pos + length buf)%nat.
Proof.
  intros Hwf Hlt Hpos Ha Hmod.
  destruct (file_facts.write_at_spec (E := io_error) f pos buf) as (f' & Hw & _ & Hc);
    [done|lia|eapply file_facts.addressable_le; [|exact Ha]; lia|].
  exists f'. split; [done|]. unfold bytes_file.write_at in Hc.
  destruct (Nat.eqb_spec (length buf) 0); [lia|]. destruct (Nat.eqb_spec ((pos + length buf) mod page_len) 0); [done|].
  split; [done|]. rewrite <- file_facts.length_contents, Hc, length_app, length_take, file_facts.length_contents. lia.
Qed.

Lemma overwrite_truncates_witness :
  let f := file.mkFile {[ 0%nat := [1; 2; 3; 4; 5; 6; 7; 8; 9; 10; 11; 12; 13; 14; 15; 16] ]} 12 in
  exists f', file.write_at (PIO := page16) (E := io_error) f 0 [0; 0; 0; 0] = Ok f' /\
    file_facts.contents (PIO := page16) f' = take 0 (file_facts.contents (PIO := page16) f) ++ [0; 0; 0; 0] /\
    file.flen f' = 4%nat.
Proof.
  intros f. apply (overwrite_truncates (PIO := page16) f 0 [0; 0; 0; 0]).
  - by apply map_Forall_singleton.
  - cbn. lia.
  - cbn. lia.
  - vm_compute. easy.
  - vm_compute. easy.
Defined.

End cursor_facts.
