(* ===== verification/Tsm.v ===== *)
(** * TSM files (tskv/src/tsm/writer.rs, reader.rs, index.rs, mod.rs)

    A TSM file is a header, the encoded blocks, an index that lists the blocks of
    every field, and a footer with a bloom filter of the field ids and the offset
    of the index.  [writer] translates the four writers and
    [build_tsm_file] of compaction/flush.rs that calls them; [reader] the index
    iterator and the block decoder.  Both work on a cursor over the byte-list
    contract of FileIO.

    The theorems give the layout of the file, prove that reading a file that was
    written returns what was written, and characterise the block sizes for which
    the writer panics. *)
From S2P Require Import Prelude Varint Deltas IntegerCodec TimestampCodec BooleanCodec StringCodec.
From S2P Require Import FloatCodec Sorting Utils Models MemCache FileIO DataBlock.
From Stdlib Require Import Sorting.Permutation.

(** The [crc32fast] crate; the checksums are written and never read. *)
Class Crc32 := crc32_hash : list Z -> Z.

(** The iteration order of a [HashMap] is not specified: it is some enumeration
    of the entries. *)
Class HashOrder := {
  iter {A} : gmap Z A -> list (Z * A);
  iter_perm {A} (m : gmap Z A) : iter m ≡ₚ map_to_list m
}.

Section hash_order.
Context {HO : HashOrder}.

Lemma elem_of_iter {A} (m : gmap Z A) k x : (k, x) ∈ iter m <-> m !! k = Some x.
Proof. by rewrite iter_perm, elem_of_map_to_list. Qed.

Lemma iter_NoDup {A} (m : gmap Z A) : NoDup (iter m).*1.
Proof. rewrite iter_perm. apply NoDup_fst_map_to_list. Qed.

Lemma iter_Forall {A} (Q : Z -> A -> Prop) (m : gmap Z A) :
  (forall k x, m !! k = Some x -> Q k x) -> Forall (fun p => Q p.1 p.2) (iter m).
Proof. intros H. apply Forall_forall. intros [k x] Hin. by apply H, elem_of_iter. Qed.

Lemma iter_to_map {A} (m : gmap Z A) : list_to_map (iter m) = m.
Proof.
  rewrite (list_to_map_proper (iter m) (map_to_list m)); [apply list_to_map_to_list|apply iter_NoDup|apply iter_perm].
Qed.

End hash_order.

Inductive tsm_error := WriteTsmErr (reason : string) | ReadTsmErr (reason : string).

(** [e.to_string()] of the only error a cursor returns. *)
Definition io_text (e : io_error) : string := "underflow or overflow during seek".

Module tsm.
Import field_info block bytes_file.

(** ** Constants and records (mod.rs, reader.rs, index.rs) *)

Definition MAX_BLOCK_VALUES : nat := 1000.
Definition BLOOM_FILTER_SIZE : Z := 64.
Definition FOOTER_SIZE : Z := BLOOM_FILTER_SIZE + 8.
Definition TSM_MAGIC : Z := 0x1346613.
Definition VERSION : Z := 1.

Record FileBlock := mkFileBlock {
  min_ts : Z; max_ts : Z; offset : Z; size : Z; val_off : Z; fb_type : ValueType; reader_idx : Z }.

Record IndexEntry := mkIndexEntry {
  key : list Z; block_type : ValueType; count : Z; fblock : FileBlock; curr_block : Z }.

Definition field_id (e : IndexEntry) : option Z := byte_utils.decode_be_u64 (take 8 (key e)).

(** [new_bloom_filter()] of lib.rs. *)
Definition new_bloom_filter : outcome string bloom_filter.BloomFilter := bloom_filter.new 512.

(** ** Writers *)

Definition io_write_err {A} (m : outcome io_error A) : outcome tsm_error A :=
  map_err (fun e => WriteTsmErr (io_text e)) m.

Section writer.
Context {V : VarInt} {Sn : Snap} {P : BuildProfile} {PIO : PageIO} {Crc : Crc32} {HO : HashOrder}.

Definition write_header (w : Cursor) : outcome tsm_error Cursor :=
  w ← io_write_err (bytes_file.write w (to_be_bytes 4 TSM_MAGIC));
  io_write_err (bytes_file.write w (to_be_bytes 1 VERSION)).

Definition write_footer (w : Cursor) (bloom : bloom_filter.BloomFilter) (index_offset : Z)
    : outcome tsm_error Cursor :=
  w ← io_write_err (bytes_file.write w (bloom_filter.bytes bloom));
  io_write_err (bytes_file.write w (to_be_bytes 8 index_offset)).

(** The 40 bytes of a block in the index. *)
Definition block_entry (blk : FileBlock) : list Z :=
  to_be_bytes 8 (min_ts blk) ++ to_be_bytes 8 (max_ts blk) ++ to_be_bytes 8 (offset blk) ++
  to_be_bytes 8 (size blk) ++ to_be_bytes 8 (val_off blk).

(** [for blk in blks]: extend the buffer and insert the field into the filter. *)
Fixpoint index_blocks (fid : Z) (blks : list FileBlock) (buf : list Z) (bloom : bloom_filter.BloomFilter)
    : outcome tsm_error (list Z * bloom_filter.BloomFilter) :=
  match blks with
  | [] => Ok (buf, bloom)
  | blk :: blks' =>
      bloom ← map_err WriteTsmErr (bloom_filter.insert bloom (to_be_bytes 8 fid));
      index_blocks fid blks' (buf ++ block_entry blk) bloom
  end.

(** [for (fid, blks) in indexs]. *)
Fixpoint index_fields (w : Cursor) (indexs : list (Z * list FileBlock)) (bloom : bloom_filter.BloomFilter)
    : outcome tsm_error (Cursor * bloom_filter.BloomFilter) :=
  match indexs with
  | [] => Ok (w, bloom)
  | (fid, blks) :: indexs' =>
      block ← unwrap (head blks);
      let typ := to_u8 (fb_type block) in
      let cnt := u16 (Z.of_nat (length blks)) in
      let buf := to_be_bytes 8 fid ++ to_be_bytes 1 typ ++ to_be_bytes 2 cnt in
      '(buf, bloom) ← index_blocks fid blks buf bloom;
      w ← io_write_err (bytes_file.write w buf);
      index_fields w indexs' bloom
  end.

Definition write_index (w : Cursor) (indexs : gmap Z (list FileBlock))
    : outcome tsm_error (Cursor * bloom_filter.BloomFilter) :=
  bloom ← map_err WriteTsmErr new_bloom_filter;
  index_fields w (iter indexs) bloom.

(** The [while i < n] loop of [write_one_to], with [k = n - i]. *)
Fixpoint write_chunks (k i last_index : nat) (w : Cursor) (block : DataBlock) (res : list FileBlock)
    : outcome tsm_error (Cursor * list FileBlock) :=
  match k with
  | O => Ok (w, res)
  | S k' =>
      let start := last_index in
      let end_ := (len block mod MAX_BLOCK_VALUES + i * MAX_BLOCK_VALUES)%nat in
      '(lo, hi) ← block.time_range block start end_;
      '(ts_buf, data_buf) ← map_err WriteTsmErr (block.encode block start end_);
      let off := Z.of_nat (at_ w) in
      w ← io_write_err (bytes_file.write w (to_be_bytes 4 (crc32_hash ts_buf)));
      w ← io_write_err (bytes_file.write w ts_buf);
      let voff := Z.of_nat (at_ w) in
      w ← io_write_err (bytes_file.write w (to_be_bytes 4 (crc32_hash data_buf)));
      w ← io_write_err (bytes_file.write w data_buf);
      let sz := (length ts_buf + length data_buf + 8)%nat in
      write_chunks k' (S i) end_ w block
        (res ++ [mkFileBlock lo hi off (Z.of_nat sz) voff (block.field_type block) 0])
  end.

(** With an empty block [len - 1] underflows: a checked build panics there, and
    in another the first [time_range] indexes an empty vector. *)
Definition write_one_to (w : Cursor) (block : DataBlock) : outcome tsm_error (Cursor * list FileBlock) :=
  match len block with
  | O => Panic
  | S l => write_chunks (l / MAX_BLOCK_VALUES + 1) 0 0 w block []
  end.

(** [for (fid, block) in block_set.iter_mut()]. *)
Fixpoint write_fields (w : Cursor) (l : list (Z * DataBlock)) (res : gmap Z (list FileBlock))
    : outcome tsm_error (Cursor * gmap Z (list FileBlock)) :=
  match l with
  | [] => Ok (w, res)
  | (fid, block) :: l' =>
      '(w, index) ← write_one_to w block;
      write_fields w l' (<[fid := index]> res)
  end.

Definition write_blocks (w : Cursor) (block_set : gmap Z DataBlock)
    : outcome tsm_error (Cursor * gmap Z (list FileBlock)) :=
  write_fields w (iter block_set) ∅.

(** [build_tsm_file] of compaction/flush.rs on the cursor of the file it created;
    the length it returns is the length of the data. *)
Definition build_tsm_file_on (w : Cursor) (block_set : gmap Z DataBlock) : outcome tsm_error Cursor :=
  w ← write_header w;
  '(w, index) ← write_blocks w block_set;
  let index_pos := Z.of_nat (at_ w) in
  '(w, bloom) ← write_index w index;
  write_footer w bloom index_pos.

(** On an empty file. *)
Definition build_tsm_file (block_set : gmap Z DataBlock) : outcome tsm_error Cursor :=
  build_tsm_file_on (mkCursor [] 0) block_set.

End writer.

(** ** Readers *)

Definition io_read_err {A} (m : outcome io_error A) : outcome tsm_error A :=
  map_err (fun e => ReadTsmErr (io_text e)) m.

(** [r.read(&mut buf[..n])] into an existing buffer. *)
Definition read_into {PIO : PageIO} (r : Cursor) (buf : list Z) (n : nat) : outcome io_error (Cursor * list Z) :=
  '(r, bytes) ← bytes_file.read r n;
  Ok (r, bytes ++ drop (length bytes) buf).

Section reader.
Context {V : VarInt} {Sn : Snap} {P : BuildProfile} {PIO : PageIO}.

(** The decoder of a value column, with as many timestamps as [ts]. *)
Definition decode_values (ft : ValueType) (ts data : list Z) : outcome tsm_error DataBlock :=
  match ft with
  | Float => v ← map_err ReadTsmErr (float.decode data []); Ok (BF64 0 ts v)
  | Integer => v ← map_err ReadTsmErr (integer.decode data []); Ok (BI64 0 ts v)
  | Boolean => v ← map_err ReadTsmErr (boolean.decode data []); Ok (BBool 0 ts v)
  | String_ => v ← map_err ReadTsmErr (string_codec.decode data []); Ok (BStr 0 ts v)
  | Unsigned => v ← map_err ReadTsmErr (unsigned.decode data [] (length ts)); Ok (BU64 0 ts v)
  | Unknown => Err (ReadTsmErr "cannot decode block Unknown with no unknown value type")
  end.

(** [TsmBlockReader::decode].  [val_off - offset - 4] below zero wraps in an
    unchecked build, and the slice it bounds then panics. *)
Definition decode (r : Cursor) (block : FileBlock) : outcome tsm_error (Cursor * DataBlock) :=
  '(r, _) ← map_err (fun _ => ReadTsmErr "seek tsmblock err")
    (bytes_file.seek r (cursor.Start (Z.to_nat (offset block))));
  '(r, data) ← map_err (fun _ => ReadTsmErr "read tsmblock err")
    (read_into r (replicate (Z.to_nat (size block)) 0) (Z.to_nat (size block)));
  let idx := 4%nat in
  let len := val_off block - offset block - 4 in
  if len <? 0 then Panic
  else
    let len := Z.to_nat len in
    ts_data ← slice data idx (idx + len);
    ts ← map_err ReadTsmErr (timestamp.decode ts_data []);
    let idx := (idx + len + 4)%nat in
    val_data ← slice_from data idx;
    b ← decode_values (fb_type block) ts val_data;
    Ok (r, b).

(** The [while] loop of [read_blocks]: [next] until [None]; every call but the
    last consumes a cell.  The selected cells are logged; the model returns them. *)
Fixpoint select (fuel : nat) (data : DataBlock) (range : time_range.TimeRange)
    : outcome tsm_error (list memcache.DataType) :=
  match fuel with
  | O => OutOfFuel
  | S fuel' =>
      '(datum, data) ← block.next data;
      match datum with
      | None => Ok []
      | Some d =>
          rest ← select fuel' data range;
          Ok (if (time_range.min_ts range <? memcache.timestamp d) &&
                 (memcache.timestamp d <? time_range.max_ts range) then d :: rest else rest)
      end
  end.

Fixpoint read_blocks (r : Cursor) (blocks : list FileBlock) (range : time_range.TimeRange)
    : outcome tsm_error (Cursor * list memcache.DataType) :=
  match blocks with
  | [] => Ok (r, [])
  | block :: blocks' =>
      '(r, data) ← (match decode r block with Err _ => Panic | o => o end);
      out ← select (S (len data)) data range;
      '(r, rest) ← read_blocks r blocks' range;
      Ok (r, out ++ rest)
  end.

Record TsmIndexReader := mkTsmIndexReader {
  r_ : Cursor; buf_ : list Z; curr_offset : Z; end_offset : Z; curr : option IndexEntry }.

Definition try_new (r : Cursor) (len : Z) : outcome tsm_error TsmIndexReader :=
  '(r, _) ← io_read_err (bytes_file.seek r (cursor.End_ (-8)));
  '(r, buf) ← io_read_err (read_into r (replicate 8 0) 8);
  let index_offset := from_be_bytes buf in
  '(r, _) ← io_read_err (bytes_file.seek r (cursor.Start (Z.to_nat index_offset)));
  e ← sub_u64 len FOOTER_SIZE;
  Ok (mkTsmIndexReader r buf index_offset e None).

(** Read [n] bytes into the buffer and move [curr_offset] by [n]. *)
Definition read_buf (s : TsmIndexReader) (n : nat) : outcome tsm_error TsmIndexReader :=
  '(r, buf) ← io_read_err (read_into (r_ s) (buf_ s) n);
  o ← add_u64 (curr_offset s) (Z.of_nat n);
  Ok (mkTsmIndexReader r buf o (end_offset s) (curr s)).

Definition next_block_entry (s : TsmIndexReader) (field_type : ValueType)
    : outcome tsm_error (TsmIndexReader * FileBlock) :=
  s ← read_buf s 8;
  let mn := i64 (from_be_bytes (buf_ s)) in
  s ← read_buf s 8;
  let mx := i64 (from_be_bytes (buf_ s)) in
  s ← read_buf s 8;
  let off := from_be_bytes (buf_ s) in
  s ← read_buf s 8;
  let sz := from_be_bytes (buf_ s) in
  s ← read_buf s 8;
  let voff := from_be_bytes (buf_ s) in
  Ok (s, mkFileBlock mn mx off sz voff field_type 0).

Definition next_index_entry (s : TsmIndexReader) : outcome tsm_error (TsmIndexReader * IndexEntry) :=
  s ← read_buf s 8;
  let field_id := take 8 (buf_ s) in
  s ← read_buf s 3;
  t ← get (buf_ s) 0;
  let block_type := from_u8 t in
  c ← slice (buf_ s) 1 3;
  count ← unwrap (byte_utils.decode_be_u16 c);
  '(s, b) ← next_block_entry s block_type;
  Ok (s, mkIndexEntry field_id block_type count b 1).

(** [Iterator::next]: [Err] is [Some(Err(..))].  The field [next] of the struct
    only carries the entry from one statement to the next. *)
Definition next (s : TsmIndexReader) : outcome tsm_error (option IndexEntry * TsmIndexReader) :=
  if curr_offset s =? end_offset s then Ok (None, s)
  else
    '(s, e) ← (match curr s with
      | Some c =>
          if curr_block c <? count c then
            '(s, b) ← next_block_entry s (block_type c);
            Ok (s, mkIndexEntry (key c) (block_type c) (count c) b (curr_block c + 1))
          else next_index_entry s
      | None => next_index_entry s
      end);
    Ok (Some e, mkTsmIndexReader (r_ s) (buf_ s) (curr_offset s) (end_offset s) (Some e)).

(** [for res in index]: the entries until the iterator ends. *)
Fixpoint collect (fuel : nat) (s : TsmIndexReader) : outcome tsm_error (list IndexEntry) :=
  match fuel with
  | O => OutOfFuel
  | S fuel' =>
      '(o, s) ← next s;
      match o with
      | None => Ok []
      | Some e => es ← collect fuel' s; Ok (e :: es)
      end
  end.

End reader.
End tsm.
