(* ===== verification/TsmFacts.v ===== *)
(** * A TSM file gives back what was written

    Proofs about the writers and readers of Tsm: a range of a block survives
    encoding and decoding, the writers only append, the index iterator returns
    the entries that were written, and from these the round trip of a whole file.
    [storable] says which blocks the file format can hold. *)
From S2P Require Import Prelude Varint Deltas IntegerCodec TimestampCodec BooleanCodec StringCodec.
From S2P Require Import FloatCodec Sorting Utils Models MemCache FileIO DataBlock.
From S2P Require Import Tsm.
From Stdlib Require Import Sorting.Permutation.

Module tsm_facts.
Import field_info block block_facts bytes_file tsm.

(** ** Ranges of a block *)

Definition range {A} (s e : nat) (l : list A) : list A := take (e - s) (drop s l).

Lemma length_range {A} s e (l : list A) : (s <= e <= length l)%nat -> length (range s e l) = (e - s)%nat.
Proof. intros. unfold range. rewrite length_take, length_drop. lia. Qed.

Lemma range_nonempty {A} s e (l : list A) : (s < e <= length l)%nat -> range s e l <> [].
Proof. intros H Hn. apply (f_equal length) in Hn. rewrite length_range in Hn by lia. cbn in Hn. lia. Qed.

Lemma Forall_range {A} (Q : A -> Prop) s e l : Forall Q l -> Forall Q (range s e l).
Proof. intros. by apply Forall_take, Forall_drop. Qed.

Lemma range_app {A} s m e (l : list A) : (s <= m <= e)%nat -> range s m l ++ range m e l = range s e l.
Proof.
  intros H. unfold range. rewrite <- (take_drop (m - s) (take (e - s) (drop s l))).
  rewrite take_take, skipn_firstn_comm, drop_drop. f_equal; [f_equal; lia|].
  f_equal; [lia|f_equal; lia].
Qed.

(** The block the reader should build from a range. *)
Definition sub_block (b : DataBlock) (s e : nat) : DataBlock :=
  match b with
  | BU64 _ t v => BU64 0 (range s e t) (range s e v)
  | BI64 _ t v => BI64 0 (range s e t) (range s e v)
  | BStr _ t v => BStr 0 (range s e t) (range s e v)
  | BF64 _ t v => BF64 0 (range s e t) (range s e v)
  | BBool _ t v => BBool 0 (range s e t) (range s e v)
  end.

Lemma adj_take f n l : deltas.adj f (take n l) = take (n - 1) (deltas.adj f l).
Proof.
  revert n. induction l as [|x l IH]; intros [|n]; [done|cbn; by rewrite take_nil|done|].
  destruct l as [|y l]; [by destruct n; cbn; rewrite ?take_nil|]. destruct n as [|n]; [done|].
  change (f y x :: deltas.adj f (take (S n) (y :: l)) = take (S n) (f y x :: deltas.adj f (y :: l))).
  rewrite IH. cbn [take Nat.sub]. by rewrite Nat.sub_0_r.
Qed.

Lemma adj_drop f n l : deltas.adj f (drop n l) = drop n (deltas.adj f l).
Proof.
  revert n. induction l as [|x l IH]; intros [|n]; try done.
  destruct l as [|y l]; [by destruct n|].
  change (deltas.adj f (drop n (y :: l)) = drop n (deltas.adj f (y :: l))). apply IH.
Qed.

Lemma Forall_adj_range Q f s e l : Forall Q (deltas.adj f l) -> Forall Q (deltas.adj f (range s e l)).
Proof. intros. unfold range. rewrite adj_take, adj_drop. by apply Forall_take, Forall_drop. Qed.

Section blocks.
Context {V : VarInt} {L : VarIntLaws V} {Sn : Snap} {SL : SnapLaws Sn} {P : BuildProfile}.

(** A column of integers the delta codecs accept: in a build with overflow checks
    the differences of neighbours must not overflow. *)
Definition delta_ok (l : list Z) : Prop :=
  Forall is_i64 l /\ (overflow_checks = false \/ Forall is_i64 (deltas.adj Z.sub l)).

(** The values each codec accepts. *)
Definition values_ok (b : DataBlock) : Prop :=
  match b with
  | BU64 _ _ v => Forall is_u64 v /\
      (overflow_checks = false \/ Forall is_i64 (deltas.adj Z.sub (unsigned.u64_to_i64_vector v)))
  | BI64 _ _ v => delta_ok v
  | BStr _ _ v => Forall string_codec.short v /\ max_compress_len (string_codec.source_size v) <> O /\
      Z.of_nat (string_codec.source_size v) < Prelude.U64
  | BF64 _ _ v => Forall (fun x => is_u64 x /\ x <> float.SENTINEL) v
  | BBool _ _ _ => True
  end.

Lemma delta_ok_range s e l : delta_ok l -> delta_ok (range s e l).
Proof.
  intros [H1 H2]. split; [by apply Forall_range|]. destruct H2; [by left|right; by apply Forall_adj_range].
Qed.

Lemma source_size_range s e v :
  (string_codec.source_size (range s e v) <= string_codec.source_size v)%nat.
Proof.
  unfold string_codec.source_size, range. rewrite <- (take_drop s v) at 3 4.
  rewrite <- (take_drop (e - s) (drop s v)) at 3 4.
  rewrite !map_app, !list_sum_app, !length_app. lia.
Qed.

(** The two byte strings of a range decode to the range. *)
Lemma encode_range b s e :
  wf b -> delta_ok (block_ts b) -> values_ok b -> (s < e <= len b)%nat ->
  exists tb vb, encode b s e = Ok (tb, vb) /\ timestamp.decode tb [] = Ok (range s e (block_ts b)) /\
    decode_values (field_type b) (range s e (block_ts b)) vb = Ok (sub_block b s e).
Proof.
  intros (Hv & _ & Hn) Ht Hok Hse.
  destruct (delta_ok_range s e _ Ht) as [Ht1 Ht2].
  assert (length (range s e (block_ts b)) = (e - s)%nat) as Hl by (apply length_range; unfold len in *; lia).
  destruct (timestamp.timestamp_roundtrip (range s e (block_ts b)) [] Ht1) as (tb & Het & Hdt & _); [by rewrite Hl; Prelude.range|done|].
  destruct b as [i t v|i t v|i t v|i t v|i t v]; unfold len in *; cbn [block_ts val_len values_ok encode field_type decode_values] in *;
    rewrite (slice_ok t) by lia; fold (range s e t); run; rewrite Het; run;
    rewrite (slice_ok v) by lia; fold (range s e v); run.
  - destruct Hok as [Hu Ho]. destruct (unsigned.unsigned_roundtrip (range s e v) [] [] (length (range s e t)))
      as (vb & -> & Hd); [by apply Forall_range|apply range_nonempty; lia|rewrite length_range by lia; Prelude.range|
      rewrite !length_range; lia| |].
    { destruct Ho as [|Ho]; [by left|right]. revert Ho. unfold unsigned.u64_to_i64_vector, range.
      rewrite <- firstn_map, <- skipn_map. by apply Forall_adj_range. }
    run. eexists _, _. split_and!; [done|done|]. by rewrite Hd.
  - destruct (delta_ok_range s e _ Hok) as [H1 H2].
    destruct (integer.roundtrip (range s e v) [] H1) as (vb & -> & Hd & _); [rewrite length_range by lia; Prelude.range|done|].
    run. eexists _, _. split_and!; [done|done|]. by rewrite Hd.
  - destruct Hok as (H1 & H2 & H3). pose proof (source_size_range s e v) as Hle.
    destruct (string_codec.string_roundtrip (range s e v) [] []) as (vb & -> & Hd);
      [apply range_nonempty; lia|by apply Forall_range|by apply (max_compress_len_mono _ _ Hle H2)|lia|].
    run. eexists _, _. split_and!; [done|done|]. by rewrite Hd.
  - pose proof (range_nonempty s e v ltac:(lia)) as Hne.
    assert (Forall (fun x => is_u64 x /\ x <> float.SENTINEL) (range s e v)) as Hr by (by apply Forall_range).
    destruct (range s e v) as [|x r] eqn:Er; [done|]. inversion_clear Hr as [|? ? [Hx Hxs] Hr'].
    apply Forall_and in Hr' as [Hr1 Hr2].
    destruct (float.float_roundtrip x r [] [] Hx Hr1 Hr2 (fun _ => Hxs)) as (vb & -> & Hd).
    run. eexists _, _. split_and!; [done|done|]. rewrite Hd. cbn [map_err app]. run. cbn [sub_block]. by rewrite Er.
  - destruct (boolean.boolean_roundtrip (range s e v) [] []) as (vb & -> & Hd & _);
      [apply range_nonempty; lia|rewrite length_range; lia|].
    run. eexists _, _. split_and!; [done|done|]. by rewrite Hd.
Qed.

End blocks.
(** ** Blocks in a file *)

Section files.
Context {V : VarInt} {L : VarIntLaws V} {Sn : Snap} {SL : SnapLaws Sn} {P : BuildProfile}
  {PIO : PageIO} {Crc : Crc32}.

(** A cursor at the end of a file. *)
Definition eof (d : list Z) : Cursor := mkCursor d (length d).

Lemma write_eof d buf : bytes_file.write (eof d) buf = Ok (eof (d ++ buf)).
Proof.
  unfold bytes_file.write, eof. cbn [data at_]. rewrite length_app. f_equal. f_equal.
  unfold write_at. destruct (Nat.eqb_spec (length buf) 0) as [E|].
  { apply nil_length_inv in E as ->. by rewrite app_nil_r. }
  rewrite take_ge, drop_ge, app_nil_r by lia. by destruct (_ =? _)%nat.
Qed.

(** [data] holds the block [b] where [fb] says, with its time bounds. *)
Definition stored (data : list Z) (fb : FileBlock) (b : DataBlock) : Prop :=
  exists pre c1 tb c2 vb post,
    data = pre ++ (c1 ++ tb ++ c2 ++ vb) ++ post /\ length c1 = 4%nat /\ length c2 = 4%nat /\
    offset fb = Z.of_nat (length pre) /\ val_off fb = Z.of_nat (length pre + 4 + length tb) /\
    size fb = Z.of_nat (length tb + length vb + 8) /\ fb_type fb = field_type b /\ reader_idx fb = 0 /\
    head (block_ts b) = Some (min_ts fb) /\ last (block_ts b) = Some (max_ts fb) /\
    Forall is_i64 (block_ts b) /\ timestamp.decode tb [] = Ok (block_ts b) /\ decode_values (field_type b) (block_ts b) vb = Ok b /\
    wf b /\ block_index b = 0.

Lemma stored_app d ext fb b : stored d fb b -> stored (d ++ ext) fb b.
Proof.
  intros (pre & c1 & tb & c2 & vb & post & -> & Hrest).
  exists pre, c1, tb, c2, vb, (post ++ ext). split; [by rewrite <- !app_assoc|done].
Qed.

(** Decoding a stored block, whatever the position of the cursor. *)
Lemma decode_stored data p fb b :
  stored data fb b ->
  decode (mkCursor data p) fb = Ok (mkCursor data (Z.to_nat (offset fb + size fb)), b).
Proof.
  intros (pre & c1 & tb & c2 & vb & post & Hd & H1 & H2 & Ho & Hv & Hs & Ht & _ & _ & _ & _ & Hts & Hval & _).
  unfold decode, bytes_file.seek, cursor.seek_to. cbn [of_option]. run. cbn [map_err bytes_file.data at_].
  run. unfold read_into, bytes_file.read, read_at. cbn [bytes_file.data at_]. rewrite Ho, Hs, !Nat2Z.id.
  set (m := c1 ++ tb ++ c2 ++ vb) in *.
  assert (length m = (length tb + length vb + 8)%nat) as Hm by (unfold m; rewrite !length_app; lia).
  rewrite (proj2 (Nat.eqb_neq _ _)) by lia. rewrite (proj2 (Nat.leb_le _ _)) by (rewrite Hd, length_app; lia).
  run. rewrite Hd, drop_app_length, <- Hm, take_app_length. run. cbn [map_err]. run. rewrite Hm.
  rewrite drop_ge, app_nil_r by (rewrite length_replicate; lia).
  rewrite Hv. replace (Z.of_nat (length pre + 4 + length tb) - Z.of_nat (length pre) - 4) with
    (Z.of_nat (length tb)) by lia.
  rewrite (proj2 (Z.ltb_ge _ _)) by lia. rewrite Nat2Z.id. unfold m.
  rewrite slice_app_mid by lia. run. rewrite Hts. cbn [map_err]. run.
  rewrite (app_assoc c1), (app_assoc (c1 ++ tb)), slice_from_app by (rewrite !length_app; lia). run.
  rewrite Ht, Hval. run. do 3 f_equal. lia.
Qed.

(** ** The block writer *)

Lemma sub_block_facts b s e :
  wf b -> (s < e <= len b)%nat ->
  field_type (sub_block b s e) = field_type b /\ block_ts (sub_block b s e) = range s e (block_ts b) /\
  all_cells (sub_block b s e) = range s e (all_cells b) /\ wf (sub_block b s e) /\ block_index (sub_block b s e) = 0.
Proof.
  intros (Hv & _ & Hn) Hse. unfold wf, len in *.
  destruct b as [i t v|i t v|i t v|i t v|i t v];
    cbn [sub_block field_type block_ts all_cells val_len block_index] in *; unfold range;
    rewrite ?length_take, ?length_drop, ?zip_with_drop, ?zip_with_take; split_and!; done || lia.
Qed.

Lemma time_range_ok {E} b s e :
  (s < e <= len b)%nat ->
  exists lo hi, time_range (E := E) b s e = Ok (lo, hi) /\
    head (range s e (block_ts b)) = Some lo /\ last (range s e (block_ts b)) = Some hi.
Proof.
  intros Hse. unfold len in Hse. unfold time_range. destruct e as [|e]; [lia|].
  destruct (lookup_lt_is_Some_2 (block_ts b) s) as [lo Hlo]; [lia|].
  destruct (lookup_lt_is_Some_2 (block_ts b) e) as [hi Hhi]; [lia|].
  exists lo, hi. unfold get. rewrite Hlo, Hhi. cbn [unwrap]. run. split; [done|]. unfold range. split.
  - by rewrite head_lookup, lookup_take_lt, lookup_drop, Nat.add_0_r by lia.
  - rewrite last_lookup, length_take, length_drop.
    replace (Init.Nat.pred (Nat.min (S e - s) (length (block_ts b) - s))) with (e - s)%nat by lia.
    rewrite lookup_take_lt, lookup_drop by lia. by replace (s + (e - s))%nat with e by lia.
Qed.

(** The blocks the format can hold: well-formed, with values the codecs accept, a
    length that is not a multiple of the block size, and at most [u16::MAX]
    chunks. *)
Definition storable (b : DataBlock) : Prop :=
  wf b /\ delta_ok (block_ts b) /\ values_ok b /\ (len b mod MAX_BLOCK_VALUES <> 0)%nat /\
  Z.of_nat (len b / MAX_BLOCK_VALUES + 1) < 2 ^ 16.

(** The end of the chunk before [i]. *)
Definition chunk_start (b : DataBlock) (i : nat) : nat :=
  match i with O => O | S i' => (len b mod MAX_BLOCK_VALUES + i' * MAX_BLOCK_VALUES)%nat end.

Lemma chunk_bounds b i :
  (len b mod MAX_BLOCK_VALUES <> 0)%nat ->
  (chunk_start b i < len b mod MAX_BLOCK_VALUES + i * MAX_BLOCK_VALUES)%nat.
Proof. intros. destruct i as [|i]; cbn [chunk_start]; unfold MAX_BLOCK_VALUES in *; lia. Qed.

Lemma write_chunks_spec b : storable b -> forall k i d res,
  (len b + MAX_BLOCK_VALUES = len b mod MAX_BLOCK_VALUES + (i + k) * MAX_BLOCK_VALUES)%nat ->
  exists ext fbs subs,
    write_chunks k i (chunk_start b i) (eof d) b res = Ok (eof (d ++ ext), res ++ fbs) /\
    length fbs = k /\ Forall (fun fb => fb_type fb = field_type b) fbs /\
    Forall2 (stored (d ++ ext)) fbs subs /\
    concat (all_cells <$> subs) = range (chunk_start b i) (len b) (all_cells b).
Proof.
  intros (Hw & Ht & Hv & Hm & _). pose proof (length_all_cells b Hw) as Hlc.
  induction k as [|k IH]; intros i d res Hk.
  { exists [], [], []. cbn [write_chunks]. rewrite !app_nil_r. split_and!; [done|done|done|done|].
    pose proof (Nat.mod_upper_bound (len b) MAX_BLOCK_VALUES ltac:(done)).
    unfold range. destruct i as [|i]; cbn [chunk_start];
      (replace (len b - _)%nat with O by (unfold MAX_BLOCK_VALUES in *; lia)); done. }
  pose proof (chunk_bounds b i Hm) as Hlt. set (s := chunk_start b i) in *. cbn [write_chunks].
  set (e := (len b mod MAX_BLOCK_VALUES + i * MAX_BLOCK_VALUES)%nat) in *.
  assert (s < e <= len b)%nat as Hse by (unfold e, MAX_BLOCK_VALUES in *; lia).
  destruct (time_range_ok (E := tsm_error) b s e Hse) as (lo & hi & -> & Hlo & Hhi). run.
  destruct (encode_range b s e Hw Ht Hv Hse) as (tb & vb & -> & Htb & Hvb). cbn [map_err]. run.
  rewrite !write_eof. cbn [io_write_err map_err]. run. rewrite !write_eof. cbn [io_write_err map_err]. run.
  rewrite !write_eof. cbn [io_write_err map_err]. run. rewrite !write_eof. cbn [io_write_err map_err]. run.
  set (c1 := to_be_bytes 4 (crc32_hash tb)). set (c2 := to_be_bytes 4 (crc32_hash vb)).
  replace ((((d ++ c1) ++ tb) ++ c2) ++ vb) with (d ++ c1 ++ tb ++ c2 ++ vb) by (by rewrite <- !app_assoc).
  set (fb := mkFileBlock _ _ _ _ _ _ _).
  destruct (IH (S i) (d ++ c1 ++ tb ++ c2 ++ vb) (res ++ [fb])) as (ext & fbs & subs & He & Hl & Hty' & Hf & Hc); [lia|].
  fold e in He. change (chunk_start b (S i)) with e in He, Hc. rewrite He.
  exists ((c1 ++ tb ++ c2 ++ vb) ++ ext), (fb :: fbs), (sub_block b s e :: subs).
  destruct (sub_block_facts b s e Hw Hse) as (Hty & Hts & Hcells & Hws & Hi0).
  split_and!; [by rewrite <- !app_assoc|by cbn; rewrite Hl|by constructor| |].
  - rewrite app_assoc. constructor; [|done].
    exists d, c1, tb, c2, vb, ext. cbn [fb offset val_off size fb_type reader_idx min_ts max_ts].
    rewrite Hty, Hts. split_and!; try done; [by rewrite <- !app_assoc| |by apply Forall_range, Ht].
    unfold eof. cbn [at_]. rewrite !length_app. unfold c1. rewrite length_to_be_bytes. lia.
  - rewrite fmap_cons. cbn [concat]. rewrite Hc, Hcells. apply range_app. lia.
Qed.

(** What the writer leaves for a field. *)
Definition field_stored (data : list Z) (fbs : list FileBlock) (b : DataBlock) : Prop :=
  fbs <> [] /\ Z.of_nat (length fbs) < 2 ^ 16 /\
  exists subs, Forall2 (stored data) fbs subs /\ concat (all_cells <$> subs) = all_cells b /\
    Forall (fun fb => fb_type fb = field_type b) fbs.

Lemma write_one_spec b d :
  storable b -> exists ext fbs, write_one_to (eof d) b = Ok (eof (d ++ ext), fbs) /\
    field_stored (d ++ ext) fbs b.
Proof.
  intros Hs. pose proof Hs as (Hw & _ & _ & Hm & Hcnt). unfold write_one_to.
  pose proof (Nat.div_mod_eq (len b) MAX_BLOCK_VALUES) as Hdm.
  pose proof (Nat.mod_upper_bound (len b) MAX_BLOCK_VALUES ltac:(done)) as Hub.
  destruct (len b) as [|l] eqn:El; [done|].
  assert (l / MAX_BLOCK_VALUES = S l / MAX_BLOCK_VALUES)%nat as Hq.
  { symmetry. apply (Nat.div_unique _ _ _ (S l mod MAX_BLOCK_VALUES - 1)); lia. }
  rewrite Hq. set (n := (S l / MAX_BLOCK_VALUES)%nat) in *.
  destruct (write_chunks_spec b Hs (n + 1) 0 d []) as (ext & fbs & subs & He & Hl & Hty & Hf & Hc).
  { rewrite El. lia. }
  exists ext, fbs. cbn [chunk_start app] in He, Hc. split; [exact He|].
  split_and!; [by intros ->; cbn in Hl; lia|lia|]. exists subs. split_and!; [done| |done].
  rewrite Hc. unfold range. rewrite drop_0, Nat.sub_0_r, take_ge; [done|]. rewrite length_all_cells; done.
Qed.

Lemma field_stored_app d ext fbs b : field_stored d fbs b -> field_stored (d ++ ext) fbs b.
Proof.
  intros (H1 & H2 & subs & Hf & Hc & Ht). split_and!; [done|done|]. exists subs. split_and!; [|done|done].
  apply (Forall2_impl _ _ _ _ Hf). intros. by apply stored_app.
Qed.

Lemma write_fields_spec l : forall d res, Forall (fun p => storable p.2) l ->
  exists ext res', write_fields (eof d) l res = Ok (eof (d ++ ext), res') /\
    (forall fid, fid ∈ l.*1 -> is_Some (res' !! fid)) /\
    (forall fid, is_Some (res !! fid) -> is_Some (res' !! fid)) /\
    (forall fid fbs, res' !! fid = Some fbs ->
       res !! fid = Some fbs \/ exists b, (fid, b) ∈ l /\ field_stored (d ++ ext) fbs b).
Proof.
  induction l as [|[fid b] l IH]; intros d res Hs.
  { exists [], res. rewrite app_nil_r. split_and!; [done|by intros ? ?%elem_of_nil|done|by left]. }
  inversion_clear Hs as [|? ? Hb Hs']. cbn [write_fields].
  destruct (write_one_spec b d Hb) as (ext1 & fbs & -> & Hf). run.
  destruct (IH (d ++ ext1) (<[fid := fbs]> res) Hs') as (ext & res' & He & H1 & H2 & H3).
  exists (ext1 ++ ext), res'. rewrite He, app_assoc. split_and!; [done| | |].
  - intros fid' [->|Hin]%elem_of_cons; [|by apply H1]. apply H2. rewrite lookup_insert_eq. by eexists.
  - intros fid' Hin. apply H2. destruct (decide (fid = fid')) as [->|]; [rewrite lookup_insert_eq; by eexists|].
    by rewrite lookup_insert_ne.
  - intros fid' fbs' Hl. destruct (H3 _ _ Hl) as [Hr|(b' & Hin & Hst)].
    + destruct (decide (fid = fid')) as [->|]; [|by left; rewrite lookup_insert_ne in Hr].
      rewrite lookup_insert_eq in Hr. injection Hr as <-. right. exists b. split; [by left|].
      by apply field_stored_app.
    + right. exists b'. split; [by right|done].
Qed.

(** ** The index writer *)

(** The filter of a file: 64 bytes. *)
Definition filter_ok (f : bloom_filter.BloomFilter) : Prop :=
  bloom_filter.wf f /\ bloom_filter.bf_mask f = 511.

Lemma filter_length f : filter_ok f -> length (bloom_filter.bytes f) = 64%nat.
Proof.
  intros [(k & Hk & Hl & Hm) H511]. rewrite H511 in Hm.
  assert (k = 9) as -> by (apply (Z.pow_inj_r 2); lia). unfold bloom_filter.bytes. cbn in Hl. lia.
Qed.

Lemma insert_true f d :
  filter_ok f -> exists f', bloom_filter.insert f d = Ok f' /\ filter_ok f' /\
    bloom_filter.contains f' d = Ok true /\
    forall x, bloom_filter.contains f x = Ok true -> bloom_filter.contains f' x = Ok true.
Proof.
  intros [Hw Hm]. destruct (bloom_filter.insert_spec f d Hw) as (f' & He & Hw' & Hm' & Hc).
  exists f'. split_and!; [done|split; [done|congruence]| |].
  - destruct (Hc d) as (r & _ & ->). by rewrite Z.eqb_refl.
  - intros x Hx. destruct (Hc x) as (r & Hr & ->). rewrite Hx in Hr. injection Hr as <-. by rewrite orb_true_r.
Qed.

Lemma index_blocks_spec fid blks : forall buf f, filter_ok f ->
  exists f', index_blocks fid blks buf f = Ok (buf ++ concat (block_entry <$> blks), f') /\ filter_ok f' /\
    (blks <> [] -> bloom_filter.contains f' (to_be_bytes 8 fid) = Ok true) /\
    forall x, bloom_filter.contains f x = Ok true -> bloom_filter.contains f' x = Ok true.
Proof.
  induction blks as [|blk blks IH]; intros buf f Hf.
  { exists f. cbn. by rewrite app_nil_r. }
  cbn [index_blocks]. destruct (insert_true f (to_be_bytes 8 fid) Hf) as (f1 & -> & Hf1 & H1 & H2).
  cbn [map_err]. run. destruct (IH (buf ++ block_entry blk) f1 Hf1) as (f' & -> & Hf' & _ & H4).
  exists f'. rewrite fmap_cons. cbn [concat]. rewrite <- app_assoc. split_and!; [done|done|by intros _; apply H4|].
  intros x Hx. by apply H4, H2.
Qed.

Definition head_type (blks : list FileBlock) : ValueType :=
  match blks with blk :: _ => fb_type blk | [] => Unknown end.

Definition field_bytes (p : Z * list FileBlock) : list Z :=
  to_be_bytes 8 p.1 ++ (to_be_bytes 1 (to_u8 (head_type p.2)) ++ to_be_bytes 2 (u16 (Z.of_nat (length p.2)))) ++
  concat (block_entry <$> p.2).

Lemma index_fields_spec l : forall d f, filter_ok f -> Forall (fun p => p.2 <> []) l ->
  exists f', index_fields (eof d) l f = Ok (eof (d ++ concat (field_bytes <$> l)), f') /\ filter_ok f' /\
    (forall fid, fid ∈ l.*1 -> bloom_filter.contains f' (to_be_bytes 8 fid) = Ok true) /\
    forall x, bloom_filter.contains f x = Ok true -> bloom_filter.contains f' x = Ok true.
Proof.
  induction l as [|[fid blks] l IH]; intros d f Hf Hne.
  { exists f. cbn. rewrite app_nil_r. split_and!; [done|done|by intros ? ?%elem_of_nil|done]. }
  inversion_clear Hne as [|? ? Hb Hl]. destruct blks as [|blk blks]; [done|].
  cbn [index_fields head unwrap]. run. set (blks' := blk :: blks) in *.
  set (hdr := to_be_bytes 8 fid ++ _).
  destruct (index_blocks_spec fid blks' hdr f Hf) as (f1 & -> & Hf1 & H1 & H2). run.
  rewrite write_eof. cbn [io_write_err map_err]. run.
  destruct (IH (d ++ hdr ++ concat (block_entry <$> blks')) f1 Hf1 Hl) as (f' & -> & Hf' & H3 & H4).
  exists f'. rewrite fmap_cons. cbn [concat]. split_and!; [|done| |].
  - do 3 f_equal. unfold field_bytes, hdr. cbn [fst snd head_type blks']. by rewrite <- !app_assoc.
  - intros fid' [->|Hin]%elem_of_cons; [by apply H4, H1|by apply H3].
  - intros x Hx. by apply H4, H2.
Qed.

(** ** The index iterator *)

Lemma length_block_entry blk : length (block_entry blk) = 40%nat.
Proof. unfold block_entry. by rewrite !length_app, !length_to_be_bytes. Qed.

Lemma length_block_entries blks : length (concat (block_entry <$> blks)) = (40 * length blks)%nat.
Proof.
  induction blks as [|blk blks IH]; [done|]. rewrite fmap_cons. cbn [concat length].
  rewrite length_app, length_block_entry, IH. lia.
Qed.

Lemma length_field_bytes p : length (field_bytes p) = (11 + 40 * length p.2)%nat.
Proof. unfold field_bytes. rewrite !length_app, !length_to_be_bytes, length_block_entries. lia. Qed.

Section index.
Context (data : list Z) (e : Z) (Hfits : Z.of_nat (length data) < Prelude.U64).

(** A reader at position [p]: its offset follows the cursor. *)
Definition at_pos (p : nat) (buf : list Z) (c : option IndexEntry) : TsmIndexReader :=
  mkTsmIndexReader (mkCursor data p) buf (Z.of_nat p) e c.

Lemma drop_prefix p bs rest :
  drop p data = bs ++ rest -> bs <> [] ->
  (p + length bs <= length data)%nat /\ drop (p + length bs) data = rest.
Proof.
  intros Hd Hne. split.
  - apply (f_equal length) in Hd. rewrite length_drop, length_app in Hd. destruct bs; [done|].
    cbn [length] in *. lia.
  - by rewrite <- drop_drop, Hd, drop_app_length.
Qed.

Lemma read_buf_spec p buf c bs rest :
  drop p data = bs ++ rest -> bs <> [] -> length buf = 8%nat -> (length bs <= 8)%nat ->
  read_buf (at_pos p buf c) (length bs) = Ok (at_pos (p + length bs) (bs ++ drop (length bs) buf) c) /\
  drop (p + length bs) data = rest /\ length (bs ++ drop (length bs) buf) = 8%nat.
Proof.
  intros Hd Hne Hb Hl. destruct (drop_prefix p bs rest Hd Hne) as [Hle Hrest].
  split_and!; [|done|rewrite length_app, length_drop; lia].
  unfold read_buf, at_pos, read_into, bytes_file.read, read_at. cbn [r_ buf_ curr_offset end_offset curr bytes_file.data at_].
  rewrite (proj2 (Nat.eqb_neq _ _)) by (destruct bs; [done|cbn; lia]).
  rewrite (proj2 (Nat.leb_le _ _)) by lia. run. rewrite Hd, take_app_length. cbn [io_read_err map_err]. run.
  rewrite add_u64_ok by Prelude.range. run. do 2 f_equal. lia.
Qed.

(** Reading an eight-byte number. *)
Lemma read_u64_spec p buf c v rest :
  drop p data = to_be_bytes 8 v ++ rest -> length buf = 8%nat ->
  read_buf (at_pos p buf c) 8 = Ok (at_pos (p + 8) (to_be_bytes 8 v) c) /\ drop (p + 8) data = rest.
Proof.
  intros Hd Hb. destruct (read_buf_spec p buf c (to_be_bytes 8 v) rest Hd) as (H1 & H2 & _);
    rewrite ?length_to_be_bytes in *; try done; try lia.
  rewrite H1, drop_ge, app_nil_r by lia. done.
Qed.

(** The numbers of an index entry fit their fields. *)
Definition block_ok (ft : ValueType) (blk : FileBlock) : Prop :=
  is_i64 (min_ts blk) /\ is_i64 (max_ts blk) /\ is_u64 (offset blk) /\ is_u64 (size blk) /\
  is_u64 (val_off blk) /\ fb_type blk = ft /\ reader_idx blk = 0.

Lemma from_be_i64 v : is_i64 v -> i64 (from_be_bytes (to_be_bytes 8 v)) = v.
Proof.
  intros Hv. unfold from_be_bytes, to_be_bytes. rewrite rev_involutive, from_to_le_bytes.
  change (256 ^ Z.of_nat 8) with Prelude.U64. by apply u64_of_i64_inj.
Qed.

Lemma next_block_spec p buf c ft blk rest :
  drop p data = block_entry blk ++ rest -> length buf = 8%nat -> block_ok ft blk ->
  exists buf', next_block_entry (at_pos p buf c) ft = Ok (at_pos (p + 40) buf' c, blk) /\
    length buf' = 8%nat /\ drop (p + 40) data = rest.
Proof.
  intros Hd Hb (H1 & H2 & H3 & H4 & H5 & H6 & H7). unfold block_entry in Hd. rewrite <- !app_assoc in Hd.
  unfold next_block_entry.
  destruct (read_u64_spec p buf c _ _ Hd Hb) as [-> Hd1]. run.
  destruct (read_u64_spec _ (to_be_bytes 8 (min_ts blk)) c _ _ Hd1) as [-> Hd2]; [apply length_to_be_bytes|]. run.
  destruct (read_u64_spec _ (to_be_bytes 8 (max_ts blk)) c _ _ Hd2) as [-> Hd3]; [apply length_to_be_bytes|]. run.
  destruct (read_u64_spec _ (to_be_bytes 8 (offset blk)) c _ _ Hd3) as [-> Hd4]; [apply length_to_be_bytes|]. run.
  destruct (read_u64_spec _ (to_be_bytes 8 (size blk)) c _ _ Hd4) as [-> Hd5]; [apply length_to_be_bytes|]. run.
  unfold at_pos. cbn [buf_]. rewrite !from_be_i64, !from_to_be_bytes_u64 by done.
  replace (p + 8 + 8 + 8 + 8 + 8)%nat with (p + 40)%nat in * by lia.
  exists (to_be_bytes 8 (val_off blk)). split_and!; [|apply length_to_be_bytes|done].
  destruct blk as [? ? ? ? ? ? ?]. cbn [fb_type reader_idx] in *. by subst.
Qed.

Lemma next_index_spec p buf c fid blks blk rest :
  drop p data = field_bytes (fid, blk :: blks) ++ rest -> length buf = 8%nat ->
  Forall (block_ok (fb_type blk)) (blk :: blks) -> Z.of_nat (length (blk :: blks)) < 2 ^ 16 ->
  exists buf', next_index_entry (at_pos p buf c) =
      Ok (at_pos (p + 51) buf' c, mkIndexEntry (to_be_bytes 8 fid) (fb_type blk)
            (Z.of_nat (length (blk :: blks))) blk 1) /\
    length buf' = 8%nat /\ drop (p + 51) data = concat (block_entry <$> blks) ++ rest.
Proof.
  intros Hd Hb Hok Hcnt. inversion_clear Hok as [|? ? Hblk _].
  unfold field_bytes in Hd. cbn [fst snd head_type] in Hd. rewrite fmap_cons in Hd. cbn [concat] in Hd.
  set (n := Z.of_nat (length (blk :: blks))) in *.
  assert (u16 n = n) as Hn by (unfold u16; apply Z.mod_small; lia). rewrite Hn in Hd.
  rewrite <- !app_assoc in Hd. unfold next_index_entry.
  destruct (read_u64_spec p buf c _ _ Hd Hb) as [-> Hd1]. run.
  rewrite (app_assoc (to_be_bytes 1 _)) in Hd1.
  destruct (read_buf_spec _ (to_be_bytes 8 fid) c _ _ Hd1) as (H1 & Hd2 & Hl2);
    [done|apply length_to_be_bytes|rewrite length_app, !length_to_be_bytes; lia|].
  assert (length (to_be_bytes 1 (to_u8 (fb_type blk)) ++ to_be_bytes 2 n) = 3%nat) as E3
    by (by rewrite length_app, !length_to_be_bytes).
  rewrite E3 in H1, Hd2, Hl2. rewrite H1. run.
  cbn [at_pos buf_]. rewrite <- (app_assoc (to_be_bytes 1 _)).
  assert (forall l, get (E := tsm_error) (to_be_bytes 1 (to_u8 (fb_type blk)) ++ l) 0 = Ok (to_u8 (fb_type blk)))
    as Hget by (intros l; by destruct (fb_type blk)).
  rewrite Hget. run. rewrite slice_app_mid by (by rewrite !length_to_be_bytes). run.
  rewrite <- (app_nil_r (to_be_bytes 2 n)). destruct (byte_utils.byte_utils_read n []) as [Hrd _].
  rewrite Hrd by Prelude.range. cbn [unwrap]. run. rewrite from_to_u8, app_nil_r.
  rewrite <- (app_assoc (to_be_bytes 1 _)) in Hl2.
  destruct (next_block_spec _ _ c _ blk _ Hd2 Hl2 Hblk) as (buf' & -> & Hb' & Hd3). run.
  replace (p + 8 + 3 + 40)%nat with (p + 51)%nat in * by lia.
  exists buf'. split_and!; [|done|done]. by rewrite take_ge by (by rewrite length_to_be_bytes).
Qed.

(** The entries of the blocks of a field from the [k]-th on. *)
Fixpoint entries_from (key : list Z) (ft : ValueType) (cnt k : Z) (blks : list FileBlock) : list IndexEntry :=
  match blks with
  | [] => []
  | blk :: blks' => mkIndexEntry key ft cnt blk k :: entries_from key ft cnt (k + 1) blks'
  end.

Definition field_entries (p : Z * list FileBlock) : list IndexEntry :=
  entries_from (to_be_bytes 8 p.1) (head_type p.2) (Z.of_nat (length p.2)) 1 p.2.

(** The iterator after an entry whose [k]-th block it returned. *)
Lemma collect_blocks blks : forall p buf c k rest fuel,
  drop p data = concat (block_entry <$> blks) ++ rest -> length buf = 8%nat ->
  Forall (block_ok (block_type c)) blks -> curr_block c = k -> count c = k + Z.of_nat (length blks) ->
  Z.of_nat (p + 40 * length blks) <= e ->
  exists buf' c', length buf' = 8%nat /\ count c' = curr_block c' /\
    drop (p + 40 * length blks) data = rest /\
    collect (length blks + fuel) (at_pos p buf (Some c)) =
    (es ← collect fuel (at_pos (p + 40 * length blks) buf' (Some c'));
     Ok (entries_from (key c) (block_type c) (count c) (k + 1) blks ++ es)).
Proof.
  induction blks as [|blk blks IH]; intros p buf c k rest fuel Hd Hb Hok Hk Hcnt He.
  { exists buf, c. rewrite Nat.mul_0_r, Nat.add_0_r. cbn [length] in Hcnt. split_and!; [done|lia|done|].
    cbn [length Nat.add entries_from app]. by destruct (collect fuel _). }
  inversion_clear Hok as [|? ? Hblk Hok']. rewrite fmap_cons in Hd. cbn [concat] in Hd. rewrite <- app_assoc in Hd.
  cbn [length] in *. cbn [Nat.add collect]. unfold next at 1. cbn [at_pos curr_offset end_offset curr].
  rewrite (proj2 (Z.eqb_neq _ _)) by lia. rewrite (proj2 (Z.ltb_lt _ _)) by lia.
  fold (at_pos p buf (Some c)).
  destruct (next_block_spec p buf (Some c) _ blk _ Hd Hb Hblk) as (buf1 & -> & Hb1 & Hd1). run.
  set (c1 := mkIndexEntry (key c) (block_type c) (count c) blk (curr_block c + 1)).
  cbn [at_pos r_ buf_ curr_offset end_offset]. fold (at_pos (p + 40) buf1 (Some c1)).
  destruct (IH (p + 40)%nat buf1 c1 (k + 1) rest fuel) as (buf' & c' & H1 & H2 & H3 & H4);
    try done; [cbn; lia|cbn [count c1]; lia|lia|].
  replace (p + 40 * S (length blks))%nat with (p + 40 + 40 * length blks)%nat in * by lia.
  exists buf', c'. split_and!; [done|done|done|]. rewrite H4.
  cbn [entries_from]. subst k. unfold c1. cbn [key block_type count].
  destruct (collect fuel _); reflexivity.
Qed.

Definition field_ok (p : Z * list FileBlock) : Prop :=
  p.2 <> [] /\ Z.of_nat (length p.2) < 2 ^ 16 /\ Forall (block_ok (head_type p.2)) p.2.

Definition finished (c : option IndexEntry) : Prop :=
  match c with Some c => count c = curr_block c | None => True end.

Lemma length_entries_from key ft cnt k blks : length (entries_from key ft cnt k blks) = length blks.
Proof. revert k. induction blks as [|blk blks IH]; intros k; cbn; [done|by rewrite IH]. Qed.

(** The first step of a field, from an entry that has no more blocks. *)
Lemma collect_first p buf c fuel :
  finished c -> Z.of_nat p <> e ->
  collect (S fuel) (at_pos p buf c) =
  ('(s, en) ← next_index_entry (at_pos p buf c);
   es ← collect fuel (mkTsmIndexReader (r_ s) (buf_ s) (curr_offset s) (end_offset s) (Some en));
   Ok (en :: es)).
Proof.
  intros Hc He. cbn [collect]. unfold next at 1. cbn [at_pos curr_offset end_offset curr].
  rewrite (proj2 (Z.eqb_neq _ _)) by done. fold (at_pos p buf c).
  assert ((match c with
      | Some c0 => if curr_block c0 <? count c0 then
            '(s, b) ← next_block_entry (at_pos p buf c) (block_type c0);
            Ok (s, mkIndexEntry (key c0) (block_type c0) (count c0) b (curr_block c0 + 1))
          else next_index_entry (at_pos p buf c)
      | None => next_index_entry (at_pos p buf c) end) = next_index_entry (at_pos p buf c)) as ->.
  { destruct c as [c|]; [|done]. by rewrite (proj2 (Z.ltb_ge _ _)) by (cbn in Hc; lia). }
  destruct (next_index_entry (at_pos p buf c)) as [[s en]| | |]; done.
Qed.

Lemma collect_fields l : forall p buf c rest fuel,
  drop p data = concat (field_bytes <$> l) ++ rest -> length buf = 8%nat -> finished c ->
  Forall field_ok l -> Z.of_nat (p + length (concat (field_bytes <$> l))) = e ->
  (length (concat (field_entries <$> l)) < fuel)%nat ->
  collect fuel (at_pos p buf c) = Ok (concat (field_entries <$> l)).
Proof.
  induction l as [|[fid blks] l IH]; intros p buf c rest fuel Hd Hb Hc Hok He Hf.
  { destruct fuel as [|fuel]; [cbn in Hf; lia|]. cbn [collect]. unfold next. cbn [at_pos curr_offset end_offset].
    rewrite Nat.add_0_r in He. by rewrite (proj2 (Z.eqb_eq _ _)). }
  inversion_clear Hok as [|? ? (Hne & Hcnt & Hblk) Hok']. cbn [snd] in *. destruct blks as [|blk blks]; [done|].
  rewrite fmap_cons in Hd. rewrite fmap_cons in He. rewrite fmap_cons in Hf. rewrite fmap_cons.
  cbn [concat] in *. rewrite <- app_assoc in Hd.
  rewrite length_app, length_field_bytes in He. rewrite length_app in Hf. cbn [snd length] in He.
  unfold field_entries in Hf at 1. rewrite length_entries_from in Hf. cbn [snd length] in Hf.
  destruct fuel as [|fuel]; [lia|]. rewrite collect_first by (done || lia).
  destruct (next_index_spec p buf c fid blks blk _ Hd Hb Hblk Hcnt) as (buf1 & -> & Hb1 & Hd1). run.
  cbn [at_pos r_ buf_ curr_offset end_offset].
  set (c1 := mkIndexEntry _ _ _ _ _). fold (at_pos (p + 51) buf1 (Some c1)).
  inversion_clear Hblk as [|? ? _ Hblk'].
  destruct (collect_blocks blks (p + 51)%nat buf1 c1 1 _ (fuel - length blks) Hd1 Hb1)
    as (buf' & c' & H1 & H2 & H3 & H4); try done; [cbn [count c1 length]; lia|lia|].
  replace (length blks + (fuel - length blks))%nat with fuel in H4 by lia. rewrite H4.
  rewrite (IH _ buf' (Some c') _ _ H3 H1 H2 Hok'); [done|lia|lia].
Qed.

End index.
(** ** Looking up a field *)

Definition entries_of (fid : Z) (es : list IndexEntry) : list IndexEntry :=
  base.filter (fun e => field_id e = Some fid) es.

Lemma entries_of_field fid fid' ft cnt k blks :
  is_u64 fid' ->
  entries_of fid (entries_from (to_be_bytes 8 fid') ft cnt k blks) =
  if decide (fid = fid') then entries_from (to_be_bytes 8 fid') ft cnt k blks else [].
Proof.
  intros Hf. revert k. induction blks as [|blk blks IH]; intros k; [by destruct (decide _)|].
  unfold entries_of in *. cbn [entries_from].
  assert (field_id (mkIndexEntry (to_be_bytes 8 fid') ft cnt blk k) = Some fid') as Hid.
  { unfold field_id. cbn [key]. rewrite take_ge by (by rewrite length_to_be_bytes).
    rewrite <- (app_nil_r (to_be_bytes 8 fid')). by apply byte_utils.read_be_spec. }
  destruct (decide (fid = fid')) as [->|Hne].
  - by rewrite filter_cons_True, IH.
  - rewrite filter_cons_False, IH; [done|]. rewrite Hid. congruence.
Qed.

Lemma field_id_entries fid ft cnt k blks e :
  e ∈ entries_from (to_be_bytes 8 fid) ft cnt k blks -> is_u64 fid -> field_id e = Some fid.
Proof.
  intros Hin Hf. pose proof (entries_of_field fid fid ft cnt k blks Hf) as He.
  rewrite decide_True in He by done. rewrite <- He in Hin. unfold entries_of in Hin.
  by apply list_elem_of_filter in Hin as [? _].
Qed.

Lemma entries_of_app fid a b : entries_of fid (a ++ b) = entries_of fid a ++ entries_of fid b.
Proof. apply filter_app. Qed.

Lemma entries_of_concat l fid blks :
  NoDup l.*1 -> Forall (fun p => is_u64 p.1) l -> (fid, blks) ∈ l ->
  entries_of fid (concat (field_entries <$> l)) = field_entries (fid, blks).
Proof.
  assert (forall l, Forall (fun p => is_u64 p.1) l -> fid ∉ l.*1 ->
    entries_of fid (concat (field_entries <$> l)) = []) as Hnone.
  { induction 1 as [|[fid' blks'] l' Hu _ IH]; intros Hn; [done|]. rewrite fmap_cons in Hn. rewrite fmap_cons. cbn [concat].
    apply not_elem_of_cons in Hn as [Hne Hn]. rewrite entries_of_app, IH, app_nil_r by done.
    unfold field_entries. cbn [fst snd]. rewrite entries_of_field by done.
    by rewrite decide_False. }
  intros Hnd Hu Hin. induction l as [|[fid' blks'] l IH]; [by apply elem_of_nil in Hin|].
  rewrite fmap_cons in Hnd. apply NoDup_cons in Hnd as [Hni Hnd]. inversion_clear Hu as [|? ? Hu1 Hu2].
  rewrite fmap_cons. cbn [concat]. rewrite entries_of_app.
  unfold field_entries at 1. cbn [fst snd]. rewrite entries_of_field by done.
  apply elem_of_cons in Hin as [[= -> ->]|Hin].
  - rewrite decide_True by done. rewrite (Hnone l Hu2 Hni). by rewrite app_nil_r.
  - rewrite decide_False.
    + by rewrite (IH Hnd Hu2 Hin).
    + intros ->. apply Hni. apply list_elem_of_fmap. by exists (fid', blks).
Qed.

(** Decoding the entries of a field. *)
Definition decodes (data : list Z) (en : IndexEntry) (b : DataBlock) : Prop :=
  (forall p, exists r, decode (mkCursor data p) (fblock en) = Ok (r, b) /\ bytes_file.data r = data) /\
  wf b /\ block_index b = 0.

Lemma decode_entries data key ft cnt k fbs subs :
  Forall2 (stored data) fbs subs -> Forall2 (decodes data) (entries_from key ft cnt k fbs) subs.
Proof.
  intros H. revert k. induction H as [|fb b fbs subs Hs _ IH]; intros k; constructor; [|apply IH].
  split; [intros p; eexists; split; [by apply decode_stored|done]|].
  by destruct Hs as (? & ? & ? & ? & ? & ? & _ & _ & _ & _ & _ & _ & _ & _ & _ & _ & _ & _ & _ & ?).
Qed.

(** The cells [read_blocks] selects. *)
Definition in_window (r : time_range.TimeRange) (d : memcache.DataType) : Prop :=
  time_range.min_ts r < memcache.timestamp d < time_range.max_ts r.

#[global] Instance in_window_dec r d : Decision (in_window r d).
Proof. unfold in_window. apply _. Defined.

Lemma select_ok r fuel : forall b, wf b -> (length (cells b) < fuel)%nat ->
  select fuel b r = Ok (base.filter (in_window r) (cells b)).
Proof.
  induction fuel as [|fuel IH]; intros b Hw Hl; [lia|]. cbn [select].
  destruct (next_spec (E := tsm_error) b Hw) as (b' & -> & Hw' & Hc & _). run.
  destruct (cells b) as [|d l]; [done|]. cbn [head tail] in *. rewrite IH by (rewrite ?Hc; cbn in *; done || lia). run.
  rewrite Hc, filter_cons.
  destruct (Z.ltb_spec (time_range.min_ts r) (memcache.timestamp d)), (Z.ltb_spec (memcache.timestamp d) (time_range.max_ts r));
    cbn [andb]; case_decide as Hin; done || (unfold in_window in Hin; lia).
Qed.

Lemma read_blocks_ok file r es chunks : Forall2 (decodes file) es chunks -> forall p,
  exists c, read_blocks (mkCursor file p) (fblock <$> es) r =
    Ok (c, base.filter (in_window r) (concat (all_cells <$> chunks))).
Proof.
  induction 1 as [|en b es chunks (Hd & Hw & Hi) _ IH]; intros p; [by eexists|].
  rewrite !fmap_cons. cbn [read_blocks concat]. destruct (Hd p) as (c & -> & Hdata). run.
  assert (cells b = all_cells b) as Hc by (unfold cells; by rewrite Hi).
  rewrite select_ok by (rewrite ?Hc, ?length_all_cells; done || lia). run.
  destruct c as [d q]. cbn [bytes_file.data] in Hdata. subst d. destruct (IH q) as (c & ->). run.
  eexists. by rewrite filter_app, Hc.
Qed.

Lemma stored_block_ok data fb b ft :
  stored data fb b -> fb_type fb = ft -> Z.of_nat (length data) < Prelude.U64 -> block_ok ft fb.
Proof.
  intros (pre & c1 & tb & c2 & vb & post & -> & H1 & H2 & Ho & Hv & Hs & _ & Hr & Hlo & Hhi & Hi & _) Hft Hl.
  rewrite !length_app in Hl. rewrite Forall_forall in Hi.
  split_and!; try done; try (rewrite ?Ho, ?Hv, ?Hs; Prelude.range).
  - apply Hi. destruct (block_ts b); [done|]. injection Hlo as ->. by left.
  - apply Hi. by apply last_Some_elem_of.
Qed.

(** ** The whole file *)

Context {HO : HashOrder}.

(** The layout of a file. *)
Lemma build_spec (bs : gmap Z DataBlock) :
  map_Forall (fun _ b => storable b) bs ->
  exists d index f,
    build_tsm_file bs =
      Ok (eof (d ++ concat (field_bytes <$> iter index) ++ bloom_filter.bytes f ++ to_be_bytes 8 (Z.of_nat (length d)))) /\
    filter_ok f /\
    (forall fid, is_Some (index !! fid) -> bloom_filter.contains f (to_be_bytes 8 fid) = Ok true) /\
    (forall fid, is_Some (bs !! fid) -> is_Some (index !! fid)) /\
    (forall fid fbs, index !! fid = Some fbs -> exists b, bs !! fid = Some b /\ field_stored d fbs b).
Proof.
  intros Hs. unfold build_tsm_file, build_tsm_file_on, write_header. change (mkCursor [] 0) with (eof []).
  rewrite write_eof. cbn [io_write_err map_err]. run. rewrite write_eof. cbn [io_write_err map_err]. run.
  set (hdr := ([] ++ _) ++ _). unfold write_blocks.
  destruct (write_fields_spec (iter bs) hdr ∅) as (ext & index & -> & H1 & _ & H3).
  { apply (iter_Forall (fun _ b => storable b)). intros k b Hb. by apply (Hs k b). }
  run. set (d := hdr ++ ext) in *.
  assert (forall fid fbs, index !! fid = Some fbs -> exists b, bs !! fid = Some b /\ field_stored d fbs b) as Hidx.
  { intros fid fbs Hf. destruct (H3 fid fbs Hf) as [Hf'|(b & Hb%elem_of_iter & Hst)]; [done|by exists b]. }
  unfold write_index.
  assert (exists f0, new_bloom_filter = Ok f0 /\ filter_ok f0) as (f0 & -> & Hf0).
  { eexists. split; [vm_compute; reflexivity|]. split; [|reflexivity]. exists 9. split; [lia|]. done. }
  cbn [map_err]. run.
  destruct (index_fields_spec (iter index) d f0 Hf0) as (f & -> & Hf & Hin & _).
  { apply (iter_Forall (fun _ fbs => fbs <> [])). intros k fbs Hk. destruct (Hidx k fbs Hk) as (b & _ & Hne & _). done. }
  run. unfold write_footer. rewrite write_eof. cbn [io_write_err map_err]. run.
  rewrite write_eof. cbn [io_write_err map_err]. exists d, index, f.
  split_and!; [by rewrite <- !app_assoc|done| | |done].
  - intros fid [fbs Hfid]. apply Hin. apply list_elem_of_fmap. exists (fid, fbs). split; [done|by apply elem_of_iter].
  - intros fid [b Hb]. apply H1. apply list_elem_of_fmap. exists (fid, b). split; [done|by apply elem_of_iter].
Qed.

(** Opening a file that ends with a 64-byte filter and the offset of its index. *)
Lemma try_new_spec d idx fb p :
  length fb = 64%nat ->
  let data := d ++ idx ++ fb ++ to_be_bytes 8 (Z.of_nat (length d)) in
  Z.of_nat (length data) < Prelude.U64 ->
  exists buf, length buf = 8%nat /\ try_new (mkCursor data p) (Z.of_nat (length data)) =
    Ok (at_pos data (Z.of_nat (length d + length idx)) (length d) buf None).
Proof.
  intros Hfb data Hl.
  assert (length data = (length d + length idx + 64 + 8)%nat) as Hlen.
  { unfold data. rewrite !length_app, length_to_be_bytes. lia. }
  unfold try_new, bytes_file.seek, cursor.seek_to, cursor.move_by. cbn [bytes_file.data at_].
  change (0 <=? -8) with false. change (-8 =? i64_MIN) with false. rewrite andb_false_r. cbv iota. run.
  change (u64 (- -8)) with 8. unfold cursor.checked_sub. rewrite (proj2 (Z.leb_le _ _)) by lia.
  cbn [of_option]. run. cbn [io_read_err map_err]. run.
  unfold read_into, bytes_file.read, read_at. cbn [bytes_file.data at_ Nat.eqb]. cbv iota.
  rewrite (proj2 (Nat.leb_le _ _)) by lia. run.
  replace (Z.to_nat (Z.of_nat (length data) - 8)) with (length (d ++ idx ++ fb)) by (rewrite !length_app; lia).
  assert (drop (length (d ++ idx ++ fb)) data = to_be_bytes 8 (Z.of_nat (length d))) as ->.
  { unfold data. rewrite (app_assoc idx fb _), (app_assoc d (idx ++ fb) _). apply drop_app_length. }
  rewrite take_ge by (by rewrite length_to_be_bytes). rewrite length_to_be_bytes.
  cbn [io_read_err map_err]. run. cbn [bytes_file.data at_ of_option].
  change (drop 8 (replicate 8 0)) with (@nil Z). rewrite app_nil_r.
  rewrite from_to_be_bytes_u64 by Prelude.range. run. rewrite Nat2Z.id. cbn [io_read_err map_err]. run.
  unfold sub_u64, FOOTER_SIZE, BLOOM_FILTER_SIZE. rewrite (proj2 (Z.ltb_ge _ _)), andb_false_r by lia. run.
  rewrite u64_id by Prelude.range. eexists. split; [|unfold at_pos; do 2 f_equal; lia].
  apply length_to_be_bytes.
Qed.

(** The fields of the index are in order. *)
Lemma index_ok (bs : gmap Z DataBlock) d rest index :
  Z.of_nat (length (d ++ rest)) < Prelude.U64 ->
  (forall fid fbs, index !! fid = Some fbs -> exists b, bs !! fid = Some b /\ field_stored d fbs b) ->
  Forall field_ok (iter index).
Proof.
  intros Hl Hidx. apply (iter_Forall (fun k fbs => field_ok (k, fbs))). intros fid fbs Hf.
  destruct (Hidx fid fbs Hf) as (b & _ & Hne & Hcnt & subs & Hst & _ & Hty). split_and!; [done|done|].
  cbn [snd]. apply Forall_lookup_2. intros i fb Hi. destruct (Forall2_lookup_l _ _ _ _ _ Hst Hi) as (sb & _ & Hsb).
  apply (stored_block_ok d fb sb); [done| |rewrite length_app in Hl; lia].
  rewrite Forall_forall in Hty. rewrite (Hty fb) by (by apply list_elem_of_lookup_2 in Hi).
  destruct fbs as [|fb0 fbs]; [done|]. symmetry. apply Hty. by left.
Qed.

Lemma length_field_entries (l : list (Z * list FileBlock)) :
  (length (concat (field_entries <$> l)) <= length (concat (field_bytes <$> l)))%nat.
Proof.
  induction l as [|[fid blks] l IH]; [done|]. rewrite !fmap_cons. cbn [concat]. rewrite !length_app.
  rewrite length_field_bytes. unfold field_entries at 1. rewrite length_entries_from. cbn [snd] in *. lia.
Qed.

(** The file and what its readers find. *)
Lemma tsm_file_ok (bs : gmap Z DataBlock) :
  map_Forall (fun fid b => is_u64 fid /\ storable b) bs ->
  exists c, build_tsm_file bs = Ok c /\
    let file := bytes_file.data c in
    (Z.of_nat (length file) < Prelude.U64 ->
     exists r entries,
       try_new (mkCursor file 0) (Z.of_nat (length file)) = Ok r /\
       collect (S (length file)) r = Ok entries /\
       (forall e, e ∈ entries -> exists fid, field_id e = Some fid /\ is_Some (bs !! fid)) /\
       (forall fid b, bs !! fid = Some b -> exists chunks,
          Forall2 (decodes file) (entries_of fid entries) chunks /\
          concat (all_cells <$> chunks) = all_cells b) /\
       exists bloom, bloom_filter.with_data (take 64 (drop (length file - 72) file)) = Ok bloom /\
         forall fid, is_Some (bs !! fid) -> bloom_filter.contains bloom (to_be_bytes 8 fid) = Ok true).
Proof.
  intros Hs. destruct (build_spec bs) as (d & index & f & Hb & Hf & Hbloom & Hdom & Hidx).
  { intros k b Hk. by apply (Hs k b). }
  eexists. split; [exact Hb|]. cbn [bytes_file.data eof]. intros Hl.
  pose proof (filter_length f Hf) as Hfl.
  destruct (try_new_spec d (concat (field_bytes <$> iter index)) (bloom_filter.bytes f) 0 Hfl Hl) as (buf & Hbuf & Hnew).
  set (file := d ++ _) in *.
  pose proof (index_ok bs d _ index Hl Hidx) as Hok.
  exists (at_pos file (Z.of_nat (length d + length (concat (field_bytes <$> iter index)))) (length d) buf None),
    (concat (field_entries <$> iter index)).
  split_and!; [exact Hnew| | | |].
  - apply (collect_fields file _ Hl _ _ _ _ _ _ (drop_app_length d _)); [done|done|done|lia|].
    pose proof (length_field_entries (iter index)). unfold file. rewrite !length_app. lia.
  - intros en (es & ([fid fbs] & -> & Hin)%list_elem_of_fmap & Hen)%elem_of_concat.
    apply elem_of_iter in Hin. destruct (Hidx fid fbs Hin) as (b & Hbs & _). exists fid. split; [|by exists b].
    apply (field_id_entries _ _ _ _ _ en) in Hen; [done|]. by apply (Hs fid b).
  - intros fid b Hbs. destruct (Hdom fid) as [fbs Hfbs]; [by exists b|].
    destruct (Hidx fid fbs Hfbs) as (b' & Hbs' & _ & _ & subs & Hst & Hc & _).
    rewrite Hbs in Hbs'. injection Hbs' as <-. exists subs. split; [|done].
    rewrite (entries_of_concat (iter index) fid fbs); [|apply iter_NoDup| |by apply elem_of_iter].
    + apply decode_entries. apply (Forall2_impl _ _ _ _ Hst). intros. by apply stored_app.
    + apply (iter_Forall (fun k _ => is_u64 k)). intros k fbs' Hk. destruct (Hidx k fbs' Hk) as (b' & Hk' & _).
      by apply (Hs k b').
  - exists f. split.
    + assert (take 64 (drop (length file - 72) file) = bloom_filter.bytes f) as ->.
      { unfold file. rewrite (app_assoc d). rewrite drop_app_length' by (rewrite !length_app, length_to_be_bytes; lia).
        by rewrite take_app_length'. }
      destruct Hf as [(k & Hk & Hkl & Hkm) H511]. apply (bloom_filter.with_data_bytes f 9); [lia| |done].
      unfold bloom_filter.bytes in Hfl. rewrite Hfl. done.
    + intros fid Hfid. by apply Hbloom, Hdom.
Qed.

(** C3. Building a TSM file from storable blocks succeeds, and the file reads
    back: the index iterator lists entries of the given fields only, decoding the
    blocks of a field in index order and concatenating their cells gives exactly
    the cells of the block that was written, and the bloom filter rebuilt from
    the footer contains every field. *)
Theorem tsm_file_roundtrip (bs : gmap Z DataBlock) :
  map_Forall (fun fid b => is_u64 fid /\ storable b) bs ->
  exists c, build_tsm_file bs = Ok c /\
    let file := bytes_file.data c in
    (Z.of_nat (length file) < Prelude.U64 ->
     exists r entries,
       try_new (mkCursor file 0) (Z.of_nat (length file)) = Ok r /\
       collect (S (length file)) r = Ok entries /\
       (forall e, e ∈ entries -> exists fid, field_id e = Some fid /\ is_Some (bs !! fid)) /\
       (forall fid b, bs !! fid = Some b -> exists chunks,
          Forall2 (decodes file) (entries_of fid entries) chunks /\
          concat (all_cells <$> chunks) = all_cells b) /\
       exists bloom, bloom_filter.with_data (take 64 (drop (length file - 72) file)) = Ok bloom /\
         forall fid, is_Some (bs !! fid) -> bloom_filter.contains bloom (to_be_bytes 8 fid) = Ok true).
Proof. apply tsm_file_ok. Qed.

(** The block writer panics on every block whose number of values is a
    multiple of the block size, an exactly full block included: the end of its
    first chunk is computed as zero. *)
Theorem full_block_panics (w : Cursor) (b : DataBlock) :
  (len b mod MAX_BLOCK_VALUES = 0)%nat -> write_one_to w b = Panic.
Proof.
  intros Hm. unfold write_one_to. destruct (len b) as [|l] eqn:El; [done|].
  rewrite Nat.add_1_r. cbn [write_chunks]. rewrite El, Hm. cbn [Nat.mul Nat.add].
  unfold time_range. unfold len in El. destruct (block_ts b) as [|t ts]; [done|]. rewrite get_0. by run.
Qed.

End files.

(** A concrete order and checksum. *)
#[local] Instance map_order : HashOrder := {| iter A m := map_to_list m; iter_perm A m := Permutation_refl _ |}.

Definition example_set : gmap Z DataBlock :=
  <[7 := BU64 0 [2; 3; 4] [12; 13; 15]]> (<[8 := BF64 0 [1; 3; 4] [1; 2; 4]]> ∅).

Lemma tsm_file_roundtrip_witness :
  let V := leb128.varint in let Sn := string_codec.stored in let P : BuildProfile := true in
  let PIO := cursor_facts.page16 in let Crc : Crc32 := fun l => Z.of_nat (length l) in
  exists c, build_tsm_file example_set = Ok c /\
    let file := bytes_file.data c in
    (Z.of_nat (length file) < Prelude.U64 ->
     exists r entries,
       try_new (mkCursor file 0) (Z.of_nat (length file)) = Ok r /\
       collect (S (length file)) r = Ok entries /\
       (forall e, e ∈ entries -> exists fid, field_id e = Some fid /\ is_Some (example_set !! fid)) /\
       (forall fid b, example_set !! fid = Some b -> exists chunks,
          Forall2 (decodes file) (entries_of fid entries) chunks /\
          concat (all_cells <$> chunks) = all_cells b) /\
       exists bloom, bloom_filter.with_data (take 64 (drop (length file - 72) file)) = Ok bloom /\
         forall fid, is_Some (example_set !! fid) -> bloom_filter.contains bloom (to_be_bytes 8 fid) = Ok true).
Proof.
  intros V Sn P PIO Crc. apply (tsm_file_roundtrip example_set).
  unfold example_set. apply map_Forall_insert_2; [|apply map_Forall_insert_2; [|apply map_Forall_empty]].
  - split; [by vm_compute|]. split_and!.
    + split_and!; cbn; lia.
    + split; [by repeat constructor|right; by repeat constructor].
    + split; [by repeat constructor|right; by repeat constructor].
    + done.
    + done.
  - split; [by vm_compute|]. split_and!.
    + split_and!; cbn; lia.
    + split; [by repeat constructor|right; by repeat constructor].
    + by repeat constructor.
    + done.
    + done.
Defined.

Lemma full_block_panics_witness :
  let V := leb128.varint in let Sn := string_codec.stored in let P : BuildProfile := false in
  let PIO := cursor_facts.page16 in let Crc : Crc32 := fun l => Z.of_nat (length l) in
  write_one_to (mkCursor [] 0) (BBool 0 (replicate 1000 5) (replicate 1000 true)) = Panic.
Proof. intros V Sn P PIO Crc. apply full_block_panics. vm_compute. reflexivity. Defined.

End tsm_facts.
