(* ===== verification/Tombstone.v ===== *)
(** * Tombstones of a TSM file (tskv/src/tsm/tombstone.rs)

    A tombstone file is a magic number followed by records; [load] reads it and
    [add_range] appends to it.  The theorems say exactly which files [load]
    accepts and what it returns, and what [load] makes of the records
    [add_range] writes. *)
From S2P Require Import Prelude Utils MemCache FileIO Tsm TsmFacts.

Module tombstone.
Import bytes_file.

Definition TOMBSTONE_MAGIC : Z := 0x544F4D42.
Definition HEADER_SIZE : nat := 4.
Definition BUF_SIZE : Z := 1024 * 64.

Record Tombstone := mkTombstone { field_id : Z; min_ts : Z; max_ts : Z }.

(** The path and the locks are left out. *)
Record TsmTombstone := mkTsmTombstone { tombstones : list Tombstone; file_cursor : Cursor }.

Section ops.
Context {P : BuildProfile} {PIO : PageIO}.

Definition write_header_to (w : Cursor) : outcome io_error Cursor :=
  '(w, _) ← seek w (cursor.Start 0);
  write w (to_be_bytes 4 TOMBSTONE_MAGIC).

(** [existing] is the content of the file, if there is one. *)
Definition with_tsm_file_id (existing : option (list Z)) : outcome io_error TsmTombstone :=
  c ← (match existing with
       | None => write_header_to (mkCursor [] 0)
       | Some data => Ok (mkCursor data 0)
       end);
  Ok (mkTsmTombstone [] c).

(** One record at [buf_pos]. *)
Definition read_record (buf : list Z) (buf_pos : nat) : outcome io_error Tombstone :=
  f ← slice buf buf_pos (buf_pos + 8); field_id ← unwrap (byte_utils.decode_be_u64 f);
  let buf_pos := (buf_pos + 8)%nat in
  m ← slice buf buf_pos (buf_pos + 8); min ← unwrap (byte_utils.decode_be_i64 m);
  let buf_pos := (buf_pos + 8)%nat in
  m ← slice buf buf_pos (buf_pos + 8); max ← unwrap (byte_utils.decode_be_i64 m);
  Ok (mkTombstone field_id min max).

(** [while buf_pos < buf_len]; every iteration moves by 24. *)
Fixpoint records_loop (fuel : nat) (buf : list Z) (buf_len buf_pos : nat) (acc : list Tombstone)
    : outcome io_error (list Tombstone) :=
  if (buf_pos <? buf_len)%nat then
    match fuel with
    | O => OutOfFuel
    | S fuel' =>
        t ← read_record buf buf_pos;
        records_loop fuel' buf buf_len (buf_pos + 24) (acc ++ [t])
    end
  else Ok acc.

(** [while pos < buf_len]; an iteration moves by [buf_len], so one is enough to
    leave the loop. *)
Fixpoint load_loop (fuel : nat) (c : Cursor) (buf : list Z) (buf_len pos : nat) (acc : list Tombstone)
    : outcome io_error (Cursor * list Tombstone) :=
  if (pos <? buf_len)%nat then
    match fuel with
    | O => OutOfFuel
    | S fuel' =>
        '(c, _) ← seek c (cursor.Start pos);
        '(c, buf) ← tsm.read_into c buf buf_len;
        acc ← records_loop buf_len buf buf_len 0 acc;
        load_loop fuel' c buf buf_len (pos + buf_len) acc
    end
  else Ok (c, acc).

(** [file_len - 4] of a shorter file underflows: a checked build panics there,
    another one when it allocates the buffer. *)
Definition load (t : TsmTombstone) : outcome io_error TsmTombstone :=
  let c := file_cursor t in
  let file_len := Z.of_nat (length (data c)) in
  '(c, _) ← tsm.read_into c (replicate HEADER_SIZE 0) HEADER_SIZE;
  buf_len ← (if file_len <? BUF_SIZE
             then (if file_len <? 4 then Panic else Ok (Z.to_nat (file_len - 4)))
             else Ok (Z.to_nat BUF_SIZE));
  '(c, ts) ← load_loop 1 c (replicate buf_len 0) buf_len HEADER_SIZE [];
  Ok (mkTsmTombstone ts c).

Definition write_to (w : Cursor) (t : Tombstone) : outcome io_error Cursor :=
  '(w, _) ← seek w (cursor.End_ 0);
  write w (to_be_bytes 8 (field_id t)).

Fixpoint add_ranges (c : Cursor) (field_ids : list Z) (min max : Z) : outcome io_error Cursor :=
  match field_ids with
  | [] => Ok c
  | f :: field_ids' =>
      c ← write_to c (mkTombstone f min max);
      add_ranges c field_ids' min max
  end.

Definition add_range (t : TsmTombstone) (field_ids : list Z) (min max : Z) : outcome io_error TsmTombstone :=
  c ← add_ranges (file_cursor t) field_ids min max;
  Ok (mkTsmTombstone (tombstones t) c).

End ops.

Definition overlaps (t : TsmTombstone) (r : time_range.TimeRange) : bool :=
  existsb (fun t => (time_range.max_ts r <=? max_ts t) && (min_ts t <=? time_range.min_ts r)) (tombstones t).

End tombstone.

Module tombstone_facts.
Import bytes_file tombstone.

(** The [i]-th 24-byte record of a buffer. *)
Definition word (buf : list Z) (i : nat) : Z := from_be_bytes (take 8 (drop i buf)).
Definition record_at (buf : list Z) (i : nat) : Tombstone :=
  mkTombstone (word buf (24 * i)) (i64 (word buf (24 * i + 8))) (i64 (word buf (24 * i + 16))).

Definition records (buf : list Z) : list Tombstone := map (record_at buf) (seq 0 (length buf / 24)).

Lemma slice_word buf i :
  (i + 8 <= length buf)%nat ->
  exists w, slice (E := io_error) buf i (i + 8) = Ok w /\ byte_utils.read_be 8 w = Some (word buf i).
Proof.
  intros Hi. eexists. split; [apply slice_ok; lia|]. replace (i + 8 - i)%nat with 8%nat by lia.
  unfold byte_utils.read_be, word. rewrite (proj2 (Nat.leb_le _ _)) by (rewrite length_take, length_drop; lia).
  by rewrite (take_ge (take 8 (drop i buf))) by (rewrite length_take; lia).
Qed.

Lemma read_record_ok buf i : (24 * i + 24 <= length buf)%nat -> read_record buf (24 * i) = Ok (record_at buf i).
Proof.
  intros Hi. unfold read_record, byte_utils.decode_be_u64, byte_utils.decode_be_i64.
  destruct (slice_word buf (24 * i)) as (w1 & -> & H1); [lia|]. run. rewrite H1. cbn [unwrap]. run.
  destruct (slice_word buf (24 * i + 8)) as (w2 & -> & H2); [lia|]. run. rewrite H2. cbn [unwrap fmap option_fmap option_map]. run.
  replace (24 * i + 8 + 8)%nat with (24 * i + 16)%nat by lia.
  destruct (slice_word buf (24 * i + 16)) as (w3 & -> & H3); [lia|]. run. rewrite H3. cbn [unwrap fmap option_fmap option_map]. by run.
Qed.

Lemma read_record_short buf i :
  (length buf < i + 24)%nat -> read_record buf i = Panic.
Proof.
  intros Hi. unfold read_record, byte_utils.decode_be_u64, byte_utils.decode_be_i64.
  destruct (Nat.le_gt_cases (i + 8) (length buf)).
  2:{ by rewrite (slice_panic buf i) by lia. }
  destruct (slice_word buf i) as (w1 & -> & H1); [lia|]. run. rewrite H1. cbn [unwrap]. run.
  destruct (Nat.le_gt_cases (i + 16) (length buf)).
  2:{ by rewrite (slice_panic buf (i + 8)) by lia. }
  destruct (slice_word buf (i + 8)) as (w2 & -> & H2); [lia|]. run. rewrite H2. cbn [unwrap fmap option_fmap option_map]. run.
  by rewrite slice_panic by lia.
Qed.

Lemma records_loop_spec buf : forall m j fuel acc,
  (length buf / 24 = j + m)%nat -> (m < fuel)%nat ->
  records_loop fuel buf (length buf) (24 * j) acc =
  if (length buf mod 24 =? 0)%nat then Ok (acc ++ map (record_at buf) (seq j m)) else Panic.
Proof.
  pose proof (Nat.div_mod_eq (length buf) 24) as Hdm.
  pose proof (Nat.mod_upper_bound (length buf) 24 ltac:(done)) as Hub.
  induction m as [|m IH]; intros j fuel acc Hj Hf; (destruct fuel as [|fuel]; [lia|]); cbn [records_loop].
  - destruct (Nat.eqb_spec (length buf mod 24) 0) as [E|E].
    + rewrite (proj2 (Nat.ltb_ge _ _)) by lia. by rewrite app_nil_r.
    + rewrite (proj2 (Nat.ltb_lt _ _)) by lia. by rewrite read_record_short by lia.
  - rewrite (proj2 (Nat.ltb_lt _ _)) by lia. rewrite read_record_ok by lia. run.
    replace (24 * j + 24)%nat with (24 * S j)%nat by lia. rewrite IH by lia.
    destruct (_ =? 0)%nat; [|done]. cbn [seq map]. by rewrite <- app_assoc.
Qed.

Section load.
Context {P : BuildProfile} {PIO : PageIO}.

Lemma read_into_at d q b n :
  (q <= length d)%nat -> (0 < n)%nat ->
  tsm.read_into (mkCursor d q) b n =
  Ok (mkCursor d (q + length (take n (drop q d))), take n (drop q d) ++ drop (length (take n (drop q d))) b).
Proof.
  intros Hq Hn. unfold tsm.read_into, read, read_at. cbn [data at_].
  rewrite (proj2 (Nat.eqb_neq _ _)), (proj2 (Nat.leb_le _ _)) by lia. by run.
Qed.

Lemma load_loop_once hdr body q n :
  length hdr = 4%nat -> (4 < n)%nat ->
  load_loop 1 (mkCursor (hdr ++ body) q) (replicate n 0) n HEADER_SIZE [] =
  (acc ← records_loop n (take n body ++ replicate (n - length body) 0) n 0 [];
   Ok (mkCursor (hdr ++ body) (4 + length (take n body)), acc)).
Proof.
  intros Hh Hn. cbn [load_loop]. unfold HEADER_SIZE. rewrite (proj2 (Nat.ltb_lt _ _)) by done.
  unfold seek, cursor.seek_to. cbn [of_option data at_]. run.
  rewrite read_into_at by (rewrite ?length_app; lia). run.
  assert (drop 4 (hdr ++ body) = body) as -> by (by rewrite <- Hh, drop_app_length).
  assert (drop (length (take n body)) (replicate n 0) = replicate (n - length body) 0) as ->.
  { rewrite drop_replicate, length_take. f_equal. lia. }
  destruct (records_loop _ _ _ _ _) as [acc| | |]; [|done..]. run.
  by rewrite (proj2 (Nat.ltb_ge _ _)) by lia.
Qed.

Lemma load_cases (t : TsmTombstone) (hdr body : list Z) :
  data (file_cursor t) = hdr ++ body -> length hdr = 4%nat ->
  (at_ (file_cursor t) <= length (hdr ++ body))%nat ->
  if (length body <=? 4)%nat then exists c, load t = Ok (mkTsmTombstone [] c)
  else if (Z.of_nat (length body) + 4 <? BUF_SIZE) && (length body mod 24 =? 0)%nat
  then exists c, load t = Ok (mkTsmTombstone (records body) c)
  else load t = Panic.
Proof.
  intros Hd Hh Hat. destruct t as [ts [d p]]. cbn [file_cursor data at_] in *. subst d.
  unfold load. cbn [file_cursor data]. rewrite read_into_at by (done || unfold HEADER_SIZE; lia). run.
  set (q := (p + _)%nat). rewrite length_app, Hh.
  destruct (Nat.leb_spec (length body) 4) as [Hle|Hgt].
  { rewrite (proj2 (Z.ltb_lt _ BUF_SIZE)), (proj2 (Z.ltb_ge _ 4)) by (unfold BUF_SIZE; lia). run.
    cbn [load_loop]. unfold HEADER_SIZE. rewrite (proj2 (Nat.ltb_ge _ _)) by lia. run. by eexists. }
  destruct (Z.ltb_spec (Z.of_nat (length body) + 4) BUF_SIZE) as [Hlt|Hge].
  - rewrite (proj2 (Z.ltb_lt _ BUF_SIZE)), (proj2 (Z.ltb_ge _ 4)) by lia. run.
    replace (Z.to_nat (Z.of_nat (4 + length body) - 4)) with (length body) by lia.
    rewrite load_loop_once by done. rewrite take_ge, Nat.sub_diag by lia. cbn [replicate]. rewrite app_nil_r.
    rewrite (records_loop_spec body (length body / 24) 0) by (lia || apply Nat.div_lt; lia).
    cbn [app andb]. destruct (_ =? 0)%nat; [|done]. run. by eexists.
  - rewrite (proj2 (Z.ltb_ge _ BUF_SIZE)) by lia. run. cbn [andb].
    rewrite load_loop_once by (unfold BUF_SIZE; lia). set (n := Z.to_nat BUF_SIZE).
    set (buf := take n body ++ _). assert (length buf = n) as Hbl.
    { unfold buf. rewrite length_app, length_take, length_replicate. lia. }
    assert (Z.of_nat n = 65536) as Hn by (unfold n, BUF_SIZE; lia).
    assert (length buf mod 24 = 16)%nat as Hmod.
    { apply Nat2Z.inj. rewrite Nat2Z.inj_mod, Hbl, Hn. done. }
    rewrite <- Hbl. rewrite (records_loop_spec buf (length buf / 24) 0), Hmod; [done|lia|].
    apply Nat.div_lt; lia.
Qed.

(** [load] of a file with a 4-byte header returns the records of the rest
    when its length is a multiple of 24, nothing when at most 4 bytes follow the
    header, and panics on every other file, in particular on every file of 64 KiB
    or more. *)
Theorem load_spec (t : TsmTombstone) (hdr body : list Z) :
  data (file_cursor t) = hdr ++ body -> length hdr = 4%nat ->
  (at_ (file_cursor t) <= length (hdr ++ body))%nat ->
  if (length body <=? 4)%nat then exists c, load t = Ok (mkTsmTombstone [] c)
  else if (Z.of_nat (length body) + 4 <? BUF_SIZE) && (length body mod 24 =? 0)%nat
  then exists c, load t = Ok (mkTsmTombstone (records body) c)
  else load t = Panic.
Proof. apply load_cases. Qed.

(** What [add_range] writes: the field ids. *)
Lemma add_ranges_spec fids mn mx : forall d,
  Z.of_nat (length d + 8 * length fids) < U64 ->
  add_ranges (tsm_facts.eof d) fids mn mx = Ok (tsm_facts.eof (d ++ concat (to_be_bytes 8 <$> fids))).
Proof.
  induction fids as [|f fids IH]; intros d Hl; [cbn; by rewrite app_nil_r|].
  cbn [add_ranges length] in *. unfold write_to, seek, cursor.seek_to, cursor.move_by, cursor.checked_add.
  cbn [tsm_facts.eof data at_]. change (0 <=? 0) with true. cbv iota. run.
  rewrite Z.add_0_r, Nat2Z.id, (proj2 (Z.ltb_lt _ _)) by lia. cbn [of_option]. run.
  fold (tsm_facts.eof d). rewrite tsm_facts.write_eof. run. rewrite IH.
  - rewrite fmap_cons. cbn [concat]. by rewrite <- app_assoc.
  - rewrite length_app, length_to_be_bytes. cbn [field_id]. lia.
Qed.

(** Three consecutive ids, read as a record. *)
Fixpoint triples (fids : list Z) : list Tombstone :=
  match fids with
  | a :: b :: c :: fids' => mkTombstone a (i64 b) (i64 c) :: triples fids'
  | _ => []
  end.

Lemma length_id_bytes fids : length (concat (to_be_bytes 8 <$> fids)) = (8 * length fids)%nat.
Proof.
  induction fids as [|f fids IH]; [done|]. rewrite fmap_cons. cbn [concat length].
  rewrite length_app, length_to_be_bytes, IH. lia.
Qed.

Lemma word_0 w rest : length w = 8%nat -> word (w ++ rest) 0 = from_be_bytes w.
Proof. intros Hw. unfold word. by rewrite drop_0, take_app_length'. Qed.

Lemma word_shift w rest i k : length w = k -> word (w ++ rest) (k + i) = word rest i.
Proof. intros <-. unfold word. by rewrite <- drop_drop, drop_app_length. Qed.

Lemma records_cons w1 w2 w3 rest :
  length w1 = 8%nat -> length w2 = 8%nat -> length w3 = 8%nat ->
  records (w1 ++ w2 ++ w3 ++ rest) =
  mkTombstone (from_be_bytes w1) (i64 (from_be_bytes w2)) (i64 (from_be_bytes w3)) :: records rest.
Proof.
  intros H1 H2 H3. unfold records.
  assert (length (w1 ++ w2 ++ w3 ++ rest) / 24 = S (length rest / 24))%nat as ->.
  { rewrite !length_app. replace (length w1 + _)%nat with (length rest + 1 * 24)%nat by lia.
    rewrite Nat.div_add; lia. }
  cbn [seq map]. f_equal.
  - unfold record_at. rewrite word_0 by done. f_equal; f_equal.
    + change (24 * 0 + 8)%nat with (8 + 0)%nat. rewrite word_shift by done. by apply word_0.
    + change (24 * 0 + 16)%nat with (8 + (8 + 0))%nat. rewrite !word_shift by done. by apply word_0.
  - rewrite <- seq_shift, map_map. apply map_ext. intros i. unfold record_at.
    rewrite !app_assoc. f_equal; [|f_equal|f_equal];
      (match goal with |- word _ ?k = _ => replace k with (24 + (k - 24))%nat by lia end);
      (rewrite word_shift by (rewrite !length_app; lia)); f_equal; lia.
Qed.

Lemma records_triples fids :
  Forall is_u64 fids -> records (concat (to_be_bytes 8 <$> fids)) = triples fids.
Proof.
  remember (length fids) as n eqn:Hn. revert fids Hn.
  induction n as [n IH] using lt_wf_ind. intros [|a [|b [|c fids]]] Hn Hu; try done.
  inversion_clear Hu as [|? ? Ha Hu1]. inversion_clear Hu1 as [|? ? Hb Hu2]. inversion_clear Hu2 as [|? ? Hc Hu3].
  cbn [length] in Hn. rewrite !fmap_cons. cbn [concat triples]. rewrite records_cons by apply length_to_be_bytes.
  rewrite !from_to_be_bytes_u64 by done. f_equal. apply (IH (length fids)); [lia|done|done].
Qed.

(** What [add_range] writes, [load] does not read back: a range over [n]
    fields stores the field ids only, [load] panics unless [n] is a multiple of
    three, and otherwise returns one tombstone for three fields, whose bounds are
    field ids and not the bounds that were given. *)
Theorem add_range_load (fids : list Z) (mn mx : Z) :
  fids <> [] -> Forall is_u64 fids -> Z.of_nat (8 * length fids) + 4 < BUF_SIZE ->
  exists t t1, with_tsm_file_id None = Ok t /\ add_range t fids mn mx = Ok t1 /\
    if (length fids mod 3 =? 0)%nat then exists c, load t1 = Ok (mkTsmTombstone (triples fids) c)
    else load t1 = Panic.
Proof.
  intros Hne Hu Hl. unfold BUF_SIZE in Hl. set (magic := to_be_bytes 4 TOMBSTONE_MAGIC).
  exists (mkTsmTombstone [] (tsm_facts.eof magic)).
  exists (mkTsmTombstone [] (tsm_facts.eof (magic ++ concat (to_be_bytes 8 <$> fids)))).
  split; [|split].
  - unfold with_tsm_file_id, write_header_to, seek, cursor.seek_to. cbn [of_option]. run.
    change (mkCursor _ _) with (tsm_facts.eof []). rewrite tsm_facts.write_eof. by run.
  - unfold add_range. cbn [file_cursor tombstones]. rewrite add_ranges_spec; [by run|].
    change (length magic) with 4%nat. range.
  - assert (length (concat (to_be_bytes 8 <$> fids)) = (8 * length fids)%nat) as Hlen by apply length_id_bytes.
    pose proof (load_cases (mkTsmTombstone [] (tsm_facts.eof (magic ++ concat (to_be_bytes 8 <$> fids)))) magic
      (concat (to_be_bytes 8 <$> fids)) eq_refl eq_refl (Nat.le_refl _)) as Hload.
    rewrite (records_triples fids Hu), Hlen in Hload.
    rewrite (proj2 (Nat.leb_gt _ _)), (proj2 (Z.ltb_lt _ _)) in Hload
      by (unfold BUF_SIZE; destruct fids; [done|cbn [length] in *; lia]).
    replace (8 * length fids mod 24)%nat with (8 * (length fids mod 3))%nat in Hload
      by (symmetry; exact (Nat.Div0.mul_mod_distr_l (length fids) 3 8)).
    destruct (length fids mod 3)%nat; exact Hload.
Qed.

End load.

(** A tombstone is reported for a range only when it covers the whole range;
    one that covers a part of it is not. *)
Lemma overlaps_is_cover (t : TsmTombstone) (r : time_range.TimeRange) :
  overlaps t r = true <->
  exists x, x ∈ tombstones t /\ min_ts x <= time_range.min_ts r /\ time_range.max_ts r <= max_ts x.
Proof.
  unfold overlaps. rewrite existsb_exists. split; intros (x & Hin & Hx); exists x;
    rewrite list_elem_of_In, andb_true_iff, !Z.leb_le in *; tauto.
Qed.

Lemma load_spec_witness :
  let P : BuildProfile := true in let PIO := cursor_facts.page16 in
  exists c, load (mkTsmTombstone [] (mkCursor ([84; 79; 77; 66] ++ replicate 24 1) 0)) =
    Ok (mkTsmTombstone (records (replicate 24 1)) c).
Proof.
  intros P PIO.
  apply (load_spec (mkTsmTombstone [] (mkCursor ([84; 79; 77; 66] ++ replicate 24 1) 0)) [84; 79; 77; 66] (replicate 24 1));
    [done|done|cbn; lia].
Defined.

Lemma add_range_load_witness :
  let P : BuildProfile := true in let PIO := cursor_facts.page16 in
  exists t t1, with_tsm_file_id None = Ok t /\ add_range t [1; 2; 3] 1 100 = Ok t1 /\
    exists c, load t1 = Ok (mkTsmTombstone [mkTombstone 1 2 3] c).
Proof. intros P PIO. apply (add_range_load [1; 2; 3] 1 100); [done|by repeat constructor|done]. Defined.

End tombstone_facts.
