(* ===== verification/Lru.v ===== *)
(** * The LRU cache (tskv/src/lru_cache.rs)

    A doubly linked list with raw back pointers and a map from keys to list
    nodes.  The list lives in an explicit heap: a node is a cell with an owning
    [next], a raw [prev] and its data, the head is the cell at location 0, a
    dropped [Box] is removed from the heap, and reading a location that is not in
    the heap is [UseAfterFree].  (The head is inside the struct; the model is of a
    cache that is not moved once it has elements.)

    [rep] says that a heap holds a well-linked list of given nodes.  Every list
    operation is proved against it, and [cache_refines_lru] proves that the cache
    implements an abstract LRU map on every sequence of operations that neither
    inserts a key that is present nor removes the oldest of several keys; the two
    last theorems show what happens on the sequences it excludes. *)
From S2P Require Import Prelude.

Inductive memory_error := UseAfterFree.

Module lru_cache.

(** ** Definitions *)

Definition CacheKey : Type := list Z.

Record LRUNode := mkNode { next : option nat; prev : option nat; data : option CacheKey }.

Record LRUList := mkLRUList { heap : gmap nat LRUNode; count : Z; fresh_loc : nat }.

Definition head_loc : nat := 0.

Notation res := (outcome memory_error).

(** [*p], and the assignments to a field of [*p]. *)
Definition deref (h : gmap nat LRUNode) (p : nat) : res LRUNode := of_option (h !! p) UseAfterFree.

Definition set_next (h : gmap nat LRUNode) (p : nat) (o : option nat) : res (gmap nat LRUNode) :=
  n ← deref h p; Ok (<[p := mkNode o (prev n) (data n)]> h).
Definition set_prev (h : gmap nat LRUNode) (p : nat) (o : option nat) : res (gmap nat LRUNode) :=
  n ← deref h p; Ok (<[p := mkNode (next n) o (data n)]> h).
Definition set_data (h : gmap nat LRUNode) (p : nat) (o : option CacheKey) : res (gmap nat LRUNode) :=
  n ← deref h p; Ok (<[p := mkNode (next n) (prev n) o]> h).

Section list.
Context {P : BuildProfile}.

Definition list_new : LRUList := mkLRUList {[head_loc := mkNode None None None]} 0 1.

Definition list_insert (self : LRUList) (elem : CacheKey) : res (nat * LRUList) :=
  c ← add_u64 (count self) 1;
  let newp := fresh_loc self in
  let h := <[newp := mkNode None (Some head_loc) (Some elem)]> (heap self) in
  hd ← deref h head_loc;
  h ← (match next hd with
       | Some first =>
           h ← set_prev h first (Some newp);
           h ← set_next h newp (Some first);
           set_next h head_loc (Some newp)
       | None =>
           h ← set_prev h head_loc (Some newp);
           set_next h head_loc (Some newp)
       end);
  Ok (newp, mkLRUList h c (S newp)).

Definition remove_last (self : LRUList) : res (option CacheKey * LRUList) :=
  if count self =? 0 then Ok (None, self)
  else
    hd ← deref (heap self) head_loc;
    p1 ← unwrap (prev hd);
    n1 ← deref (heap self) p1;
    p2 ← unwrap (prev n1);
    n2 ← deref (heap self) p2;
    h ← set_next (heap self) p2 None;
    last ← unwrap (next n2);
    ln ← deref h last;
    _ ← assert_ (bool_decide (is_Some (prev ln)));
    hd ← deref h head_loc;
    _ ← assert_ (bool_decide (is_Some (prev hd)));
    h ← set_prev h head_loc (prev ln);
    c ← sub_u64 (count self) 1;
    Ok (data ln, mkLRUList (delete last h) c (fresh_loc self)).

Definition list_remove (self : LRUList) (node_handle : nat) : res (CacheKey * LRUList) :=
  nd ← deref (heap self) node_handle;
  d ← unwrap (data nd);
  h ← set_data (heap self) node_handle None;
  p ← unwrap (prev nd);
  pn ← deref h p;
  current ← unwrap (next pn);
  h ← set_next h p None;
  cn ← deref h current;
  prv ← unwrap (prev cn);
  h ← (match next cn with
       | Some nx =>
           h ← set_prev h nx (prev cn);
           set_prev h current None
       | None => Ok h
       end);
  h ← set_next h prv (next cn);
  h ← set_next h current None;
  c ← sub_u64 (count self) 1;
  Ok (d, mkLRUList (delete current h) c (fresh_loc self)).

Definition reinsert_front (self : LRUList) (node_handle : nat) : res LRUList :=
  nd ← deref (heap self) node_handle;
  prevp ← unwrap (prev nd);
  h ← (match next nd with
       | Some nx => set_prev (heap self) nx (Some prevp)
       | None => set_prev (heap self) head_loc (Some prevp)
       end);
  (* swap prevp.next and node.next *)
  pn ← deref h prevp;
  nd ← deref h node_handle;
  h ← set_next h prevp (next nd);
  h ← set_next h node_handle (next pn);
  (* swap node.next and head.next *)
  nd ← deref h node_handle;
  hd ← deref h head_loc;
  h ← set_next h node_handle (next hd);
  h ← set_next h head_loc (next nd);
  nd ← deref h node_handle;
  h ← (match next nd with
       | Some newnext =>
           nn ← deref h newnext;
           h ← set_prev h node_handle (prev nn);
           set_prev h newnext (Some node_handle)
       | None => set_prev h head_loc (Some node_handle)
       end);
  hd ← deref h head_loc;
  _ ← assert_ (bool_decide (is_Some (next hd)));
  _ ← assert_ (bool_decide (is_Some (prev hd)));
  Ok (mkLRUList h (count self) (fresh_loc self)).

(** ** The cache *)

Context {T : Type}.

Record Cache := mkCache { list_ : LRUList; map_ : gmap CacheKey (T * nat); cap : Z; id : Z }.

Definition new (capacity : Z) : res Cache :=
  _ ← assert_ (0 <? capacity);
  Ok (mkCache list_new ∅ capacity 0).

Definition new_cache_id (c : Cache) : res (Z * Cache) :=
  i ← add_u64 (id c) 1;
  Ok (i, mkCache (list_ c) (map_ c) (cap c) i).

Definition cache_count (c : Cache) : Z := count (list_ c).

Definition insert (c : Cache) (key : CacheKey) (elem : T) : res Cache :=
  '(l, m) ← (if cap c <=? count (list_ c) then
     '(o, l) ← remove_last (list_ c);
     match o with
     | Some removed_key =>
         _ ← assert_ (bool_decide (is_Some (map_ c !! removed_key)));
         Ok (l, delete removed_key (map_ c))
     | None => Panic
     end
   else Ok (list_ c, map_ c));
  '(handle, l) ← list_insert l key;
  Ok (mkCache l (<[key := (elem, handle)]> m) (cap c) (id c)).

Definition get (c : Cache) (key : CacheKey) : res (option T * Cache) :=
  match map_ c !! key with
  | None => Ok (None, c)
  | Some (elem, handle) =>
      l ← reinsert_front (list_ c) handle;
      Ok (Some elem, mkCache l (map_ c) (cap c) (id c))
  end.

Definition remove (c : Cache) (key : CacheKey) : res (option T * Cache) :=
  match map_ c !! key with
  | None => Ok (None, c)
  | Some (elem, handle) =>
      '(_, l) ← list_remove (list_ c) handle;
      Ok (Some elem, mkCache l (delete key (map_ c)) (cap c) (id c))
  end.

End list.
End lru_cache.

(** ** The linked list *)
Module lru_facts.
Import lru_cache.

Definition cells := list (nat * CacheKey).

(** The location of the first node of [l], or [b]; of the last node, or [a]. *)
Definition loc_or (b : option nat) (l : cells) : option nat :=
  match l with (p, _) :: _ => Some p | [] => b end.
Definition last_loc (a : nat) (l : cells) : nat :=
  match last l with Some (p, _) => p | None => a end.

(** [l] is linked in [h] between the node [a] before and the link [b] after. *)
Fixpoint lseg (h : gmap nat LRUNode) (a : nat) (l : cells) (b : option nat) : Prop :=
  match l with
  | [] => True
  | (p, k) :: l' => h !! p = Some (mkNode (loc_or b l') (Some a) (Some k)) /\ lseg h p l' b
  end.

(** A well-linked list; the tail pointer of an empty list is not used. *)
Definition rep (s : LRUList) (l : cells) : Prop :=
  (exists hp, heap s !! head_loc = Some (mkNode (loc_or None l) hp None) /\
     (l <> [] -> hp = Some (last_loc head_loc l))) /\
  lseg (heap s) head_loc l None /\ NoDup (head_loc :: l.*1) /\
  Forall (fun p => (p < fresh_loc s)%nat) (head_loc :: l.*1) /\ count s = Z.of_nat (length l) /\ count s < U64.

Lemma last_loc_app a l1 l2 : last_loc a (l1 ++ l2) = last_loc (last_loc a l1) l2.
Proof. unfold last_loc. rewrite last_app. by destruct (last l2) as [[]|]. Qed.

Lemma last_loc_cons a x l : last_loc a (x :: l) = last_loc x.1 l.
Proof. exact (last_loc_app a [x] l). Qed.

Lemma last_loc_in a l : l <> [] -> last_loc a l ∈ l.*1.
Proof.
  destruct l as [|x l] using rev_ind; [done|]. intros _. rewrite last_loc_app. unfold last_loc at 1.
  destruct x as [p k]. cbn. rewrite fmap_app. apply elem_of_app. right. by left.
Qed.

Lemma loc_or_app b l1 l2 : loc_or b (l1 ++ l2) = loc_or (loc_or b l2) l1.
Proof. by destruct l1 as [|[]]. Qed.

Lemma lseg_app h a l1 l2 b :
  lseg h a (l1 ++ l2) b <-> lseg h a l1 (loc_or b l2) /\ lseg h (last_loc a l1) l2 b.
Proof.
  revert a. induction l1 as [|[p k] l1 IH]; intros a; [cbn; tauto|]. cbn [app lseg].
  rewrite IH, last_loc_cons, loc_or_app. cbn [fst]. tauto.
Qed.

Lemma lseg_frame h a l b p n : p ∉ l.*1 -> lseg h a l b -> lseg (<[p := n]> h) a l b.
Proof.
  revert a. induction l as [|[q k] l IH]; intros a Hp; [done|]. rewrite fmap_cons in Hp. cbn [fst] in Hp.
  apply not_elem_of_cons in Hp as [Hne Hp]. intros [H1 H2]. split; [by rewrite lookup_insert_ne|by apply IH].
Qed.

Lemma lseg_delete h a l b p : p ∉ l.*1 -> lseg h a l b -> lseg (delete p h) a l b.
Proof.
  revert a. induction l as [|[q k] l IH]; intros a Hp; [done|]. rewrite fmap_cons in Hp. cbn [fst] in Hp.
  apply not_elem_of_cons in Hp as [Hne Hp]. intros [H1 H2]. split; [by rewrite lookup_delete_ne|by apply IH].
Qed.

(** Relinking one end. *)
Lemma lseg_set_first h a a' p k l b :
  p ∉ l.*1 -> lseg h a ((p, k) :: l) b ->
  lseg (<[p := mkNode (loc_or b l) (Some a') (Some k)]> h) a' ((p, k) :: l) b.
Proof. intros Hp [H1 H2]. split; [by rewrite lookup_insert_eq|by apply lseg_frame]. Qed.

Lemma lseg_set_last h a l p k b b' :
  p ∉ l.*1 -> lseg h a (l ++ [(p, k)]) b ->
  lseg (<[p := mkNode b' (Some (last_loc a l)) (Some k)]> h) a (l ++ [(p, k)]) b'.
Proof.
  rewrite !lseg_app. intros Hp [H1 H2]. split; [by apply lseg_frame|]. split; [by rewrite lookup_insert_eq|done].
Qed.

Lemma lseg_first h a p k l b : lseg h a ((p, k) :: l) b -> h !! p = Some (mkNode (loc_or b l) (Some a) (Some k)).
Proof. by intros [H _]. Qed.

Lemma lseg_last h a l p k b :
  lseg h a (l ++ [(p, k)]) b -> h !! p = Some (mkNode b (Some (last_loc a l)) (Some k)).
Proof. rewrite lseg_app. by intros [_ [H _]]. Qed.

(** The memory accesses of a list operation. *)
Lemma deref_ok h p n : h !! p = Some n -> deref h p = Ok n.
Proof. unfold deref. by intros ->. Qed.
Lemma set_next_ok h p n o : h !! p = Some n -> set_next h p o = Ok (<[p := mkNode o (prev n) (data n)]> h).
Proof. intros H. unfold set_next. by rewrite (deref_ok _ _ _ H). Qed.
Lemma set_prev_ok h p n o : h !! p = Some n -> set_prev h p o = Ok (<[p := mkNode (next n) o (data n)]> h).
Proof. intros H. unfold set_prev. by rewrite (deref_ok _ _ _ H). Qed.
Lemma set_data_ok h p n o : h !! p = Some n -> set_data h p o = Ok (<[p := mkNode (next n) (prev n) o]> h).
Proof. intros H. unfold set_data. by rewrite (deref_ok _ _ _ H). Qed.

Section ops.
Context {P : BuildProfile}.

Lemma rep_new : rep list_new [].
Proof.
  split_and!; [exists None; split; [apply lookup_singleton_eq|done]|done|apply NoDup_singleton| |done|done].
  apply Forall_singleton. cbn. unfold head_loc. lia.
Qed.

Lemma list_insert_spec s l k :
  rep s l -> count s + 1 < U64 ->
  exists p s', list_insert s k = Ok (p, s') /\ rep s' ((p, k) :: l) /\ p ∉ l.*1.
Proof.
  intros ((hp & Hhd & Hhp) & Hseg & Hnd & Hfr & Hc & Hc64) Hmax.
  apply Forall_cons in Hfr as [Hf0 Hfr]. apply NoDup_cons in Hnd as [Hn0 Hnd].
  assert (fresh_loc s ∉ l.*1) as Hfresh.
  { intros Hin. rewrite Forall_forall in Hfr. specialize (Hfr _ Hin). lia. }
  unfold list_insert. rewrite add_u64_ok by range. run. set (newp := fresh_loc s) in *.
  assert (newp <> head_loc) as Hne by lia.
  rewrite (deref_ok _ head_loc (mkNode (loc_or None l) hp None)) by (by rewrite lookup_insert_ne). run. cbn [next].
  destruct l as [|[f kf] l]; cbn [loc_or].
  - erewrite set_prev_ok by (by rewrite lookup_insert_ne). run.
    erewrite set_next_ok by (by rewrite lookup_insert_eq). run. cbn [next prev data].
    eexists _, _. split; [reflexivity|]. split; [|apply not_elem_of_nil].
    split_and!; cbn [heap count fresh_loc length] in *; [| | | |lia|lia].
    + exists (Some newp). split; [by rewrite lookup_insert_eq|done].
    + split; [|done]. by rewrite !lookup_insert_ne, lookup_insert_eq by done.
    + apply NoDup_cons. split; [by intros [?|?%elem_of_nil]%elem_of_cons|]. apply NoDup_singleton.
    + repeat constructor; cbn; lia.
  - rewrite fmap_cons in Hn0, Hnd, Hfr, Hfresh. cbn [fst] in *.
    apply not_elem_of_cons in Hn0 as [Hf0' Hn0]. apply NoDup_cons in Hnd as [Hnf Hnd].
    apply not_elem_of_cons in Hfresh as [Hfn Hfresh].
    pose proof (lseg_first _ _ _ _ _ _ Hseg) as Hf.
    erewrite set_prev_ok by (by rewrite lookup_insert_ne). run.
    erewrite set_next_ok by (by rewrite lookup_insert_ne, lookup_insert_eq). run.
    erewrite set_next_ok by (by rewrite !lookup_insert_ne). run. cbn [next prev data].
    eexists _, _. split; [reflexivity|]. split; [|by apply not_elem_of_cons].
    split_and!; cbn [heap count fresh_loc length] in *; [| | | |lia|lia].
    + exists hp. split; [by rewrite lookup_insert_eq|]. intros _. rewrite Hhp by done. by rewrite !last_loc_cons.
    + apply lseg_frame; [by rewrite fmap_cons; apply not_elem_of_cons; rewrite fmap_cons; split; [|apply not_elem_of_cons]|].
      split; [by rewrite lookup_insert_eq|].
      apply lseg_frame; [by rewrite fmap_cons; apply not_elem_of_cons|].
      apply (lseg_set_first _ head_loc); [done|]. apply lseg_frame; [|done]. by rewrite fmap_cons; apply not_elem_of_cons.
    + rewrite !fmap_cons. cbn [fst]. rewrite !NoDup_cons, !not_elem_of_cons. done.
    + rewrite !fmap_cons. cbn [fst]. apply Forall_cons in Hfr as [Hff Hfr].
      repeat (apply Forall_cons_2; [lia|]). apply (Forall_impl _ _ _ Hfr). lia.
Qed.

(** The distinctness facts of a list with a node singled out. *)
Lemma nodup_middle (l1 l2 : cells) p k :
  NoDup (head_loc :: (l1 ++ (p, k) :: l2).*1) ->
  NoDup (head_loc :: (l1 ++ l2).*1) /\ p <> head_loc /\ p ∉ l1.*1 /\ p ∉ l2.*1 /\
  head_loc ∉ l1.*1 /\ head_loc ∉ l2.*1 /\ (forall q, q ∈ l1.*1 -> q ∉ l2.*1).
Proof.
  rewrite !fmap_app, fmap_cons. cbn [fst]. rewrite !NoDup_cons, !not_elem_of_app, not_elem_of_cons, !NoDup_app, NoDup_cons.
  intros ((H1 & H2 & H3) & H4 & H5 & H6 & H7). repeat split; try done.
  - intros q Hq Hq2. apply (H5 q Hq). by right.
  - intros Hq. apply (H5 p Hq). by left.
  - intros q Hq Hq2. apply (H5 q Hq). by right.
Qed.

Lemma fresh_middle (l1 l2 : cells) p k n :
  Forall (fun q => (q < n)%nat) (head_loc :: (l1 ++ (p, k) :: l2).*1) ->
  Forall (fun q => (q < n)%nat) (head_loc :: (l1 ++ l2).*1) /\ (p < n)%nat.
Proof. rewrite !fmap_app, fmap_cons, !Forall_cons, !Forall_app, Forall_cons. tauto. Qed.

(** The predecessor of what follows [l1] (the head or the last node of [l1]), and
    what changes when its link is set. *)
Lemma pred_spec h l1 x hp :
  h !! head_loc = Some (mkNode (loc_or x l1) hp None) -> lseg h head_loc l1 x -> NoDup (head_loc :: l1.*1) ->
  let q := last_loc head_loc l1 in
  exists pr d, h !! q = Some (mkNode x pr d) /\ forall o,
    let h' := <[q := mkNode o pr d]> h in
    h' !! head_loc = Some (mkNode (loc_or o l1) hp None) /\ lseg h' head_loc l1 o /\
    (forall r, r <> head_loc -> r ∉ l1.*1 -> h' !! r = h !! r).
Proof.
  intros Hhd Hseg Hnd. apply NoDup_cons in Hnd as [H0 Hnd].
  destruct l1 as [|[q kq] l1 _] using rev_ind; cbv zeta.
  - exists hp, None. split; [done|]. intros o. cbn [last_loc last loc_or lseg].
    split_and!; [by rewrite lookup_insert_eq|done|]. intros r Hr _. by rewrite lookup_insert_ne.
  - rewrite last_loc_app. cbn [last_loc last]. pose proof (lseg_last _ _ _ _ _ _ Hseg) as Hq.
    rewrite fmap_app in H0, Hnd |- *. cbn [fmap list_fmap fst] in *.
    apply not_elem_of_app in H0 as [H0 H0q]. rewrite not_elem_of_cons in H0q. destruct H0q as [H0q _].
    apply NoDup_app in Hnd as (Hnd & Hdis & _).
    assert (q ∉ l1.*1) as Hql by (intros Hin; apply (Hdis q Hin); by left).
    eexists _, _. split; [exact Hq|]. intros o. split_and!.
    + rewrite lookup_insert_ne by done. rewrite Hhd. by destruct l1 as [|[]].
    + by apply (lseg_set_last _ _ _ _ _ x).
    + intros r Hr Hr'. rewrite lookup_insert_ne; [done|]. intros ->. apply Hr'. apply elem_of_app. right. by left.
Qed.

Lemma remove_last_spec s l p k :
  rep s (l ++ [(p, k)]) -> exists s', remove_last s = Ok (Some k, s') /\ rep s' l.
Proof.
  intros ((hp & Hhd & Hhp) & Hseg & Hnd & Hfr & Hc & Hc64).
  destruct (nodup_middle l [] p k Hnd) as (Hnd' & Hp0 & Hpl & _ & H0l & _).
  destruct (fresh_middle l [] p k _ Hfr) as [Hfr' _]. rewrite app_nil_r in Hnd', Hfr'.
  rewrite Hhp in Hhd by (by destruct l). rewrite last_loc_app, loc_or_app in Hhd. cbn [last_loc last loc_or] in Hhd. clear Hhp.
  apply lseg_app in Hseg as [Hseg [Hp _]]. cbn [loc_or] in *. rewrite length_app in Hc. cbn [length] in Hc.
  destruct (pred_spec _ _ _ _ Hhd Hseg Hnd') as (pr & d & Hq & Hset).
  destruct (Hset None) as (Hhd1 & Hseg1 & Hframe). set (q := last_loc head_loc l) in *.
  unfold remove_last. rewrite (proj2 (Z.eqb_neq _ _)) by lia.
  rewrite (deref_ok _ _ _ Hhd). run. cbn [prev unwrap]. run. rewrite (deref_ok _ _ _ Hp). run. cbn [prev unwrap]. run.
  rewrite (deref_ok _ _ _ Hq). run. rewrite (set_next_ok _ _ _ _ Hq). run. cbn [next prev data unwrap]. run.
  set (h1 := <[q := mkNode None pr d]> (heap s)) in *.
  rewrite (deref_ok h1 p _) by (by rewrite Hframe). run. cbn [prev].
  rewrite bool_decide_true by (by eexists). cbn [assert_]. run. rewrite (deref_ok _ _ _ Hhd1). run. cbn [prev].
  rewrite bool_decide_true by (by eexists). cbn [assert_]. run. rewrite (set_prev_ok _ _ _ _ Hhd1). run.
  rewrite sub_u64_ok by lia. run. cbn [next data]. eexists. split; [reflexivity|].
  split_and!; cbn [heap count fresh_loc]; [|..|lia|lia]; [| |done|done].
  - exists (Some q). rewrite lookup_delete_ne, lookup_insert_eq by done. done.
  - by apply lseg_delete, lseg_frame.
Qed.

(** The successor of a removed node, if any, points back to its predecessor. *)
Lemma relink_succ h2 (l1 l2 : cells) p q n :
  h2 !! p = Some n -> p <> head_loc -> p ∉ l1.*1 -> p ∉ l2.*1 -> head_loc ∉ l2.*1 ->
  (forall r, r ∈ l1.*1 -> r ∉ l2.*1) -> NoDup l2.*1 ->
  lseg h2 head_loc l1 None -> lseg h2 p l2 None ->
  exists h3 n3, (match loc_or None l2 with
      | Some nx => h ← set_prev h2 nx (Some q); set_prev h p None
      | None => Ok h2 end) = Ok h3 /\ h3 !! p = Some n3 /\ h3 !! head_loc = h2 !! head_loc /\
      lseg h3 head_loc l1 None /\ lseg h3 q l2 None.
Proof.
  intros Hp Hp0 Hp1 Hp2 H02 H12 Hnd Hseg1 Hseg2.
  destruct l2 as [|[r kr] l2]; cbn [loc_or]; [by exists h2; eexists|].
  pose proof (lseg_first _ _ _ _ _ _ Hseg2) as Hr. rewrite (set_prev_ok _ _ _ _ Hr). run.
  rewrite fmap_cons in Hp2, H02, H12, Hnd. cbn [fst] in *. apply not_elem_of_cons in Hp2 as [Hpr Hp2].
  apply not_elem_of_cons in H02 as [H0r H02]. apply NoDup_cons in Hnd as [Hr2 _].
  erewrite set_prev_ok by (by rewrite lookup_insert_ne). eexists _, _. split; [reflexivity|].
  split; [by rewrite lookup_insert_eq|]. split; [by rewrite !lookup_insert_ne|]. cbn [next prev data]. split.
  - apply lseg_frame; [done|]. apply lseg_frame; [|done]. intros Hin. apply (H12 r Hin). by left.
  - apply lseg_frame; [by rewrite fmap_cons; apply not_elem_of_cons|]. by apply (lseg_set_first _ p).
Qed.

(** Removing a node unlinks and frees it, and leaves the tail pointer alone. *)
Lemma list_remove_links s l1 l2 p k hp :
  rep s (l1 ++ (p, k) :: l2) -> heap s !! head_loc = Some (mkNode (loc_or None (l1 ++ (p, k) :: l2)) hp None) ->
  exists s', list_remove s p = Ok (k, s') /\ heap s' !! head_loc = Some (mkNode (loc_or None (l1 ++ l2)) hp None) /\
    lseg (heap s') head_loc (l1 ++ l2) None /\ heap s' !! p = None /\ count s' = count s - 1 /\ fresh_loc s' = fresh_loc s.
Proof.
  intros (_ & Hseg & Hnd & Hfr & Hc & Hc64) Hhd.
  destruct (nodup_middle l1 l2 p k Hnd) as (Hnd' & Hp0 & Hp1 & Hp2 & H01 & H02 & H12).
  rewrite loc_or_app in Hhd. cbn [loc_or] in Hhd.
  apply lseg_app in Hseg as [Hseg1 [Hp Hseg2]]. cbn [loc_or] in *. rewrite length_app in Hc. cbn [length] in Hc.
  assert (NoDup (head_loc :: l1.*1) /\ NoDup l2.*1) as [Hnd1 Hnd2].
  { pose proof Hnd' as [_ Hnd12]%NoDup_cons. rewrite fmap_app in Hnd12. apply NoDup_app in Hnd12 as (? & _ & ?).
    split; [by apply NoDup_cons|done]. }
  assert (last_loc head_loc l1 <> p /\ last_loc head_loc l1 ∉ l2.*1) as [Hqp Hq2].
  { destruct l1 as [|x l1]; [done|]. pose proof (last_loc_in head_loc (x :: l1) ltac:(done)).
    split; [by intros <-|by apply H12]. }
  unfold list_remove. rewrite (deref_ok _ _ _ Hp). run. cbn [data prev unwrap]. run.
  rewrite (set_data_ok _ _ _ _ Hp). run. cbn [next prev]. set (h1 := <[p := _]> (heap s)).
  destruct (pred_spec h1 l1 (Some p) hp) as (pr & d & Hq & Hset);
    [by unfold h1; rewrite lookup_insert_ne|by apply lseg_frame|done|]. set (q := last_loc head_loc l1) in *.
  destruct (Hset None) as (Hhd2 & Hseg12 & Hframe).
  rewrite (deref_ok _ _ _ Hq). run. cbn [next unwrap]. run. rewrite (set_next_ok _ _ _ _ Hq). run. cbn [prev data].
  set (h2 := <[q := mkNode None pr d]> h1) in *.
  assert (h2 !! p = Some (mkNode (loc_or None l2) (Some q) None)) as Hp2'.
  { rewrite Hframe by done. unfold h1. by rewrite lookup_insert_eq. }
  rewrite (deref_ok _ _ _ Hp2'). run. cbn [prev next unwrap]. run.
  assert (lseg h2 p l2 None) as Hseg22.
  { unfold h2, h1. by apply lseg_frame, lseg_frame. }
  destruct (relink_succ h2 l1 l2 p q _ Hp2' Hp0 Hp1 Hp2 H02 H12 Hnd2 Hseg12 Hseg22)
    as (h3 & n3 & -> & Hp3 & Hhd3 & Hseg13 & Hseg23). run.
  rewrite Hhd2 in Hhd3. destruct (pred_spec h3 l1 None hp Hhd3 Hseg13 Hnd1) as (pr' & d' & Hq3 & Hset3).
  destruct (Hset3 (loc_or None l2)) as (Hhd4 & Hseg14 & Hframe4). fold q in Hq3, Hhd4, Hseg14, Hframe4.
  rewrite (set_next_ok _ _ _ _ Hq3). run. cbn [prev data]. set (h4 := <[q := mkNode _ pr' d']> h3) in *.
  rewrite (set_next_ok h4 p n3 _) by (by rewrite Hframe4). run. rewrite sub_u64_ok by lia. run.
  eexists. split; [reflexivity|].
  split_and!; cbn [heap count fresh_loc]; [| |by rewrite lookup_delete_eq|done|done].
  - by rewrite lookup_delete_ne, lookup_insert_ne, loc_or_app by done.
  - apply lseg_delete; [rewrite fmap_app; by apply not_elem_of_app|].
    apply lseg_frame; [rewrite fmap_app; by apply not_elem_of_app|]. apply lseg_app. split; [done|].
    by apply lseg_frame.
Qed.

Lemma list_remove_spec s l1 l2 p k :
  rep s (l1 ++ (p, k) :: l2) -> l2 <> [] \/ l1 = [] ->
  exists s', list_remove s p = Ok (k, s') /\ rep s' (l1 ++ l2).
Proof.
  intros Hrep Hlast. pose proof Hrep as ((hp & Hhd & Hhp) & _ & Hnd & Hfr & Hc & Hc64).
  destruct (list_remove_links s l1 l2 p k hp Hrep Hhd) as (s' & -> & Hhd' & Hseg' & _ & Hcnt & Hfl).
  destruct (nodup_middle l1 l2 p k Hnd) as [Hnd' _]. destruct (fresh_middle l1 l2 p k _ Hfr) as [Hfr' _].
  exists s'. split; [done|]. rewrite length_app in Hc. cbn [length] in Hc.
  split_and!; [|done|done|by rewrite Hfl|rewrite length_app; lia|lia].
  exists hp. split; [done|]. intros Hne. rewrite Hhp by (by destruct l1). rewrite !last_loc_app, last_loc_cons. cbn [fst].
  destruct Hlast as [Hl2| ->]; (destruct l2; [done|]; by rewrite !last_loc_cons).
Qed.

(** *** A dangling tail *)





(** The node after [p], or the head when there is none, points back to [q]. *)
Lemma reinsert_back h l1 l2 p k q hp :
  h !! head_loc = Some (mkNode (loc_or (Some p) l1) hp None) -> lseg h head_loc l1 (Some p) ->
  lseg h q ((p, k) :: l2) None -> NoDup (head_loc :: (l1 ++ (p, k) :: l2).*1) ->
  exists h1 hp', (match loc_or None l2 with
      | Some nx => set_prev h nx (Some q)
      | None => set_prev h head_loc (Some q) end) = Ok h1 /\
    h1 !! head_loc = Some (mkNode (loc_or (Some p) l1) hp' None) /\ lseg h1 head_loc l1 (Some p) /\
    h1 !! p = Some (mkNode (loc_or None l2) (Some q) (Some k)) /\ lseg h1 q l2 None /\
    hp' = match l2 with [] => Some q | _ => hp end.
Proof.
  intros Hhd Hseg1 [Hp Hseg2] Hnd. destruct (nodup_middle l1 l2 p k Hnd) as (Hnd' & Hp0 & Hp1 & Hp2 & H01 & H02 & H12).
  destruct l2 as [|[r kr] l2]; cbn [loc_or].
  - rewrite (set_prev_ok _ _ _ _ Hhd). cbn [next data]. eexists _, (Some q). split; [reflexivity|].
    split_and!; [by rewrite lookup_insert_eq|by apply lseg_frame|by rewrite lookup_insert_ne|done|done].
  - pose proof (lseg_first _ _ _ _ _ _ Hseg2) as Hr. rewrite (set_prev_ok _ _ _ _ Hr). cbn [next data].
    apply NoDup_cons in Hnd' as [_ Hnd']. rewrite fmap_app, fmap_cons in Hnd'.
    apply NoDup_app in Hnd' as (_ & _ & [Hr2 _]%NoDup_cons).
    rewrite fmap_cons in Hp2, H02, H12. cbn [fst] in *.
    apply not_elem_of_cons in Hp2 as [Hpr _]. apply not_elem_of_cons in H02 as [H0r _].
    eexists _, hp. split; [reflexivity|]. split_and!; [by rewrite lookup_insert_ne| |by rewrite lookup_insert_ne| |done].
    + apply lseg_frame; [|done]. intros Hin. apply (H12 r Hin). by left.
    + by apply (lseg_set_first _ p).
Qed.

(** The last part of [reinsert_front]: the node is first, its successor points
    back to it. *)
Definition link_steps (h : gmap nat LRUNode) (p : nat) : outcome memory_error (gmap nat LRUNode) :=
  nd ← deref h p;
  match next nd with
  | Some newnext =>
      nn ← deref h newnext;
      h ← set_prev h p (prev nn);
      set_prev h newnext (Some p)
  | None => set_prev h head_loc (Some p)
  end.

Lemma link_front h L p k q hp :
  h !! head_loc = Some (mkNode (Some p) hp None) -> h !! p = Some (mkNode (loc_or None L) (Some q) (Some k)) ->
  lseg h head_loc L None -> p ∉ L.*1 -> p <> head_loc -> head_loc ∉ L.*1 -> NoDup L.*1 ->
  (L = [] -> q = head_loc) -> (L <> [] -> hp = Some (last_loc head_loc L)) ->
  exists h', link_steps h p = Ok h' /\
    h' !! head_loc = Some (mkNode (Some p) (Some (last_loc head_loc ((p, k) :: L))) None) /\
    lseg h' head_loc ((p, k) :: L) None.
Proof.
  intros Hhd Hp Hseg HpL Hp0 H0L Hnd Hq Hhp. unfold link_steps. rewrite (deref_ok _ _ _ Hp). run. cbn [next].
  destruct L as [|[f kf] L]; cbn [loc_or].
  - rewrite (set_prev_ok _ _ _ _ Hhd). eexists. split; [reflexivity|]. cbn [next data lseg loc_or].
    rewrite lookup_insert_eq, lookup_insert_ne, Hp, Hq by done. done.
  - pose proof (lseg_first _ _ _ _ _ _ Hseg) as Hf. rewrite (deref_ok _ _ _ Hf). run. cbn [prev].
    rewrite (set_prev_ok _ _ _ _ Hp). run. cbn [next data].
    rewrite fmap_cons in HpL, H0L, Hnd. cbn [fst] in *. apply not_elem_of_cons in HpL as [Hpf HpL].
    apply not_elem_of_cons in H0L as [H0f H0L]. apply NoDup_cons in Hnd as [HfL Hnd].
    erewrite set_prev_ok by (by rewrite lookup_insert_ne). eexists. split; [reflexivity|]. cbn [next data]. split.
    + rewrite !lookup_insert_ne, Hhd, Hhp, !last_loc_cons by done. done.
    + split; [by rewrite lookup_insert_ne, lookup_insert_eq by done|].
      apply (lseg_set_first _ head_loc); [done|]. apply lseg_frame; [|done]. rewrite fmap_cons. by apply not_elem_of_cons.
Qed.

Lemma reinsert_spec s l1 l2 p k :
  rep s (l1 ++ (p, k) :: l2) ->
  exists s', reinsert_front s p = Ok s' /\ rep s' ((p, k) :: l1 ++ l2).
Proof.
  intros ((hp & Hhd & Hhp) & Hseg & Hnd & Hfr & Hc & Hc64).
  destruct (nodup_middle l1 l2 p k Hnd) as (Hnd' & Hp0 & Hp1 & Hp2 & H01 & H02 & H12).
  destruct (fresh_middle l1 l2 p k _ Hfr) as [Hfr' Hfp].
  rewrite loc_or_app in Hhd. cbn [loc_or] in Hhd. apply lseg_app in Hseg as [Hseg1 Hseg2]. cbn [loc_or] in *.
  pose proof (lseg_first _ _ _ _ _ _ Hseg2) as Hp.
  destruct (reinsert_back _ _ _ _ _ _ _ Hhd Hseg1 Hseg2 Hnd) as (h1 & hp1 & Hback & Hhd1 & Hseg11 & Hp1' & Hseg21 & Hhp1).
  assert (NoDup (head_loc :: l1.*1)) as Hnd1.
  { pose proof Hnd' as [_ Hnd12]%NoDup_cons. rewrite fmap_app in Hnd12. apply NoDup_app in Hnd12 as (? & _).
    by apply NoDup_cons. }
  destruct (pred_spec h1 l1 (Some p) hp1 Hhd1 Hseg11 Hnd1) as (pr & d & Hq & Hset).
  destruct (Hset (loc_or None l2)) as (Hhd2 & Hseg12 & Hframe). set (q := last_loc head_loc l1) in *.
  set (h2 := <[q := mkNode (loc_or None l2) pr d]> h1) in *.
  assert (q ∉ l2.*1) as Hq2.
  { unfold q. destruct l1 as [|x l1]; [done|]. by apply H12, last_loc_in. }
  assert (lseg h2 head_loc (l1 ++ l2) None) as Hseg2L by (apply lseg_app; split; [done|by apply lseg_frame]).
  assert (h2 !! p = Some (mkNode (loc_or None l2) (Some q) (Some k))) as Hp2' by (by rewrite Hframe).
  rewrite <- loc_or_app in Hhd2. set (L := l1 ++ l2) in *.
  unfold reinsert_front. rewrite (deref_ok _ _ _ Hp). run. cbn [prev next unwrap]. run. rewrite Hback. run.
  rewrite (deref_ok _ _ _ Hq). run. rewrite (deref_ok _ _ _ Hp1'). run. rewrite (set_next_ok _ _ _ _ Hq). run.
  cbn [next prev data]. fold h2. rewrite (set_next_ok _ _ _ _ Hp2'). run. cbn [prev data].
  erewrite (deref_ok _ p) by (by rewrite lookup_insert_eq). run.
  erewrite (deref_ok _ head_loc) by (by rewrite lookup_insert_ne). run. cbn [next].
  erewrite (set_next_ok _ p) by (by rewrite lookup_insert_eq). run. cbn [prev data]. rewrite insert_insert_eq.
  erewrite (set_next_ok _ head_loc) by (by rewrite lookup_insert_ne). run. cbn [next prev data].
  assert (p ∉ L.*1) as HpL by (unfold L; rewrite fmap_app; by apply not_elem_of_app).
  assert (head_loc ∉ L.*1) as H0L by (unfold L; rewrite fmap_app; by apply not_elem_of_app).
  set (h5 := <[head_loc := _]> _).
  destruct (link_front h5 L p k q hp1) as (h6 & Hlink & Hhd6 & Hseg6); try done.
  - unfold h5. by rewrite lookup_insert_eq.
  - unfold h5. by rewrite lookup_insert_ne, lookup_insert_eq.
  - unfold h5. by apply lseg_frame, lseg_frame.
  - apply NoDup_cons in Hnd' as [_ ?]. done.
  - intros HL. apply app_eq_nil in HL as [-> _]. done.
  - intros Hne. subst hp1. unfold L in *. rewrite last_loc_app. fold q. destruct l2 as [|y l2]; [done|].
    rewrite Hhp by (by destruct l1). by rewrite last_loc_app, !last_loc_cons.
  - unfold link_steps in Hlink. destruct (deref h5 p) as [nd| | |]; try discriminate Hlink. revert Hlink. run. intros ->. run.
    rewrite (deref_ok _ _ _ Hhd6). run. cbn [next prev]. rewrite !bool_decide_true by (by eexists). cbn [assert_]. run.
    eexists. split; [reflexivity|]. split_and!; cbn [heap count fresh_loc]; [by eexists|done| | | |done].
    + rewrite fmap_cons. apply NoDup_cons. rewrite not_elem_of_cons. split; [done|]. apply NoDup_cons.
      split; [done|]. by apply NoDup_cons in Hnd' as [_ ?].
    + rewrite fmap_cons. apply Forall_cons in Hfr' as [? ?]. by repeat apply Forall_cons_2.
    + rewrite Hc. unfold L. cbn [length]. rewrite !length_app. cbn [length]. lia.
Qed.

End ops.
(** ** The abstract LRU map and the refinement *)

Section cache.
Context {P : BuildProfile} {T : Type}.

(** Entries from the most to the least recently used. *)
Notation entries := (list (CacheKey * T)).

Fixpoint assoc (k : CacheKey) (es : entries) : option T :=
  match es with
  | [] => None
  | (k', v) :: es' => if decide (k' = k) then Some v else assoc k es'
  end.
Definition del (k : CacheKey) (es : entries) : entries := base.filter (fun e => e.1 <> k) es.

Inductive op := Insert (k : CacheKey) (v : T) | Get (k : CacheKey) | Remove (k : CacheKey).
Inductive reply := Done | Value (o : option T).

Definition spec_step (n : nat) (es : entries) (o : op) : reply * entries :=
  match o with
  | Insert k v => (Done, (k, v) :: (if (n <=? length es)%nat then removelast es else es))
  | Get k => (Value (assoc k es), match assoc k es with Some v => (k, v) :: del k es | None => es end)
  | Remove k => (Value (assoc k es), del k es)
  end.

Definition step (c : Cache) (o : op) : outcome memory_error (reply * Cache) :=
  match o with
  | Insert k v => c ← insert c k v; Ok (Done, c)
  | Get k => '(r, c) ← get c k; Ok (Value r, c)
  | Remove k => '(r, c) ← remove c k; Ok (Value r, c)
  end.

(** A new key is absent; the key that is removed is not the oldest of several. *)
Definition legal (es : entries) (o : op) : Prop :=
  match o with
  | Insert k _ => assoc k es = None
  | Get _ => True
  | Remove k => (length es <= 1)%nat \/ fst <$> last es <> Some k
  end.

Fixpoint run_spec (n : nat) (es : entries) (os : list op) : list reply * entries :=
  match os with
  | [] => ([], es)
  | o :: os' => let '(r, es) := spec_step n es o in
                let '(rs, es) := run_spec n es os' in (r :: rs, es)
  end.

Fixpoint run_ops (c : Cache) (os : list op) : outcome memory_error (list reply * Cache) :=
  match os with
  | [] => Ok ([], c)
  | o :: os' => '(r, c) ← step c o; '(rs, c) ← run_ops c os'; Ok (r :: rs, c)
  end.

Fixpoint legal_run (n : nat) (es : entries) (os : list op) : Prop :=
  match os with
  | [] => True
  | o :: os' => legal es o /\ legal_run n (spec_step n es o).2 os'
  end.

(** A cache represents a list of entries: its list links the keys in that order,
    its map sends each key to its value and node. *)
Definition keys (L : list (nat * (CacheKey * T))) : cells := (fun x => (x.1, x.2.1)) <$> L.

Definition crep (c : Cache) (n : nat) (es : entries) : Prop :=
  exists L, rep (list_ c) (keys L) /\ es = L.*2 /\ NoDup es.*1 /\
    (forall k v p, map_ c !! k = Some (v, p) <-> (p, (k, v)) ∈ L) /\
    cap c = Z.of_nat n /\ (length L <= n)%nat /\ (0 < n)%nat /\ Z.of_nat n < U64.

Lemma keys_app L1 L2 : keys (L1 ++ L2) = keys L1 ++ keys L2.
Proof. apply fmap_app. Qed.

Lemma length_keys L : length (keys L) = length L.
Proof. apply length_fmap. Qed.

(** Splitting at a key. *)
Lemma split_at (L : list (nat * (CacheKey * T))) k v p :
  NoDup (L.*2).*1 -> (p, (k, v)) ∈ L ->
  exists L1 L2, L = L1 ++ (p, (k, v)) :: L2 /\ assoc k L.*2 = Some v /\ del k L.*2 = (L1 ++ L2).*2 /\
    (forall q w, (q, (k, w)) ∈ L -> q = p /\ w = v) /\
    (forall q k' w, (q, (k', w)) ∈ L1 ++ L2 -> k' <> k).
Proof.
  intros Hnd (L1 & L2 & ->)%list_elem_of_split. exists L1, L2. split; [done|].
  rewrite fmap_app, fmap_app, !fmap_cons in Hnd. cbn [snd fst] in Hnd.
  assert (forall q k' w, (q, (k', w)) ∈ L1 ++ L2 -> k' <> k) as Hne.
  { intros q k' w [Hin|Hin]%elem_of_app ->; apply NoDup_app in Hnd as (Hnd1 & Hdis & Hnd2).
    - apply (Hdis k); [|by left]. apply list_elem_of_fmap. exists (k, w). split; [done|].
      apply list_elem_of_fmap. by exists (q, (k, w)).
    - apply NoDup_cons in Hnd2 as [Hk _]. apply Hk. apply list_elem_of_fmap. exists (k, w). split; [done|].
      apply list_elem_of_fmap. by exists (q, (k, w)). }
  assert (forall M : list (nat * (CacheKey * T)), (forall q k' w, (q, (k', w)) ∈ M -> k' <> k) -> del k M.*2 = M.*2) as Hdel.
  { induction M as [|[q [k' w]] M IH]; intros HM; [done|]. unfold del in *. rewrite fmap_cons. cbn [snd].
    rewrite filter_cons_True by (cbn; apply (HM q k' w); by left). f_equal. apply IH. intros q' k'' w' Hin.
    apply (HM q' k'' w'). by right. }
  split_and!; [| | |done].
  - clear Hnd Hdel. induction L1 as [|[q [k' w]] L1 IH]; cbn; [by rewrite decide_True|].
    rewrite decide_False by (apply (Hne q k' w); by left). apply IH. intros q' k'' w' Hin. apply (Hne q' k'' w'). by right.
  - unfold del in *. rewrite fmap_app, filter_app, fmap_cons. cbn [snd]. rewrite filter_cons_False by (cbn; tauto).
    rewrite fmap_app. rewrite !Hdel; [done| |]; intros q k' w Hin; apply (Hne q k' w), elem_of_app; tauto.
  - intros q w Hin. apply elem_of_app in Hin as [Hin|[[= <- <-]|Hin]%elem_of_cons]; [|done|];
      exfalso; apply (Hne q k w); [apply elem_of_app; tauto|done|apply elem_of_app; tauto|done].
Qed.

Lemma assoc_none k (es : entries) v : assoc k es = None -> (k, v) ∉ es.
Proof.
  induction es as [|[k' w] es IH]; intros Ha Hin; [by apply elem_of_nil in Hin|]. cbn in Ha.
  destruct (decide (k' = k)); [done|]. apply elem_of_cons in Hin as [[= <- <-]|Hin]; [done|]. by apply IH.
Qed.

Lemma assoc_in k (es : entries) v : assoc k es = Some v -> (k, v) ∈ es.
Proof.
  induction es as [|[k' w] es IH]; cbn; [done|]. destruct (decide (k' = k)) as [->|]; [intros [= ->]; by left|].
  intros. right. by apply IH.
Qed.

(** The map and the entries agree on a key. *)
Lemma map_assoc c n es k : crep c n es -> fst <$> (map_ c !! k) = assoc k es.
Proof.
  intros (L & _ & -> & Hnd & Hm & _). destruct (map_ c !! k) as [[v p]|] eqn:Hk.
  - apply Hm in Hk. destruct (split_at L k v p Hnd Hk) as (L1 & L2 & _ & -> & _). done.
  - destruct (assoc k L.*2) as [v|] eqn:Ha; [|done]. exfalso.
    apply assoc_in, list_elem_of_fmap in Ha as ([p [k' v']] & [= <- <-] & Hin). apply Hm in Hin. congruence.
Qed.

(** Making room for an insertion. *)
Lemma make_room c n es :
  crep c n es ->
  exists l m L, (if cap c <=? count (list_ c) then
     '(o, l) ← remove_last (list_ c);
     match o with
     | Some removed_key =>
         _ ← assert_ (bool_decide (is_Some (map_ c !! removed_key)));
         Ok (l, delete removed_key (map_ c))
     | None => Panic
     end
   else Ok (list_ c, map_ c)) = Ok (l, m) /\
   rep l (keys L) /\ L.*2 = (if (n <=? length es)%nat then removelast es else es) /\
   NoDup (L.*2).*1 /\ (forall k v p, m !! k = Some (v, p) <-> (p, (k, v)) ∈ L) /\
   (length L < n)%nat /\ (forall x, x ∈ L.*2 -> x ∈ es).
Proof.
  intros (L & Hrep & -> & Hnd & Hm & Hcap & Hlen & Hn & Hn64).
  pose proof Hrep as (_ & _ & _ & _ & Hc & _). rewrite length_keys in Hc. rewrite Hc, Hcap, length_fmap.
  destruct (Nat.leb_spec n (length L)) as [Hge|Hlt].
  2:{ rewrite (proj2 (Z.leb_gt _ _)) by lia. by exists (list_ c), (map_ c), L. }
  rewrite (proj2 (Z.leb_le _ _)) by lia. destruct L as [|[p [k v]] L _] using rev_ind; [cbn in *; lia|].
  rewrite keys_app in Hrep. destruct (remove_last_spec _ _ _ _ Hrep) as (l & -> & Hrep'). run. cbn [fst snd].
  assert (map_ c !! k = Some (v, p)) as Hk by (apply Hm, elem_of_app; right; by left).
  rewrite bool_decide_true by (rewrite Hk; by eexists). cbn [assert_]. run.
  destruct (split_at _ k v p Hnd ltac:(apply elem_of_app; right; by left)) as (_ & _ & _ & _ & _ & Huniq & _).
  exists l, (delete k (map_ c)), L. rewrite fmap_app in Hnd |- *. cbn [fmap list_fmap snd] in *.
  rewrite removelast_last. rewrite fmap_app in Hnd. cbn [fmap list_fmap fst] in Hnd.
  apply NoDup_app in Hnd as (Hnd1 & Hdis & _). rewrite length_app in Hlen. cbn [length] in Hlen.
  split_and!; [done|done|done|done| |lia|intros x Hx; apply elem_of_app; by left].
  intros k' v' p'. destruct (decide (k' = k)) as [->|Hne].
  - rewrite lookup_delete_eq. split; [done|]. intros Hin. exfalso. apply (Hdis k); [|by left].
    apply list_elem_of_fmap. exists (k, v'). split; [done|]. apply list_elem_of_fmap. by exists (p', (k, v')).
  - rewrite lookup_delete_ne, Hm, elem_of_app by done. split; [|by left].
    intros [?|[[= -> -> ->]|?%elem_of_nil]%elem_of_cons]; done.
Qed.

Lemma insert_sim c n es k v :
  crep c n es -> assoc k es = None ->
  exists c', insert c k v = Ok c' /\
    crep c' n ((k, v) :: (if (n <=? length es)%nat then removelast es else es)).
Proof.
  intros Hc Ha. destruct (make_room c n es Hc) as (l & m & L & Hroom & Hrep & <- & Hnd & Hm & Hlen & Hsub).
  destruct Hc as (_ & _ & _ & _ & _ & Hcap & _ & Hn & Hn64).
  unfold insert. rewrite Hroom. run. pose proof Hrep as (_ & _ & _ & _ & Hcnt & _). rewrite length_keys in Hcnt.
  destruct (list_insert_spec l (keys L) k Hrep) as (p & l' & -> & Hrep' & _); [lia|]. run.
  eexists. split; [reflexivity|]. exists ((p, (k, v)) :: L).
  split_and!; cbn [list_ map_ cap]; [done|done| | |done|cbn; lia|done|done].
  - rewrite !fmap_cons. apply NoDup_cons. split; [|done].
    intros ([k' w] & Heq & Hin)%list_elem_of_fmap. cbn in Heq. subst k'. by apply (assoc_none _ _ w Ha), Hsub.
  - intros k' v' p'. destruct (decide (k' = k)) as [->|Hne].
    + rewrite lookup_insert_eq, elem_of_cons. split; [intros [= -> ->]; by left|].
      intros [[= -> ->]|Hin]; [done|]. exfalso. apply (assoc_none _ _ v' Ha), Hsub.
      apply list_elem_of_fmap. by exists (p', (k, v')).
    + rewrite lookup_insert_ne, Hm, elem_of_cons by done. split; [by right|]. by intros [[= _ -> _]|?].
Qed.

(** Permuting or removing entries keeps the rest of the relation. *)
Lemma get_sim c n es k :
  crep c n es -> exists c', get c k = Ok (assoc k es, c') /\
    crep c' n (match assoc k es with Some v => (k, v) :: del k es | None => es end).
Proof.
  intros Hc. rewrite <- (map_assoc c n es k Hc). unfold get. destruct (map_ c !! k) as [[v p]|] eqn:Hk; cbn [fmap option_fmap option_map fst].
  2:{ by exists c. }
  destruct Hc as (L & Hrep & -> & Hnd & Hm & Hcap & Hlen & Hn). pose proof (proj1 (Hm _ _ _) Hk) as Hin.
  destruct (split_at L k v p Hnd Hin) as (L1 & L2 & -> & _ & Hdel & _ & _).
  rewrite keys_app in Hrep. change (keys ((p, (k, v)) :: L2)) with ((p, k) :: keys L2) in Hrep.
  destruct (reinsert_spec _ _ _ _ _ Hrep) as (l & -> & Hrep'). run.
  eexists. split; [reflexivity|]. exists ((p, (k, v)) :: L1 ++ L2). rewrite Hdel.
  assert ((p, (k, v)) :: L1 ++ L2 ≡ₚ L1 ++ (p, (k, v)) :: L2) as Hperm by apply Permutation_middle.
  split_and!; cbn [list_ map_ cap]; [by rewrite <- keys_app in Hrep'|done| | |done| |apply Hn|apply Hn].
  - change ((k, v) :: (L1 ++ L2).*2) with (((p, (k, v)) :: L1 ++ L2).*2). by rewrite Hperm.
  - intros k' v' p'. by rewrite Hm, Hperm.
  - by rewrite Hperm.
Qed.

Lemma remove_sim c n es k :
  crep c n es -> (length es <= 1)%nat \/ fst <$> last es <> Some k ->
  exists c', remove c k = Ok (assoc k es, c') /\ crep c' n (del k es).
Proof.
  intros Hc Hlegal. rewrite <- (map_assoc c n es k Hc). unfold remove.
  destruct (map_ c !! k) as [[v p]|] eqn:Hk; cbn [fmap option_fmap option_map fst].
  2:{ exists c. split; [done|]. pose proof (map_assoc c n es k Hc) as Ha. rewrite Hk in Ha. cbn in Ha.
      assert (del k es = es) as ->; [|done]. clear -Ha. symmetry in Ha. unfold del.
      induction es as [|[k' w] es IH]; [done|]. cbn in Ha. destruct (decide (k' = k)); [done|].
      rewrite filter_cons_True by done. f_equal. by apply IH. }
  destruct Hc as (L & Hrep & -> & Hnd & Hm & Hcap & Hlen & Hn). pose proof (proj1 (Hm _ _ _) Hk) as Hin.
  destruct (split_at L k v p Hnd Hin) as (L1 & L2 & -> & _ & Hdel & Huniq & Hne).
  rewrite keys_app in Hrep. change (keys ((p, (k, v)) :: L2)) with ((p, k) :: keys L2) in Hrep.
  destruct (list_remove_spec _ _ _ _ _ Hrep) as (l & -> & Hrep').
  { destruct Hlegal as [Hl|Hl].
    - rewrite length_fmap, length_app in Hl. cbn [length] in Hl. right. by destruct L1; [|cbn in Hl; lia].
    - left. intros HL2. apply Hl. destruct L2; [|done]. rewrite fmap_app, last_app. done. }
  run. eexists. split; [reflexivity|]. exists (L1 ++ L2). rewrite Hdel.
  split_and!; cbn [list_ map_ cap]; [by rewrite <- keys_app in Hrep'|done| | |done| |apply Hn|apply Hn].
  - rewrite !fmap_app, !fmap_cons in Hnd. rewrite !fmap_app. apply NoDup_app in Hnd as (H1 & H2 & [_ H3]%NoDup_cons).
    apply NoDup_app. split_and!; [done| |done]. intros x Hx Hx2. apply (H2 x Hx). by right.
  - intros k' v' p'. destruct (decide (k' = k)) as [->|Hk'].
    + rewrite lookup_delete_eq. split; [done|]. intros H. by apply Hne in H.
    + rewrite lookup_delete_ne, Hm, !elem_of_app, elem_of_cons by done. split; [|tauto].
      intros [?|[[= _ -> _]|?]]; [by left|done|by right].
  - rewrite length_app in Hlen |- *. cbn [length] in Hlen. lia.
Qed.




Lemma step_sim c n es o :
  crep c n es -> legal es o ->
  exists c', step c o = Ok ((spec_step n es o).1, c') /\ crep c' n (spec_step n es o).2.
Proof.
  intros Hc Hl. destruct o as [k v|k|k]; cbn [step spec_step fst snd].
  - destruct (insert_sim c n es k v Hc Hl) as (c' & -> & Hc'). run. by exists c'.
  - destruct (get_sim c n es k Hc) as (c' & -> & Hc'). run. by exists c'.
  - destruct (remove_sim c n es k Hc Hl) as (c' & -> & Hc'). run. by exists c'.
Qed.

Lemma new_crep (n : nat) : (0 < n)%nat -> Z.of_nat n < U64 -> exists c0, new (Z.of_nat n) = Ok c0 /\ crep c0 n [].
Proof.
  intros Hn Hn64. unfold new. rewrite (proj2 (Z.ltb_lt _ _)) by lia. cbn [assert_]. run. eexists. split; [reflexivity|].
  exists []. split_and!; try done; [apply rep_new|apply NoDup_nil_2| |cbn; lia].
  intros k v p. cbn [map_]. rewrite lookup_empty. split; [done|]. by intros ?%elem_of_nil.
Qed.

Lemma run_sim n os : forall c es, crep c n es -> legal_run n es os ->
  exists c', run_ops c os = Ok ((run_spec n es os).1, c') /\ crep c' n (run_spec n es os).2.
Proof.
  induction os as [|o os IH]; intros c es Hc Hl; [by exists c|]. destruct Hl as [Ho Hl].
  cbn [run_ops run_spec]. destruct (step_sim c n es o Hc Ho) as (c1 & -> & Hc1). run.
  destruct (spec_step n es o) as [r es1]. cbn [fst snd] in *.
  destruct (IH c1 es1 Hc1 Hl) as (c' & -> & Hc'). run. destruct (run_spec n es1 os). by exists c'.
Qed.


(** C17. On every sequence of operations that inserts absent keys only and never
    removes the oldest of several keys, a cache of capacity [n] behaves like the
    abstract LRU map of that capacity: it returns the same answers, never panics
    and never touches freed memory, and its list and map stay consistent. *)
Theorem cache_refines_lru (n : nat) (os : list op) :
  (0 < n)%nat -> Z.of_nat n < U64 -> legal_run n [] os ->
  exists c0 c, new (Z.of_nat n) = Ok c0 /\ run_ops c0 os = Ok ((run_spec n [] os).1, c) /\
    crep c n (run_spec n [] os).2 /\ cache_count c = Z.of_nat (length (run_spec n [] os).2).
Proof.
  intros Hn Hn64 Hl. destruct (new_crep n Hn Hn64) as (c0 & -> & Hc0). destruct (run_sim n os c0 [] Hc0 Hl) as (c & He & Hc).
  exists c0, c. split_and!; [done|done|done|].
  destruct Hc as (L & (_ & _ & _ & _ & Hcnt & _) & -> & _). unfold cache_count. by rewrite Hcnt, length_keys, length_fmap.
Qed.


End cache.
Lemma cache_refines_lru_witness :
  let profile : BuildProfile := true in
  let os := [Insert [1] 10; Insert [2] 20; Get [1]; Insert [3] 30; Get [2]; Remove [3]; Get [1]] in
  exists c0 c, new (T := Z) (Z.of_nat 2) = Ok c0 /\ run_ops c0 os = Ok ((run_spec 2 [] os).1, c) /\
    crep c 2 (run_spec 2 [] os).2 /\ cache_count c = Z.of_nat (length (run_spec 2 [] os).2).
Proof.
  intros profile os. apply (cache_refines_lru 2 os); [lia|done|].
  unfold os. cbn [legal_run]. split_and!; try done. right. vm_compute. discriminate.
Defined.


(** Inserting a key that is present puts it on the list twice while the map
    keeps one entry: evicting its first copy drops the live entry, and evicting
    the second one panics. *)
Theorem reinsert_key_panics {P : BuildProfile} :
  exists c0, new (T := Z) 2 = Ok c0 /\
    (exists c, run_ops c0 [Insert [1] 10; Insert [1] 11; Insert [2] 20; Get [1]] =
       Ok ([Done; Done; Done; Value None], c)) /\
    run_ops c0 [Insert [1] 10; Insert [1] 11; Insert [2] 20; Insert [3] 30] = Panic.
Proof.
  eexists. split; [reflexivity|]. split; [eexists|]; destruct P; vm_compute; reflexivity.
Qed.

End lru_facts.
