(* ===== verification/Wal.v ===== *)
(** * The write-ahead log (tskv/src/wal.rs)

    A segment is a 32-byte header (magic, smallest and largest sequence number)
    and entries of a 17-byte header and data.  [wal] translates the writer, the
    part of the manager that writes and rolls, the reader, and which entries
    recovery replays; a file is a byte list under the contract of FileIO, and a
    writer says whether its last bytes were synced.

    The theorems give the round trip of a segment, and what happens to its
    entries when the header is rewritten and when recovery runs before the header
    is rewritten. *)
From S2P Require Import Prelude Utils FileIO Tsm TsmFacts.

Module wal.
Import bytes_file.

(** ** Definitions *)

Definition SEGMENT_HEADER_SIZE : nat := 32.
Definition SEGMENT_MAGIC : list Z := [0x57; 0x47; 0x4c; 0x00].
Definition SEGMENT_SIZE : Z := 1073741824.
Definition BLOCK_HEADER_SIZE : nat := 17.

Inductive WalEntryType := Write | Delete | DeleteRange | Unknown.

Definition type_of_u8 (typ : Z) : WalEntryType :=
  if typ =? 1 then Write else if typ =? 2 then Delete else if typ =? 3 then DeleteRange else Unknown.

(** [typ as u8]. *)
Definition type_to_u8 (t : WalEntryType) : Z :=
  match t with Write => 1 | Delete => 2 | DeleteRange => 3 | Unknown => 127 end.

Record WalEntryBlock := mkWalEntryBlock {
  typ : WalEntryType; seq : Z; crc : Z; len : Z; buf : list Z }.

Section wal.
Context {P : BuildProfile} {PIO : PageIO} {Crc : Crc32}.

Definition entry_new (t : WalEntryType) (b : list Z) : WalEntryBlock :=
  mkWalEntryBlock t 0 (crc32_hash b) (u32 (Z.of_nat (length b))) b.

Definition entry_from_bytes (bytes : list Z) : outcome io_error WalEntryBlock :=
  t ← get bytes 0;
  s ← slice bytes 1 9; seq ← unwrap (byte_utils.decode_be_u64 s);
  s ← slice bytes 9 13; crc ← unwrap (byte_utils.decode_be_u32 s);
  s ← slice bytes 13 17; len ← unwrap (byte_utils.decode_be_u32 s);
  b ← slice_from bytes 17;
  Ok (mkWalEntryBlock (type_of_u8 t) seq crc len b).

(** The path is left out; [file] is the content, [config_sync] the [sync] flag of
    the configuration, and [synced] says whether the last bytes written to the file
    were followed by a [sync_all]. *)
Record WalWriter := mkWalWriter {
  id : Z; file : list Z; size : nat; header_buf : list Z; min_sequence : Z; max_sequence : Z;
  config_sync : bool; synced : bool }.

(** [existing] is the content of the file at the path, if there is one. *)
Definition open (id : Z) (sync : bool) (existing : option (list Z)) : outcome io_error WalWriter :=
  let '(file, new_file) := match existing with
    | Some f => (f, (length f =? 0)%nat)
    | None => ([], true)
    end in
  let header_buf := replicate SEGMENT_HEADER_SIZE 0 in
  if new_file then
    header_buf ← copy_at header_buf 0 SEGMENT_MAGIC;
    let file := write_at file 0 header_buf in
    Ok (mkWalWriter id file (length file) header_buf 0 0 sync true)
  else
    bytes ← read_at file 0 SEGMENT_HEADER_SIZE;
    let header_buf := bytes ++ drop (length bytes) header_buf in
    s ← slice header_buf 4 12; mn ← unwrap (byte_utils.decode_be_u64 s);
    s ← slice header_buf 12 20; mx ← unwrap (byte_utils.decode_be_u64 s);
    Ok (mkWalWriter id file (length file) header_buf mn mx sync true).

(** The five [write_at] calls, and a [sync_all] when the configuration asks for
    it; the position advances by the size of each write. *)
Definition write (w : WalWriter) (t : WalEntryType) (data : list Z)
    : outcome io_error (WalWriter * (Z * nat)) :=
  let pos := size w in
  let f := write_at (file w) pos [type_to_u8 t] in
  let pos := (pos + 1)%nat in
  let f := write_at f pos (to_be_bytes 8 (max_sequence w)) in
  let pos := (pos + 8)%nat in
  let f := write_at f pos (to_be_bytes 4 (crc32_hash data)) in
  let pos := (pos + 4)%nat in
  let f := write_at f pos (to_be_bytes 4 (u32 (Z.of_nat (length data)))) in
  let pos := (pos + 4)%nat in
  let f := write_at f pos data in
  let pos := (pos + length data)%nat in
  let synced := if config_sync w then true else false in
  seq ← add_u64 (max_sequence w) 1;
  let writen_size := (pos - size w)%nat in
  Ok (mkWalWriter (id w) f pos (header_buf w) (min_sequence w) seq (config_sync w) synced, (seq, writen_size)).

Definition flush (w : WalWriter) : outcome io_error WalWriter :=
  h ← copy_at (header_buf w) 4 (to_be_bytes 8 (min_sequence w));
  h ← copy_at h 12 (to_be_bytes 8 (max_sequence w));
  let f := write_at (file w) 0 h in
  Ok (mkWalWriter (id w) f (size w) h (min_sequence w) (max_sequence w) (config_sync w) true).

(** [WalManager::roll_wal_file] and [write]: the next file has the name of the
    current one. *)
Definition roll_wal_file (w : WalWriter) : outcome io_error WalWriter :=
  if SEGMENT_SIZE <? Z.of_nat (size w) then
    w ← flush w;
    open (id w) (config_sync w) (Some (file w))
  else Ok w.

Definition manager_write (w : WalWriter) (t : WalEntryType) (data : list Z)
    : outcome io_error (WalWriter * (Z * nat)) :=
  w ← roll_wal_file w;
  write w t data.

(** ** The reader *)

Record WalReader := mkWalReader {
  cursor_ : Cursor; reader_max : Z; block_header_buf : list Z; body_buf : list Z }.

Definition reade_header (c : Cursor) : outcome io_error (Cursor * list Z) :=
  '(c, _) ← seek c (cursor.Start 0);
  tsm.read_into c (replicate SEGMENT_HEADER_SIZE 0) SEGMENT_HEADER_SIZE.

Definition reader_new (c : Cursor) : outcome io_error WalReader :=
  '(c, header_buf) ← reade_header c;
  s ← slice header_buf 12 20; mx ← unwrap (byte_utils.decode_be_u64 s);
  Ok (mkWalReader c mx (replicate BLOCK_HEADER_SIZE 0) []).

(** [unwrap] of a read turns an error into a panic; a read has none. *)
Definition next_wal_entry (r : WalReader) : outcome io_error (option WalEntryBlock * WalReader) :=
  '(c, bytes) ← bytes_file.read (cursor_ r) BLOCK_HEADER_SIZE;
  let hb := bytes ++ drop (length bytes) (block_header_buf r) in
  let r := mkWalReader c (reader_max r) hb (body_buf r) in
  if (length bytes <? 8)%nat then Ok (None, r)
  else
    t ← get hb 0;
    s ← slice hb 1 9; seq ← unwrap (byte_utils.decode_be_u64 s);
    s ← slice hb 9 13; crc ← unwrap (byte_utils.decode_be_u32 s);
    s ← slice hb 13 17; data_len ← unwrap (byte_utils.decode_be_u32 s);
    if data_len =? 0 then Ok (None, r)
    else
      let n := Z.to_nat data_len in
      let body := if (length (body_buf r) <? n)%nat then vec_resize n 0 (body_buf r) else body_buf r in
      buf ← slice body 0 n;
      '(c, bytes) ← bytes_file.read c n;
      let buf := bytes ++ drop (length bytes) buf in
      Ok (Some (mkWalEntryBlock (type_of_u8 t) seq crc (u32 (Z.of_nat (length bytes))) buf),
          mkWalReader c (reader_max r) hb (buf ++ drop n body)).

(** [while let Some(e) = reader.next_wal_entry()]. *)
Fixpoint read_all (fuel : nat) (r : WalReader) : outcome io_error (list WalEntryBlock) :=
  match fuel with
  | O => OutOfFuel
  | S fuel' =>
      '(o, r) ← next_wal_entry r;
      match o with
      | None => Ok []
      | Some e => es ← read_all fuel' r; Ok (e :: es)
      end
  end.

(** The entries of one file that [WalManager::recover] replays. *)
Definition recover_file (fuel : nat) (sync : bool) (min_log_seq : Z) (f : list Z)
    : outcome io_error (list WalEntryBlock) :=
  w ← open 0 sync (Some f);
  r ← reader_new (mkCursor (file w) 0);
  if reader_max r <? min_log_seq then Ok []
  else
    es ← read_all fuel r;
    Ok (base.filter (fun e => min_log_seq <= seq e) es).

End wal.
End wal.

(** ** Segments *)
Module wal_facts.
Import bytes_file wal.

Section facts.
Context {P : BuildProfile} {PIO : PageIO} {Crc : Crc32}.

Lemma write_at_end d b : write_at d (length d) b = d ++ b.
Proof.
  pose proof (tsm_facts.write_eof d b) as H. unfold bytes_file.write, tsm_facts.eof in H. cbn [data at_] in H.
  by injection H.
Qed.

(** The bytes of an entry. *)
Definition entry_bytes (t : WalEntryType) (s : Z) (d : list Z) : list Z :=
  ([type_to_u8 t] ++ to_be_bytes 8 s ++ to_be_bytes 4 (crc32_hash d) ++
   to_be_bytes 4 (u32 (Z.of_nat (length d)))) ++ d.

Lemma length_entry_bytes t s d : length (entry_bytes t s d) = (17 + length d)%nat.
Proof. unfold entry_bytes. rewrite !length_app, !length_to_be_bytes. cbn. lia. Qed.

Lemma write_spec w t d :
  size w = length (file w) -> 0 <= max_sequence w -> max_sequence w + 1 < U64 ->
  wal.write w t d =
  Ok (mkWalWriter (id w) (file w ++ entry_bytes t (max_sequence w) d) (length (file w) + (17 + length d))
        (header_buf w) (min_sequence w) (max_sequence w + 1) (config_sync w) (config_sync w),
      (max_sequence w + 1, (17 + length d)%nat)).
Proof.
  intros Hs H0 Hm. unfold wal.write. rewrite Hs, write_at_end.
  assert (forall f (n : nat) b, n = length f -> write_at f n b = f ++ b) as Happ by (intros f n b ->; apply write_at_end).
  set (f1 := file w ++ _). rewrite (Happ f1) by (unfold f1; rewrite length_app; cbn; lia).
  set (f2 := f1 ++ _). rewrite (Happ f2) by (unfold f2, f1; rewrite !length_app, length_to_be_bytes; cbn; lia).
  set (f3 := f2 ++ _). rewrite (Happ f3) by (unfold f3, f2, f1; rewrite !length_app, !length_to_be_bytes; cbn; lia).
  set (f4 := f3 ++ _). rewrite (Happ f4) by (unfold f4, f3, f2, f1; rewrite !length_app, !length_to_be_bytes; cbn; lia).
  unfold f4, f3, f2, f1.
  rewrite add_u64_ok by range. run. unfold entry_bytes. rewrite <- !app_assoc.
  replace (length (file w) + 1 + 8 + 4 + 4 + length d)%nat with (length (file w) + (17 + length d))%nat by lia.
  replace (length (file w) + (17 + length d) - length (file w))%nat with (17 + length d)%nat by lia.
  by destruct (config_sync w).
Qed.

(** Writing a list of entries. *)
Fixpoint write_list (w : WalWriter) (es : list (WalEntryType * list Z))
    : outcome io_error (WalWriter * list (Z * nat)) :=
  match es with
  | [] => Ok (w, [])
  | (t, d) :: es' => '(w, r) ← wal.write w t d; '(w, rs) ← write_list w es'; Ok (w, r :: rs)
  end.

Fixpoint stream (s : Z) (es : list (WalEntryType * list Z)) : list Z :=
  match es with
  | [] => []
  | (t, d) :: es' => entry_bytes t s d ++ stream (s + 1) es'
  end.

(** The numbers returned to the callers: one more than the stored ones. *)
Fixpoint replies (s : Z) (es : list (WalEntryType * list Z)) : list (Z * nat) :=
  match es with
  | [] => []
  | (t, d) :: es' => (s + 1, (17 + length d)%nat) :: replies (s + 1) es'
  end.

Lemma write_list_spec es : forall w,
  size w = length (file w) -> 0 <= max_sequence w -> max_sequence w + Z.of_nat (length es) < U64 ->
  write_list w es =
  Ok (mkWalWriter (id w) (file w ++ stream (max_sequence w) es) (length (file w ++ stream (max_sequence w) es))
        (header_buf w) (min_sequence w) (max_sequence w + Z.of_nat (length es)) (config_sync w)
        (if es is [] then synced w else config_sync w), replies (max_sequence w) es).
Proof.
  induction es as [|[t d] es IH]; intros w Hs H0 Hm.
  { cbn. rewrite app_nil_r, Z.add_0_r. destruct w. cbn in *. by subst. }
  cbn [write_list length] in *. rewrite write_spec by (done || lia). run.
  rewrite IH; cbn [size file max_sequence id header_buf min_sequence config_sync synced];
    [|by rewrite length_app, length_entry_bytes|lia|lia].
  run. cbn [stream replies]. rewrite <- app_assoc.
  replace (max_sequence w + 1 + Z.of_nat (length es)) with (max_sequence w + Z.of_nat (S (length es))) by lia.
  by destruct es.
Qed.

(** The entries the reader returns: those before the first one without data. *)
Fixpoint readable (s : Z) (es : list (WalEntryType * list Z)) : list WalEntryBlock :=
  match es with
  | (t, (_ :: _) as d) :: es' =>
      mkWalEntryBlock t s (u32 (crc32_hash d)) (Z.of_nat (length d)) d :: readable (s + 1) es'
  | _ => []
  end.

Lemma type_roundtrip t : type_of_u8 (type_to_u8 t) = t.
Proof. by destruct t. Qed.

(** Reading at a position of the file. *)
Lemma read_at_pos f p n :
  (p <= length f)%nat -> (0 < n)%nat ->
  bytes_file.read (mkCursor f p) n =
  Ok (mkCursor f (p + length (take n (drop p f))), take n (drop p f)).
Proof.
  intros Hp Hn. unfold bytes_file.read, read_at. cbn [data at_].
  rewrite (proj2 (Nat.eqb_neq _ _)), (proj2 (Nat.leb_le _ _)) by lia. by run.
Qed.

Lemma read_be_mod n v : byte_utils.read_be n (to_be_bytes n v) = Some (v mod 256 ^ Z.of_nat n).
Proof.
  unfold byte_utils.read_be. rewrite length_to_be_bytes, Nat.leb_refl, take_ge by (by rewrite length_to_be_bytes).
  unfold from_be_bytes, to_be_bytes. by rewrite rev_involutive, from_to_le_bytes.
Qed.

(** The four fields of an entry header. *)
Lemma header_fields t s d (k : Z -> Z -> Z -> Z -> outcome io_error (option WalEntryBlock * WalReader)) :
  let h := [type_to_u8 t] ++ to_be_bytes 8 s ++ to_be_bytes 4 (crc32_hash d) ++
           to_be_bytes 4 (u32 (Z.of_nat (length d))) in
  is_u64 s -> Z.of_nat (length d) < 2 ^ 32 ->
  (t ← get h 0;
   s ← slice h 1 9; seq ← unwrap (byte_utils.decode_be_u64 s);
   s ← slice h 9 13; crc ← unwrap (byte_utils.decode_be_u32 s);
   s ← slice h 13 17; data_len ← unwrap (byte_utils.decode_be_u32 s);
   k t seq crc data_len) = k (type_to_u8 t) s (u32 (crc32_hash d)) (Z.of_nat (length d)).
Proof.
  intros h Hs Hd. assert (get (E := io_error) h 0 = Ok (type_to_u8 t)) as -> by reflexivity. run.
  unfold byte_utils.decode_be_u64, byte_utils.decode_be_u32.
  assert (slice (E := io_error) h 1 9 = Ok (to_be_bytes 8 s)) as ->.
  { apply (slice_app_mid [_]); by rewrite ?length_to_be_bytes. }
  run. rewrite read_be_mod. cbn [unwrap]. run.
  assert (slice (E := io_error) h 9 13 = Ok (to_be_bytes 4 (crc32_hash d))) as ->.
  { unfold h. rewrite app_assoc. apply slice_app_mid; by rewrite length_app, ?length_to_be_bytes. }
  run. rewrite read_be_mod. cbn [unwrap]. run.
  assert (slice (E := io_error) h 13 17 = Ok (to_be_bytes 4 (u32 (Z.of_nat (length d))))) as ->.
  { unfold h. rewrite !app_assoc. rewrite <- (app_nil_r (_ ++ to_be_bytes 4 (u32 _))), <- app_assoc.
    apply slice_app_mid; by rewrite !length_app, !length_to_be_bytes. }
  run. rewrite read_be_mod. cbn [unwrap]. run.
  change (256 ^ Z.of_nat 8) with U64. change (256 ^ Z.of_nat 4) with (2 ^ 32).
  unfold u32. rewrite Z.mod_mod, (Z.mod_small s), (Z.mod_small (Z.of_nat (length d))) by (done || lia). done.
Qed.

Lemma next_entry_spec f p mx hb body t s d rest :
  drop p f = entry_bytes t s d ++ rest -> length hb = 17%nat -> is_u64 s -> Z.of_nat (length d) < 2 ^ 32 ->
  exists hb' body', length hb' = 17%nat /\
    next_wal_entry (mkWalReader (mkCursor f p) mx hb body) =
    if (length d =? 0)%nat then Ok (None, mkWalReader (mkCursor f (p + 17)) mx hb' body)
    else Ok (Some (mkWalEntryBlock t s (u32 (crc32_hash d)) (Z.of_nat (length d)) d),
             mkWalReader (mkCursor f (p + 17 + length d)) mx hb' body').
Proof.
  intros Hd Hhb Hs Hl. unfold entry_bytes in Hd.
  set (h := [type_to_u8 t] ++ _) in Hd. assert (length h = 17%nat) as Hh.
  { unfold h. by rewrite !length_app, !length_to_be_bytes. }
  rewrite <- app_assoc in Hd.
  assert (p + 17 + length d <= length f)%nat as Hp.
  { apply (f_equal length) in Hd. rewrite length_drop, !length_app in Hd. lia. }
  unfold next_wal_entry. cbn [cursor_ block_header_buf body_buf reader_max]. unfold BLOCK_HEADER_SIZE.
  rewrite read_at_pos by lia. rewrite Hd, (take_app_length' h) by done. run.
  rewrite Hh, (drop_ge hb), app_nil_r by lia. rewrite (proj2 (Nat.ltb_ge _ _)) by lia. unfold h at 2 3 4 5.
  rewrite (header_fields t s d (fun t seq crc data_len => _)) by done.
  assert (drop (p + 17) f = d ++ rest) as Hdd by (rewrite <- drop_drop, Hd, <- Hh; apply drop_app_length).
  destruct (Nat.eqb_spec (length d) 0) as [E|Hne].
  - rewrite E. cbn [Z.of_nat Z.eqb]. by exists h, body.
  - rewrite (proj2 (Z.eqb_neq _ _)) by lia. rewrite Nat2Z.id.
    set (b := if (length body <? length d)%nat then _ else body).
    assert (length d <= length b)%nat as Hb.
    { unfold b, vec_resize. destruct (Nat.ltb_spec (length body) (length d)); [rewrite length_resize|]; lia. }
    rewrite slice_ok by lia. run. rewrite read_at_pos by lia. run. rewrite Hdd, (take_app_length' d) by done.
    rewrite drop_ge, app_nil_r by (rewrite length_take, drop_0; lia).
    rewrite type_roundtrip. unfold u32 at 2. rewrite (Z.mod_small (Z.of_nat (length d))) by lia.
    by eexists h, _.
Qed.

Lemma next_entry_end f mx hb body :
  exists r, next_wal_entry (mkWalReader (mkCursor f (length f)) mx hb body) = Ok (None, r).
Proof.
  unfold next_wal_entry. cbn [cursor_ block_header_buf body_buf reader_max].
  rewrite read_at_pos by (done || unfold BLOCK_HEADER_SIZE; lia). rewrite drop_ge, take_nil by lia. run. by eexists.
Qed.

Lemma read_all_spec f es : forall p mx hb body s fuel,
  drop p f = stream s es -> (p <= length f)%nat -> length hb = 17%nat -> 0 <= s -> s + Z.of_nat (length es) < U64 ->
  Forall (fun x => Z.of_nat (length x.2) < 2 ^ 32) es -> (length es < fuel)%nat ->
  read_all fuel (mkWalReader (mkCursor f p) mx hb body) = Ok (readable s es).
Proof.
  induction es as [|[t d] es IH]; intros p mx hb body s fuel Hd Hp Hhb Hs Hmax Hl Hf;
    (destruct fuel as [|fuel]; [cbn in Hf; lia|]); cbn [read_all].
  { assert (p = length f) as ->.
    { apply (f_equal length) in Hd. rewrite length_drop in Hd. cbn in Hd. lia. }
    destruct (next_entry_end f mx hb body) as [r ->]. by run. }
  inversion_clear Hl as [|? ? Hl1 Hl2]. cbn [snd length] in *. cbn [stream] in Hd.
  destruct (next_entry_spec f p mx hb body t s d (stream (s + 1) es) Hd Hhb) as (hb' & body' & Hhb' & ->);
    [range|done|].
  assert (p + length (entry_bytes t s d) <= length f)%nat as Hle.
  { apply (f_equal length) in Hd. rewrite length_drop, length_app in Hd. rewrite length_entry_bytes in *. lia. }
  rewrite length_entry_bytes in Hle.
  destruct d as [|x d]; cbn [length Nat.eqb readable]; run; [done|].
  rewrite (IH _ _ _ _ (s + 1)); [by run| |cbn [length] in *; lia|done|lia|lia|done|lia].
  replace (p + 17 + S (length d))%nat with (p + length (entry_bytes t s (x :: d)))%nat
    by (rewrite length_entry_bytes; cbn; lia).
  by rewrite <- drop_drop, Hd, drop_app_length.
Qed.

(** A new segment. *)
Definition fresh_header : list Z := SEGMENT_MAGIC ++ replicate 28 0.

Lemma open_new i s : open i s None = Ok (mkWalWriter i fresh_header 32 fresh_header 0 0 s true).
Proof.
  unfold open. rewrite copy_at_ok by (cbn; lia). run.
  change (take 0 _ ++ _) with fresh_header. rewrite (write_at_end []). done.
Qed.

Lemma reader_new_spec h body :
  length h = 32%nat ->
  exists mx, byte_utils.read_be 8 (take 8 (drop 12 h)) = Some mx /\
    reader_new (mkCursor (h ++ body) 0) = Ok (mkWalReader (mkCursor (h ++ body) 32) mx (replicate 17 0) []).
Proof.
  intros Hh. unfold reader_new, reade_header, seek, cursor.seek_to. cbn [of_option data at_]. run.
  unfold tsm.read_into, SEGMENT_HEADER_SIZE. rewrite read_at_pos by lia. run.
  rewrite drop_0, take_app_length', Hh by done. rewrite (drop_ge (replicate 32 0)), app_nil_r by (cbn; lia).
  rewrite slice_ok by lia. run. unfold byte_utils.decode_be_u64, byte_utils.read_be.
  cbn [Nat.sub]. rewrite (proj2 (Nat.leb_le _ _)) by (rewrite length_take, length_drop; lia). cbn [unwrap]. run.
  by eexists.
Qed.

Lemma fresh_segment i s es :
  Z.of_nat (length es) < U64 -> Forall (fun x => Z.of_nat (length x.2) < 2 ^ 32) es ->
  exists w, write_list (mkWalWriter i fresh_header 32 fresh_header 0 0 s true) es = Ok (w, replies 0 es) /\
    size w = length (file w) /\ file w = fresh_header ++ stream 0 es /\ header_buf w = fresh_header /\
    reader_new (mkCursor (file w) 0) = Ok (mkWalReader (mkCursor (file w) 32) 0 (replicate 17 0) []) /\
    read_all (S (length es)) (mkWalReader (mkCursor (file w) 32) 0 (replicate 17 0) []) = Ok (readable 0 es).
Proof.
  intros Hn Hl. eexists. split; [by rewrite write_list_spec|]. cbn [size file header_buf max_sequence].
  split_and!; [done|done|done| |].
  - destruct (reader_new_spec fresh_header (stream 0 es) eq_refl) as (mx & Hmx & ->). by injection Hmx as <-.
  - apply read_all_spec; [done|rewrite length_app; cbn; lia|done|lia|lia|done|lia].
Qed.

(** Opening a segment whose header was not rewritten. *)
Lemma open_segment i s body : exists w, open i s (Some (fresh_header ++ body)) = Ok w /\ file w = fresh_header ++ body /\
  size w = length (file w) /\ max_sequence w = 0 /\ config_sync w = s.
Proof.
  unfold open. rewrite (proj2 (Nat.eqb_neq (length (fresh_header ++ body)) 0)) by (rewrite length_app; cbn; lia).
  unfold read_at, SEGMENT_HEADER_SIZE. cbn [Nat.eqb Nat.leb]. run. rewrite drop_0.
  rewrite (take_app_length' fresh_header) by done. cbn [length fresh_header SEGMENT_MAGIC app].
  change (length fresh_header) with 32%nat. cbn [drop replicate]. rewrite app_nil_r. by eexists.
Qed.

(** C21. Entries written to a new segment are read back in order with their type,
    sequence number, checksum and data, up to the first entry without data; the
    writer returns the sequence number after the stored one and the size of the
    entry. *)
Theorem wal_roundtrip (i : Z) (s : bool) (es : list (WalEntryType * list Z)) :
  Z.of_nat (length es) < U64 -> Forall (fun x => Z.of_nat (length x.2) < 2 ^ 32) es ->
  exists w0 w r, open i s None = Ok w0 /\ write_list w0 es = Ok (w, replies 0 es) /\
    size w = length (file w) /\ reader_new (mkCursor (file w) 0) = Ok r /\
    read_all (S (length es)) r = Ok (readable 0 es).
Proof.
  intros Hn Hl. destruct (fresh_segment i s es Hn Hl) as (w & Hw & Hs & _ & _ & Hr & Hall).
  eexists _, w, _. split; [apply open_new|]. done.
Qed.

(** C27. Rewriting the header, which [flush] does before a segment is rolled,
    truncates the segment to its header when the header does not end on a page
    boundary: every entry is lost. *)
Theorem flush_drops_entries (w : WalWriter) :
  length (header_buf w) = 32%nat -> (32 mod page_len <> 0)%nat ->
  exists w' r, flush w = Ok w' /\ length (file w') = 32%nat /\
    reader_new (mkCursor (file w') 0) = Ok r /\ reader_max r = max_sequence w mod U64 /\ read_all 1 r = Ok [].
Proof.
  intros Hh Hpage. unfold flush. rewrite copy_at_ok by (rewrite length_to_be_bytes; lia). run.
  rewrite length_to_be_bytes. set (h1 := take 4 _ ++ _ ++ _).
  assert (length h1 = 32%nat) as Hh1.
  { unfold h1. rewrite !length_app, length_take, length_drop, length_to_be_bytes. lia. }
  rewrite copy_at_ok by (rewrite length_to_be_bytes; lia). run. rewrite length_to_be_bytes.
  set (h2 := take 12 h1 ++ _ ++ _).
  assert (length h2 = 32%nat) as Hh2.
  { unfold h2. rewrite !length_app, length_take, length_drop, length_to_be_bytes. lia. }
  assert (write_at (file w) 0 h2 = h2) as Hw.
  { unfold write_at. rewrite Hh2. cbn [Nat.eqb Nat.add]. by rewrite (proj2 (Nat.eqb_neq _ _)). }
  rewrite Hw. destruct (reader_new_spec h2 [] Hh2) as (mx & Hmx & Hr). rewrite app_nil_r in Hr.
  eexists _, _. split; [reflexivity|]. cbn [file]. split_and!; [done|exact Hr| |].
  - cbn [reader_max]. unfold h2 in Hmx. rewrite drop_app_length' in Hmx by (rewrite length_take; lia).
    rewrite take_app_length' in Hmx by (by rewrite length_to_be_bytes). rewrite read_be_mod in Hmx. by injection Hmx.
  - cbn [read_all]. rewrite <- Hh2. destruct (next_entry_end h2 mx (replicate 17 0) []) as [r ->]. by run.
Qed.

Lemma readable_seq es : forall s m, m <= s -> base.filter (fun e => m <= seq e) (readable s es) = readable s es.
Proof.
  induction es as [|[t [|x d]] es IH]; intros s m Hs; [done|done|]. cbn [readable].
  rewrite filter_cons_True by done. f_equal. apply IH. lia.
Qed.

(** Recovery does not replay a segment whose header was not rewritten: its
    header still says that the largest sequence number is 0, so the segment is
    skipped for every positive starting sequence number. *)
Theorem unflushed_segment_skipped (i : Z) (s : bool) (es : list (WalEntryType * list Z)) (min_log_seq : Z) :
  Z.of_nat (length es) < U64 -> Forall (fun x => Z.of_nat (length x.2) < 2 ^ 32) es -> 0 <= min_log_seq ->
  exists w0 w, open i s None = Ok w0 /\ write_list w0 es = Ok (w, replies 0 es) /\
    recover_file (S (length es)) s min_log_seq (file w) =
    Ok (if 0 <? min_log_seq then [] else readable 0 es).
Proof.
  intros Hn Hl Hm. destruct (fresh_segment i s es Hn Hl) as (w & Hw & Hs & Hfile & _ & Hr & Hall).
  eexists _, w. split; [apply open_new|]. split; [done|]. unfold recover_file.
  destruct (open_segment 0 s (stream 0 es)) as (w1 & E & Hw1 & _). rewrite Hfile at 1. rewrite E, <- Hfile in *.
  run. rewrite Hw1, Hr. run. cbn [reader_max]. destruct (Z.ltb_spec 0 min_log_seq); [done|].
  rewrite Hall. run. f_equal. replace min_log_seq with 0 by lia. apply readable_seq. lia.
Qed.

End facts.
Definition example_entries : list (WalEntryType * list Z) := [(Write, [1; 2; 3]); (Delete, [9]); (Write, []); (Write, [4])].

Lemma wal_roundtrip_witness :
  let P : BuildProfile := true in let PIO := cursor_facts.page16 in
  let Crc : Crc32 := fun l => Z.of_nat (length l) in
  exists w0 w r, open 1 false None = Ok w0 /\ write_list w0 example_entries = Ok (w, replies 0 example_entries) /\
    size w = length (file w) /\ reader_new (mkCursor (file w) 0) = Ok r /\
    read_all (S (length example_entries)) r = Ok (readable 0 example_entries).
Proof. intros P PIO Crc. apply (wal_roundtrip 1 false example_entries); [done|by repeat constructor]. Defined.

(** Pages of 100 bytes. *)
Definition page100 : PageIO.
Proof.
  refine {| page_len := 100; fresh_page _ := replicate 100 0 |}; [lia|done|by rewrite length_replicate].
Defined.

Lemma flush_drops_entries_witness :
  let P : BuildProfile := true in let PIO := page100 in
  let w := mkWalWriter 1 (replicate 80 7) 80 (replicate 32 0) 0 3 false true in
  exists w' r, flush w = Ok w' /\ length (file w') = 32%nat /\
    reader_new (mkCursor (file w') 0) = Ok r /\ reader_max r = max_sequence w mod U64 /\ read_all 1 r = Ok [].
Proof. intros P PIO w. apply (flush_drops_entries w); [done|by vm_compute]. Defined.

Lemma unflushed_segment_skipped_witness :
  let P : BuildProfile := true in let PIO := cursor_facts.page16 in
  let Crc : Crc32 := fun l => Z.of_nat (length l) in
  exists w0 w, open 1 false None = Ok w0 /\ write_list w0 example_entries = Ok (w, replies 0 example_entries) /\
    recover_file (S (length example_entries)) false 1 (file w) = Ok (if 0 <? 1 then [] else readable 0 example_entries).
Proof. intros P PIO Crc. apply (unflushed_segment_skipped 1 false example_entries 1); [done|by repeat constructor|lia]. Defined.

End wal_facts.
