(* ===== verification/Bincode.v ===== *)
(** * bincode

    The serializer of the summary, the forward index and the schemas is a
    third-party crate.  For each type that is stored it is a parameter, with the
    law that what it serializes it deserializes to the same value, whatever bytes
    follow.  [bincode]
    defines its format (little-endian integers of fixed width, a [bool] as a
    byte, vectors and strings preceded by their length as [u64], a struct as the
    sequence of its fields) as codecs, from which the instances that show the law
    can hold are built. *)
From S2P Require Import Prelude.

(** [bincode::serialize] and [deserialize] at one type; [None] is an error. *)
Class Bincode (A : Type) := {
  serialize : A -> option (list Z);
  deserialize : list Z -> option A
}.

Class BincodeLaws {A} (B : Bincode A) : Prop :=
  deserialize_prefix a bs r : serialize a = Some bs -> deserialize (bs ++ r) = Some a.

Lemma deserialize_serialize {A} {B : Bincode A} {L : BincodeLaws B} a bs : serialize a = Some bs -> deserialize bs = Some a.
Proof. intros H. rewrite <- (app_nil_r bs). by apply deserialize_prefix. Qed.

Module bincode.

Record codec A := mkCodec { enc : A -> list Z; dec : list Z -> option (A * list Z); ok : A -> bool }.
Arguments mkCodec {A}.
Arguments enc {A}.
Arguments dec {A}.
Arguments ok {A}.

Class Lawful {A} (c : codec A) : Prop := dec_enc a r : ok c a = true -> dec c (enc c a ++ r) = Some (a, r).

Definition uint (n : nat) : codec Z :=
  mkCodec (to_le_bytes n)
    (fun bs => if (length bs <? n)%nat then None else Some (from_le_bytes (take n bs), drop n bs))
    (fun v => (0 <=? v) && (v <? 256 ^ Z.of_nat n)).

Definition map_codec {A B} (f : A -> B) (g : B -> A) (extra : B -> bool) (c : codec A) : codec B :=
  mkCodec (fun b => enc c (g b)) (fun bs => '(a, r) ← dec c bs; Some (f a, r)) (fun b => ok c (g b) && extra b).

Definition pair {A B} (c : codec A) (d : codec B) : codec (A * B) :=
  mkCodec (fun p => enc c p.1 ++ enc d p.2)
    (fun bs => '(a, r) ← dec c bs; '(b, r) ← dec d r; Some ((a, b), r))
    (fun p => ok c p.1 && ok d p.2).

Fixpoint dec_list {A} (c : codec A) (n : nat) (bs : list Z) : option (list A * list Z) :=
  match n with
  | O => Some ([], bs)
  | S n' => '(a, r) ← dec c bs; '(l, r) ← dec_list c n' r; Some (a :: l, r)
  end.

Definition vec {A} (c : codec A) : codec (list A) :=
  mkCodec (fun l => to_le_bytes 8 (Z.of_nat (length l)) ++ concat (enc c <$> l))
    (fun bs => '(n, r) ← dec (uint 8) bs; dec_list c (Z.to_nat n) r)
    (fun l => (Z.of_nat (length l) <? U64) && forallb (ok c) l).

Definition int64 : codec Z := map_codec i64 u64 (fun v => (- I63 <=? v) && (v <? I63)) (uint 8).
Definition boolean : codec bool := map_codec (Z.eqb 1) (fun b : bool => if b then 1 else 0) (fun _ => true) (uint 1).
Definition text : codec string :=
  map_codec (fun l => String.string_of_list_ascii (Ascii.ascii_of_nat ∘ Z.to_nat <$> l))
    (fun s => Z.of_nat ∘ Ascii.nat_of_ascii <$> String.list_ascii_of_string s) (fun _ => true) (vec (uint 1)).

Definition of_codec {A} (c : codec A) : Bincode A := {|
  serialize a := if ok c a then Some (enc c a) else None;
  deserialize bs := fst <$> dec c bs
|}.

#[global] Instance uint_lawful n : Lawful (uint n).
Proof.
  intros v r Hv. cbn [enc dec ok uint] in *. apply andb_prop in Hv as [H0 H1]. apply Z.leb_le in H0. apply Z.ltb_lt in H1.
  rewrite (proj2 (Nat.ltb_ge _ _)) by (rewrite length_app, length_to_le_bytes; lia).
  rewrite (take_app_length' (to_le_bytes n v)), (drop_app_length' (to_le_bytes n v)) by (by rewrite length_to_le_bytes).
  rewrite from_to_le_bytes. by rewrite Z.mod_small.
Qed.

Lemma map_lawful {A B} (f : A -> B) g (extra : B -> bool) (c : codec A) : Lawful c ->
  (forall b, ok c (g b) = true -> extra b = true -> f (g b) = b) -> Lawful (map_codec f g extra c).
Proof.
  intros Hc Hfg b r Hb. cbn in *. apply andb_prop in Hb as [H1 H2]. rewrite dec_enc by done. cbn. by rewrite Hfg.
Qed.

#[global] Instance pair_lawful {A B} (c : codec A) (d : codec B) : Lawful c -> Lawful d -> Lawful (pair c d).
Proof.
  intros Hc Hd [a b] r Hb. cbn in *. apply andb_prop in Hb as [H1 H2].
  rewrite <- app_assoc, dec_enc by done. cbn. by rewrite dec_enc.
Qed.

#[global] Instance vec_lawful {A} (c : codec A) : Lawful c -> Lawful (vec c).
Proof.
  intros Hc l r Hl. cbn [ok vec] in Hl. apply andb_prop in Hl as [H1 H2]. apply Z.ltb_lt in H1. cbn [enc dec vec].
  rewrite <- app_assoc. change (to_le_bytes 8) with (enc (uint 8)). rewrite dec_enc.
  2:{ cbn [ok uint]. rewrite (proj2 (Z.leb_le _ _)), (proj2 (Z.ltb_lt _ _)); [done|exact H1|lia]. }
  cbn. rewrite Nat2Z.id. clear H1. induction l as [|a l IH]; [done|]. cbn [forallb] in H2.
  apply andb_prop in H2 as [Ha H2]. cbn [length dec_list fmap list_fmap concat]. rewrite <- app_assoc, dec_enc by done.
  cbn. by rewrite IH.
Qed.

#[global] Instance int64_lawful : Lawful int64.
Proof.
  apply map_lawful; [apply _|]. intros v _ Hv. apply andb_prop in Hv as [H0 H1]. apply Z.leb_le in H0.
  apply Z.ltb_lt in H1. by apply u64_of_i64_inj.
Qed.

#[global] Instance boolean_lawful : Lawful boolean.
Proof. apply map_lawful; [apply _|]. by intros []. Qed.

#[global] Instance text_lawful : Lawful text.
Proof.
  apply map_lawful; [apply _|]. intros s _ _. rewrite <- list_fmap_compose.
  rewrite (list_fmap_ext _ id), list_fmap_id; [apply String.string_of_list_ascii_of_string|].
  intros i a _. cbn. by rewrite Nat2Z.id, Ascii.ascii_nat_embedding.
Qed.

Lemma codec_laws {A} (c : codec A) : Lawful c -> BincodeLaws (of_codec c).
Proof.
  intros Hc a bs r. unfold serialize, deserialize, of_codec. destruct (ok c a) eqn:E; [|done].
  intros Hs. injection Hs as <-. by rewrite dec_enc.
Qed.

End bincode.
