(* ===== verification/RecordFile.v ===== *)
(** * Record files (tskv/src/record_file)

    A record file is a sequence of framed records (magic number, size, version,
    type, data, checksum) that the summary and the forward index append to.
    [record_file] translates the writer, which appends a frame in pieces that end
    at block boundaries, and the buffered reader, which looks for the next magic
    number after a damaged frame.  The writer and the readers of a path share one
    [FileScope], so the file is an argument of every operation.

    [record_spec] is the reference: a frame is checked at one position of the
    byte list, and the positions are tried in order, up to the first one where too
    few bytes are left.  The theorems show that the reader computes it for every
    file and every buffer state, in particular that it terminates, and that what
    the writer appends is read back. *)
From S2P Require Import Prelude Utils FileIO Tsm TsmFacts Wal.

(** [crc32fast::hash] returns an [u32]. *)
Class Crc32Range (C : Crc32) : Prop := crc32_u32 l : is_u32 (crc32_hash l).

Module record_file.
Import bytes_file.

(** ** Definitions *)

(** The bytes of [FlOg], read as a little-endian [u32]. *)
Definition MAGIC_NUMBER : Z := from_le_bytes [0x46; 0x6c; 0x4f; 0x67].
Definition RECORD_MAGIC_NUMBER_LEN : nat := 4.
Definition RECORD_DATA_SIZE_LEN : nat := 4.
Definition RECORD_DATA_VERSION_LEN : nat := 1.
Definition RECORD_DATA_TYPE_LEN : nat := 1.
Definition RECORD_CRC32_NUMBER_LEN : nat := 4.
Definition BLOCK_SIZE : nat := 4096.
Definition READER_BUF_SIZE : nat := Z.to_nat (1024 * 1024 * 64).

Record Record_ := mkRecord { data_type : Z; data_version : Z; data : list Z; pos_ : Z }.

Inductive RecordFileError := WriteFile | ReadFile | OpenFile | SyncFile | GetFileLen | Eof | InvalidPos.

Section record_file.
Context {P : BuildProfile} {PIO : PageIO} {Crc : Crc32}.

(** ** The writer *)

(** The pieces of a frame, written one block at a time. *)
Fixpoint write_blocks (fuel : nat) (f : list Z) (buf : list Z) (p pos : nat) : outcome RecordFileError (list Z) :=
  if (p <? length buf)%nat then
    match fuel with
    | O => OutOfFuel
    | S fuel' =>
        let write_len := (BLOCK_SIZE - pos mod BLOCK_SIZE)%nat in
        let write_len := if (length buf - p <? write_len)%nat then (length buf - p)%nat else write_len in
        b ← slice buf p (p + write_len);
        let f := write_at f pos b in
        write_blocks fuel' f buf (p + write_len) (pos + write_len)
    end
  else Ok f.

Definition frame (data_version data_type : Z) (data : list Z) : outcome RecordFileError (list Z) :=
  let buf := to_le_bytes 4 MAGIC_NUMBER in
  if 2 ^ 32 <=? Z.of_nat (length data) then Panic
  else
    let buf := buf ++ to_le_bytes 4 (Z.of_nat (length data)) in
    let buf := buf ++ to_le_bytes 1 data_version in
    let buf := buf ++ to_le_bytes 1 data_type in
    let buf := buf ++ data in
    tail ← slice_from buf RECORD_MAGIC_NUMBER_LEN;
    Ok (buf ++ to_le_bytes 4 (crc32_hash tail)).

(** The new content of the file, and the position of the record. *)
Definition write_record (f : list Z) (data_version data_type : Z) (data : list Z)
    : outcome RecordFileError (list Z * nat) :=
  buf ← frame data_version data_type data;
  let pos := length f in
  f ← write_blocks (length buf) f buf 0 pos;
  Ok (f, pos).

(** ** The reader *)

(** [buf] holds the [buf_len] bytes that were read; the rest of the buffer, whose
    size is [cap], is never looked at. *)
Record Reader := mkReader { pos : nat; cap : nat; buf : list Z; buf_use : nat }.

Definition buf_len (r : Reader) : nat := length (buf r).

Definition new_reader : Reader := mkReader 0 READER_BUF_SIZE [] 0.

(** The reader is changed by calls that fail, too: an error carries it. *)
Notation io := (outcome (RecordFileError * Reader)).

Definition load_buf (f : list Z) (r : Reader) : io Reader :=
  bytes ← read_at f (pos r) (cap r);
  Ok (mkReader (pos r) (cap r) bytes 0).

Definition set_pos (f : list Z) (r : Reader) (p : nat) : io Reader :=
  if (length f <? p)%nat then Err (InvalidPos, r)
  else match (pos r ?= p)%nat with
       | Gt =>
           let size := (pos r - p)%nat in
           let r := mkReader p (cap r) (buf r) (buf_use r) in
           match (buf_use r ?= size)%nat with
           | Gt => Ok (mkReader p (cap r) (buf r) (buf_use r - size))
           | _ => load_buf f r
           end
       | Lt =>
           let size := (p - pos r)%nat in
           let r := mkReader p (cap r) (buf r) (buf_use r) in
           avail ← sub_usize (buf_len r) (buf_use r);
           match (avail ?= size)%nat with
           | Gt => Ok (mkReader p (cap r) (buf r) (buf_use r + size))
           | _ => load_buf f r
           end
       | Eq => Ok r
       end.

(** The position, the bytes, and the reader after them. *)
Definition read_buf (f : list Z) (r : Reader) (size : nat) : io (nat * list Z * Reader) :=
  avail ← sub_usize (buf_len r) (buf_use r);
  r ← (if (avail <? size)%nat then load_buf f r else Ok r);
  avail ← sub_usize (buf_len r) (buf_use r);
  if (size <=? avail)%nat then
    data ← slice (buf r) (buf_use r) (buf_use r + size);
    Ok (pos r, data, mkReader (pos r + size) (cap r) (buf r) (buf_use r + size))
  else Err (Eof, r).

Fixpoint find_magic (fuel : nat) (f : list Z) (r : Reader) : io Reader :=
  match fuel with
  | O => OutOfFuel
  | S fuel' =>
      '(origin_pos, data, r) ← read_buf f r RECORD_MAGIC_NUMBER_LEN;
      if from_le_bytes data =? MAGIC_NUMBER then set_pos f r origin_pos
      else
        r ← set_pos f r (origin_pos + 1);
        find_magic fuel' f r
  end.

(** The recursion is after a frame that is not valid.  [find_magic] advances at
    every iteration, so the length of the file bounds it. *)
Fixpoint read_record (fuel : nat) (f : list Z) (r : Reader) : io (Record_ * Reader) :=
  match fuel with
  | O => OutOfFuel
  | S fuel' =>
      let retry r p :=
        r ← set_pos f r p;
        r ← find_magic (S (length f)) f r;
        read_record fuel' f r in
      '(origin_pos, head, r) ←
        read_buf f r (RECORD_MAGIC_NUMBER_LEN + RECORD_DATA_SIZE_LEN + RECORD_DATA_VERSION_LEN + RECORD_DATA_TYPE_LEN);
      let p := O in
      s ← slice head p (p + RECORD_MAGIC_NUMBER_LEN);
      if negb (from_le_bytes s =? MAGIC_NUMBER) then retry r origin_pos
      else
        let p := (p + RECORD_MAGIC_NUMBER_LEN)%nat in
        s ← slice head p (p + RECORD_DATA_SIZE_LEN);
        let data_size := from_le_bytes s in
        let p := (p + RECORD_DATA_SIZE_LEN)%nat in
        s ← slice head p (p + RECORD_DATA_VERSION_LEN);
        let data_version := from_le_bytes s in
        let p := (p + RECORD_DATA_VERSION_LEN)%nat in
        s ← slice head p (p + RECORD_DATA_TYPE_LEN);
        let data_type := from_le_bytes s in
        match read_buf f r (Z.to_nat data_size) with
        | Ok (_, data, r) =>
            '(_, crc32_number_buf, r) ← read_buf f r RECORD_CRC32_NUMBER_LEN;
            let crc32_number := from_le_bytes crc32_number_buf in
            tail ← slice_from head RECORD_MAGIC_NUMBER_LEN;
            if negb (crc32_hash (tail ++ data) =? crc32_number) then retry r (origin_pos + 1)%nat
            else Ok (mkRecord data_type data_version data (Z.of_nat origin_pos), r)
        | Err (_, r) => retry r (origin_pos + 1)%nat
        | Panic => Panic
        | OutOfFuel => OutOfFuel
        end
  end.

Definition read_one (f : list Z) (pos : nat) : outcome RecordFileError Record_ :=
  let head_len := (RECORD_MAGIC_NUMBER_LEN + RECORD_DATA_SIZE_LEN + RECORD_DATA_VERSION_LEN + RECORD_DATA_TYPE_LEN)%nat in
  head_buf ← read_at f pos head_len;
  if negb (length head_buf =? head_len)%nat then Err InvalidPos
  else
    let p := O in
    s ← slice head_buf p (p + RECORD_MAGIC_NUMBER_LEN);
    if negb (from_le_bytes s =? MAGIC_NUMBER) then Err InvalidPos
    else
      let p := (p + RECORD_MAGIC_NUMBER_LEN)%nat in
      s ← slice head_buf p (p + RECORD_DATA_SIZE_LEN);
      let data_size := from_le_bytes s in
      let p := (p + RECORD_DATA_SIZE_LEN)%nat in
      s ← slice head_buf p (p + RECORD_DATA_VERSION_LEN);
      let data_version := from_le_bytes s in
      let p := (p + RECORD_DATA_VERSION_LEN)%nat in
      s ← slice head_buf p (p + RECORD_DATA_TYPE_LEN);
      let data_type := from_le_bytes s in
      data ← read_at f (pos + head_len) (Z.to_nat data_size);
      if negb (length data =? Z.to_nat data_size)%nat then Err InvalidPos
      else Ok (mkRecord data_type data_version data (Z.of_nat pos)).

(** [while let Ok(record) = reader.read_record()]: the records up to the first
    error. *)
Fixpoint read_records (fuel : nat) (f : list Z) (r : Reader) : outcome RecordFileError (list Record_) :=
  match fuel with
  | O => OutOfFuel
  | S fuel' =>
      match read_record (S (length f)) f r with
      | Ok (rec, r) => rs ← read_records fuel' f r; Ok (rec :: rs)
      | Err _ => Ok []
      | Panic => Panic
      | OutOfFuel => OutOfFuel
      end
  end.

End record_file.
End record_file.

(** ** The reference reader *)
Module record_spec.
Import record_file.

Section spec.
Context {Crc : Crc32}.

(** What there is at one position of the file: a valid record, a frame that is
    not one, or too few bytes to decide. *)
Inductive frame_status := Valid (r : Record_) | Damaged | Short.

Definition magic_at (f : list Z) (p : nat) : bool := from_le_bytes (take 4 (drop p f)) =? MAGIC_NUMBER.

(** [c] is the size of the reader's buffer: longer data are not accepted. *)
Definition frame_at (c : nat) (f : list Z) (p : nat) : frame_status :=
  if (length f <? p + 10)%nat then Short
  else if negb (magic_at f p) then Damaged
  else
    let size := Z.to_nat (from_le_bytes (take 4 (drop (p + 4) f))) in
    if negb ((size <=? c)%nat && (p + 10 + size <=? length f)%nat) then Damaged
    else if (length f <? p + 10 + size + 4)%nat then Short
    else
      let body := take size (drop (p + 10) f) in
      if crc32_hash (take 6 (drop (p + 4) f) ++ body) =? from_le_bytes (take 4 (drop (p + 10 + size) f))
      then Valid (mkRecord (from_le_bytes (take 1 (drop (p + 9) f))) (from_le_bytes (take 1 (drop (p + 8) f))) body (Z.of_nat p))
      else Damaged.

Fixpoint scan (n c : nat) (f : list Z) (p : nat) : option Record_ :=
  match n with
  | O => None
  | S n' =>
      match frame_at c f p with
      | Valid r => Some r
      | Short => None
      | Damaged => scan n' c f (p + 1)
      end
  end.

(** The record at the first position at or after [p] that is not damaged; there is
    none when that position has too few bytes, even if a valid record follows. *)
Definition next_record (c : nat) (f : list Z) (p : nat) : option Record_ := scan (S (length f) - p) c f p.

Lemma next_record_eq c f p : (p <= length f)%nat ->
  next_record c f p = match frame_at c f p with
                      | Valid r => Some r | Short => None | Damaged => next_record c f (p + 1) end.
Proof.
  intros Hp. unfold next_record. replace (S (length f) - p)%nat with (S (S (length f) - (p + 1))) by lia. done.
Qed.

Lemma frame_at_short c f p : (length f < p + 10)%nat -> frame_at c f p = Short.
Proof. intros H. unfold frame_at. by rewrite (proj2 (Nat.ltb_lt _ _)). Qed.

Lemma frame_at_no_magic c f p : (p + 10 <= length f)%nat -> magic_at f p = false -> frame_at c f p = Damaged.
Proof. intros H Hm. unfold frame_at. rewrite (proj2 (Nat.ltb_ge _ _)) by lia. by rewrite Hm. Qed.

(** A frame at [q] that lacks nothing but bytes of its checksum: the file ends in
    it. *)
Definition unfinished (f : list Z) (q : nat) : Prop :=
  let body_end := (q + 10 + Z.to_nat (from_le_bytes (take 4 (drop (q + 4) f))))%nat in
  magic_at f q = true /\ (body_end <= length f < body_end + 4)%nat.

Lemma frame_at_Short c f q : frame_at c f q = Short -> (length f < q + 10)%nat \/ unfinished f q.
Proof.
  unfold frame_at, unfinished. destruct (Nat.ltb_spec (length f) (q + 10)); [by left|].
  destruct (magic_at f q); [|done]. cbn [negb]. set (size := Z.to_nat _).
  destruct (Nat.leb_spec size c), (Nat.leb_spec (q + 10 + size) (length f)); cbn [andb negb]; try done.
  destruct (Nat.ltb_spec (length f) (q + 10 + size + 4)); [|by case_match]. intros _. right. lia.
Qed.

(** Where [next_record] ends. *)
Lemma next_record_first c f : forall p, (p <= length f)%nat ->
  exists q, (p <= q <= length f)%nat /\ (forall i, (p <= i < q)%nat -> frame_at c f i = Damaged) /\
    match frame_at c f q with
    | Valid rec => next_record c f p = Some rec | Short => next_record c f p = None | Damaged => False end.
Proof.
  intros p. remember (length f - p)%nat as n eqn:Hn. revert p Hn. induction n as [|n IH]; intros p Hn Hp.
  { exists p. split_and!; [lia|lia|lia|]. by rewrite next_record_eq, frame_at_short by lia. }
  destruct (frame_at c f p) as [rec| |] eqn:E.
  - exists p. split_and!; [lia|lia|lia|]. by rewrite next_record_eq, E.
  - destruct (IH (p + 1)%nat) as (q & Hq & Hd & H); [lia|lia|]. exists q. split_and!; [lia|lia| |].
    + intros i Hi. destruct (decide (i = p)) as [->|]; [done|]. apply Hd. lia.
    + rewrite next_record_eq by done. by rewrite E.
  - exists p. split_and!; [lia|lia|lia|]. by rewrite next_record_eq, E.
Qed.

(** Positions without a magic number can be skipped. *)
Lemma next_record_skip c f p q :
  (p <= q <= length f)%nat -> (forall i, (p <= i < q)%nat -> (i + 10 <= length f)%nat -> magic_at f i = false) ->
  next_record c f p = next_record c f q.
Proof.
  remember (q - p)%nat as n eqn:Hn. revert p Hn. induction n as [|n IH]; intros p Hn Hpq Hm.
  { by replace q with p by lia. }
  destruct (Nat.lt_ge_cases (length f) (p + 10)) as [Hs|Hs].
  { by rewrite (next_record_eq c f p), (next_record_eq c f q), !frame_at_short by lia. }
  rewrite next_record_eq, frame_at_no_magic by (lia || apply Hm; lia).
  apply IH; [lia|lia|]. intros i Hi. apply Hm. lia.
Qed.

End spec.
End record_spec.

(** ** The reader computes the reference *)
Module record_facts.
Import bytes_file record_file record_spec.

Section reader.
Context {P : BuildProfile} {PIO : PageIO} {Crc : Crc32}.

(** The reader is at position [p] of the file, and its buffer holds bytes of the
    file. *)
Record at_pos (f : list Z) (c p : nat) (r : Reader) : Prop := {
  at_p : pos r = p;
  at_cap : cap r = c;
  at_le : (p <= length f)%nat;
  at_use : (buf_use r <= length (buf r))%nat;
  at_base : (buf_use r <= p)%nat;
  at_buf_cap : (length (buf r) <= c)%nat;
  at_buf : buf r = take (length (buf r)) (drop (p - buf_use r) f) }.

Variable f : list Z.
Variable c : nat.
Hypothesis Hlen : Z.of_nat (length f) < U64.
Hypothesis Hcap : (10 <= c)%nat.

Lemma at_pos_new : at_pos f c 0 (mkReader 0 c [] 0).
Proof. constructor; cbn; lia || done. Qed.

Lemma load_ok r : (pos r <= length f)%nat -> cap r = c ->
  load_buf f r = Ok (mkReader (pos r) c (take c (drop (pos r) f)) 0) /\
  at_pos f c (pos r) (mkReader (pos r) c (take c (drop (pos r) f)) 0).
Proof.
  intros Hp Hc. split.
  - unfold load_buf, read_at. rewrite Hc, (proj2 (Nat.eqb_neq _ _)), (proj2 (Nat.leb_le _ _)) by lia. done.
  - constructor; cbn [pos cap buf buf_use]; try done || lia.
    + rewrite length_take. lia.
    + rewrite length_take, length_drop, Nat.sub_0_r. symmetry.
      destruct (Nat.le_gt_cases c (length f - pos r)); [by rewrite Nat.min_l by lia|].
      rewrite Nat.min_r by lia. rewrite !take_ge; [done|rewrite length_drop; lia..].
Qed.

Lemma buf_bound p r : at_pos f c p r -> (p - buf_use r + length (buf r) <= length f)%nat.
Proof.
  intros Ha. pose proof (at_le _ _ _ _ Ha). pose proof (at_base _ _ _ _ Ha). pose proof (at_use _ _ _ _ Ha).
  pose proof (f_equal length (at_buf _ _ _ _ Ha)) as E. rewrite length_take, length_drop in E. lia.
Qed.

Lemma set_pos_ok p q r : at_pos f c p r -> (q <= length f)%nat ->
  exists r', set_pos f r q = Ok r' /\ at_pos f c q r'.
Proof.
  intros Ha Hq. pose proof (buf_bound p r Ha) as Hb. destruct Ha as [Hp Hc Hle Hu Hbs Hbc Hbuf].
  unfold set_pos, buf_len. rewrite (proj2 (Nat.ltb_ge _ _)), Hp by lia. cbn [buf buf_use].
  destruct (Nat.compare_spec p q) as [->|Hlt|Hgt].
  - eexists. by split.
  - rewrite sub_usize_ok by lia. run. destruct (Nat.compare_spec (length (buf r) - buf_use r) (q - p)) as [?|?|?].
    1,2: eexists; apply (load_ok (mkReader q (cap r) (buf r) (buf_use r))); cbn; lia || done.
    eexists. split; [reflexivity|]. constructor; cbn [pos cap buf buf_use]; try done || lia.
    by replace (q - (buf_use r + (q - p)))%nat with (p - buf_use r)%nat by lia.
  - destruct (Nat.compare_spec (buf_use r) (p - q)) as [?|?|?].
    1,2: eexists; apply (load_ok (mkReader q (cap r) (buf r) (buf_use r))); cbn; lia || done.
    eexists. split; [reflexivity|]. constructor; cbn [pos cap buf buf_use]; try done || lia.
    by replace (q - (buf_use r - (p - q)))%nat with (p - buf_use r)%nat by lia.
Qed.

(** What is left in the buffer. *)
Lemma read_avail p r size : at_pos f c p r -> (size <= length (buf r) - buf_use r)%nat ->
  take size (drop (buf_use r) (buf r)) = take size (drop p f) /\ (p + size <= length f)%nat.
Proof.
  intros Ha Hs. pose proof (buf_bound p r Ha) as Hb. destruct Ha as [Hp Hc Hle Hu Hbs Hbc Hbuf]. split; [|lia].
  rewrite Hbuf, skipn_firstn_comm, drop_drop, take_take.
  rewrite Nat.min_l by lia. by replace (p - buf_use r + buf_use r)%nat with p by lia.
Qed.

Definition readable (p size : nat) : bool := (size <=? c)%nat && (p + size <=? length f)%nat.

Lemma read_avail_step p r size : at_pos f c p r -> (size <= length (buf r) - buf_use r)%nat ->
  (data ← slice (buf r) (buf_use r) (buf_use r + size);
   Ok (pos r, data, mkReader (pos r + size) (cap r) (buf r) (buf_use r + size)))
  = Ok (E := RecordFileError * Reader) (p, take size (drop p f), mkReader (p + size) c (buf r) (buf_use r + size)) /\
  at_pos f c (p + size) (mkReader (p + size) c (buf r) (buf_use r + size)).
Proof.
  intros Ha Hs. destruct (read_avail p r size Ha Hs) as [Ht Hle']. pose proof (buf_bound p r Ha).
  destruct Ha as [Hp Hc Hle Hu Hbs Hbc Hbuf]. split.
  - rewrite slice_ok by lia. run. replace (buf_use r + size - buf_use r)%nat with size by lia.
    by rewrite Ht, Hp, Hc.
  - constructor; cbn [pos cap buf buf_use]; try done || lia.
    by replace (p + size - (buf_use r + size))%nat with (p - buf_use r)%nat by lia.
Qed.

Lemma read_buf_ok p r size : at_pos f c p r ->
  exists r', if readable p size
    then read_buf f r size = Ok (p, take size (drop p f), r') /\ at_pos f c (p + size) r'
    else read_buf f r size = Err (Eof, r') /\ at_pos f c p r'.
Proof.
  intros Ha. pose proof (buf_bound p r Ha) as Hb. pose proof (at_use _ _ _ _ Ha) as Hu. pose proof (at_base _ _ _ _ Ha).
  pose proof (at_buf_cap _ _ _ _ Ha) as Hbc. unfold read_buf, readable, buf_len. rewrite sub_usize_ok by lia. run.
  destruct (Nat.ltb_spec (length (buf r) - buf_use r) size) as [Hs|Hs].
  - destruct (load_ok r) as [-> Ha']; [rewrite (at_p _ _ _ _ Ha); apply (at_le _ _ _ _ Ha)|apply (at_cap _ _ _ _ Ha)|].
    rewrite (at_p _ _ _ _ Ha) in *. run. set (r1 := mkReader _ _ _ _) in *.
    assert (length (buf r1) = Nat.min c (length f - p)) as Hl by (cbn; by rewrite length_take, length_drop).
    rewrite sub_usize_ok by (rewrite ?Hl; cbn; lia). run.
    replace (buf_use r1) with 0%nat by done. rewrite Nat.sub_0_r.
    destruct (Nat.leb_spec size (length (buf r1))) as [Hz|Hz].
    + destruct (read_avail_step p r1 size Ha') as [E A]; [cbn [buf_use r1]; lia|].
      exists (mkReader (p + size) c (buf r1) (buf_use r1 + size)).
      rewrite !(proj2 (Nat.leb_le _ _)) by lia. cbn [andb]. split; [|exact A]. exact E.
    + exists r1. destruct (Nat.leb_spec size c), (Nat.leb_spec (p + size) (length f)); cbn [andb]; done || lia.
  - run. rewrite sub_usize_ok by lia. run. rewrite (proj2 (Nat.leb_le size (length (buf r) - _))) by lia.
    destruct (read_avail_step p r size Ha Hs) as [E A]. destruct (read_avail p r size Ha Hs) as [_ Hle].
    eexists. rewrite !(proj2 (Nat.leb_le _ _)) by lia. cbn [andb]. split; [exact E|exact A].
Qed.

Lemma find_magic_ok fuel : forall p r, at_pos f c p r -> (length f - p < fuel)%nat ->
  (exists q r', find_magic fuel f r = Ok r' /\ at_pos f c q r' /\ (p <= q)%nat /\ magic_at f q = true /\
    (forall i, (p <= i < q)%nat -> magic_at f i = false)) \/
  (exists r', find_magic fuel f r = Err (Eof, r') /\
    (forall i, (p <= i)%nat -> (i + 4 <= length f)%nat -> magic_at f i = false)).
Proof.
  induction fuel as [|fuel IH]; intros p r Ha Hf; [lia|]. cbn [find_magic].
  change RECORD_MAGIC_NUMBER_LEN with 4%nat.
  destruct (read_buf_ok p r 4 Ha) as [r1 H1]. unfold readable in H1. rewrite (proj2 (Nat.leb_le 4 c)) in H1 by lia.
  cbn [andb] in H1. destruct (Nat.leb_spec (p + 4) (length f)) as [Hp|Hp]; destruct H1 as [E A]; rewrite E.
  2:{ right. eexists. split; [reflexivity|]. lia. }
  run. fold (magic_at f p). destruct (magic_at f p) eqn:Hm.
  - left. destruct (set_pos_ok _ p r1 A) as (r2 & -> & A2); [lia|]. exists p, r2.
    split_and!; try done. lia.
  - destruct (set_pos_ok _ (p + 1) r1 A) as (r2 & -> & A2); [lia|]. run.
    assert (forall i, (p <= i)%nat -> (p + 1 <= i)%nat \/ i = p) as Hi by lia.
    destruct (IH (p + 1)%nat r2 A2 ltac:(lia)) as [(q & r' & -> & Aq & Hq & Hmq & Hall)|(r' & -> & Hall)].
    + left. exists q, r'. split_and!; try done; [lia|]. intros i [H3 H4]. destruct (Hi i H3) as [?| ->]; [|done].
      apply Hall. lia.
    + right. exists r'. split; [done|]. intros i H3. destruct (Hi i H3) as [?| ->]; [|done]. by apply Hall.
Qed.

Definition record_end (rec : Record_) : nat := (Z.to_nat (pos_ rec) + 14 + length (data rec))%nat.

(** A call returns what the reference finds from [p] on. *)
Definition reads (m : outcome (RecordFileError * Reader) (Record_ * Reader)) (p : nat) : Prop :=
  exists r', match next_record c f p with
             | Some rec => m = Ok (rec, r') /\ at_pos f c (record_end rec) r'
             | None => m = Err (Eof, r')
             end.

Lemma next_record_end : next_record c f (length f) = None.
Proof. rewrite next_record_eq by lia. by rewrite frame_at_short by lia. Qed.

Lemma retry_ok fuel r p q :
  (forall p r, at_pos f c p r -> (length f - p < fuel)%nat -> reads (read_record fuel f r) p) ->
  at_pos f c p r -> (q <= length f)%nat -> (forall i, (q <= i)%nat -> magic_at f i = true -> (length f - i < fuel)%nat) ->
  reads (r ← set_pos f r q; r ← find_magic (S (length f)) f r; read_record fuel f r) q.
Proof.
  intros IH Ha Hq Hf. destruct (set_pos_ok p q r Ha Hq) as (r1 & -> & A1). run.
  destruct (find_magic_ok (S (length f)) q r1 A1 ltac:(lia)) as [(i & r2 & -> & A2 & Hi & Hm & Hall)|(r2 & -> & Hall)].
  - run. unfold reads. rewrite (next_record_skip c f q i).
    + apply IH; [done|]. by apply Hf.
    + split; [done|]. apply (at_le _ _ _ _ A2).
    + intros j Hj _. by apply Hall.
  - exists r2. rewrite (next_record_skip c f q (length f)), next_record_end; [done|lia|].
    intros j Hj Hj'. apply Hall; lia.
Qed.

Lemma head_slice p i j : (p + 10 <= length f)%nat -> (i <= j <= 10)%nat ->
  slice (E := RecordFileError * Reader) (take 10 (drop p f)) i j = Ok (take (j - i) (drop (p + i) f)).
Proof.
  intros Hp Hij. rewrite slice_ok; [|lia|rewrite length_take, length_drop; lia].
  rewrite skipn_firstn_comm, drop_drop, take_take. by rewrite Nat.min_l by lia.
Qed.

Lemma read_record_scan fuel : forall p r, at_pos f c p r -> (length f - p < fuel)%nat -> reads (read_record fuel f r) p.
Proof.
  induction fuel as [|fuel IH]; intros p r Ha Hf; [lia|]. cbn [read_record].
  unfold RECORD_MAGIC_NUMBER_LEN, RECORD_DATA_SIZE_LEN, RECORD_DATA_VERSION_LEN, RECORD_DATA_TYPE_LEN, RECORD_CRC32_NUMBER_LEN.
  pose proof (at_le _ _ _ _ Ha) as Hp. cbn [Nat.add].
  destruct (read_buf_ok p r 10 Ha) as [r1 H1]. unfold readable in H1. rewrite (proj2 (Nat.leb_le 10 c)) in H1 by lia.
  cbn [andb] in H1. destruct (Nat.leb_spec (p + 10) (length f)) as [Hp10|Hp10]; destruct H1 as [E A]; rewrite E.
  2:{ exists r1. by rewrite next_record_eq, frame_at_short by lia. }
  run. rewrite !head_slice by lia. run. cbn [Nat.sub].
  rewrite Nat.add_0_r. fold (magic_at f p). destruct (magic_at f p) eqn:Hm; cbn [negb].
  2:{ apply (retry_ok fuel r1 (p + 10)); [done..|]. intros i Hi Hmi.
      assert (i <> p) by congruence. lia. }
  set (size := Z.to_nat _). unfold reads. rewrite next_record_eq by done. unfold frame_at.
  rewrite (proj2 (Nat.ltb_ge _ _)) by lia. rewrite Hm. cbn [negb]. fold size.
  assert (forall r p', at_pos f c p' r ->
    reads (r ← set_pos f r (p + 1); r ← find_magic (S (length f)) f r; read_record fuel f r) (p + 1)) as Hretry.
  { intros r' p' A'. apply (retry_ok fuel r' p'); [done|done|lia|]. lia. }
  destruct (read_buf_ok (p + 10) r1 size A) as [r2 H2]. unfold readable in H2.
  destruct ((size <=? c)%nat && (p + 10 + size <=? length f)%nat); destruct H2 as [E2 A2]; rewrite E2; cbn [negb].
  2:{ exact (Hretry r2 _ A2). }
  destruct (read_buf_ok (p + 10 + size) r2 4 A2) as [r3 H3]. unfold readable in H3.
  rewrite (proj2 (Nat.leb_le 4 c)), Nat.leb_antisym in H3 by lia. cbn [andb] in H3.
  destruct (length f <? p + 10 + size + 4)%nat eqn:Hs; destruct H3 as [E3 A3]; rewrite E3.
  { by exists r3. }
  run. unfold slice_from. apply Nat.ltb_ge in Hs.
  rewrite length_take, length_drop, Nat.min_l, head_slice by lia. run. cbn [Nat.sub].
  destruct (_ =? _); cbn [negb]; [|exact (Hretry r3 _ A3)].
  exists r3. split; [done|]. unfold record_end. cbn [pos_ data]. rewrite length_take, length_drop.
  replace (Z.to_nat (Z.of_nat p) + 14 + Nat.min size (length f - (p + 10)))%nat with (p + 10 + size + 4)%nat by lia.
  exact A3.
Qed.

(** A record the reference finds is a valid frame inside the file. *)
Lemma frame_at_valid p rec : frame_at c f p = Valid rec ->
  Z.to_nat (pos_ rec) = p /\ (record_end rec <= length f)%nat.
Proof.
  unfold frame_at, record_end. destruct (Nat.ltb_spec (length f) (p + 10)); [done|].
  destruct (negb _); [done|]. set (size := Z.to_nat _).
  destruct (_ && _) eqn:Hs; cbn [negb]; [|done]. apply andb_prop in Hs as [_ Hs]. apply Nat.leb_le in Hs.
  destruct (Nat.ltb_spec (length f) (p + 10 + size + 4)); [done|]. destruct (_ =? _); [|done].
  intros [= <-]. cbn [pos_ data]. rewrite length_take, length_drop. lia.
Qed.

Lemma next_record_Some p rec : (p <= length f)%nat -> next_record c f p = Some rec ->
  frame_at c f (Z.to_nat (pos_ rec)) = Valid rec /\ (p <= Z.to_nat (pos_ rec))%nat /\ (record_end rec <= length f)%nat.
Proof.
  remember (length f - p)%nat as n eqn:Hn. revert p Hn. induction n as [|n IH]; intros p Hn Hp.
  - replace p with (length f) by lia. by rewrite next_record_end.
  - rewrite next_record_eq by done. destruct (frame_at c f p) as [r| |] eqn:E; [| |done].
    2:{ intros Hs. destruct (IH (p + 1)%nat ltac:(lia) ltac:(lia) Hs) as (H1 & H2 & H3). split_and!; done || lia. }
    intros [= <-]. destruct (frame_at_valid p r E) as [Hr He]. rewrite Hr. done.
Qed.

(** The records are valid, in the order of the file, and do not overlap. *)
Fixpoint disjoint_records (p : nat) (rs : list Record_) : Prop :=
  match rs with
  | [] => True
  | rec :: rs' =>
      frame_at c f (Z.to_nat (pos_ rec)) = Valid rec /\ (p <= Z.to_nat (pos_ rec))%nat /\
      disjoint_records (record_end rec) rs'
  end.

Lemma read_records_ok fuel : forall p r, at_pos f c p r -> (length f - p < fuel)%nat ->
  exists rs, read_records fuel f r = Ok rs /\ disjoint_records p rs.
Proof.
  induction fuel as [|fuel IH]; intros p r Ha Hf; [lia|]. cbn [read_records].
  pose proof (at_le _ _ _ _ Ha) as Hp.
  destruct (read_record_scan (S (length f)) p r Ha ltac:(lia)) as [r' Hr].
  destruct (next_record c f p) as [rec|] eqn:En; [|rewrite Hr; by exists []].
  destruct Hr as [-> A]. destruct (next_record_Some p rec Hp En) as (Hv & Hle & He).
  destruct (IH _ r' A) as (rs & -> & Hd); [unfold record_end in *; lia|].
  exists (rec :: rs). done.
Qed.

End reader.

(** ** What the writer appends *)
Section writer.
Context {P : BuildProfile} {PIO : PageIO} {Crc : Crc32}.

Definition encode (v t : Z) (d : list Z) : list Z :=
  let head := to_le_bytes 4 (Z.of_nat (length d)) ++ to_le_bytes 1 v ++ to_le_bytes 1 t in
  to_le_bytes 4 MAGIC_NUMBER ++ head ++ d ++ to_le_bytes 4 (crc32_hash (head ++ d)).

Lemma length_encode v t d : length (encode v t d) = (14 + length d)%nat.
Proof. unfold encode. rewrite !length_app, !length_to_le_bytes. lia. Qed.

Lemma frame_ok v t d : Z.of_nat (length d) < 2 ^ 32 -> frame v t d = Ok (encode v t d).
Proof.
  intros Hd. unfold frame. rewrite (proj2 (Z.leb_gt _ _)) by done. rewrite <- !(app_assoc (to_le_bytes 4 MAGIC_NUMBER)).
  rewrite slice_from_app by (by rewrite length_to_le_bytes). run. unfold encode. by rewrite <- !app_assoc.
Qed.

Lemma write_blocks_ok fuel : forall f buf p, (length buf - p <= fuel)%nat ->
  write_blocks fuel f buf p (length f) = Ok (f ++ drop p buf).
Proof.
  induction fuel as [|fuel IH]; intros f buf p Hf; cbn [write_blocks].
  { rewrite (proj2 (Nat.ltb_ge _ _)) by lia. by rewrite drop_ge, app_nil_r by lia. }
  destruct (Nat.ltb_spec p (length buf)) as [Hp|Hp]; [|by rewrite drop_ge, app_nil_r by lia].
  assert (0 < BLOCK_SIZE - length f mod BLOCK_SIZE)%nat as Hw.
  { pose proof (Nat.mod_upper_bound (length f) BLOCK_SIZE). unfold BLOCK_SIZE in *. lia. }
  set (w := (BLOCK_SIZE - _)%nat) in *. set (n := if (_ <? _)%nat then (length buf - p)%nat else w).
  assert (0 < n <= length buf - p)%nat as Hn.
  { unfold n. destruct (Nat.ltb_spec (length buf - p) w); lia. }
  clearbody n. rewrite slice_ok by lia. run. replace (p + n - p)%nat with n by lia.
  rewrite wal_facts.write_at_end.
  replace (length f + n)%nat with (length (f ++ take n (drop p buf))) by (rewrite length_app, length_take, length_drop; lia).
  rewrite IH by lia. rewrite <- app_assoc. do 2 f_equal. rewrite <- drop_drop. apply take_drop.
Qed.

Lemma write_record_ok f v t d : Z.of_nat (length d) < 2 ^ 32 ->
  write_record f v t d = Ok (f ++ encode v t d, length f).
Proof. intros Hd. unfold write_record. rewrite frame_ok by done. run. by rewrite write_blocks_ok by lia. Qed.

Lemma middle {A} (l a b c : list A) n i : l = a ++ b ++ c -> i = length a -> n = length b -> take n (drop i l) = b.
Proof. intros -> -> ->. by rewrite drop_app_length, take_app_length. Qed.

Context {CR : Crc32Range Crc}.

(** The arguments of a call that the reader accepts. *)
Definition fits (c : nat) (x : Z * Z * list Z) : Prop :=
  let '(v, t, d) := x in is_u8 v /\ is_u8 t /\ (length d <= c)%nat /\ Z.of_nat (length d) < 2 ^ 32.

Lemma from_to_le n v : 0 <= v < 256 ^ Z.of_nat n -> from_le_bytes (to_le_bytes n v) = v.
Proof. intros Hv. rewrite from_to_le_bytes. by apply Z.mod_small. Qed.

Lemma frame_parts (pre m s v t d c post : list Z) :
  length m = 4%nat -> length s = 4%nat -> length v = 1%nat -> length t = 1%nat -> length c = 4%nat ->
  let l := pre ++ (m ++ (s ++ v ++ t) ++ d ++ c) ++ post in let p := length pre in
  take 4 (drop p l) = m /\ take 4 (drop (p + 4) l) = s /\
  take 1 (drop (p + 8) l) = v /\ take 1 (drop (p + 9) l) = t /\ take (length d) (drop (p + 10) l) = d /\
  take 6 (drop (p + 4) l) = s ++ v ++ t /\ take 4 (drop (p + 10 + length d) l) = c.
Proof.
  intros Hm Hs Hv Ht Hc l p. unfold l.
  split_and!; [apply (middle _ pre m ((s ++ v ++ t) ++ d ++ c ++ post))
    |apply (middle _ (pre ++ m) s (v ++ t ++ d ++ c ++ post))|apply (middle _ (pre ++ m ++ s) v (t ++ d ++ c ++ post))
    |apply (middle _ (pre ++ m ++ s ++ v) t (d ++ c ++ post))|apply (middle _ (pre ++ m ++ s ++ v ++ t) d (c ++ post))
    |apply (middle _ (pre ++ m) (s ++ v ++ t) (d ++ c ++ post))|apply (middle _ (pre ++ m ++ s ++ v ++ t ++ d) c post)];
  rewrite <- ?app_assoc, ?length_app; done || lia.
Qed.

(** The fields of a frame in the middle of a file. *)
Lemma encode_fields pre v t d post c :
  fits c (v, t, d) ->
  let l := pre ++ encode v t d ++ post in let p := length pre in
  take 4 (drop p l) = to_le_bytes 4 MAGIC_NUMBER /\
  from_le_bytes (take 4 (drop (p + 4) l)) = Z.of_nat (length d) /\
  from_le_bytes (take 1 (drop (p + 8) l)) = v /\ from_le_bytes (take 1 (drop (p + 9) l)) = t /\
  take (length d) (drop (p + 10) l) = d /\
  take 6 (drop (p + 4) l) = to_le_bytes 4 (Z.of_nat (length d)) ++ to_le_bytes 1 v ++ to_le_bytes 1 t /\
  from_le_bytes (take 4 (drop (p + 10 + length d) l)) =
    crc32_hash ((to_le_bytes 4 (Z.of_nat (length d)) ++ to_le_bytes 1 v ++ to_le_bytes 1 t) ++ d).
Proof.
  intros (Hv & Ht & _ & Hd) l p. unfold l, p, encode. set (crc := crc32_hash _).
  assert (is_u32 crc) as Hc by apply crc32_u32. unfold is_u8, is_u32 in *.
  destruct (frame_parts pre (to_le_bytes 4 MAGIC_NUMBER) (to_le_bytes 4 (Z.of_nat (length d))) (to_le_bytes 1 v)
    (to_le_bytes 1 t) d (to_le_bytes 4 crc) post) as (-> & -> & -> & -> & -> & -> & ->); [apply length_to_le_bytes..|].
  rewrite !from_to_le; [done|cbn; lia..].
Qed.

Lemma length_around pre v t d (post : list Z) :
  (length pre + 10 + length d + 4 <= length (pre ++ encode v t d ++ post))%nat.
Proof. rewrite !length_app, length_encode. lia. Qed.

Lemma frame_at_encode c pre v t d post : fits c (v, t, d) ->
  frame_at c (pre ++ encode v t d ++ post) (length pre) = Valid (mkRecord t v d (Z.of_nat (length pre))).
Proof.
  intros Hf. destruct (encode_fields pre v t d post c Hf) as (Hm & Hs & Hv & Ht & Hb & Hh & Hc).
  pose proof (length_around pre v t d post) as Hl. destruct Hf as (_ & _ & Hdc & _).
  unfold frame_at. rewrite Hs, Nat2Z.id, Hb, Hh, Hc, Hv, Ht. unfold magic_at. rewrite Hm, from_to_le by done.
  rewrite !(proj2 (Nat.ltb_ge _ _)), !(proj2 (Nat.leb_le _ _)), !Z.eqb_refl by lia. done.
Qed.

Lemma read_one_encode c pre v t d post : fits c (v, t, d) ->
  read_one (pre ++ encode v t d ++ post) (length pre) = Ok (mkRecord t v d (Z.of_nat (length pre))).
Proof.
  intros Hf. destruct (encode_fields pre v t d post c Hf) as (Hm & Hs & Hv & Ht & Hb & Hh & Hc).
  pose proof (length_around pre v t d post) as Hl. set (l := pre ++ _ ++ _) in *. unfold read_one.
  unfold RECORD_MAGIC_NUMBER_LEN, RECORD_DATA_SIZE_LEN, RECORD_DATA_VERSION_LEN, RECORD_DATA_TYPE_LEN. cbn [Nat.add].
  assert (forall n p, (p <= length l)%nat -> read_at (E := RecordFileError) l p n = Ok (take n (drop p l))) as Hr.
  { intros n q Hq. unfold read_at. rewrite (proj2 (Nat.leb_le _ _)) by done.
    destruct (Nat.eqb_spec n 0) as [->|]; done. }
  rewrite Hr by lia. run. rewrite length_take, length_drop, Nat.min_l by lia. cbn [Nat.eqb negb].
  assert (forall i j, (i <= j <= 10)%nat ->
    slice (E := RecordFileError) (take 10 (drop (length pre) l)) i j = Ok (take (j - i) (drop (length pre + i) l))) as Hsl.
  { intros i j Hij. rewrite slice_ok; [|lia|rewrite length_take, length_drop; lia].
    rewrite skipn_firstn_comm, drop_drop, take_take. by rewrite Nat.min_l by lia. }
  rewrite !Hsl by lia. run. cbn [Nat.sub]. rewrite Nat.add_0_r, Hm, from_to_le, Z.eqb_refl by done. cbn [negb].
  rewrite Hs, Hv, Ht, Nat2Z.id, Hr by lia. run. by rewrite Hb, Nat.eqb_refl.
Qed.

(** Several calls, and the positions they return. *)
Fixpoint write_records (f : list Z) (xs : list (Z * Z * list Z)) : outcome RecordFileError (list Z * list nat) :=
  match xs with
  | [] => Ok (f, [])
  | (v, t, d) :: xs' =>
      '(f, p) ← write_record f v t d;
      '(f, ps) ← write_records f xs';
      Ok (f, p :: ps)
  end.

Definition encode_all (xs : list (Z * Z * list Z)) : list Z := concat (map (fun '(v, t, d) => encode v t d) xs).

(** The records of the calls, for a file of length [p]. *)
Fixpoint records_from (p : nat) (xs : list (Z * Z * list Z)) : list Record_ :=
  match xs with
  | [] => []
  | (v, t, d) :: xs' => mkRecord t v d (Z.of_nat p) :: records_from (p + (14 + length d)) xs'
  end.

Lemma write_records_ok c xs : forall f, Forall (fits c) xs ->
  write_records f xs = Ok (f ++ encode_all xs, map (fun rec => Z.to_nat (pos_ rec)) (records_from (length f) xs)).
Proof.
  induction xs as [|[[v t] d] xs IH]; intros f Hx; [by rewrite app_nil_r|].
  inversion Hx as [|? ? Hf Hx']; subst. destruct Hf as (Hv & Ht & Hc & Hd). cbn [write_records]. rewrite write_record_ok by done. run.
  rewrite IH by done. run. cbn [records_from map pos_]. rewrite Nat2Z.id, length_app, length_encode.
  unfold encode_all. cbn [map concat]. by rewrite <- app_assoc.
Qed.

Lemma read_one_all c xs : forall pre, Forall (fits c) xs ->
  Forall (fun rec => read_one (pre ++ encode_all xs) (Z.to_nat (pos_ rec)) = Ok rec) (records_from (length pre) xs).
Proof.
  induction xs as [|[[v t] d] xs IH]; intros pre Hx; [constructor|].
  inversion Hx as [|? ? Hf Hx']; subst. cbn [records_from]. unfold encode_all. cbn [map concat]. constructor.
  - cbn [pos_]. rewrite Nat2Z.id. by apply (read_one_encode c).
  - specialize (IH (pre ++ encode v t d) Hx'). rewrite length_app, length_encode, <- app_assoc in IH. exact IH.
Qed.

Lemma read_records_S fuel f r rec r' : read_record (S (length f)) f r = Ok (rec, r') ->
  read_records (S fuel) f r = (rs ← read_records fuel f r'; Ok (rec :: rs)).
Proof. intros H. cbn [read_records]. by rewrite H. Qed.

(** The reader in front of a frame, and at the end of the file. *)
Lemma read_encoded c pre v t d post r : (10 <= c)%nat -> fits c (v, t, d) ->
  let f := pre ++ encode v t d ++ post in Z.of_nat (length f) < U64 -> at_pos f c (length pre) r ->
  exists r', read_record (S (length f)) f r = Ok (mkRecord t v d (Z.of_nat (length pre)), r') /\
    at_pos f c (length (pre ++ encode v t d)) r'.
Proof.
  intros Hc Hf f Hl Ha. destruct (read_record_scan f c Hl Hc (S (length f)) _ r Ha ltac:(lia)) as [r' Hr].
  rewrite next_record_eq in Hr by apply (at_le _ _ _ _ Ha). unfold f in Hr. rewrite frame_at_encode in Hr by done.
  fold f in Hr. destruct Hr as [-> A]. exists r'. split; [done|].
  replace (length (pre ++ encode v t d)) with (record_end (mkRecord t v d (Z.of_nat (length pre)))); [done|].
  unfold record_end. cbn [pos_ data]. rewrite length_app, length_encode. lia.
Qed.

Lemma read_at_end c f r : (10 <= c)%nat -> Z.of_nat (length f) < U64 -> at_pos f c (length f) r ->
  exists r', read_record (S (length f)) f r = Err (Eof, r').
Proof.
  intros Hc Hl Ha. destruct (read_record_scan f c Hl Hc (S (length f)) _ r Ha ltac:(lia)) as [r' Hr].
  rewrite next_record_end in Hr by done. by exists r'.
Qed.

Lemma read_all_ok c xs : forall pre r, (10 <= c)%nat -> Forall (fits c) xs ->
  Z.of_nat (length (pre ++ encode_all xs)) < U64 -> at_pos (pre ++ encode_all xs) c (length pre) r ->
  read_records (S (length xs)) (pre ++ encode_all xs) r = Ok (records_from (length pre) xs).
Proof.
  induction xs as [|[[v t] d] xs IH]; intros pre r Hc Hx Hl Ha; cbn [length].
  - unfold encode_all in *. cbn [map concat] in *. rewrite app_nil_r in *.
    destruct (read_at_end c pre r Hc Hl Ha) as [r' Hr]. cbn [read_records]. by rewrite Hr.
  - inversion Hx as [|? ? Hf Hx']; subst. unfold encode_all in *. cbn [map concat] in *. fold (encode_all xs) in *.
    destruct (read_encoded c pre v t d (encode_all xs) r Hc Hf Hl Ha) as (r' & Hr & A).
    rewrite (read_records_S _ _ _ _ _ Hr). cbn [records_from].
    specialize (IH (pre ++ encode v t d) r' Hc Hx'). rewrite <- app_assoc in IH.
    rewrite IH by done. run. by rewrite length_app, length_encode.
Qed.

(** C22. On every file, from every state of its buffer and at every position [p],
    the reader passes over the damaged positions up to the first one [q] that is
    not damaged.  If [q] has a valid record the reader returns it and is left
    behind it; otherwise too few bytes are left at [q] and the reader reports the
    end of the file.  It then missed a valid record only if the frame at [q] is
    unfinished, that is if the file ends inside its checksum, and the record lies
    behind [q]; in every other case there is no valid record at or after [p].  The
    bound on the recursion is never reached and nothing panics. *)
Theorem record_reader_scan (f : list Z) (c p : nat) (r : Reader) :
  Z.of_nat (length f) < U64 -> (10 <= c)%nat -> at_pos f c p r ->
  exists q r', (p <= q <= length f)%nat /\ (forall i, (p <= i < q)%nat -> frame_at c f i = Damaged) /\
    match frame_at c f q with
    | Valid rec => read_record (S (length f)) f r = Ok (rec, r') /\ at_pos f c (record_end rec) r'
    | Short => read_record (S (length f)) f r = Err (Eof, r') /\
        (forall i rec, (p <= i)%nat -> frame_at c f i = Valid rec -> (q < i)%nat /\ unfinished f q)
    | Damaged => False
    end.
Proof.
  intros Hl Hc Ha. destruct (read_record_scan f c Hl Hc (S (length f)) p r Ha ltac:(lia)) as [r' Hr].
  destruct (next_record_first c f p (at_le _ _ _ _ Ha)) as (q & Hq & Hd & H). exists q, r'. split_and!; [lia|lia|done|].
  destruct (frame_at c f q) as [rec| |] eqn:E; [by rewrite H in Hr|done|]. rewrite H in Hr. split; [done|].
  intros i rec Hi Hv. assert (q < i)%nat as Hlt.
  { destruct (Nat.lt_trichotomy i q) as [Hlt|[->|Hgt]]; [|congruence|done]. by rewrite Hd in Hv by lia. }
  split; [done|]. destruct (frame_at_Short c f q E) as [Hs|Hu]; [|done]. by rewrite frame_at_short in Hv by lia.
Qed.

(** Reading a file of arbitrary bytes to its end terminates without a panic
    and yields valid records that follow each other without overlap. *)
Theorem read_records_total (f : list Z) :
  Z.of_nat (length f) < U64 ->
  exists rs, read_records (S (length f)) f new_reader = Ok rs /\ disjoint_records f READER_BUF_SIZE 0 rs.
Proof.
  intros Hl. assert (10 <= READER_BUF_SIZE)%nat by (unfold READER_BUF_SIZE; lia).
  apply (read_records_ok f READER_BUF_SIZE Hl H); [by apply at_pos_new|lia].
Qed.

(** Records written to a new file are read back, in order, by a new reader,
    and each of them is read at the position its call returned. *)
Theorem record_roundtrip (xs : list (Z * Z * list Z)) :
  Forall (fits READER_BUF_SIZE) xs -> Z.of_nat (length (encode_all xs)) < U64 ->
  exists f ps, write_records [] xs = Ok (f, ps) /\
    read_records (S (length xs)) f new_reader = Ok (records_from 0 xs) /\
    Forall2 (fun p rec => read_one f p = Ok rec) ps (records_from 0 xs).
Proof.
  intros Hx Hl. eexists _, _. split; [by apply (write_records_ok READER_BUF_SIZE)|]. split.
  - apply (read_all_ok READER_BUF_SIZE xs []); [unfold READER_BUF_SIZE; lia|done|done|].
    apply at_pos_new; unfold READER_BUF_SIZE; done || lia.
  - apply Forall2_fmap_l, Forall_Forall2_diag. exact (read_one_all READER_BUF_SIZE xs [] Hx).
Qed.

End writer.

(** ** An example with the CRC-32 of IEEE 802.3 *)

Fixpoint crc_bits (n : nat) (x : Z) : Z :=
  match n with
  | O => x
  | S n' => crc_bits n' (if Z.odd x then Z.lxor (Z.shiftr x 1) 0xEDB88320 else Z.shiftr x 1)
  end.

Definition ieee : Crc32 := fun l =>
  u32 (Z.lxor (fold_left (fun crc b => crc_bits 8 (Z.lxor crc b)) l 0xFFFFFFFF) 0xFFFFFFFF).

Lemma ieee_check : ieee [0x31; 0x32; 0x33; 0x34; 0x35; 0x36; 0x37; 0x38; 0x39] = 0xCBF43926.
Proof. reflexivity. Qed.

#[global] Instance ieee_range : Crc32Range ieee.
Proof. intros l. unfold is_u32, ieee, crc32_hash, u32. apply Z.mod_pos_bound. lia. Qed.

Definition example_records : list (Z * Z * list Z) := [(1, 2, [3; 4; 5]); (1, 1, []); (0, 7, [0x46; 0x6c; 0x4f; 0x67])].

(** Three frames, the first damaged in its data. *)
Definition damaged_file : list Z := let Crc := ieee in <[11%nat := 0]> (encode_all example_records).

Lemma record_reader_scan_witness :
  let P : BuildProfile := true in let PIO := cursor_facts.page16 in let Crc := ieee in
  exists r', read_record (S (length damaged_file)) damaged_file (mkReader 0 64 [] 0) = Ok (mkRecord 1 1 [] 17, r') /\
    at_pos damaged_file 64 31 r'.
Proof.
  intros P PIO Crc.
  assert (at_pos damaged_file 64 0 (mkReader 0 64 [] 0)) as Ha by (apply at_pos_new; done || lia).
  destruct (record_reader_scan damaged_file 64 0 _ ltac:(done) ltac:(lia) Ha) as (q & r' & Hq & Hd & H).
  assert (frame_at 64 damaged_file 17 = Valid (mkRecord 1 1 [] 17)) as E by (vm_compute; reflexivity).
  assert (q = 17%nat) as ->; [|rewrite E in H; exists r'; exact H].
  assert (~ (17 < q)%nat) as Hle by (intros Hlt; rewrite (Hd 17%nat) in E by lia; discriminate E).
  do 17 (destruct q as [|q]; [exfalso; vm_compute in H; exact H|]). lia.
Defined.

Lemma read_records_total_witness :
  let P : BuildProfile := true in let PIO := cursor_facts.page16 in let Crc := ieee in
  exists rs, read_records (S (length damaged_file)) damaged_file new_reader = Ok rs /\
    disjoint_records damaged_file READER_BUF_SIZE 0 rs.
Proof. intros P PIO Crc. apply (read_records_total damaged_file). done. Defined.

Lemma record_roundtrip_witness :
  let P : BuildProfile := true in let PIO := cursor_facts.page16 in let Crc := ieee in
  exists f ps, write_records [] example_records = Ok (f, ps) /\
    read_records 4 f new_reader = Ok (records_from 0 example_records) /\
    Forall2 (fun p rec => read_one f p = Ok rec) ps (records_from 0 example_records).
Proof.
  intros P PIO Crc. apply (record_roundtrip example_records); [|done].
  apply Forall_forall. intros x Hx. apply list_elem_of_In in Hx. destruct Hx as [<-|[<-|[<-|[]]]];
    unfold fits, is_u8, READER_BUF_SIZE; cbn [length]; lia.
Defined.

End record_facts.
