(* ===== verification/ForwardIndex.v ===== *)
(** * The forward index (tskv/src/forward_index)

    The index maps a series to its fields and their types.  In memory it keeps
    the field identifiers and the position of the series' last record; the record
    file is a log of whole series descriptions and removals.  [forward_index]
    translates the operations over the record file of RecordFile.

    [replay] is what the log means.  The theorems show that the operations keep
    memory, positions and log consistent, which fields a series has afterwards,
    that loading the log restores the fields, and what goes wrong with the
    positions after loading. *)
From S2P Require Import Prelude Sorting Utils Models FileIO Tsm TsmFacts Wal Bincode RecordFile.

Module forward_index.
Import record_file series_info.

(** ** Definitions *)

Definition VERSION : Z := 1.

Record InMemFieldInfo := mkInMemFieldInfo { f_id : Z; f_type : field_info.ValueType }.

Definition from_field_info (f : field_info.FieldInfo) : InMemFieldInfo :=
  mkInMemFieldInfo (field_info.id f) (field_info.value_type f).

Record InMemSeriesInfo := mkInMemSeriesInfo { s_id : Z; s_pos : nat; s_fields : list InMemFieldInfo }.

Definition with_series_info (si : SeriesInfo) (pos : nat) : InMemSeriesInfo :=
  mkInMemSeriesInfo (id si) pos (from_field_info <$> field_infos si).

Inductive ForwardIndexAction := UnknownAction | AddSeriesInfo | DelSeriesInfo.

Definition u8_number (a : ForwardIndexAction) : Z :=
  match a with UnknownAction => 0 | AddSeriesInfo => 1 | DelSeriesInfo => 2 end.

Definition action_of_u8 (act : Z) : ForwardIndexAction :=
  if act =? 0 then UnknownAction else if act =? 1 then AddSeriesInfo else if act =? 2 then DelSeriesInfo
  else UnknownAction.

(** errors.rs. *)
Inductive ForwardIndexError :=
| FWriteFile (source : RecordFileError) | FReadFile (source : RecordFileError) | FCloseFile (source : RecordFileError)
| Action | Version | FieldType | SeriesNotExists.

(** The writer and the readers share the file. *)
Record ForwardIndex := mkForwardIndex { series_info_set : gmap Z InMemSeriesInfo; file : list Z }.

Section index.
Context {P : BuildProfile} {PIO : PageIO} {Crc : Crc32} {B : Bincode SeriesInfo}.

(** [SeriesInfo::encode] and [decode]. *)
Definition encode_series {E} (si : SeriesInfo) : outcome E (list Z) := unwrap (serialize si).
Definition decode_series {E} (data : list Z) : outcome E SeriesInfo := unwrap (deserialize data).

Definition new (file : list Z) : ForwardIndex := mkForwardIndex ∅ file.

(** The loop over the fields in memory: whether the field is there, or has
    another type. *)
Fixpoint find_field (olds : list InMemFieldInfo) (f : field_info.FieldInfo) : outcome ForwardIndexError bool :=
  match olds with
  | [] => Ok false
  | o :: olds' =>
      if field_info.id f =? f_id o then
        if bool_decide (field_info.value_type f = f_type o) then Ok true else Err FieldType
      else find_field olds' f
  end.

(** One field of a series that is already there; an error carries the index as
    the previous fields left it. *)
Definition add_field (x : ForwardIndex) (sid : Z) (mem : InMemSeriesInfo) (f : field_info.FieldInfo)
    : outcome (ForwardIndexError * ForwardIndex) (ForwardIndex * InMemSeriesInfo) :=
  flag ← map_err (fun e => (e, x)) (find_field (s_fields mem) f);
  if flag : bool then Ok (x, mem)
  else
    record ← map_err (fun e => (FReadFile e, x)) (read_one (file x) (s_pos mem));
    if negb (data_type record =? u8_number AddSeriesInfo) then Err (Action, x)
    else if negb (data_version record =? VERSION) then Err (Version, x)
    else
      origin ← decode_series (data record);
      let origin := push_field_info origin f in
      buf ← encode_series origin;
      '(file, pos) ← map_err (fun e => (FWriteFile e, x))
                       (write_record (file x) VERSION (u8_number AddSeriesInfo) buf);
      let mem := mkInMemSeriesInfo (s_id mem) pos (s_fields mem ++ [from_field_info f]) in
      Ok (mkForwardIndex (<[sid := mem]> (series_info_set x)) file, mem).

Fixpoint add_fields (x : ForwardIndex) (sid : Z) (mem : InMemSeriesInfo) (fs : list field_info.FieldInfo)
    : outcome (ForwardIndexError * ForwardIndex) ForwardIndex :=
  match fs with
  | [] => Ok x
  | f :: fs' => '(x, mem) ← add_field x sid mem f; add_fields x sid mem fs'
  end.

Definition add_series_info_if_not_exists (x : ForwardIndex) (series_info : SeriesInfo)
    : outcome (ForwardIndexError * ForwardIndex) ForwardIndex :=
  let series_info := finish series_info in
  match series_info_set x !! id series_info with
  | Some mem => add_fields x (id series_info) mem (field_infos series_info)
  | None =>
      data ← encode_series series_info;
      '(file, pos) ← map_err (fun e => (FWriteFile e, x))
                       (write_record (file x) VERSION (u8_number AddSeriesInfo) data);
      Ok (mkForwardIndex (<[id series_info := with_series_info series_info pos]> (series_info_set x)) file)
  end.

(** [todo!()]. *)
Definition get_series_info_list {E} (x : ForwardIndex) (sids : list Z) : outcome E (list SeriesInfo) := Panic.

Definition del_series_info (x : ForwardIndex) (series_id : Z)
    : outcome (ForwardIndexError * ForwardIndex) ForwardIndex :=
  match series_info_set x !! series_id with
  | Some _ =>
      '(file, _) ← map_err (fun e => (FWriteFile e, x))
                     (write_record (file x) VERSION (u8_number DelSeriesInfo) (to_le_bytes 8 series_id));
      Ok (mkForwardIndex (delete series_id (series_info_set x)) file)
  | None => Ok x
  end.

(** The position of the record is not kept: it is set to 0. *)
Definition handle_record {E} (x : ForwardIndex) (record : Record_) : outcome E ForwardIndex :=
  if negb (data_version record =? VERSION) then Ok x
  else match action_of_u8 (data_type record) with
       | AddSeriesInfo =>
           si ← decode_series (data record);
           let si := with_series_info si 0 in
           Ok (mkForwardIndex (<[s_id si := si]> (series_info_set x)) (file x))
       | DelSeriesInfo =>
           if negb (length (data record) =? 8)%nat then Ok x
           else Ok (mkForwardIndex (delete (from_le_bytes (data record)) (series_info_set x)) (file x))
       | UnknownAction => Ok x
       end.

(** [while let Ok(record) = record_reader.read_record()]. *)
Fixpoint load_records (fuel : nat) (x : ForwardIndex) (r : Reader) : outcome RecordFileError ForwardIndex :=
  match fuel with
  | O => OutOfFuel
  | S fuel' =>
      match read_record (S (length (file x))) (file x) r with
      | Ok (record, r) => x ← handle_record x record; load_records fuel' x r
      | Err _ => Ok x
      | Panic => Panic
      | OutOfFuel => OutOfFuel
      end
  end.

Definition load_cache_file (x : ForwardIndex) : outcome RecordFileError ForwardIndex :=
  load_records (S (length (file x))) x new_reader.

End index.
End forward_index.

(** ** What the log means *)
Module index_spec.
Import record_file record_facts series_info forward_index.

Section spec.
Context {B : Bincode SeriesInfo}.

(** The fields of each series after the records of a log. *)
Definition replay_step (m : gmap Z (list InMemFieldInfo)) (x : Z * Z * list Z) : gmap Z (list InMemFieldInfo) :=
  let '(v, t, d) := x in
  if negb (v =? VERSION) then m
  else match action_of_u8 t with
       | AddSeriesInfo =>
           match deserialize d with Some si => <[id si := from_field_info <$> field_infos si]> m | None => m end
       | DelSeriesInfo => if negb (length d =? 8)%nat then m else delete (from_le_bytes d) m
       | UnknownAction => m
       end.

Definition replay (log : list (Z * Z * list Z)) : gmap Z (list InMemFieldInfo) := foldl replay_step ∅ log.

(** The fields of a series after adding [fs] to [olds], and whether all types
    agree; the first field that does not ends it. *)
Fixpoint merge_fields (olds : list InMemFieldInfo) (fs : list field_info.FieldInfo) : list InMemFieldInfo * bool :=
  match fs with
  | [] => (olds, true)
  | f :: fs' =>
      match find_field olds f with
      | Ok true => merge_fields olds fs'
      | Ok false => merge_fields (olds ++ [from_field_info f]) fs'
      | _ => (olds, false)
      end
  end.

Definition fields (x : ForwardIndex) (sid : Z) : option (list InMemFieldInfo) := s_fields <$> series_info_set x !! sid.

(** The operations on the index, the series each is about, and the fields it has
    afterwards, with whether the operation succeeds. *)
Inductive index_op := OpAdd (info : SeriesInfo) | OpDel (series_id : Z).

Definition op_series (op : index_op) : Z :=
  match op with OpAdd info => id (finish info) | OpDel sid => sid end.

Definition op_fields (olds : option (list InMemFieldInfo)) (op : index_op) : option (list InMemFieldInfo) * bool :=
  match op, olds with
  | OpDel _, _ => (None, true)
  | OpAdd info, None => (Some (from_field_info <$> field_infos (finish info)), true)
  | OpAdd info, Some olds =>
      let '(fs, agree) := merge_fields olds (field_infos (finish info)) in (Some fs, agree)
  end.

End spec.
End index_spec.

Module index_facts.
Import record_file record_facts series_info forward_index index_spec.

Section facts.
Context {P : BuildProfile} {PIO : PageIO} {Crc : Crc32} {CR : Crc32Range Crc}
  {B : Bincode SeriesInfo} {BL : BincodeLaws B}.

(** A description that can be written and read back. *)
Definition storable (si : SeriesInfo) : Prop :=
  exists bs, serialize si = Some bs /\ fits READER_BUF_SIZE (1, 1, bs).

(** A record that loading can handle. *)
Definition loadable (x : Z * Z * list Z) : Prop :=
  let '(v, t, d) := x in fits READER_BUF_SIZE x /\ (v = VERSION -> t = 1 -> is_Some (deserialize d)).

(** The entry of a series points to the record that describes it. *)
Definition located (log : list (Z * Z * list Z)) (sid : Z) (mem : InMemSeriesInfo) (si : SeriesInfo) : Prop :=
  exists pre d post, log = pre ++ (1, 1, d) :: post /\ s_pos mem = length (encode_all pre) /\
    deserialize d = Some si /\ id si = sid /\ from_field_info <$> field_infos si = s_fields mem.

Record inv (x : ForwardIndex) (log : list (Z * Z * list Z)) : Prop := mkInv {
  inv_file : file x = encode_all log;
  inv_log : Forall loadable log;
  inv_replay : replay log = s_fields <$> series_info_set x;
  inv_pos : forall sid mem, series_info_set x !! sid = Some mem -> exists si, located log sid mem si }.

Definition consistent (x : ForwardIndex) : Prop := exists log, inv x log.

Lemma encode_all_app a b : encode_all (a ++ b) = encode_all a ++ encode_all b.
Proof. unfold encode_all. by rewrite map_app, concat_app. Qed.

Lemma encode_all_cons v t d l : encode_all ((v, t, d) :: l) = encode v t d ++ encode_all l.
Proof. done. Qed.

Lemma encode_all_one v t d : encode_all [(v, t, d)] = encode v t d.
Proof. apply app_nil_r. Qed.

Lemma located_app log log' sid mem si : located log sid mem si -> located (log ++ log') sid mem si.
Proof.
  intros (pre & d & post & -> & H). exists pre, d, (post ++ log'). split; [by rewrite <- app_assoc|done].
Qed.

(** Appending a record. *)
Lemma append_ok x log t d : inv x log -> fits READER_BUF_SIZE (1, t, d) ->
  write_record (file x) 1 t d = Ok (encode_all (log ++ [(1, t, d)]), length (encode_all log)).
Proof.
  intros Hi Hf. rewrite write_record_ok by apply Hf. by rewrite (inv_file _ _ Hi), encode_all_app, encode_all_one.
Qed.

Lemma read_located x log sid mem si : inv x log -> located log sid mem si ->
  exists d p, read_one (file x) (s_pos mem) = Ok (mkRecord 1 1 d p) /\ deserialize d = Some si.
Proof.
  intros Hi (pre & d & post & -> & Hp & Hd & _). pose proof (inv_log _ _ Hi) as Hl.
  apply Forall_app in Hl as [_ Hl]. apply Forall_cons in Hl as [[Hf _] _].
  exists d, (Z.of_nat (length (encode_all pre))). split; [|done].
  rewrite (inv_file _ _ Hi), encode_all_app, encode_all_cons, Hp. by apply (read_one_encode READER_BUF_SIZE).
Qed.

Lemma replay_add log si bs : deserialize bs = Some si ->
  replay (log ++ [(1, 1, bs)]) = <[id si := from_field_info <$> field_infos si]> (replay log).
Proof. intros Hd. unfold replay. rewrite foldl_app. cbn [foldl replay_step Z.eqb negb]. by rewrite Hd. Qed.

(** A new record for series [sid], described by [si]. *)
Lemma inv_record x log si bs mem :
  inv x log -> serialize si = Some bs -> fits READER_BUF_SIZE (1, 1, bs) ->
  s_pos mem = length (encode_all log) -> s_fields mem = from_field_info <$> field_infos si ->
  inv (mkForwardIndex (<[id si := mem]> (series_info_set x)) (encode_all (log ++ [(1, 1, bs)]))) (log ++ [(1, 1, bs)]).
Proof.
  intros Hi Hs Hf Hp Hm. pose proof (deserialize_serialize si bs Hs) as Hd. constructor; cbn [file series_info_set].
  - done.
  - apply Forall_app. split; [apply Hi|]. constructor; [|constructor]. split; [done|]. by rewrite Hd.
  - by rewrite (replay_add _ _ _ Hd), (inv_replay _ _ Hi), fmap_insert, Hm.
  - intros sid m. destruct (decide (sid = id si)) as [->|Hne].
    + rewrite lookup_insert_eq. intros [= <-]. exists si, log, bs, []. split_and!; done.
    + rewrite lookup_insert_ne by done. intros Hl. destruct (inv_pos _ _ Hi sid m Hl) as [si' Hsi'].
      exists si'. by apply located_app.
Qed.

Definition with_fields (si : SeriesInfo) (fs : list field_info.FieldInfo) : SeriesInfo :=
  mkSeriesInfo (id si) (tags si) (field_infos si ++ fs) (finished si).

Lemma add_field_ok x log sid mem si f :
  inv x log -> series_info_set x !! sid = Some mem -> located log sid mem si ->
  find_field (s_fields mem) f = Ok false -> storable (with_fields si [f]) ->
  exists x' mem' log', add_field x sid mem f = Ok (x', mem') /\ inv x' log' /\
    series_info_set x' = <[sid := mem']> (series_info_set x) /\
    s_fields mem' = s_fields mem ++ [from_field_info f] /\ located log' sid mem' (with_fields si [f]).
Proof.
  intros Hi Hm Hloc Hff (bs & Hs & Hfit). destruct (read_located x log sid mem si Hi Hloc) as (d & p & Hr & Hd).
  pose proof Hloc as (_ & _ & _ & _ & _ & _ & Hid & Hfs).
  unfold add_field. rewrite Hff. cbn [map_err]. run. rewrite Hr. cbn [map_err]. run.
  cbn [data_type data_version data u8_number Z.eqb negb VERSION]. unfold decode_series. rewrite Hd. cbn [unwrap]. run.
  change (push_field_info si f) with (with_fields si [f]). unfold encode_series. rewrite Hs. cbn [unwrap]. run.
  change VERSION with 1. rewrite (append_ok x log 1 bs Hi Hfit). cbn [map_err]. run.
  eexists _, _, (log ++ [(1, 1, bs)]). split; [reflexivity|].
  assert (s_fields mem ++ [from_field_info f] = from_field_info <$> field_infos (with_fields si [f])) as Hnew.
  { cbn [field_infos with_fields]. by rewrite fmap_app, Hfs. }
  split_and!; [|done|done|].
  - rewrite <- Hid. change (id si) with (id (with_fields si [f])). by apply inv_record.
  - exists log, bs, []. split_and!; [done|done|by apply deserialize_serialize|done|done].
Qed.

(** The fields of [fs] that get a record of their own. *)
Lemma merge_new olds fs : exists news, news `sublist_of` fs /\ (merge_fields olds fs).1 = olds ++ (from_field_info <$> news).
Proof.
  revert olds. induction fs as [|f fs IH]; intros olds; [exists []; by rewrite app_nil_r|]. cbn [merge_fields].
  destruct (find_field olds f) as [[]| | |]; try (exists []; split; [apply sublist_nil_l|by rewrite app_nil_r]).
  - destruct (IH olds) as (news & H1 & H2). exists news. split; [by apply sublist_cons|done].
  - destruct (IH (olds ++ [from_field_info f])) as (news & H1 & H2). exists (f :: news).
    split; [by apply sublist_skip|]. rewrite H2, <- app_assoc. done.
Qed.

Lemma with_fields_nil si : with_fields si [] = si.
Proof. destruct si. unfold with_fields. cbn. by rewrite app_nil_r. Qed.

Lemma with_fields_app si a b : with_fields (with_fields si a) b = with_fields si (a ++ b).
Proof. unfold with_fields. cbn. by rewrite app_assoc. Qed.

Lemma find_field_result olds f : find_field olds f = Ok true \/ find_field olds f = Ok false \/ find_field olds f = Err FieldType.
Proof.
  induction olds as [|o olds IH]; cbn [find_field]; [by right; left|]. destruct (_ =? _); [|done].
  case_bool_decide; [by left|by right; right].
Qed.

Lemma add_fields_ok fs : forall x log sid mem si,
  inv x log -> series_info_set x !! sid = Some mem -> located log sid mem si ->
  (forall news, news `sublist_of` fs -> storable (with_fields si news)) ->
  exists x', add_fields x sid mem fs = (if (merge_fields (s_fields mem) fs).2 then Ok x' else Err (FieldType, x')) /\
    consistent x' /\ fields x' sid = Some (merge_fields (s_fields mem) fs).1 /\
    (forall sid', sid' <> sid -> series_info_set x' !! sid' = series_info_set x !! sid').
Proof.
  induction fs as [|f fs IH]; intros x log sid mem si Hi Hm Hloc Hst; cbn [add_fields merge_fields].
  { exists x. unfold fields. rewrite Hm. split_and!; [done|by exists log|done|done]. }
  destruct (find_field (s_fields mem) f) as [[]|e| |] eqn:Hff.
  - unfold add_field. rewrite Hff. cbn [map_err]. run. apply (IH x log sid mem si); [done..|].
    intros news Hn. apply Hst. by apply sublist_cons.
  - destruct (add_field_ok x log sid mem si f) as (x1 & mem1 & log1 & -> & Hi1 & Hs1 & Hf1 & Hl1); [done..| |].
    { apply Hst. apply sublist_skip, sublist_nil_l. }
    run. rewrite <- Hf1. destruct (IH x1 log1 sid mem1 (with_fields si [f])) as (x' & E & Hc & Hfs & Ho); [done| |done| |].
    { by rewrite Hs1, lookup_insert_eq. }
    { intros news Hn. rewrite with_fields_app. apply Hst. by apply sublist_skip. }
    exists x'. split_and!; [done|done|done|]. intros sid' Hne. rewrite Ho, Hs1 by done. by rewrite lookup_insert_ne.
  - exists x. unfold add_field. rewrite Hff. cbn [map_err snd fst]. unfold fields. rewrite Hm.
    destruct (find_field_result (s_fields mem) f) as [?|[?|?]]; [congruence..|]. assert (e = FieldType) as -> by congruence.
    split_and!; [done|by exists log|done|done].
  - by destruct (find_field_result (s_fields mem) f) as [?|[?|?]]; congruence.
  - by destruct (find_field_result (s_fields mem) f) as [?|[?|?]]; congruence.
Qed.

(** A field that is in the index stays there, and the fields added are. *)
Lemma find_field_app olds l f : find_field olds f = Ok true -> find_field (olds ++ l) f = Ok true.
Proof.
  induction olds as [|o olds IH]; cbn [find_field app]; [done|]. by destruct (_ =? _).
Qed.

Lemma find_field_new olds f : find_field olds f = Ok false -> find_field (olds ++ [from_field_info f]) f = Ok true.
Proof.
  induction olds as [|o olds IH]; cbn [find_field app from_field_info f_id f_type].
  - by rewrite Z.eqb_refl, bool_decide_eq_true_2.
  - by destruct (_ =? _); [case_bool_decide|].
Qed.

Lemma merge_extends fs : forall olds f, find_field olds f = Ok true -> find_field (merge_fields olds fs).1 f = Ok true.
Proof.
  intros olds f Hf. destruct (merge_new olds fs) as (news & _ & ->). by apply find_field_app.
Qed.

Lemma merge_complete fs : forall olds, (merge_fields olds fs).2 = true ->
  Forall (fun f => find_field (merge_fields olds fs).1 f = Ok true) fs.
Proof.
  induction fs as [|f fs IH]; intros olds H; [constructor|]. cbn [merge_fields] in *.
  destruct (find_field olds f) as [[]| | |] eqn:Hff; try done; (constructor; [|by apply IH]); apply merge_extends; [done|].
  by apply find_field_new.
Qed.

(** The description of a series the code reads back, and the ones it may write. *)
Definition room (x : ForwardIndex) (si : SeriesInfo) : Prop :=
  match series_info_set x !! id si with
  | None => storable si
  | Some mem => forall rec si0 news, read_one (file x) (s_pos mem) = Ok rec -> deserialize (data rec) = Some si0 ->
      news `sublist_of` field_infos si -> storable (with_fields si0 news)
  end.

Lemma add_series_ok x info (si := finish info) :
  consistent x -> room x si ->
  exists x', consistent x' /\ (forall sid, sid <> id si -> fields x' sid = fields x sid) /\
    match fields x (id si) with
    | None => add_series_info_if_not_exists x info = Ok x' /\ fields x' (id si) = Some (from_field_info <$> field_infos si)
    | Some olds =>
        let '(fs, agree) := merge_fields olds (field_infos si) in
        add_series_info_if_not_exists x info = (if agree then Ok x' else Err (FieldType, x')) /\ fields x' (id si) = Some fs
    end.
Proof.
  intros [log Hi] Hroom. unfold add_series_info_if_not_exists. fold si. unfold room in Hroom. unfold fields at 3.
  destruct (series_info_set x !! id si) as [mem|] eqn:Hm; cbn [fmap option_fmap option_map].
  - destruct (inv_pos _ _ Hi (id si) mem Hm) as [si0 Hloc].
    destruct (read_located x log (id si) mem si0 Hi Hloc) as (d & p & Hr & Hd).
    destruct (add_fields_ok (field_infos si) x log (id si) mem si0 Hi Hm Hloc) as (x' & E & Hc & Hf & Ho).
    { intros news Hn. by apply (Hroom _ si0 news Hr Hd). }
    exists x'. split_and!; [done| |].
    + intros sid Hne. unfold fields. by rewrite Ho.
    + destruct (merge_fields _ _) as [fs agree]. done.
  - destruct Hroom as (bs & Hs & Hfit). unfold encode_series. rewrite Hs. cbn [unwrap]. run.
    change VERSION with 1. change (u8_number AddSeriesInfo) with 1. rewrite (append_ok x log 1 bs Hi Hfit). cbn [map_err]. run.
    eexists. split; [|split; [|split; [reflexivity|]]].
    + exists (log ++ [(1, 1, bs)]). by apply inv_record.
    + intros sid Hne. unfold fields. cbn [series_info_set]. by rewrite lookup_insert_ne.
    + unfold fields. cbn [series_info_set]. by rewrite lookup_insert_eq.
Qed.

Lemma le_bytes_u64 v : is_u64 v -> from_le_bytes (to_le_bytes 8 v) = v.
Proof. intros Hv. rewrite from_to_le_bytes. apply Z.mod_small. unfold is_u64, U64 in Hv. cbn. lia. Qed.

Lemma del_series_ok x sid : consistent x -> is_u64 sid ->
  exists x', del_series_info x sid = Ok x' /\ consistent x' /\ fields x' sid = None /\
    (forall sid', sid' <> sid -> fields x' sid' = fields x sid').
Proof.
  intros [log Hi] Hu. unfold del_series_info. destruct (series_info_set x !! sid) as [mem|] eqn:Hm.
  2:{ exists x. split_and!; [done|by exists log| |done]. unfold fields. by rewrite Hm. }
  assert (fits READER_BUF_SIZE (1, 2, to_le_bytes 8 sid)) as Hfit.
  { unfold fits, is_u8, READER_BUF_SIZE. rewrite length_to_le_bytes. lia. }
  change VERSION with 1. change (u8_number DelSeriesInfo) with 2. rewrite (append_ok x log 2 _ Hi Hfit). cbn [map_err]. run.
  eexists. split; [reflexivity|]. unfold fields. cbn [series_info_set]. split_and!.
  - exists (log ++ [(1, 2, to_le_bytes 8 sid)]). constructor; cbn [file series_info_set]; [done| | |].
    + apply Forall_app. split; [apply Hi|]. constructor; [by split|constructor].
    + unfold replay. rewrite foldl_app. fold (replay log). cbn [foldl].
      change (replay_step (replay log) (1, 2, to_le_bytes 8 sid)) with (delete (from_le_bytes (to_le_bytes 8 sid)) (replay log)).
      by rewrite le_bytes_u64, (inv_replay _ _ Hi), fmap_delete.
    + intros s m [_ Hl]%lookup_delete_Some. destruct (inv_pos _ _ Hi s m Hl) as [si0 Hsi0]. exists si0. by apply located_app.
  - by rewrite lookup_delete_eq.
  - intros s Hne. by rewrite lookup_delete_ne.
Qed.

(** ** Loading *)

Definition unplaced (x : ForwardIndex) : Prop := map_Forall (fun _ mem => s_pos mem = 0%nat) (series_info_set x).

Lemma handle_record_ok {E} x v t d p : loadable (v, t, d) ->
  exists y, handle_record (E := E) x (mkRecord t v d p) = Ok y /\ file y = file x /\
    s_fields <$> series_info_set y = replay_step (s_fields <$> series_info_set x) (v, t, d) /\ (unplaced x -> unplaced y).
Proof.
  intros [_ Hd]. unfold handle_record, replay_step, decode_series. cbn [data_version data_type data].
  destruct (Z.eqb_spec v VERSION) as [->|]; cbn [negb]; [|by exists x].
  unfold action_of_u8. destruct (t =? 0); [by exists x|]. destruct (Z.eqb_spec t 1) as [->|].
  - destruct (Hd eq_refl eq_refl) as [si ->]. cbn [unwrap]. run. eexists. split; [reflexivity|].
    cbn [file series_info_set]. split_and!; [done|by rewrite fmap_insert|].
    intros Hu. by apply map_Forall_insert_2.
  - destruct (t =? 2); [|by exists x]. destruct (negb _); [by exists x|]. eexists. split; [reflexivity|].
    cbn [file series_info_set]. split_and!; [done|by rewrite fmap_delete|]. intros Hu. by apply map_Forall_delete.
Qed.

Lemma load_records_ok xs : forall pre x r fuel, (length xs < fuel)%nat -> Forall loadable xs ->
  file x = pre ++ encode_all xs -> Z.of_nat (length (file x)) < U64 ->
  at_pos (file x) READER_BUF_SIZE (length pre) r ->
  exists y, load_records fuel x r = Ok y /\ file y = file x /\
    s_fields <$> series_info_set y = foldl replay_step (s_fields <$> series_info_set x) xs /\ (unplaced x -> unplaced y).
Proof.
  assert (10 <= READER_BUF_SIZE)%nat as Hc by (unfold READER_BUF_SIZE; lia).
  induction xs as [|[[v t] d] xs IH]; intros pre x r [|fuel] Hn Hx Hf Hl Ha; try (cbn [length] in Hn; lia); cbn [load_records].
  - unfold encode_all in Hf. cbn [map concat] in Hf. rewrite app_nil_r in Hf. rewrite <- Hf in Ha.
    destruct (read_at_end READER_BUF_SIZE (file x) r Hc Hl Ha) as [r' ->]. by exists x.
  - apply Forall_cons in Hx as [Hd Hx]. rewrite encode_all_cons in Hf. pose proof Hd as [Hfit _].
    rewrite Hf in Hl, Ha. destruct (read_encoded READER_BUF_SIZE pre v t d (encode_all xs) r Hc Hfit Hl Ha) as (r' & Hr & A).
    rewrite <- Hf in Hr, A, Hl. rewrite Hr. destruct (handle_record_ok (E := RecordFileError) x v t d (Z.of_nat (length pre)) Hd)
      as (y1 & -> & F1 & S1 & U1). run.
    destruct (IH (pre ++ encode v t d) y1 r' fuel) as (y & -> & F & S & U); [cbn [length] in Hn; lia|done| |by rewrite F1|by rewrite F1|].
    { by rewrite F1, Hf, <- app_assoc. }
    exists y. split_and!; [done|congruence|by rewrite S, S1|auto].
Qed.

Lemma length_encode_all log : (length log <= length (encode_all log))%nat.
Proof.
  induction log as [|[[v t] d] log IH]; [done|]. rewrite encode_all_cons, length_app, length_encode. cbn [length]. lia.
Qed.

Lemma load_log log : Forall loadable log -> Z.of_nat (length (encode_all log)) < U64 ->
  exists y, load_cache_file (new (encode_all log)) = Ok y /\ file y = encode_all log /\
    (forall sid, fields y sid = replay log !! sid) /\ unplaced y.
Proof.
  intros Hlog Hl. pose proof (length_encode_all log). unfold load_cache_file.
  destruct (load_records_ok log [] (new (encode_all log)) new_reader (S (length (encode_all log))))
    as (y & E & F & S & U); cbn [file new app] in *; [lia|done..| |].
  { apply at_pos_new; unfold READER_BUF_SIZE; done || lia. }
  exists y. split_and!; [done|done| |].
  - intros sid. unfold fields. rewrite <- lookup_fmap, S. cbn [series_info_set new]. by rewrite fmap_empty.
  - apply U. apply map_Forall_empty.
Qed.

Definition run_op (x : ForwardIndex) (op : index_op) : outcome (ForwardIndexError * ForwardIndex) ForwardIndex :=
  match op with OpAdd info => add_series_info_if_not_exists x info | OpDel sid => del_series_info x sid end.

(** The records an operation writes fit in a record file. *)
Definition op_room (x : ForwardIndex) (op : index_op) : Prop :=
  match op with OpAdd info => room x (finish info) | OpDel sid => is_u64 sid end.

Lemma run_op_ok x op : consistent x -> op_room x op ->
  exists x', consistent x' /\
    run_op x op = (if (op_fields (fields x (op_series op)) op).2 then Ok x' else Err (FieldType, x')) /\
    fields x' (op_series op) = (op_fields (fields x (op_series op)) op).1 /\
    (forall sid, sid <> op_series op -> fields x' sid = fields x sid).
Proof.
  intros Hc Hr. destruct op as [info|sid]; cbn [run_op op_series op_fields].
  - destruct (add_series_ok x info Hc Hr) as (x' & Hc' & Ho & H). exists x'.
    destruct (fields x (id (finish info))) as [olds|]; [|by destruct H].
    destruct (merge_fields olds _) as [fs agree]. by destruct H.
  - destruct (del_series_ok x sid Hc Hr) as (x' & -> & Hc' & Hn & Ho). by exists x'.
Qed.

Lemma consistent_new : consistent (new []).
Proof. exists []. constructor; [done|by apply Forall_nil|by cbn; rewrite fmap_empty|]. intros sid mem H. cbn [series_info_set new] in H. by rewrite lookup_empty in H. Qed.

(** C29. Each operation of the forward index implements its specification and
    keeps memory, record positions and log consistent: adding a series that is
    not there records its fields; adding one that is there appends the fields it
    does not have and stops with [FieldType] at the first whose type differs,
    keeping those appended before; after a success every field added is there with
    its type; removing a series forgets it; no other series changes. *)
Theorem index_operations x op : consistent x -> op_room x op ->
  exists x', consistent x' /\
    run_op x op = (if (op_fields (fields x (op_series op)) op).2 then Ok x' else Err (FieldType, x')) /\
    fields x' (op_series op) = (op_fields (fields x (op_series op)) op).1 /\
    (forall sid, sid <> op_series op -> fields x' sid = fields x sid) /\
    (forall info olds fs, op = OpAdd info -> fields x (op_series op) = Some olds -> run_op x op = Ok x' ->
       fields x' (op_series op) = Some fs -> Forall (fun f => find_field fs f = Ok true) (field_infos (finish info))).
Proof.
  intros Hc Hr. destruct (run_op_ok x op Hc Hr) as (x' & Hc' & E & Hf & Ho). exists x'. split_and!; [done..|].
  intros info olds fs -> Ho' E' Hf'. rewrite E, Ho' in E'. rewrite Hf, Ho' in Hf'. cbn [op_fields] in *.
  pose proof (merge_complete (field_infos (finish info)) olds) as Hm.
  destruct (merge_fields olds _) as [fs' []]; [|done]. cbn in *. injection Hf' as ->. by apply Hm.
Qed.

Lemma reload_ok x : consistent x -> Z.of_nat (length (file x)) < U64 ->
  exists y, load_cache_file (new (file x)) = Ok y /\ file y = file x /\ forall sid, fields y sid = fields x sid.
Proof.
  intros [log Hi] Hl. rewrite (inv_file _ _ Hi) in *. destruct (load_log log (inv_log _ _ Hi) Hl) as (y & E & F & S & _).
  exists y. split_and!; [done|done|]. intros sid. rewrite S, (inv_replay _ _ Hi), lookup_fmap. done.
Qed.

(** Loading the log of a consistent index gives an index with the same file
    and, for every series, the same fields in the same order. *)
Theorem index_reload x : consistent x -> Z.of_nat (length (file x)) < U64 ->
  exists y, load_cache_file (new (file x)) = Ok y /\ file y = file x /\ forall sid, fields y sid = fields x sid.
Proof. apply reload_ok. Qed.

Lemma unplaced_add y d0 log si0 info f sid olds bs (x := y) :
  file y = encode_all ((1, 1, d0) :: log) -> Forall loadable ((1, 1, d0) :: log) -> unplaced y ->
  deserialize d0 = Some si0 -> id (finish info) = sid -> field_infos (finish info) = [f] ->
  fields y sid = Some olds -> find_field olds f = Ok false ->
  serialize (with_fields si0 [f]) = Some bs -> fits READER_BUF_SIZE (1, 1, bs) ->
  exists z, add_series_info_if_not_exists y info = Ok z /\ fields z sid = Some (olds ++ [from_field_info f]) /\
    file z = encode_all (((1, 1, d0) :: log) ++ [(1, 1, bs)]).
Proof.
  intros F L U D0 Hid Hfs Hm Hff Hs Hfit. unfold fields in Hm. destruct (series_info_set y !! sid) as [mem|] eqn:Hl; [|done].
  injection Hm as <-. pose proof (U _ _ Hl) as Hp. apply Forall_cons in L as [[Hfit0 _] _].
  assert (read_one (file y) (s_pos mem) = Ok (mkRecord 1 1 d0 0)) as Hr.
  { rewrite F, Hp, encode_all_cons. by apply (read_one_encode READER_BUF_SIZE []). }
  unfold add_series_info_if_not_exists. rewrite Hid, Hl, Hfs. cbn [add_fields]. unfold add_field. rewrite Hff. cbn [map_err]. run.
  rewrite Hr. cbn [map_err]. run. cbn [data_type data_version data u8_number Z.eqb negb VERSION]. unfold decode_series.
  rewrite D0. cbn [unwrap]. run. change (push_field_info si0 f) with (with_fields si0 [f]). unfold encode_series. rewrite Hs.
  cbn [unwrap]. run. change VERSION with 1. rewrite write_record_ok by apply Hfit. cbn [map_err]. run.
  eexists. split; [reflexivity|]. unfold fields. cbn [series_info_set file]. rewrite lookup_insert_eq. split; [done|].
  by rewrite F, encode_all_app, encode_all_one.
Qed.

(** C30. Loading does not restore the positions of the records: all are 0.  When a
    field is then added to a series, the code reads the first record of the file,
    appends the field to the series that record describes and writes it back: in
    memory the field belongs to its series, but after the next load it belongs to
    the other one and its own series has lost it. *)
Theorem reloaded_index_misattributes d0 log si0 info f sid olds bs :
  let file0 := encode_all ((1, 1, d0) :: log) in
  Forall loadable ((1, 1, d0) :: log) -> deserialize d0 = Some si0 -> id si0 <> sid ->
  id (finish info) = sid -> field_infos (finish info) = [f] ->
  replay ((1, 1, d0) :: log) !! sid = Some olds -> find_field olds f = Ok false ->
  serialize (with_fields si0 [f]) = Some bs -> fits READER_BUF_SIZE (1, 1, bs) ->
  Z.of_nat (length (file0 ++ encode 1 1 bs)) < U64 ->
  exists y z w, load_cache_file (new file0) = Ok y /\ add_series_info_if_not_exists y info = Ok z /\
    load_cache_file (new (file z)) = Ok w /\
    fields z sid = Some (olds ++ [from_field_info f]) /\ fields w sid = Some olds /\
    fields w (id si0) = Some ((from_field_info <$> field_infos si0) ++ [from_field_info f]).
Proof.
  intros file0 L D0 Hne Hid Hfs Hm Hff Hs Hfit Hl. rewrite length_app in Hl.
  destruct (load_log _ L ltac:(fold file0; lia)) as (y & Ey & Fy & Sy & Uy).
  destruct (unplaced_add y d0 log si0 info f sid olds bs) as (z & Ez & Fz & Hz); [done|done|done|done|done|done|by rewrite Sy|done|done|done|].
  pose proof (deserialize_serialize _ _ Hs) as D1.
  assert (Forall loadable (((1, 1, d0) :: log) ++ [(1, 1, bs)])) as L'.
  { apply Forall_app. split; [done|]. constructor; [|constructor]. split; [done|]. by rewrite D1. }
  destruct (load_log _ L') as (w & Ew & Fw & Sw & _).
  { rewrite encode_all_app, encode_all_one, length_app. fold file0. lia. }
  exists y, z, w. rewrite Hz. split_and!; [done..| |];
    rewrite Sw, (replay_add _ _ _ D1).
  - rewrite lookup_insert_ne by done. done.
  - cbn [id with_fields field_infos]. by rewrite lookup_insert_eq, fmap_app.
Qed.

Lemma storable_small si :
  match serialize si with Some bs => (length bs <=? 1000)%nat | None => false end = true -> storable si.
Proof.
  destruct (serialize si) as [bs|] eqn:E; [|done]. intros H%Nat.leb_le. exists bs. split; [done|].
  unfold fits, is_u8, READER_BUF_SIZE. lia.
Qed.

End facts.

(** ** An example: descriptions as bincode's default configuration writes them *)
Module example.
Import bincode.

Definition bytes : codec (list Z) := vec (uint 1).

Definition tag_codec : codec tag.Tag :=
  map_codec (fun '(k, v) => tag.mkTag k v) (fun t => (tag.key t, tag.value t)) (fun _ => true) (pair bytes bytes).

Definition type_of_index (n : Z) : field_info.ValueType :=
  nth (Z.to_nat n) [field_info.Unknown; field_info.Float; field_info.Integer; field_info.Unsigned; field_info.Boolean]
    field_info.String_.

Definition type_index (t : field_info.ValueType) : Z :=
  match t with
  | field_info.Unknown => 0 | field_info.Float => 1 | field_info.Integer => 2 | field_info.Unsigned => 3
  | field_info.Boolean => 4 | field_info.String_ => 5
  end.

Definition type_codec : codec field_info.ValueType := map_codec type_of_index type_index (fun _ => true) (uint 4).

Definition field_codec : codec field_info.FieldInfo :=
  map_codec (fun '(i, (n, (t, b))) => field_info.mkFieldInfo i n t b)
    (fun f => (field_info.id f, (field_info.name f, (field_info.value_type f, field_info.finished f)))) (fun _ => true)
    (pair (uint 8) (pair bytes (pair type_codec boolean))).

Definition series_codec : codec SeriesInfo :=
  map_codec (fun '(i, (ts, (fs, b))) => mkSeriesInfo i ts fs b)
    (fun s => (id s, (tags s, (field_infos s, finished s)))) (fun _ => true)
    (pair (uint 8) (pair (vec tag_codec) (pair (vec field_codec) boolean))).

#[local] Instance bytes_lawful : Lawful bytes.
Proof. apply _. Qed.
#[local] Instance tag_lawful : Lawful tag_codec.
Proof. apply map_lawful; [apply _|]. by intros []. Qed.
#[local] Instance type_lawful : Lawful type_codec.
Proof. apply map_lawful; [apply _|]. by intros []. Qed.
#[local] Instance field_lawful : Lawful field_codec.
Proof. apply map_lawful; [apply _|]. by intros []. Qed.
#[local] Instance series_lawful : Lawful series_codec.
Proof. apply map_lawful; [apply _|]. by intros []. Qed.

#[local] Instance series_bincode : Bincode SeriesInfo := of_codec series_codec.
#[local] Instance profile : BuildProfile := true.
#[local] Existing Instance cursor_facts.page16.
#[local] Existing Instance ieee.

#[global] Instance series_laws : BincodeLaws series_bincode.
Proof. apply codec_laws, _. Qed.

(** Series [h = x] with a float [u], then an integer [v]; series [h = y] with [w]. *)
Definition field (n : Z) (t : field_info.ValueType) := field_info.mkFieldInfo 0 [n] t false.
Definition host (v : Z) (fs : list field_info.FieldInfo) := mkSeriesInfo 0 [tag.mkTag [0x68] [v]] fs true.

Definition first := host 0x78 [field 0x75 field_info.Float].
Definition first_v := host 0x78 [field 0x75 field_info.Float; field 0x76 field_info.Integer].
Definition second := host 0x79 [field 0x77 field_info.Boolean].
Definition second_u := host 0x79 [field 0x7a field_info.Float].

Definition after (x : ForwardIndex) (op : index_op) : ForwardIndex :=
  match run_op x op with Ok x' => x' | _ => x end.

Definition one_series := after (new []) (OpAdd first).
Definition two_series := after one_series (OpAdd second).

Definition bytes_of (si : SeriesInfo) : list Z := default [] (serialize (finish si)).

Lemma after_consistent x op :
  consistent x -> op_room x op -> (op_fields (fields x (op_series op)) op).2 = true -> consistent (after x op).
Proof.
  intros Hc Hr Hok. destruct (run_op_ok x op Hc Hr) as (x' & Hc' & E & _). rewrite Hok in E.
  unfold after.  by rewrite E.
Qed.

Lemma one_consistent :
  consistent one_series.
Proof.
  apply (after_consistent (new []) (OpAdd first)).
  - apply consistent_new.
  - unfold op_room, room. cbn [new series_info_set]. rewrite lookup_empty. apply storable_small. vm_compute. reflexivity.
  - vm_compute. reflexivity.
Qed.

Lemma first_fits : fits READER_BUF_SIZE (1, 1, bytes_of first).
Proof.
  assert (length (bytes_of first) = 65%nat) as E by (vm_compute; reflexivity).
  unfold fits, is_u8, READER_BUF_SIZE. rewrite E. lia.
Qed.

Lemma second_fits : fits READER_BUF_SIZE (1, 1, bytes_of second).
Proof.
  assert (length (bytes_of second) = 65%nat) as E by (vm_compute; reflexivity).
  unfold fits, is_u8, READER_BUF_SIZE. rewrite E. lia.
Qed.

Lemma read_first : 
  read_one (file one_series) 0 = Ok (mkRecord 1 1 (bytes_of first) 0).
Proof.
  assert (file one_series = encode 1 1 (bytes_of first) ++ []) as -> by (vm_compute; reflexivity).
  apply (read_one_encode READER_BUF_SIZE []), first_fits.
Qed.

Lemma first_v_room :
  op_room one_series (OpAdd first_v).
Proof.
  unfold op_room, room.
  assert (series_info_set one_series !! id (finish first_v) = Some (with_series_info (finish first) 0)) as ->
    by (vm_compute; reflexivity).
  assert (deserialize (bytes_of first) = Some (finish first)) as Hd by (vm_compute; reflexivity).
  cbn [s_pos with_series_info]. rewrite read_first. intros rec' si' news [= <-]. cbn [data]. rewrite Hd. intros [= <-] Hn.
  apply storable_small. inversion Hn as [|? ? ? H1|? ? ? H1]; subst; inversion H1 as [|? ? ? H2|? ? ? H2]; subst;
    inversion H2; subst; vm_compute; reflexivity.
Qed.

Lemma index_operations_witness :
  exists x', consistent x' /\ run_op one_series (OpAdd first_v) = Ok x' /\
    fields x' (id (finish first)) = Some (from_field_info <$> field_infos (finish first_v)).
Proof.
  destruct (index_operations one_series (OpAdd first_v)) as (x' & Hc & E & Hf & _).
  - apply one_consistent.
  - apply first_v_room.
  - assert (op_series (OpAdd first_v) = id (finish first)) as Es by (vm_compute; reflexivity).
    assert (op_fields (fields one_series (op_series (OpAdd first_v))) (OpAdd first_v) =
      (Some (from_field_info <$> field_infos (finish first_v)), true)) as Eo by (vm_compute; reflexivity).
    rewrite Eo in E, Hf. rewrite Es in Hf. cbn [fst snd] in E, Hf. exists x'. exact (conj Hc (conj E Hf)).
Defined.

Lemma index_reload_witness :
  exists y, load_cache_file (new (file one_series)) = Ok y /\ file y = file one_series /\
    forall sid, fields y sid = fields one_series sid.
Proof. apply (index_reload one_series); [apply one_consistent|vm_compute; reflexivity]. Defined.

Lemma reloaded_index_misattributes_witness :
  let log := [(1, 1, bytes_of first); (1, 1, bytes_of second)] in
  exists y z w, load_cache_file (new (encode_all log)) = Ok y /\ add_series_info_if_not_exists y second_u = Ok z /\
    load_cache_file (new (file z)) = Ok w /\
    fields z (id (finish second)) = Some (from_field_info <$> (field_infos (finish second) ++ field_infos (finish second_u))) /\
    fields w (id (finish second)) = Some (from_field_info <$> field_infos (finish second)) /\
    fields w (id (finish first)) = Some (from_field_info <$> (field_infos (finish first) ++ field_infos (finish second_u))).
Proof.
  intros log.
  pose (f := field_info.finish (field 0x7a field_info.Float) (id (finish second))).
  pose (bs := default [] (serialize (with_fields (finish first) [f]))).
  rewrite !fmap_app. replace (from_field_info <$> field_infos (finish second_u)) with [from_field_info f]
    by (vm_compute; reflexivity).
  apply (reloaded_index_misattributes (bytes_of first) [(1, 1, bytes_of second)] (finish first) second_u f _ _ bs).
  - apply Forall_cons_2; [|apply Forall_cons_2; [|apply Forall_nil_2]].
    + split; [apply first_fits|]. intros _ _. vm_compute. eauto.
    + split; [apply second_fits|]. intros _ _. vm_compute. eauto.
  - vm_compute. reflexivity.
  - vm_compute. congruence.
  - vm_compute. reflexivity.
  - vm_compute. reflexivity.
  - vm_compute. reflexivity.
  - vm_compute. reflexivity.
  - vm_compute. reflexivity.
  - assert (length bs = 87%nat) as E by (vm_compute; reflexivity). unfold fits, is_u8, READER_BUF_SIZE. rewrite E. lia.
  - vm_compute. reflexivity.
Defined.

End example.
End index_facts.
