(* ===== verification/Version.v ===== *)
(** * Files, levels and versions (config, kv_option.rs, file_utils.rs,
    tseries_family.rs, summary.rs)

    The configuration and the options of a family, the names of its files, the
    metadata of a flushed file, the edits that record it in the summary, and the
    levels of files a family reads from.  [fs] is the file system as the engine
    uses it: the content of the files, which of them are synced, and what is left
    of them when the process ends.

    The facts used by the flush and the reader: file names are injective in the
    file number, and adding a file to a level keeps the files before it. *)
From S2P Require Import Prelude Varint StringCodec Utils Models MemCache FileIO Tsm.

(** ** Configuration *)

(** [GLOBAL_CONFIG], read from config.toml; [level_ratio] is the bits of an
    [f64]. *)
Class GlobalConfig := mkGlobalConfig {
  max_memcache_size : Z; max_summary_size : Z; max_immemcache_num : nat;
  front_cpu : Z; back_cpu : Z; create_if_missing : bool; db_path : string; db_name : string;
  enabled : bool; wal_config_dir : string; sync : bool;
  max_level : Z; level_ratio : Z; base_file_size : Z; compact_trigger : Z; max_compact_size : Z;
  tsm_dir : string; delta_dir : string; cfg_tf_id : Z; cfg_seq_no : Z;
  schema_store_config_dir : string; tsfamily_num : Z }.

Module kv_option.

Record TseriesFamOpt := mkTseriesFamOpt {
  max_level : Z; level_ratio : Z; base_file_size : Z; compact_trigger : Z;
  max_compact_size : Z; tsm_dir : string; delta_dir : string }.

Definition default_opt {G : GlobalConfig} : TseriesFamOpt :=
  mkTseriesFamOpt Version.max_level Version.level_ratio Version.base_file_size
    Version.compact_trigger Version.max_compact_size Version.tsm_dir Version.delta_dir.

Definition level_file_size {E} {P : BuildProfile} (o : TseriesFamOpt) (lvl : Z) : outcome E Z :=
  x ← mul_u64 (base_file_size o) lvl; mul_u64 x (compact_trigger o).

End kv_option.

(** ** File names *)

Module file_utils.

Definition digit (n : Z) : Ascii.ascii := Ascii.ascii_of_nat (48 + Z.to_nat n).

(** Decimal digits, most significant first; a [u64] has at most twenty. *)
Fixpoint digits (fuel : nat) (n : Z) (acc : list Ascii.ascii) : list Ascii.ascii :=
  match fuel with
  | O => acc
  | S fuel' =>
      let acc := digit (n mod 10) :: acc in
      if n <? 10 then acc else digits fuel' (n / 10) acc
  end.

(** [n.to_string()] and [format!("{:06}", n)]. *)
Definition to_string (n : Z) : string := String.string_of_list_ascii (digits 20 n []).

Definition fmt06 (n : Z) : string :=
  let ds := digits 20 n [] in
  String.string_of_list_ascii (replicate (6 - length ds) (digit 0) ++ ds).

Definition make_summary_file (path : string) (number : Z) : string :=
  path +:+ "/summary-" +:+ fmt06 number.
Definition make_wal_file (path : string) (sequence : Z) : string :=
  path +:+ "/_" +:+ fmt06 sequence +:+ ".wal".
Definition make_tsm_file_name (path : string) (sequence : Z) : string :=
  path +:+ "/_" +:+ fmt06 sequence +:+ ".tsm".
Definition make_tsm_tombstone_file_name (path : string) (sequence : Z) : string :=
  path +:+ "/_" +:+ fmt06 sequence +:+ ".tombstone".
Definition make_delta_file_name (path : string) (sequence : Z) : string :=
  path +:+ "/_" +:+ fmt06 sequence +:+ ".delta".
Definition make_schema_file (path : string) (sequence : Z) : string :=
  path +:+ "/_" +:+ fmt06 sequence +:+ ".schema".

End file_utils.

(** ** The file system *)

Module fs.

(** [files] is what the process reads, through its page cache; the files in
    [dirty] have bytes there that no [sync_all], [Soft] or [Hard], has brought to
    the operating system.  [held] is for the files of which a handle or a page is
    still held what the process sees in them when they are created again, and
    [writable] says which paths the operating system lets the process create. *)
Record Fs := mkFs {
  files : gmap string (list Z); dirty : gset string; held : string -> option (list Z); writable : string -> bool }.

Definition open_file (s : Fs) (path : string) : option (list Z) := files s !! path.

(** [create_file]: the file on disk is truncated, but a file that is still held
    keeps its length and the bytes in the page cache. *)
Definition create_file (s : Fs) (path : string) : option Fs :=
  if writable s path then
    Some (match files s !! path, held s path with
          | Some _, Some seen => mkFs (<[path := seen]> (files s)) ({[path]} ∪ dirty s) (held s) (writable s)
          | _, _ => mkFs (<[path := []]> (files s)) (dirty s ∖ {[path]}) (held s) (writable s)
          end)
  else None.

(** The content of an open file after bytes were written to it. *)
Definition store (s : Fs) (path : string) (data : list Z) : Fs :=
  mkFs (<[path := data]> (files s)) ({[path]} ∪ dirty s) (held s) (writable s).

(** [sync_all] of an open file. *)
Definition sync (s : Fs) (path : string) : Fs := mkFs (files s) (dirty s ∖ {[path]}) (held s) (writable s).

(** The process ends, the operating system goes on, and another process starts: a
    file that was synced is as it was, one that was not has whatever [lost] says,
    the whole file, a part of it or nothing; no file is held. *)
Definition restart (lost : string -> option (list Z)) (s : Fs) : Fs :=
  mkFs (map_imap (fun p c => if bool_decide (p ∈ dirty s) then lost p else Some c) (files s)) ∅ (fun _ => None) (writable s).

Lemma open_same f p d : open_file (store f p d) p = Some d.
Proof. apply lookup_insert_eq. Qed.

Lemma open_other f p d q : q <> p -> open_file (store f p d) q = open_file f q.
Proof. intros H. unfold open_file, store. cbn. by rewrite lookup_insert_ne. Qed.

Lemma restart_clean lost s p : p ∉ dirty s -> open_file (restart lost s) p = open_file s p.
Proof.
  intros Hp. unfold open_file, restart. cbn [files]. rewrite map_lookup_imap. destruct (files s !! p); [|done]. cbn. by rewrite bool_decide_false.
Qed.

Lemma restart_dirty lost s p c : p ∈ dirty s -> open_file s p = Some c -> open_file (restart lost s) p = lost p.
Proof.
  intros Hp Hc. unfold open_file, restart. cbn [files]. unfold open_file in Hc. rewrite map_lookup_imap, Hc. cbn. by rewrite bool_decide_true.
Qed.

Lemma restart_none lost s p : open_file s p = None -> open_file (restart lost s) p = None.
Proof. unfold open_file, restart. cbn [files]. intros H. by rewrite map_lookup_imap, H. Qed.

(** A restart that loses nothing. *)
Lemma restart_whole s p : open_file (restart (open_file s) s) p = open_file s p.
Proof.
  unfold open_file, restart. cbn [files]. rewrite map_lookup_imap. destruct (files s !! p) as [c|] eqn:E; [|done]. cbn.
  by case_bool_decide.
Qed.

Lemma dirty_sync_store s p d : dirty (sync (store s p d) p) ⊆ dirty s.
Proof. cbn. apply elem_of_subseteq. intros q. rewrite elem_of_difference, elem_of_union. tauto. Qed.

(** A file that does not exist or is not held is created empty. *)
Lemma create_empty s p : open_file s p = None \/ held s p = None -> writable s p = true ->
  exists s', create_file s p = Some s' /\ open_file s' p = Some [] /\ writable s' = writable s /\ held s' = held s /\
    dirty s' = dirty s ∖ {[p]} /\ forall q, q <> p -> open_file s' q = open_file s q.
Proof.
  unfold open_file, create_file. intros Hp ->. eexists. split; [reflexivity|].
  destruct (files s !! p) as [c|] eqn:Ec; [destruct Hp as [|Hp]; [done|]; rewrite Hp|]; cbn;
    (split_and!; try done; [apply lookup_insert_eq|]; intros q Hq; by rewrite lookup_insert_ne).
Qed.

End fs.

(** ** Version edits (summary.rs) *)

Module version_edit.

Record CompactMeta := mkCompactMeta {
  file_id : Z; file_size : Z; ts_min : Z; ts_max : Z; level : Z;
  high_seq : Z; low_seq : Z; is_delta : bool }.

Definition meta_new : CompactMeta := mkCompactMeta 0 0 i64_MAX i64_MIN 0 0 0 false.

Record VersionEdit := mkVersionEdit {
  ed_level : Z; has_seq_no : bool; seq_no : Z; has_file_id : bool; ed_file_id : Z;
  add_files : list CompactMeta; del_files : list CompactMeta;
  is_del_tsf : bool; is_add_tsf : bool; tsf_id : Z; tsf_name : string; ed_max_level_ts : Z }.

Definition edit_new : VersionEdit :=
  mkVersionEdit 0 false 0 false 0 [] [] false false 0 "" i64_MIN.

(** [tsf_id] is not used by the code. *)
Definition add_file (e : VersionEdit) (lvl tsf fid seq max_level_ts : Z) (meta : CompactMeta) : VersionEdit :=
  mkVersionEdit lvl true seq true fid (add_files e ++ [meta]) (del_files e)
    (is_del_tsf e) (is_add_tsf e) (tsf_id e) (tsf_name e) max_level_ts.

Definition add_tsf (e : VersionEdit) (tsf : Z) (name : string) (seq : Z) : VersionEdit :=
  mkVersionEdit (ed_level e) true seq (has_file_id e) (ed_file_id e) (add_files e) (del_files e)
    (is_del_tsf e) true tsf name (ed_max_level_ts e).

Definition del_tsf (e : VersionEdit) (tsf : Z) : VersionEdit :=
  mkVersionEdit (ed_level e) (has_seq_no e) (seq_no e) (has_file_id e) (ed_file_id e) (add_files e)
    (del_files e) true (is_add_tsf e) tsf (tsf_name e) (ed_max_level_ts e).

Definition set_log_seq (e : VersionEdit) (fid : Z) : VersionEdit :=
  mkVersionEdit (ed_level e) (has_seq_no e) (seq_no e) (has_file_id e) fid (add_files e)
    (del_files e) (is_del_tsf e) (is_add_tsf e) (tsf_id e) (tsf_name e) (ed_max_level_ts e).

Definition set_tsf_id (e : VersionEdit) (tsf : Z) : VersionEdit :=
  mkVersionEdit (ed_level e) (has_seq_no e) (seq_no e) (has_file_id e) (ed_file_id e) (add_files e)
    (del_files e) (is_del_tsf e) (is_add_tsf e) tsf (tsf_name e) (ed_max_level_ts e).

End version_edit.

(** ** Levels and versions (tseries_family.rs) *)

Module version.
Import time_range version_edit.

Record ColumnFile := mkColumnFile {
  cf_file_id : Z; being_compact : bool; deleted : bool; cf_range : TimeRange; cf_size : Z;
  field_id_bloom_filter : bloom_filter.BloomFilter; cf_is_delta : bool }.

Record LevelInfo := mkLevelInfo {
  files : list ColumnFile; lvl : Z; cur_size : Z; max_size : Z; ts_range : TimeRange }.

Record Version := mkVersion {
  id : Z; last_seq : Z; max_level_ts : Z; name : string; levels_info : list LevelInfo }.

Definition init (level : Z) : LevelInfo := mkLevelInfo [] level 0 0 (mkTimeRange 0 0).

Definition overlap (f : ColumnFile) (r : TimeRange) : bool := overlaps (cf_range f) r.
Definition mark_removed (f : ColumnFile) : ColumnFile :=
  mkColumnFile (cf_file_id f) (being_compact f) true (cf_range f) (cf_size f)
    (field_id_bloom_filter f) (cf_is_delta f).
Definition mark_compaction (f : ColumnFile) : ColumnFile :=
  mkColumnFile (cf_file_id f) true (deleted f) (cf_range f) (cf_size f)
    (field_id_bloom_filter f) (cf_is_delta f).
Definition contains_field_id (f : ColumnFile) (field_id : Z) : outcome string bool :=
  bloom_filter.contains (field_id_bloom_filter f) (to_be_bytes 8 field_id).

(** The file a [CompactMeta] describes, with an empty filter. *)
Definition column_file (delta : CompactMeta) (bloom : bloom_filter.BloomFilter) : ColumnFile :=
  mkColumnFile (file_id delta) false false (time_range.new (ts_max delta) (ts_min delta))
    (file_size delta) bloom (is_delta delta).

Section level.
Context {P : BuildProfile}.

Definition apply (self : LevelInfo) (delta : CompactMeta) : outcome string LevelInfo :=
  bloom ← tsm.new_bloom_filter;
  let files := files self ++ [column_file delta bloom] in
  cur ← add_u64 (cur_size self) (file_size delta);
  let mx := if max_ts (ts_range self) <? ts_max delta then ts_max delta else max_ts (ts_range self) in
  let mn := if ts_max delta <? min_ts (ts_range self) then ts_min delta else min_ts (ts_range self) in
  Ok (mkLevelInfo files (lvl self) cur (max_size self) (mkTimeRange mx mn)).

Context {G : GlobalConfig} {V : VarInt} {Sn : Snap} {PIO : PageIO}.

Definition file_reader (s : fs.Fs) (f : ColumnFile) (tf_id : Z) : option (bytes_file.Cursor * Z) :=
  let ts_cf := kv_option.default_opt in
  let content :=
    if cf_is_delta f then
      let p := "/_" +:+ file_utils.fmt06 (cf_file_id f) +:+ ".delta" in
      fs.open_file s (kv_option.delta_dir ts_cf +:+ file_utils.to_string tf_id +:+ p)
    else
      let p := "/_" +:+ file_utils.fmt06 (cf_file_id f) +:+ ".tsm" in
      fs.open_file s (kv_option.tsm_dir ts_cf +:+ file_utils.to_string tf_id +:+ p) in
  match content with
  | Some v => Some (bytes_file.mkCursor v 0, Z.of_nat (length v))
  | None => None
  end.

(** The blocks of one field in the index. *)
Definition blocks_of (field_id : Z) (es : list tsm.IndexEntry) : list tsm.FileBlock :=
  tsm.fblock <$> base.filter (fun e => tsm.field_id e = Some field_id) es.

(** [res.unwrap()]. *)
Definition expect {E A} (m : outcome E A) : outcome E A :=
  match m with Err _ => Panic | o => o end.

(** Reading one file of a level; the cells are logged, the model returns them.
    The block reader seeks before it reads, so the position the index reader
    leaves the cursor at does not matter. *)
Definition read_file (f : bytes_file.Cursor) (len : Z) (field_id : Z) (r : TimeRange)
    : outcome tsm_error (list memcache.DataType) :=
  index ← expect (tsm.try_new f len);
  es ← expect (tsm.collect (S (Z.to_nat len)) index);
  '(_, out) ← tsm.read_blocks f (blocks_of field_id es) r;
  Ok out.

Fixpoint read_files (s : fs.Fs) (fl : list ColumnFile) (tf_id field_id : Z) (r : TimeRange)
    : outcome tsm_error (list memcache.DataType) :=
  match fl with
  | [] => Ok []
  | f :: fl' =>
      out ← (if deleted f || negb (overlap f r) then Ok []
             else match file_reader s f tf_id with
                  | Some (c, len) => read_file c len field_id r
                  | None => Ok []
                  end);
      rest ← read_files s fl' tf_id field_id r;
      Ok (out ++ rest)
  end.

Definition read_columnfile (s : fs.Fs) (self : LevelInfo) (tf_id field_id : Z) (r : TimeRange)
    : outcome tsm_error (list memcache.DataType) :=
  read_files s (files self) tf_id field_id r.

End level.

End version.

(** ** File names are injective *)

Module name_facts.
Import file_utils.

Definition digit_value (c : Ascii.ascii) : Z := Z.of_nat (Ascii.nat_of_ascii c) - 48.
Definition value (v : Z) (l : list Ascii.ascii) : Z := foldl (fun v c => 10 * v + digit_value c) v l.

Lemma digit_value_digit n : 0 <= n < 10 -> digit_value (digit n) = n.
Proof. intros H. unfold digit_value, digit. rewrite Ascii.nat_ascii_embedding by lia. lia. Qed.

Lemma value_digits fuel : forall n acc, 0 <= n < 10 ^ Z.of_nat fuel -> value 0 (digits fuel n acc) = value n acc.
Proof.
  induction fuel as [|fuel IH]; intros n acc H; [by assert (n = 0) as -> by (change (10 ^ Z.of_nat 0) with 1 in H; lia)|].
  cbn [digits]. rewrite Nat2Z.inj_succ, Z.pow_succ_r in H by lia.
  pose proof (Z.mod_pos_bound n 10). pose proof (Z.div_mod n 10).
  destruct (Z.ltb_spec n 10).
  - unfold value. cbn [foldl]. rewrite digit_value_digit by lia. f_equal. rewrite Z.mod_small; lia.
  - rewrite IH by lia. unfold value. cbn [foldl]. rewrite digit_value_digit by lia. f_equal. lia.
Qed.

Lemma value_zeros k l : value 0 (replicate k (digit 0) ++ l) = value 0 l.
Proof. induction k as [|k IH]; [done|]. cbn [replicate app]. exact IH. Qed.

Lemma chars_app a b :
  String.list_ascii_of_string (a +:+ b) = String.list_ascii_of_string a ++ String.list_ascii_of_string b.
Proof. induction a as [|c a IH]; [done|]. cbn. by rewrite <- IH. Qed.

Lemma chars_fmt06 n :
  String.list_ascii_of_string (fmt06 n) = replicate (6 - length (digits 20 n [])) (digit 0) ++ digits 20 n [].
Proof. apply String.list_ascii_of_string_of_list_ascii. Qed.

(** Two numbers with the same name between the same prefix and suffix are equal. *)
Lemma fmt06_inj pre suf a b :
  is_u64 a -> is_u64 b -> pre +:+ fmt06 a +:+ suf = pre +:+ fmt06 b +:+ suf -> a = b.
Proof.
  intros Ha Hb H. apply (f_equal String.list_ascii_of_string) in H. rewrite !chars_app in H.
  apply app_inv_head, app_inv_tail in H. rewrite !chars_fmt06 in H. apply (f_equal (value 0)) in H.
  rewrite !value_zeros, !value_digits in H by range. exact H.
Qed.

(** Names with different last characters differ. *)
Lemma last_char_ne a b x y :
  last (String.list_ascii_of_string x) <> last (String.list_ascii_of_string y) -> x <> "" -> y <> "" ->
  a +:+ x <> b +:+ y.
Proof.
  intros H Hx Hy E. apply H. apply (f_equal String.list_ascii_of_string) in E. rewrite !chars_app in E.
  apply (f_equal last) in E. rewrite !last_app in E.
  destruct x as [|cx x]; [done|]. destruct y as [|cy y]; [done|].
  cbn [String.list_ascii_of_string] in *. destruct (last (cx :: _)) eqn:E1; [|by apply last_None in E1].
  destruct (last (cy :: _)) eqn:E2; [done|by apply last_None in E2].
Qed.

End name_facts.
