(* ===== verification/FileNames.v ===== *)
(** * The names of the engine's files (tskv/src/file_utils.rs)

    Version holds the functions that make a name; this file has the other half:
    recognising a name, reading the number in it, and choosing the file with the
    greatest number in a directory.  Names are sequences of ASCII characters.

    The theorems say which numbers survive the round trip through a name, and
    what the choice returns. *)
From S2P Require Import Prelude Sorting Utils Models MemCache FileIO Tsm Version.

Module file_names.
Import file_utils.

(** ** Definitions *)

(** [Error::InvalidFileName]. *)
Inductive name_error := InvalidFileName (file_name message : string).

Definition is_digit (c : Ascii.ascii) : bool :=
  let n := Ascii.nat_of_ascii c in (48 <=? n)%nat && (n <=? 57)%nat.

(** The patterns are a literal, six digits and a literal, anywhere in the name. *)
Definition matches_at (pre suf l : list Ascii.ascii) : bool :=
  bool_decide (take (length pre) l = pre) &&
  let l := drop (length pre) l in
  (length (take 6 l) =? 6)%nat && forallb is_digit (take 6 l) && bool_decide (take (length suf) (drop 6 l) = suf).

Fixpoint is_match (pre suf l : list Ascii.ascii) : bool :=
  matches_at pre suf l || match l with [] => false | _ :: l' => is_match pre suf l' end.

Definition chars : string -> list Ascii.ascii := String.list_ascii_of_string.

Definition check_summary_file_name (file_name : string) : bool := is_match (chars "summary-") [] (chars file_name).
Definition check_wal_file_name (file_name : string) : bool := is_match (chars "_") (chars ".wal") (chars file_name).
Definition check_schema_file (file_name : string) : bool := is_match (chars "_") (chars ".schema") (chars file_name).

(** [str::parse::<u64>]: an optional plus, then digits, without overflow. *)
Fixpoint parse_digits (acc : Z) (l : list Ascii.ascii) : option Z :=
  match l with
  | [] => Some acc
  | c :: l' =>
      if is_digit c then
        let acc := 10 * acc + name_facts.digit_value c in
        if acc <? U64 then parse_digits acc l' else None
      else None
  end.

Definition parse_u64 (l : list Ascii.ascii) : option Z :=
  match l with
  | [] => None
  | c :: l' => if bool_decide (c = Ascii.ascii_of_nat 43) then match l' with [] => None | _ => parse_digits 0 l' end
               else parse_digits 0 l
  end.

(** [split_at(8)]. *)
Definition get_summary_file_id (file_name : string) : outcome name_error Z :=
  if negb (check_summary_file_name file_name)
  then Err (InvalidFileName file_name "summary file name does not contain an id")
  else
    file_number ← slice_from (chars file_name) 8;
    of_option (parse_u64 file_number) (InvalidFileName file_name "sumary file name contains an invalid id").

(** [&file_name[1..7]]. *)
Definition get_wal_file_id (file_name : string) : outcome name_error Z :=
  if negb (check_wal_file_name file_name)
  then Err (InvalidFileName file_name "wal file name does not contain an id")
  else
    file_number ← slice (chars file_name) 1 7;
    of_option (parse_u64 file_number) (InvalidFileName file_name "wal file name contains an invalid id").

Definition get_schema_file_id (file_name : string) : outcome name_error Z :=
  if negb (check_schema_file file_name)
  then Err (InvalidFileName file_name "schema file name does not contain an id")
  else
    file_number ← slice (chars file_name) 1 7;
    of_option (parse_u64 file_number) (InvalidFileName file_name "schema file name contains an invalid id").

(** [for (i, file_name) in segments.iter().enumerate()]. *)
Fixpoint max_sequence (get_sequence : string -> outcome name_error Z) (segments : list string) (i : nat)
    (max_id : Z) (max_index : nat) : outcome name_error (Z * nat) :=
  match segments with
  | [] => Ok (max_id, max_index)
  | file_name :: segments' =>
      match get_sequence file_name with
      | Ok id => if max_id <? id then max_sequence get_sequence segments' (S i) id i
                 else max_sequence get_sequence segments' (S i) max_id max_index
      | Err _ => max_sequence get_sequence segments' (S i) max_id max_index
      | Panic => Panic
      | OutOfFuel => OutOfFuel
      end
  end.

(** [segments] is what the directory lists. *)
Definition get_max_sequence_file_name (segments : list string) (get_sequence : string -> outcome name_error Z)
    : outcome name_error (option (string * Z)) :=
  match segments with
  | [] => Ok None
  | _ =>
      '(max_id, max_index) ← max_sequence get_sequence segments 0 1 0;
      max_file_name ← unwrap (segments !! max_index);
      Ok (Some (max_file_name, max_id))
  end.

End file_names.

Module names_facts.
Import file_utils name_facts file_names.

(** The base name of a file, as the functions of [file_utils] build it. *)
Definition wal_name (n : Z) : string := "_" +:+ fmt06 n +:+ ".wal".
Definition schema_name (n : Z) : string := "_" +:+ fmt06 n +:+ ".schema".
Definition summary_name (n : Z) : string := "summary-" +:+ fmt06 n.

Lemma is_digit_digit n : 0 <= n < 10 -> is_digit (digit n) = true.
Proof.
  intros H. unfold is_digit, digit. rewrite Ascii.nat_ascii_embedding by lia.
  apply andb_true_iff. split; apply Nat.leb_le; lia.
Qed.

Lemma digits_digits fuel : forall n acc, 0 <= n -> forallb is_digit acc = true -> forallb is_digit (digits fuel n acc) = true.
Proof.
  induction fuel as [|fuel IH]; intros n acc Hn Ha; [done|]. cbn [digits].
  assert (forallb is_digit (digit (n mod 10) :: acc) = true) as H.
  { cbn [forallb]. rewrite is_digit_digit, Ha by (apply Z.mod_pos_bound; lia). done. }
  destruct (n <? 10); [done|]. apply IH; [|done]. apply Z.div_pos; lia.
Qed.

(** How many digits a number has. *)
Lemma digits_at_least fuel : forall n acc k, 0 <= n -> (k < fuel)%nat -> 10 ^ Z.of_nat k <= n ->
  (S k + length acc <= length (digits fuel n acc))%nat.
Proof.
  induction fuel as [|fuel IH]; intros n acc k Hn Hf Hlo; [lia|]. cbn [digits].
  assert (forall m l, (length l <= length (digits fuel m l))%nat) as Hmono.
  { clear. induction fuel as [|fuel IH]; intros m l; [done|]. cbn [digits]. destruct (m <? 10); [cbn; lia|].
    etrans; [|apply IH]. cbn. lia. }
  destruct k as [|k]; [destruct (n <? 10); [done|apply (Hmono _ (_ :: acc))]|].
  rewrite Nat2Z.inj_succ, Z.pow_succ_r in Hlo by lia. assert (0 < 10 ^ Z.of_nat k) by (apply Z.pow_pos_nonneg; lia).
  destruct (Z.ltb_spec n 10); [lia|]. etrans; [|apply (IH (n / 10) _ k); [apply Z.div_pos; lia|lia|]]; [cbn; lia|].
  apply Z.div_le_lower_bound; lia.
Qed.

Lemma digits_at_most fuel : forall n acc k, 0 <= n < 10 ^ Z.of_nat (S k) -> (length (digits fuel n acc) <= S k + length acc)%nat.
Proof.
  induction fuel as [|fuel IH]; intros n acc k Hn; [cbn; lia|]. cbn [digits]. destruct (Z.ltb_spec n 10); [cbn; lia|].
  destruct k as [|k]; [cbn in Hn; lia|]. etrans; [apply (IH (n / 10) _ k)|cbn; lia].
  rewrite (Nat2Z.inj_succ (S k)), Z.pow_succ_r in Hn by lia. split; [apply Z.div_pos; lia|apply Z.div_lt_upper_bound; lia].
Qed.

(** The digits of a name. *)
Definition number (n : Z) : list Ascii.ascii := chars (fmt06 n).

Lemma number_facts n : is_u64 n ->
  forallb is_digit (number n) = true /\ value 0 (number n) = n /\
  (n < 10 ^ 6 -> length (number n) = 6%nat) /\ (10 ^ 6 <= n -> (7 <= length (number n))%nat).
Proof.
  intros Hn. unfold number, chars. rewrite chars_fmt06. split_and!.
  - apply forallb_forall. intros c [Hc|Hc]%in_app_or.
    + apply list_elem_of_In, elem_of_replicate in Hc as [-> _]. done.
    + assert (forallb is_digit (digits 20 n []) = true) as H by (apply digits_digits; [range|done]).
      rewrite forallb_forall in H. by apply H.
  - rewrite value_zeros. apply value_digits. range.
  - intros Hlt. rewrite length_app, length_replicate.
    pose proof (digits_at_most 20 n [] 5 ltac:(change (10 ^ Z.of_nat 6) with (10 ^ 6); range)) as H.
    change (6 + length (A := Ascii.ascii) [])%nat with 6%nat in H. lia.
  - intros Hge. rewrite length_app. pose proof (digits_at_least 20 n [] 6 ltac:(range) ltac:(lia) Hge) as H.
    change (7 + length (A := Ascii.ascii) [])%nat with 7%nat in H. lia.
Qed.

Lemma digit_range c : is_digit c = true -> 0 <= digit_value c <= 9.
Proof. unfold is_digit, digit_value. rewrite andb_true_iff, !Nat.leb_le. lia. Qed.

Lemma parse_digits_value l : forall acc, forallb is_digit l = true -> 0 <= acc -> value acc l < U64 ->
  parse_digits acc l = Some (value acc l).
Proof.
  induction l as [|c l IH]; intros acc Hl Hacc Hv; [done|]. cbn [forallb] in Hl. apply andb_true_iff in Hl as [Hc Hl].
  cbn [parse_digits]. rewrite Hc. pose proof (digit_range c Hc). change (value acc (c :: l)) with (value (10 * acc + digit_value c) l) in *.
  assert (forall l a, forallb is_digit l = true -> 0 <= a -> a <= value a l) as Hmono.
  { clear. induction l as [|c l IH]; intros a Hl Ha; [done|]. cbn [forallb] in Hl. apply andb_true_iff in Hl as [Hc Hl].
    pose proof (digit_range c Hc). change (value a (c :: l)) with (value (10 * a + digit_value c) l).
    etrans; [|apply IH; [done|lia]]. lia. }
  pose proof (Hmono l (10 * acc + digit_value c) Hl ltac:(lia)).
  destruct (Z.ltb_spec (10 * acc + digit_value c) U64); [|lia]. apply IH; [done|lia|done].
Qed.

Lemma parse_number n : is_u64 n -> parse_u64 (number n) = Some n.
Proof.
  intros Hn. destruct (number_facts n Hn) as (Hd & Hv & H6 & H7).
  assert (parse_digits 0 (number n) = Some n) as Hp by (rewrite parse_digits_value, Hv; [done..|rewrite Hv; range]).
  destruct (number n) as [|c l] eqn:E.
  { destruct (Z.lt_ge_cases n (10 ^ 6)) as [H|H]; [discriminate (H6 H)|pose proof (H7 H) as H'; cbn in H'; lia]. }
  unfold parse_u64. rewrite bool_decide_eq_false_2; [done|]. intros ->. cbn in Hd. done.
Qed.

(** A name without the first character of the pattern does not match. *)
Lemma no_match c pre suf l : c ∉ l -> is_match (c :: pre) suf l = false.
Proof.
  induction l as [|x l IH]; intros Hl.
  - cbn [is_match]. unfold matches_at. rewrite bool_decide_eq_false_2; [done|]. by cbn.
  - apply not_elem_of_cons in Hl as [Hx Hl]. cbn [is_match]. rewrite (IH Hl), orb_false_r. unfold matches_at.
    rewrite bool_decide_eq_false_2; [done|]. cbn [length take]. by intros [= <-].
Qed.

Lemma match_short c suf n : is_u64 n -> n < 10 ^ 6 ->
  is_match [c] suf (c :: number n ++ suf) = true /\ slice (E := name_error) (c :: number n ++ suf) 1 7 = Ok (number n).
Proof.
  intros Hn Hlt. destruct (number_facts n Hn) as (Hd & _ & H6 & _). specialize (H6 Hlt). split.
  - cbn [is_match]. unfold matches_at. cbn [length drop]. rewrite bool_decide_eq_true_2 by done.
    rewrite drop_0, take_app_length', drop_app_length' by done. rewrite H6, Hd, firstn_all, bool_decide_eq_true_2 by done. done.
  - unfold slice. cbn [length]. rewrite length_app, H6. rewrite (proj2 (Nat.leb_le 7 _)) by lia. cbn [Nat.leb andb drop Nat.sub]. rewrite drop_0.
    by rewrite take_app_length' by done.
Qed.

Lemma match_long c d suf n : is_u64 n -> 10 ^ 6 <= n -> is_digit c = false -> is_digit d = false -> c ∉ d :: suf ->
  is_match [c] (d :: suf) (c :: number n ++ d :: suf) = false.
Proof.
  intros Hn Hge Hc Hd Hsuf. destruct (number_facts n Hn) as (Hdig & _ & _ & H7). specialize (H7 Hge).
  cbn [is_match]. apply orb_false_iff. split.
  - unfold matches_at. cbn [length drop]. rewrite drop_0, (bool_decide_eq_false_2 (take _ (drop 6 _) = _)); [by rewrite !andb_false_r|].
    rewrite drop_app_le by lia. destruct (drop 6 (number n)) as [|x l] eqn:E.
    { apply (f_equal length) in E. rewrite length_drop in E. change (length []) with O in E. lia. }
    cbn [app take]. intros [= -> _]. assert (In d (number n)) as Hin.
    { rewrite <- (take_drop 6 (number n)), E. apply in_or_app. right. by left. }
    rewrite forallb_forall in Hdig. rewrite (Hdig d Hin) in Hd. done.
  - apply no_match. intros [Hin|Hin]%elem_of_app; [|done]. apply list_elem_of_In in Hin.
    rewrite forallb_forall in Hdig. rewrite (Hdig c Hin) in Hc. done.
Qed.

Lemma sequence_long ext n : is_u64 n -> 10 ^ 6 <= n -> Ascii.ascii_of_nat 95 ∉ chars ext ->
  is_match (chars "_") (chars ("." +:+ ext)) (chars "_" ++ number n ++ chars ("." +:+ ext)) = false.
Proof.
  intros Hn Hge Hext. apply (match_long (Ascii.ascii_of_nat 95) (Ascii.ascii_of_nat 46) (chars ext) n); [done..|].
  by apply not_elem_of_cons.
Qed.

Lemma chars_wal n : chars (wal_name n) = chars "_" ++ number n ++ chars ".wal".
Proof. unfold wal_name, number, chars. by rewrite !chars_app. Qed.

Lemma chars_schema n : chars (schema_name n) = chars "_" ++ number n ++ chars ".schema".
Proof. unfold schema_name, number, chars. by rewrite !chars_app. Qed.

Lemma chars_summary n : chars (summary_name n) = chars "summary-" ++ number n.
Proof. unfold summary_name, number, chars. by rewrite !chars_app. Qed.

Lemma wal_id_ok n : is_u64 n -> n < 10 ^ 6 -> get_wal_file_id (wal_name n) = Ok n.
Proof.
  intros Hn Hlt. destruct (match_short (Ascii.ascii_of_nat 95) (chars ".wal") n Hn Hlt) as [Hm Hs].
  unfold get_wal_file_id, check_wal_file_name. rewrite chars_wal. change (chars "_" ++ ?l) with ((Ascii.ascii_of_nat 95) :: l). change (chars "_") with [(Ascii.ascii_of_nat 95)].
  rewrite Hm, Hs. run. by rewrite parse_number.
Qed.

Lemma summary_match n : is_u64 n -> check_summary_file_name (summary_name n) = true.
Proof.
  intros Hn. destruct (number_facts n Hn) as (Hd & _ & H6 & H7). unfold check_summary_file_name. rewrite chars_summary.
  assert (6 <= length (number n))%nat as Hl.
  { destruct (Z.lt_ge_cases n (10 ^ 6)) as [H|H]; [by rewrite (H6 H)|etrans; [|by apply H7]; lia]. }
  assert (matches_at (chars "summary-") [] (chars "summary-" ++ number n) = true) as Hm.
  { unfold matches_at. rewrite take_app_length, drop_app_length, bool_decide_eq_true_2 by done.
    rewrite length_take_le, Nat.eqb_refl by done. cbn [andb length take]. rewrite andb_true_r.
    apply forallb_forall. intros c Hc. rewrite forallb_forall in Hd. apply Hd. rewrite <- (take_drop 6 (number n)).
    apply in_or_app. by left. }
  unfold is_match. change (chars "summary-" ++ number n) with ((Ascii.ascii_of_nat 115) :: chars "ummary-" ++ number n) at 1. cbn beta iota.
  change ((Ascii.ascii_of_nat 115) :: chars "ummary-" ++ number n) with (chars "summary-" ++ number n). by rewrite Hm.
Qed.

(** The choice of a file: the loop keeps the first file with the greatest number
    above the one it starts from. *)
Definition ids_below (get : string -> outcome name_error Z) (segments : list string) (m : Z) : Prop :=
  forall f id, f ∈ segments -> get f = Ok id -> id <= m.

Definition no_panic (get : string -> outcome name_error Z) (segments : list string) : Prop :=
  Forall (fun f => get f <> Panic /\ get f <> OutOfFuel) segments.

Lemma max_sequence_spec get segments : forall i m k, no_panic get segments ->
  exists m' k', max_sequence get segments i m k = Ok (m', k') /\ m <= m' /\ ids_below get segments m' /\
    ((m' = m /\ k' = k) \/ exists j f, segments !! j = Some f /\ get f = Ok m' /\ k' = (i + j)%nat /\ m < m').
Proof.
  induction segments as [|f segments IH]; intros i m k Hp; cbn [max_sequence].
  { exists m, k. split_and!; [done|done|by intros ? ? []%elem_of_nil|by left]. }
  apply Forall_cons in Hp as [[Hp1 Hp2] Hp].
  assert (forall m0 k0, m <= m0 -> (forall id, get f = Ok id -> id <= m0) ->
    (m0 = m /\ k0 = k \/ get f = Ok m0 /\ k0 = i /\ m < m0) ->
    exists m' k', max_sequence get segments (S i) m0 k0 = Ok (m', k') /\ m <= m' /\ ids_below get (f :: segments) m' /\
      ((m' = m /\ k' = k) \/ exists j f', (f :: segments) !! j = Some f' /\ get f' = Ok m' /\ k' = (i + j)%nat /\ m < m')) as Hstep.
  { intros m0 k0 Hm0 Hf Hor. destruct (IH (S i) m0 k0 Hp) as (m' & k' & E & Hm & Hb & Hk). exists m', k'.
    split_and!; [done|lia| |].
    - intros f' id [->|Hin]%elem_of_cons Hid; [etrans; [by apply Hf|done]|by apply (Hb f')].
    - destruct Hk as [[-> ->]|(j & f' & H1 & H2 & H3 & H4)].
      + destruct Hor as [[-> ->]|(H1 & -> & H2)]; [by left|]. right. exists O, f. split_and!; [done|done|lia|done].
      + right. exists (S j), f'. split_and!; [done|done|lia|lia]. }
  destruct (get f) as [id|e| |] eqn:E; [|apply Hstep; [done|done|by left]|done|done].
  destruct (Z.ltb_spec m id).
  - apply Hstep; [lia|by intros ? [= <-]|by right].
  - apply Hstep; [done|by intros ? [= <-]|by left].
Qed.

Lemma max_file_spec get segments : no_panic get segments -> segments <> [] ->
  exists f id, get_max_sequence_file_name segments get = Ok (Some (f, id)) /\ f ∈ segments /\ ids_below get segments id /\
    (get f = Ok id \/ id = 1 /\ head segments = Some f).
Proof.
  intros Hp Hne. destruct segments as [|f0 segments]; [done|].
  destruct (max_sequence_spec get (f0 :: segments) 0 1 0 Hp) as (m & k & E & Hm & Hb & Hk).
  unfold get_max_sequence_file_name. rewrite E. run.
  destruct Hk as [[-> ->]|(j & f & Hj & Hf & -> & Hlt)].
  - exists f0, 1. split_and!; [done|by left|done|by right].
  - rewrite Nat.add_0_l, Hj. run. exists f, m. split_and!; [done|by eapply list_elem_of_lookup_2|done|by left].
Qed.

(** A file number survives the round trip through a name of the write-ahead
    log or the schema exactly up to 999999: from 1000000 on the name has seven
    digits, which the pattern does not accept.  The number of a summary file
    survives for every [u64]. *)
Theorem file_id_bounds n : is_u64 n ->
  get_wal_file_id (wal_name n) =
    (if n <? 1000000 then Ok n else Err (InvalidFileName (wal_name n) "wal file name does not contain an id")) /\
  get_schema_file_id (schema_name n) =
    (if n <? 1000000 then Ok n else Err (InvalidFileName (schema_name n) "schema file name does not contain an id")) /\
  get_summary_file_id (summary_name n) = Ok n.
Proof.
  intros Hn. split_and!.
  - destruct (Z.ltb_spec n 1000000); [by apply wal_id_ok|]. unfold get_wal_file_id, check_wal_file_name. rewrite chars_wal.
    rewrite (sequence_long "wal"); [done..|]. apply (bool_decide_unpack _). vm_compute. exact I.
  - unfold get_schema_file_id, check_schema_file. rewrite chars_schema. destruct (Z.ltb_spec n 1000000) as [Hlt|].
    + destruct (match_short (Ascii.ascii_of_nat 95) (chars ".schema") n Hn Hlt) as [Hm Hs].
      change (chars "_" ++ ?l) with ((Ascii.ascii_of_nat 95) :: l). change (chars "_") with [(Ascii.ascii_of_nat 95)].
      rewrite Hm, Hs. run. by rewrite parse_number.
    + rewrite (sequence_long "schema"); [done..|]. apply (bool_decide_unpack _). vm_compute. exact I.
  - unfold get_summary_file_id. rewrite summary_match by done. cbn [negb]. rewrite chars_summary.
    unfold slice_from, slice. rewrite length_app. change (length (chars "summary-")) with 8%nat.
    rewrite (proj2 (Nat.leb_le 8 _)), (proj2 (Nat.leb_le _ _)) by lia. cbn [andb]. run.
    rewrite drop_app_length', take_ge by first [done | lia]. by rewrite parse_number.
Qed.

Lemma file_id_bounds_witness :
  get_wal_file_id (wal_name 1000000) =
    Err (InvalidFileName (wal_name 1000000) "wal file name does not contain an id") /\
  get_schema_file_id (schema_name 1000000) =
    Err (InvalidFileName (schema_name 1000000) "schema file name does not contain an id") /\
  get_summary_file_id (summary_name 1000000) = Ok 1000000.
Proof. apply (file_id_bounds 1000000). range. Defined.

End names_facts.
