(* ===== verification/TseriesFamily.v ===== *)
(** * Series families (tskv/src/tseries_family.rs)

    A family owns a mutable cache, a delta cache for points older than what was
    already flushed, and a list of frozen caches; a super version holds the same
    caches for readers and writers.  Caches and versions are shared through
    [Arc], so they live in a [Store] and are named by a location; the queue of
    flush requests is global and lives there too.

    The invariant [inv] says that the super version names the caches of the
    family, that no cache is in two places, and which timestamps each cache may
    hold; [reachable] is the set of states the operations lead to. *)
From S2P Require Import Prelude Varint StringCodec Sorting Utils Models MemCache FileIO Tsm Version.
From Stdlib Require Import Sorting.Permutation Sorting.Sorted.

Module tseries_family.
Import field_info memcache.

(** ** Definitions *)

Record SuperVersion := mkSuperVersion {
  sv_id : Z; sv_delta_mut_cache : Z; sv_mut_cache : Z; sv_immut_cache : list Z;
  sv_cur_version : Z; sv_opt : kv_option.TseriesFamOpt; sv_version_id : Z }.

Record TseriesFamily := mkTseriesFamily {
  tf_id : Z; delta_mut_cache : Z; mut_cache : Z; immut_cache : list Z;
  super_version : SuperVersion; super_version_id : Z; version_ : Z;
  opts : kv_option.TseriesFamOpt; seq_no : Z; immut_ts_min : Z; mut_ts_max : Z }.

(** [FlushReq] (compaction/mod.rs): family and cache. *)
Record FlushReq := mkFlushReq { mems : list (Z * Z); wait_req : Z }.

(** Everything behind an [Arc]: the caches, the versions, the queue [FLUSH_REQ],
    and the channel to the flush job, as whether it has a receiver and how often
    it was sent to. *)
Record Store := mkStore {
  caches : gmap Z MemCache; versions : gmap Z version.Version; next_loc : Z;
  flush_req : list FlushReq; receiver : bool; sent : nat }.

Definition with_caches (s : Store) (c : gmap Z MemCache) : Store :=
  mkStore c (versions s) (next_loc s) (flush_req s) (receiver s) (sent s).

(** [Arc::new(RwLock::new(m))]. *)
Definition alloc (s : Store) (m : MemCache) : Store * Z :=
  (mkStore (<[next_loc s := m]> (caches s)) (versions s) (next_loc s + 1) (flush_req s)
     (receiver s) (sent s), next_loc s).

(** A lock taken on a cache or on a version. *)
Definition deref (s : Store) (l : Z) : outcome string MemCache := unwrap (caches s !! l).

Definition update (s : Store) (l : Z) (f : MemCache -> outcome string MemCache) : outcome string Store :=
  m ← deref s l; m ← f m; Ok (with_caches s (<[l := m]> (caches s))).

Definition set_max_level_ts (s : Store) (l ts : Z) : outcome string Store :=
  v ← unwrap (versions s !! l);
  Ok (mkStore (caches s)
    (<[l := version.mkVersion (version.id v) (version.last_seq v) ts (version.name v) (version.levels_info v)]>
       (versions s)) (next_loc s) (flush_req s) (receiver s) (sent s)).

(** Push the request and wake the flush job; [expect] on a closed channel. *)
Definition send_req (s : Store) (req : FlushReq) : outcome string Store :=
  if receiver s then
    Ok (mkStore (caches s) (versions s) (next_loc s) (flush_req s ++ [req]) true (S (sent s)))
  else Panic.

Section family.
Context {G : GlobalConfig} (size_of_val : Z).

Definition new (s : Store) (tf : Z) (cache : MemCache) (vl : Z) (opt : kv_option.TseriesFamOpt)
    : outcome string (Store * TseriesFamily) :=
  let '(s, mm) := alloc s cache in
  v ← unwrap (versions s !! vl);
  let seq := version.last_seq v in
  let '(s, delta_mm) := alloc s (memcache.new tf max_memcache_size seq true) in
  Ok (s, mkTseriesFamily tf delta_mm mm []
    (mkSuperVersion tf delta_mm mm [] vl opt 0) 0 vl opt seq (version.max_level_ts v) i64_MIN).

(** The new super version gets [cache] as its delta cache and the delta cache as
    its mutable cache. *)
Definition switch_memcache (s : Store) (f : TseriesFamily) (cache : Z) : outcome string (Store * TseriesFamily) :=
  s ← update s (sv_mut_cache (super_version f)) (fun m => Ok (memcache.switch_to_immutable m));
  let immut := immut_cache f ++ [mut_cache f] in
  let id := u64 (super_version_id f + 1) in
  let vers := mkSuperVersion (tf_id f) cache (delta_mut_cache f) immut (version_ f) (opts f) id in
  Ok (s, mkTseriesFamily (tf_id f) (delta_mut_cache f) cache immut vers id (version_ f) (opts f)
           (seq_no f) (immut_ts_min f) (mut_ts_max f)).

Definition switch_to_immutable (s : Store) (f : TseriesFamily) : outcome string (Store * TseriesFamily) :=
  s ← update s (sv_mut_cache (super_version f)) (fun m => Ok (memcache.switch_to_immutable m));
  let immut := immut_cache f ++ [mut_cache f] in
  let '(s, m) := alloc s (memcache.new (tf_id f) max_memcache_size (seq_no f) false) in
  let id := u64 (super_version_id f + 1) in
  let vers := mkSuperVersion (tf_id f) (delta_mut_cache f) m immut (version_ f) (opts f) id in
  Ok (s, mkTseriesFamily (tf_id f) (delta_mut_cache f) m immut vers id (version_ f) (opts f)
           (seq_no f) (immut_ts_min f) (mut_ts_max f)).

Definition wrap_delta_flush_req (s : Store) (f : TseriesFamily) : outcome string (Store * TseriesFamily) :=
  let req_mem := [(tf_id f, delta_mut_cache f)] in
  let '(s, d) := alloc s (memcache.new (tf_id f) max_memcache_size (seq_no f) true) in
  let id := u64 (super_version_id f + 1) in
  let vers := mkSuperVersion (tf_id f) d (mut_cache f) (immut_cache f) (version_ f) (opts f) id in
  let f := mkTseriesFamily (tf_id f) d (mut_cache f) (immut_cache f) vers id (version_ f) (opts f)
             (seq_no f) (immut_ts_min f) (mut_ts_max f) in
  s ← send_req s (mkFlushReq req_mem 0);
  Ok (s, f).

Definition wrap_flush_req (s : Store) (f : TseriesFamily) : outcome string (Store * TseriesFamily) :=
  let req_mem := (fun i => (tf_id f, i)) <$> immut_cache f in
  let id := u64 (super_version_id f + 1) in
  let vers := mkSuperVersion (tf_id f) (delta_mut_cache f) (mut_cache f) [] (version_ f) (opts f) id in
  let f := mkTseriesFamily (tf_id f) (delta_mut_cache f) (mut_cache f) [] vers id (version_ f) (opts f)
             (seq_no f) (immut_ts_min f) (mut_ts_max f) in
  s ← send_req s (mkFlushReq req_mem 0);
  Ok (s, f).

Definition with_times (f : TseriesFamily) (imin mmax : Z) : TseriesFamily :=
  mkTseriesFamily (tf_id f) (delta_mut_cache f) (mut_cache f) (immut_cache f) (super_version f)
    (super_version_id f) (version_ f) (opts f) (seq_no f) imin mmax.

(** The three parts of [put_mutcache]: the point goes to a cache, *)
Definition put_point (s : Store) (f : TseriesFamily) (fid : Z) (val : list Z) (dtype : ValueType) (seq ts : Z)
    : outcome string (Store * TseriesFamily) :=
  let f := if immut_ts_min f =? i64_MIN then with_times f ts (mut_ts_max f) else f in
  if immut_ts_min f <=? ts then
    let f := if mut_ts_max f <? ts then with_times f (immut_ts_min f) ts else f in
    s ← update s (sv_mut_cache (super_version f)) (fun m => insert_raw size_of_val m seq fid ts dtype val);
    Ok (s, f)
  else
    s ← update s (sv_delta_mut_cache (super_version f)) (fun m => insert_raw size_of_val m seq fid ts dtype val);
    Ok (s, f).

(** a full mutable cache is frozen and, with enough frozen caches, flushed, *)
Definition put_mut_full (s : Store) (f : TseriesFamily) : outcome string (Store * TseriesFamily) :=
  m ← deref s (sv_mut_cache (super_version f));
  if is_full m then
    '(s, f) ← switch_to_immutable s f;
    if (max_immemcache_num <=? length (immut_cache f))%nat then
      let f := with_times f (mut_ts_max f) (mut_ts_max f) in
      s ← set_max_level_ts s (version_ f) (mut_ts_max f);
      wrap_flush_req s f
    else Ok (s, f)
  else Ok (s, f).

(** and a full delta cache is flushed. *)
Definition put_mutcache (s : Store) (f : TseriesFamily) (fid : Z) (val : list Z) (dtype : ValueType) (seq ts : Z)
    : outcome string (Store * TseriesFamily) :=
  '(s, f) ← put_point s f fid val dtype seq ts;
  d ← deref s (delta_mut_cache f);
  '(s, f) ← (if (immut_ts_min f <=? ts) && negb (bool_decide (data_cache d = ∅))
             then wrap_delta_flush_req s f else Ok (s, f));
  '(s, f) ← put_mut_full s f;
  d ← deref s (sv_delta_mut_cache (super_version f));
  if is_full d then wrap_delta_flush_req s f else Ok (s, f).

(** The loop of [delete_cache] over the entries of one cache. *)
Definition delete_range (m : MemCache) (r : time_range.TimeRange) : MemCache :=
  mkMemCache (immutable m) (memcache.tf_id m) (memcache.seq_no m) (max_buf_size m)
    ((fun e => if overlap e r then delete_data_cell e r else e) <$> data_cache m)
    (cache_size m) (is_delta m).

Fixpoint delete_caches (s : Store) (ls : list Z) (r : time_range.TimeRange) : outcome string Store :=
  match ls with
  | [] => Ok s
  | l :: ls' => s ← update s l (fun m => Ok (delete_range m r)); delete_caches s ls' r
  end.

Definition delete_cache (s : Store) (f : TseriesFamily) (r : time_range.TimeRange) : outcome string Store :=
  delete_caches s (mut_cache f :: delta_mut_cache f :: immut_cache f) r.

End family.
End tseries_family.

Module family_facts.
Import field_info memcache tseries_family.

(** ** The state of a family *)

(** The caches of the family, and those it has queued for a flush. *)
Definition owned (f : TseriesFamily) : list Z := mut_cache f :: delta_mut_cache f :: immut_cache f.

Definition queued_of (tf : Z) (q : list FlushReq) : list Z :=
  snd <$> base.filter (fun p => p.1 = tf) (concat (mems <$> q)).

Definition queued (s : Store) (f : TseriesFamily) : list Z := queued_of (tf_id f) (flush_req s).

(** The cells of a field in one cache, in a list of caches, and everything not
    yet handed to the flush job or waiting for it. *)
Definition cells_at (s : Store) (fid l : Z) : list DataType :=
  match caches s !! l with Some m => cells_of m fid | None => [] end.

Definition content (s : Store) (ls : list Z) (fid : Z) : list DataType := concat (cells_at s fid <$> ls).

Definition pending (s : Store) (f : TseriesFamily) (fid : Z) : list DataType :=
  content s (owned f ++ queued s f) fid.

Definition publish (f : TseriesFamily) : SuperVersion :=
  mkSuperVersion (tf_id f) (delta_mut_cache f) (mut_cache f) (immut_cache f) (version_ f) (opts f)
    (super_version_id f).

Definition holds (Q : MemCache -> Prop) (s : Store) (l : Z) : Prop :=
  exists m, caches s !! l = Some m /\ Q m.

(** The bounds of every entry enclose its cells. *)
Definition bounded (m : MemCache) : Prop :=
  map_Forall (fun (_ : Z) e => Forall (fun d => ts_min e <= timestamp d <= ts_max e) (cells e)) (data_cache m).

Definition all_times (Q : Z -> Prop) (m : MemCache) : Prop :=
  forall fid d, d ∈ cells_of m fid -> Q (timestamp d).

(** A cache for points in order, one for late points, and one being flushed. *)
Definition in_order (f : TseriesFamily) (m : MemCache) : Prop :=
  is_delta m = false /\ bounded m /\
  all_times (fun t => i64_MIN < immut_ts_min f /\ immut_ts_min f <= t <= mut_ts_max f) m.

Definition late (f : TseriesFamily) (m : MemCache) : Prop :=
  is_delta m = true /\ bounded m /\ all_times (fun t => t < immut_ts_min f) m.

Definition flushed (v : version.Version) (m : MemCache) : Prop :=
  is_delta m = true \/ all_times (fun t => t <= version.max_level_ts v) m.

(** The points in order of one request are not after those of a later one. *)
Definition req_before (s : Store) (tf : Z) (r1 r2 : FlushReq) : Prop :=
  forall l1 l2 m1 m2, (tf, l1) ∈ mems r1 -> (tf, l2) ∈ mems r2 ->
    caches s !! l1 = Some m1 -> caches s !! l2 = Some m2 ->
    is_delta m1 = false -> is_delta m2 = false ->
    forall fid1 d1 fid2 d2, d1 ∈ cells_of m1 fid1 -> d2 ∈ cells_of m2 fid2 -> timestamp d1 <= timestamp d2.

Record inv (s : Store) (f : TseriesFamily) : Prop := mkInv {
  inv_super : super_version f = publish f;
  inv_nodup : NoDup (owned f ++ queued s f);
  inv_fresh : Forall (fun l => l < next_loc s) (owned f ++ queued s f);
  inv_mut : holds (in_order f) s (mut_cache f);
  inv_full : forall m, caches s !! mut_cache f = Some m -> is_full m = true ->
    i64_MIN < immut_ts_min f <= mut_ts_max f;
  inv_delta : holds (late f) s (delta_mut_cache f);
  inv_immut : Forall (holds (in_order f) s) (immut_cache f);
  inv_version : exists v, versions s !! version_ f = Some v /\
    version.max_level_ts v <= immut_ts_min f /\ Forall (holds (flushed v) s) (queued s f);
  inv_order : StronglySorted (req_before s (tf_id f)) (flush_req s);
  inv_receiver : receiver s = true;
  inv_min : i64_MIN <= immut_ts_min f }.

(** ** Caches *)

Lemma cells_of_new tf n seq delta fid : cells_of (memcache.new tf n seq delta) fid = [].
Proof. done. Qed.

Lemma bounded_new tf n seq delta : bounded (memcache.new tf n seq delta).
Proof. apply map_Forall_empty. Qed.

Lemma all_times_new Q tf n seq delta : all_times Q (memcache.new tf n seq delta).
Proof. intros fid d Hd. rewrite cells_of_new in Hd. by apply elem_of_nil in Hd. Qed.

Lemma all_times_impl (Q Q' : Z -> Prop) m : (forall t, Q t -> Q' t) -> all_times Q m -> all_times Q' m.
Proof. intros HQ H fid d Hd. by apply HQ, (H fid). Qed.

Lemma cells_of_switch m fid : Permutation (cells_of (memcache.switch_to_immutable m) fid) (cells_of m fid).
Proof.
  unfold cells_of, memcache.switch_to_immutable. cbn [data_cache]. rewrite lookup_fmap.
  destruct (data_cache m !! fid); [|done]. symmetry. apply sort_by_perm.
Qed.

Lemma all_times_switch Q m : all_times Q m -> all_times Q (memcache.switch_to_immutable m).
Proof. intros H fid d Hd. apply (H fid). by rewrite <- (cells_of_switch m fid). Qed.

Lemma bounded_switch m : bounded m -> bounded (memcache.switch_to_immutable m).
Proof.
  intros H. apply map_Forall_fmap. intros k e He.
  change (Forall (fun d => ts_min e <= timestamp d <= ts_max e) (sort_by cell_le (cells e))).
  rewrite <- (sort_by_perm cell_le (cells e)). by apply (H k e).
Qed.

Lemma insert_raw_ok n m seq fid t ft buf d :
  raw_cell t ft buf = Some d -> bounded m ->
  exists m', insert_raw n m seq fid t ft buf = Ok m' /\ bounded m' /\ is_delta m' = is_delta m /\
    timestamp d = t /\
    forall fid', cells_of m' fid' = if decide (fid' = fid) then cells_of m fid ++ [d] else cells_of m fid'.
Proof.
  intros Hraw Hb. assert (timestamp d = t) as Ht.
  { unfold raw_cell in Hraw. destruct ft; try done;
      try (apply fmap_Some in Hraw as (v & _ & ->); done). by injection Hraw as <-. }
  unfold insert_raw. rewrite Hraw. run. eexists. split; [reflexivity|]. split_and!; [|done|done|].
  - apply map_Forall_insert_2; [|done]. cbn [data_cache]. unfold push_cell. cbn [ts_min ts_max cells].
    set (e := default default_entry _). apply Forall_app. split.
    + assert (Forall (fun d => ts_min e <= timestamp d <= ts_max e) (cells e)) as He.
      { unfold e. destruct (data_cache m !! fid) as [e'|] eqn:E; [by apply (Hb fid e')|constructor]. }
      eapply Forall_impl; [exact He|]. cbn. intros x Hx. bool_cases; lia.
    + constructor; [|constructor]. bool_cases; lia.
  - intros fid'. by rewrite cells_of_insert.
Qed.

Lemma all_times_insert (Q : Z -> Prop) m m' fid d :
  (forall fid', cells_of m' fid' = if decide (fid' = fid) then cells_of m fid ++ [d] else cells_of m fid') ->
  all_times Q m -> Q (timestamp d) -> all_times Q m'.
Proof.
  intros Hc Hm Hd fid' x Hx. rewrite Hc in Hx. destruct (decide (fid' = fid)); [|by apply (Hm fid')].
  apply elem_of_app in Hx as [Hx| ->%list_elem_of_singleton]; [by apply (Hm fid)|done].
Qed.

(** ** The store *)

Definition set_cache (s : Store) (l : Z) (m : MemCache) : Store := with_caches s (<[l := m]> (caches s)).

Lemma update_ok s l m m' g : caches s !! l = Some m -> g m = Ok m' -> update s l g = Ok (set_cache s l m').
Proof. intros Hl Hg. unfold update, deref. rewrite Hl. run. by rewrite Hg. Qed.

Lemma content_same s s' ls fid :
  (forall l, l ∈ ls -> caches s' !! l = caches s !! l) -> content s' ls fid = content s ls fid.
Proof.
  intros H. unfold content. f_equal. apply list_fmap_ext. intros i l Hl.
  unfold cells_at. by rewrite H by (by apply list_elem_of_lookup_2 in Hl).
Qed.

Lemma content_app s a b fid : content s (a ++ b) fid = content s a fid ++ content s b fid.
Proof. unfold content. by rewrite fmap_app, concat_app. Qed.

#[global] Instance content_perm s : Proper (Permutation ==> eq ==> Permutation) (content s).
Proof. intros a b Hab fid _ <-. unfold content. by rewrite Hab. Qed.

(** Replacing one cache by one with the cells [x] more. *)
Lemma content_set s ls l m' fid x :
  NoDup ls -> l ∈ ls -> Permutation (cells_of m' fid) (x ++ cells_at s fid l) ->
  Permutation (content (set_cache s l m') ls fid) (x ++ content s ls fid).
Proof.
  intros Hnd [ls' Hp]%elem_of_Permutation Hc. rewrite Hp in Hnd |- *. apply NoDup_cons in Hnd as [Hni _].
  unfold content at 1 2. cbn [fmap list_fmap concat]. rewrite app_assoc. f_equiv.
  - unfold cells_at at 1, set_cache. cbn [caches with_caches]. by rewrite lookup_insert_eq.
  - fold (content (set_cache s l m') ls' fid). fold (content s ls' fid). rewrite (content_same s); [done|].
    intros l' Hl'. unfold set_cache. cbn [caches with_caches]. rewrite lookup_insert_ne; [done|]. by intros <-.
Qed.

Lemma holds_same Q s s' l : caches s' !! l = caches s !! l -> holds Q s l -> holds Q s' l.
Proof. intros E (m & Hm & HQ). exists m. by rewrite E. Qed.

Lemma holds_impl (Q Q' : MemCache -> Prop) s l : (forall m, Q m -> Q' m) -> holds Q s l -> holds Q' s l.
Proof. intros HQ (m & Hm & H). exists m. split; [done|by apply HQ]. Qed.

Lemma queued_of_app tf a b : queued_of tf (a ++ b) = queued_of tf a ++ queued_of tf b.
Proof. unfold queued_of. by rewrite fmap_app, concat_app, filter_app, fmap_app. Qed.

Lemma queued_of_in tf q r l : r ∈ q -> (tf, l) ∈ mems r -> l ∈ queued_of tf q.
Proof.
  intros Hr Hl. apply list_elem_of_fmap. exists (tf, l). split; [done|]. apply list_elem_of_filter. split; [done|].
  apply elem_of_concat. exists (mems r). split; [|done]. apply list_elem_of_fmap. by exists r.
Qed.

Lemma queued_of_req tf ls w : queued_of tf [mkFlushReq ((fun i => (tf, i)) <$> ls) w] = ls.
Proof.
  unfold queued_of. cbn [fmap list_fmap concat mems]. rewrite app_nil_r.
  induction ls as [|l ls IH]; [done|]. rewrite fmap_cons, filter_cons_True by done.
  by rewrite fmap_cons, IH.
Qed.

Lemma sorted_impl {A} (R R' : A -> A -> Prop) l :
  (forall x y, x ∈ l -> y ∈ l -> R x y -> R' x y) -> StronglySorted R l -> StronglySorted R' l.
Proof.
  intros HR H. induction H as [|x l Hl IH Hx]; constructor.
  - apply IH. intros a b Ha Hb. apply HR; by right.
  - apply Forall_forall. intros y Hy. rewrite Forall_forall in Hx. apply HR; [by left|by right|by apply Hx].
Qed.

Lemma sorted_snoc {A} (R : A -> A -> Prop) l x :
  StronglySorted R l -> Forall (fun y => R y x) l -> StronglySorted R (l ++ [x]).
Proof.
  induction 1 as [|y l Hl IH Hy]; intros Hx; [repeat constructor|].
  inversion_clear Hx. cbn [app]. constructor; [by apply IH|]. apply Forall_app. by repeat constructor.
Qed.

Lemma order_same s s' tf q :
  (forall l, l ∈ queued_of tf q -> caches s' !! l = caches s !! l) ->
  StronglySorted (req_before s tf) q -> StronglySorted (req_before s' tf) q.
Proof.
  intros Hs. apply sorted_impl. intros r1 r2 Hr1 Hr2 H l1 l2 m1 m2 H1 H2.
  rewrite (Hs l1), (Hs l2) by eauto using queued_of_in. by apply H.
Qed.

(** Changing the mutable or the delta cache, and the two times. *)
Lemma inv_set s f l m' imin mmax (f' := with_times f imin mmax) :
  inv s f -> l = mut_cache f \/ l = delta_mut_cache f ->
  (forall m, in_order f m -> in_order f' m) -> (forall m, late f m -> late f' m) -> immut_ts_min f <= imin ->
  (l = mut_cache f -> in_order f' m' /\ i64_MIN < imin <= mmax) ->
  (l = delta_mut_cache f -> late f' m' /\ imin = immut_ts_min f /\ mmax = mut_ts_max f) ->
  inv (set_cache s l m') f'.
Proof.
  intros [Hsu Hnd Hfr Hm Hfull Hd Him (v & Hv & Hvm & Hq) Ho Hr Hmin] Hl Hin Hla Hle Hmut Hdel.
  assert (mut_cache f <> delta_mut_cache f /\ mut_cache f ∉ immut_cache f ++ queued s f /\
          delta_mut_cache f ∉ immut_cache f ++ queued s f) as (Hmd & Hmi & Hdi).
  { unfold owned in Hnd. cbn [app] in Hnd. apply NoDup_cons in Hnd as [H1 Hnd]. apply NoDup_cons in Hnd as [H2 _].
    apply not_elem_of_cons in H1 as [? ?]. done. }
  assert (forall l', l' ∈ immut_cache f ++ queued s f -> caches (set_cache s l m') !! l' = caches s !! l') as Hother.
  { intros l' Hl'. unfold set_cache. cbn [caches with_caches]. rewrite lookup_insert_ne; [done|].
    intros ->. by destruct Hl as [->| ->]. }
  assert (caches (set_cache s l m') !! l = Some m') as Heq by apply lookup_insert_eq.
  assert (forall l', l' <> l -> caches (set_cache s l m') !! l' = caches s !! l') as Hne.
  { intros l' Hl'. unfold set_cache. cbn [caches with_caches]. by rewrite lookup_insert_ne. }
  constructor.
  - unfold f', with_times, publish. cbn. exact Hsu.
  - exact Hnd.
  - exact Hfr.
  - change (holds (in_order f') (set_cache s l m') (mut_cache f)). destruct Hl as [->| ->].
    + exists m'. split; [done|]. by apply Hmut.
    + apply (holds_same _ s); [by apply Hne|]. by apply (holds_impl _ _ _ _ Hin).
  - intros m. change (mut_cache f') with (mut_cache f). cbn. destruct Hl as [->| ->].
    + intros _ _. by apply Hmut.
    + destruct (Hdel eq_refl) as (_ & -> & ->). rewrite lookup_insert_ne by done. apply Hfull.
  - change (holds (late f') (set_cache s l m') (delta_mut_cache f)). destruct Hl as [->| ->].
    + apply (holds_same _ s); [by apply Hne|]. by apply (holds_impl _ _ _ _ Hla).
    + exists m'. split; [done|]. by apply Hdel.
  - change (Forall (holds (in_order f') (set_cache s l m')) (immut_cache f)).
    apply Forall_forall. intros l' Hl'. apply (holds_same _ s); [apply Hother, elem_of_app; by left|].
    apply (holds_impl _ _ _ _ Hin). rewrite Forall_forall in Him. by apply Him.
  - exists v. split_and!; [exact Hv|cbn; lia|]. change (Forall (holds (flushed v) (set_cache s l m')) (queued s f)).
    apply Forall_forall. intros l' Hl'. apply (holds_same _ s); [apply Hother, elem_of_app; by right|].
    rewrite Forall_forall in Hq. by apply Hq.
  - apply (order_same s); [|exact Ho]. intros l' Hl'. apply Hother. apply elem_of_app. by right.
  - exact Hr.
  - cbn. lia.
Qed.

(** ** The operations *)

Lemma with_times_id f : with_times f (immut_ts_min f) (mut_ts_max f) = f.
Proof. by destruct f. Qed.

Lemma pending_times s f imin mmax fid : pending s (with_times f imin mmax) fid = pending s f fid.
Proof. done. Qed.

(** The point is added to one cache. *)
Lemma pending_set s f l m m' imin mmax d fid :
  inv s f -> l = mut_cache f \/ l = delta_mut_cache f -> caches s !! l = Some m ->
  (forall fid', cells_of m' fid' = if decide (fid' = fid) then cells_of m fid ++ [d] else cells_of m fid') ->
  forall fid', Permutation (pending (set_cache s l m') (with_times f imin mmax) fid')
    ((if decide (fid' = fid) then [d] else []) ++ pending s f fid').
Proof.
  intros Hi Hl Hm Hc fid'. rewrite pending_times. unfold pending.
  change (queued (set_cache s l m') f) with (queued s f).
  apply content_set; [apply Hi|destruct Hl as [->| ->]; [by left|by right; left]|].
  rewrite Hc. unfold cells_at. rewrite Hm. destruct (decide (fid' = fid)) as [->|]; [|done].
  apply Permutation_app_comm.
Qed.

Lemma inv_lt s f l : inv s f -> l ∈ owned f ++ queued s f -> l < next_loc s.
Proof. intros Hi Hl. pose proof (inv_fresh _ _ Hi) as H. rewrite Forall_forall in H. by apply H. Qed.

(** An empty cache is allocated and the others change places. *)
Lemma grow s s' f f' m0 :
  inv s f -> caches s' = <[next_loc s := m0]> (caches s) -> next_loc s' = next_loc s + 1 ->
  (forall fid, cells_of m0 fid = []) ->
  Permutation (owned f' ++ queued s' f') (next_loc s :: owned f ++ queued s f) ->
  NoDup (owned f' ++ queued s' f') /\ Forall (fun l => l < next_loc s') (owned f' ++ queued s' f') /\
  (forall l, l ∈ owned f ++ queued s f -> caches s' !! l = caches s !! l) /\
  (forall fid, Permutation (pending s' f' fid) (pending s f fid)).
Proof.
  intros Hi Hc Hn Hm Hp. assert (next_loc s ∉ owned f ++ queued s f) as Hni.
  { intros H%(inv_lt _ _ _ Hi). lia. }
  assert (forall l, l ∈ owned f ++ queued s f -> caches s' !! l = caches s !! l) as Hsame.
  { intros l Hl. rewrite Hc, lookup_insert_ne; [done|]. by intros <-. }
  split_and!; [rewrite Hp; by constructor; [|apply Hi]| |done|].
  - rewrite Hp, Hn. constructor; [lia|]. eapply Forall_impl; [apply (inv_fresh _ _ Hi)|]. cbn. lia.
  - intros fid. unfold pending. rewrite Hp. rewrite <- (content_same s s') by done.
    unfold content. cbn [fmap list_fmap concat]. unfold cells_at at 1. rewrite Hc, lookup_insert_eq, Hm. done.
Qed.

(** Caches of the family and of the queue that are not touched. *)
Lemma kept s s' f Q : (forall l, l ∈ owned f ++ queued s f -> caches s' !! l = caches s !! l) ->
  (forall l, l ∈ owned f ++ queued s f -> holds Q s l -> holds Q s' l).
Proof. intros Hs l Hl. apply holds_same. by apply Hs. Qed.

Lemma kept_all s s' f Q ls : (forall l, l ∈ owned f ++ queued s f -> caches s' !! l = caches s !! l) ->
  (forall l, l ∈ ls -> l ∈ owned f ++ queued s f) -> Forall (holds Q s) ls -> Forall (holds Q s') ls.
Proof.
  intros Hs Hsub H. apply Forall_forall. intros l Hl. rewrite Forall_forall in H.
  apply (kept s s' f); [done|by apply Hsub|by apply H].
Qed.

Lemma in_mut s f : mut_cache f ∈ owned f ++ queued s f.
Proof. by left. Qed.
Lemma in_delta s f : delta_mut_cache f ∈ owned f ++ queued s f.
Proof. by right; left. Qed.
Lemma in_immut s f l : l ∈ immut_cache f -> l ∈ owned f ++ queued s f.
Proof. intros Hl. apply elem_of_app. left. by do 2 right. Qed.
Lemma in_queued s f l : l ∈ queued s f -> l ∈ owned f ++ queued s f.
Proof. intros Hl. apply elem_of_app. by right. Qed.

Section steps.
Context {G : GlobalConfig} (n : Z).

Lemma put_point_ok s f fid val dt seq ts d :
  inv s f -> raw_cell ts dt val = Some d -> i64_MIN < ts ->
  exists s' f', put_point n s f fid val dt seq ts = Ok (s', f') /\ inv s' f' /\
    (forall fid', Permutation (pending s' f' fid') ((if decide (fid' = fid) then [d] else []) ++ pending s f fid')).
Proof.
  intros Hi Hraw Hts. pose proof Hi as [Hsu _ _ (m & Hm & Hmd & Hmb & Hmt) _ (md & Hd & Hdd & Hdb & Hdt) _ _ _ _ Hmin].
  unfold put_point. set (imin := if immut_ts_min f =? i64_MIN then ts else immut_ts_min f).
  set (f1 := if immut_ts_min f =? i64_MIN then _ else f).
  assert (f1 = with_times f imin (mut_ts_max f)) as ->.
  { unfold f1, imin. destruct (_ =? _); [done|]. by rewrite with_times_id. }
  change (immut_ts_min (with_times f imin (mut_ts_max f))) with imin.
  change (mut_ts_max (with_times f imin (mut_ts_max f))) with (mut_ts_max f).
  destruct (Z.leb_spec imin ts) as [Hle|Hlt].
  - set (mmax := if mut_ts_max f <? ts then ts else mut_ts_max f).
    set (f2 := if mut_ts_max f <? ts then with_times _ _ _ else _). assert (f2 = with_times f imin mmax) as ->.
    { unfold f2, mmax. by destruct (_ <? _). }
    change (super_version (with_times f imin mmax)) with (super_version f). rewrite Hsu. cbn [sv_mut_cache publish].
    destruct (insert_raw_ok n m seq fid ts dt val d Hraw Hmb) as (m' & Hins & Hb' & Hd' & Htd & Hc').
    rewrite (update_ok _ _ _ _ _ Hm Hins). run. do 2 eexists. split; [done|].
    split; [|by apply (pending_set s f _ m); [| left|..]].
    assert (i64_MIN < imin /\ mut_ts_max f <= mmax /\ ts <= mmax /\ (i64_MIN < immut_ts_min f -> imin = immut_ts_min f))
      as (H1 & H2 & H3 & H4).
    { unfold imin, mmax in *. bool_cases; lia. }
    assert (forall m0, in_order f m0 -> in_order (with_times f imin mmax) m0) as Hio.
    { intros m0 (? & ? & Ht). split_and!; [done|done|]. eapply all_times_impl; [|exact Ht].
      cbn. intros t ?. rewrite H4 by lia. lia. }
    apply inv_set; [done|by left|done| | | |].
    + intros m0 (? & ? & Ht). split_and!; [done|done|]. eapply all_times_impl; [|exact Ht].
      cbn. unfold imin. intros t. bool_cases; range.
    + unfold imin. bool_cases; lia.
    + intros _. split; [|lia]. split_and!; [congruence|done|]. eapply all_times_insert; [exact Hc'| |cbn; lia].
      by apply Hio.
    + intros E. rewrite E in Hm. congruence.
  - assert (imin = immut_ts_min f) as -> by (unfold imin in *; bool_cases; lia). rewrite with_times_id.
    rewrite Hsu. cbn [sv_delta_mut_cache publish].
    destruct (insert_raw_ok n md seq fid ts dt val d Hraw Hdb) as (m' & Hins & Hb' & Hd' & Htd & Hc').
    rewrite (update_ok _ _ _ _ _ Hd Hins). run. exists (set_cache s (delta_mut_cache f) m'), f. split; [done|].
    split; [|exact (pending_set s f _ md m' 0 0 d fid Hi (or_intror eq_refl) Hd Hc')].
    rewrite <- (with_times_id f) at 2.
    apply inv_set; rewrite ?with_times_id; try done; [by right| |].
    + intros E. rewrite E in Hd. congruence.
    + intros _. split_and!; [|done|done]. split_and!; [congruence|done|].
      eapply all_times_insert; [exact Hc'|done|]. lia.
Qed.

Lemma wrap_delta_ok s f :
  inv s f -> exists s' f', wrap_delta_flush_req s f = Ok (s', f') /\ inv s' f' /\
    (forall fid, Permutation (pending s' f' fid) (pending s f fid)).
Proof.
  intros Hi. pose proof Hi as [_ _ _ Hm Hfull (md & Hd & Hdd & _) Him (v & Hv & Hvm & Hq) Ho Hr Hmin].
  unfold wrap_delta_flush_req, send_req, alloc. cbn [receiver caches versions next_loc flush_req sent].
  rewrite Hr. run. set (s' := mkStore _ _ _ _ _ _). set (f' := mkTseriesFamily _ _ _ _ _ _ _ _ _ _ _).
  exists s', f'. split; [done|].
  assert (queued s' f' = queued s f ++ [delta_mut_cache f]) as Hqs.
  { unfold queued. cbn [flush_req s' tf_id f']. rewrite queued_of_app. f_equal. apply (queued_of_req _ [_]). }
  destruct (grow s s' f f' (memcache.new (tf_id f) max_memcache_size (seq_no f) true) Hi) as (Hnd & Hfr & Hsame & Hp);
    [done|done|done| |].
  { rewrite Hqs. unfold owned, f'. cbn [mut_cache delta_mut_cache immut_cache]. cbn [app].
    rewrite (Permutation_app_comm (queued s f)), app_assoc. rewrite (Permutation_app_comm (immut_cache f)). cbn [app].
    rewrite perm_swap. do 3 apply perm_skip. by rewrite Permutation_app_comm. }
  split; [|done]. constructor; [done|done|done| | | | | | |done|done].
  - exact (kept s s' f _ Hsame _ (in_mut s f) Hm).
  - cbn [mut_cache f']. rewrite Hsame by apply in_mut. apply Hfull.
  - eexists. split; [apply lookup_insert_eq|]. split_and!; [done|apply bounded_new|apply all_times_new].
  - exact (kept_all s s' f _ _ Hsame (in_immut s f) Him).
  - exists v. split_and!; [done|done|]. rewrite Hqs. apply Forall_app. split; [|constructor; [|constructor]].
    + exact (kept_all s s' f _ _ Hsame (in_queued s f) Hq).
    + apply (kept s s' f); [done|apply in_delta|]. exists md. split; [done|by left].
  - apply sorted_snoc.
    + apply (order_same s); [|done]. intros l Hl. by apply Hsame, in_queued.
    + apply Forall_forall. intros r _ l1 l2 m1 m2 _ H2 _ Hl2 _ Hm2. exfalso.
      cbn [mems] in H2. apply list_elem_of_singleton in H2. injection H2 as ->.
      rewrite Hsame in Hl2 by apply in_delta. congruence.
Qed.

Lemma switch_ok s f :
  inv s f -> i64_MIN < immut_ts_min f <= mut_ts_max f ->
  exists s' f', switch_to_immutable s f = Ok (s', f') /\ inv s' f' /\
    (forall fid, Permutation (pending s' f' fid) (pending s f fid)) /\
    immut_ts_min f' = immut_ts_min f /\ mut_ts_max f' = mut_ts_max f /\
    caches s' !! mut_cache f' = Some (memcache.new (tf_id f) max_memcache_size (seq_no f) false).
Proof.
  intros Hi Ht. pose proof (inv_super _ _ Hi) as Hsu. destruct (inv_mut _ _ Hi) as (m & Hm & Hmd & Hmb & Hmt).
  unfold switch_to_immutable. rewrite Hsu. cbn [sv_mut_cache publish].
  rewrite (update_ok s _ m (memcache.switch_to_immutable m)) by done. run.
  set (s1 := set_cache s (mut_cache f) _). assert (inv s1 f) as Hi1.
  { rewrite <- (with_times_id f). apply inv_set; rewrite ?with_times_id; try done; [by left| |].
    - intros _. split; [|done]. split_and!; [done|by apply bounded_switch|by apply all_times_switch].
    - intros E. destruct (inv_delta _ _ Hi) as (md & Hd & Hdd & _). rewrite E in Hm. congruence. }
  assert (forall fid, Permutation (pending s1 f fid) (pending s f fid)) as Hp1.
  { intros fid. apply (content_set s (owned f ++ queued s f) (mut_cache f) _ fid []); [apply Hi|apply in_mut|].
    unfold cells_at. rewrite Hm. apply cells_of_switch. }
  unfold alloc. cbn [caches versions next_loc flush_req receiver sent].
  set (s' := mkStore _ _ _ _ _ _). set (f' := mkTseriesFamily _ _ _ _ _ _ _ _ _ _ _).
  exists s', f'. split; [done|].
  assert (queued s' f' = queued s1 f) as Hqs by done.
  destruct (grow s1 s' f f' (memcache.new (tf_id f) max_memcache_size (seq_no f) false) Hi1) as (Hnd & Hfr & Hsame & Hp);
    [done|done|done| |].
  { rewrite Hqs. unfold owned, f'. cbn [mut_cache delta_mut_cache immut_cache]. cbn [app].
    apply perm_skip. rewrite perm_swap. apply perm_skip. rewrite <- app_assoc. cbn [app]. by rewrite Permutation_middle. }
  destruct Hi1 as [_ _ _ Hm1 _ Hd1 Him1 (v & Hv & Hvm & Hq1) Ho1 Hr1 Hmin1].
  assert (caches s' !! mut_cache f' = Some (memcache.new (tf_id f) max_memcache_size (seq_no f) false)) as Hnew
    by apply lookup_insert_eq.
  split_and!; [|intros fid; by rewrite Hp, Hp1|done|done|done].
  constructor; [done|done|done| | | | | | |done|done].
  - eexists. split; [exact Hnew|]. split_and!; [done|apply bounded_new|apply all_times_new].
  - done.
  - exact (kept s1 s' f _ Hsame _ (in_delta s1 f) Hd1).
  - apply Forall_app. split; [exact (kept_all s1 s' f _ _ Hsame (in_immut s1 f) Him1)|].
    constructor; [|constructor]. exact (kept s1 s' f _ Hsame _ (in_mut s1 f) Hm1).
  - exists v. split_and!; [done|done|]. exact (kept_all s1 s' f _ _ Hsame (in_queued s1 f) Hq1).
  - apply (order_same s1); [|done]. intros l Hl. by apply Hsame, in_queued.
Qed.

(** Queuing the frozen caches, with the times moved to the latest point. *)
Lemma flush_ok s f a b c :
  inv s f -> i64_MIN < immut_ts_min f <= mut_ts_max f ->
  caches s !! mut_cache f = Some (memcache.new a b c false) ->
  exists s' f', (s ← set_max_level_ts s (version_ f) (mut_ts_max f);
                 wrap_flush_req s (with_times f (mut_ts_max f) (mut_ts_max f))) = Ok (s', f') /\
    inv s' f' /\ forall fid, Permutation (pending s' f' fid) (pending s f fid).
Proof.
  intros [Hsu Hnd Hfr Hm Hfull Hd Him (v & Hv & Hvm & Hq) Ho Hr Hmin] Ht Hnew.
  unfold set_max_level_ts. rewrite Hv. run. unfold wrap_flush_req, send_req.
  cbn [caches versions next_loc flush_req receiver sent]. rewrite Hr. run.
  set (v' := version.mkVersion _ _ _ _ _).
  set (s' := mkStore _ _ _ _ _ _). set (f' := mkTseriesFamily _ _ _ _ _ _ _ _ _ _ _).
  exists s', f'. split; [done|].
  assert (queued s' f' = queued s f ++ immut_cache f) as Hqs.
  { unfold queued. cbn [flush_req s']. rewrite queued_of_app. f_equal. apply queued_of_req. }
  assert (Permutation (owned f' ++ queued s' f') (owned f ++ queued s f)) as Hperm.
  { rewrite Hqs. unfold owned. cbn [app]. do 2 apply perm_skip.
    exact (Permutation_app_comm (queued s f) (immut_cache f)). }
  split; [|intros fid; unfold pending; by rewrite Hperm].
  constructor; [done|by rewrite Hperm|by rewrite Hperm| | | |done| | |done|].
  - exists (memcache.new a b c false). split; [done|]. split_and!; [done|apply bounded_new|apply all_times_new].
  - cbn. lia.
  - apply (holds_impl (late f)); [|done]. intros m (? & ? & Hl). split_and!; [done|done|].
    eapply all_times_impl; [|exact Hl]. cbn. lia.
  - exists v'. split_and!; [apply lookup_insert_eq|cbn; lia|]. rewrite Hqs. apply Forall_app. split.
    + eapply Forall_impl; [exact Hq|]. intros l. refine (holds_impl _ _ s l _). intros m [?|Hl]; [by left|right].
      eapply all_times_impl; [|exact Hl]. cbn. lia.
    + eapply Forall_impl; [exact Him|]. intros l. refine (holds_impl _ _ s l _). intros m (_ & _ & Hl). right.
      eapply all_times_impl; [|exact Hl]. cbn. lia.
  - apply sorted_snoc; [exact Ho|]. apply Forall_forall. intros r Hr' l1 l2 m1 m2 H1 H2 Hl1 Hl2 Hm1 Hm2 fid1 d1 fid2 d2 Hd1 Hd2.
    rewrite Forall_forall in Hq, Him. cbn [mems] in H2. apply list_elem_of_fmap in H2 as (l & [= ->] & Hl).
    destruct (Him l Hl) as (mi & Hmi & _ & _ & Hti). destruct (Hq l1 (queued_of_in _ _ _ _ Hr' H1)) as (mq & Hmq & Htq).
    assert (m2 = mi) as -> by (cbn in Hl2; congruence). assert (m1 = mq) as -> by (cbn in Hl1; congruence).
    destruct Htq as [?|Htq]; [congruence|]. specialize (Htq fid1 d1 Hd1). specialize (Hti fid2 d2 Hd2). cbn in *. lia.
  - cbn. lia.
Qed.

Lemma put_mut_full_ok s f :
  inv s f -> exists s' f', put_mut_full s f = Ok (s', f') /\ inv s' f' /\
    forall fid, Permutation (pending s' f' fid) (pending s f fid).
Proof.
  intros Hi. destruct (inv_mut _ _ Hi) as (m & Hm & _).
  unfold put_mut_full. rewrite (inv_super _ _ Hi). cbn [sv_mut_cache publish]. unfold deref. rewrite Hm. run.
  destruct (is_full m) eqn:Hf; [|by exists s, f].
  pose proof (inv_full _ _ Hi m Hm Hf) as Ht.
  destruct (switch_ok s f Hi Ht) as (s1 & f1 & -> & Hi1 & Hp1 & Hmin & Hmax & Hnew). run.
  destruct (Nat.leb _ _); [|by exists s1, f1].
  destruct (fun H => flush_ok s1 f1 _ _ _ Hi1 H Hnew) as (s2 & f2 & E & Hi2 & Hp2); [lia|].
  exists s2, f2. split; [exact E|]. split; [done|]. intros fid. by rewrite Hp2, Hp1.
Qed.

Lemma put_ok s f fid val dt seq ts d :
  inv s f -> raw_cell ts dt val = Some d -> i64_MIN < ts ->
  exists s' f', put_mutcache n s f fid val dt seq ts = Ok (s', f') /\ inv s' f' /\
    forall fid', Permutation (pending s' f' fid') ((if decide (fid' = fid) then [d] else []) ++ pending s f fid').
Proof.
  intros Hi Hraw Hts. unfold put_mutcache.
  destruct (put_point_ok s f fid val dt seq ts d Hi Hraw Hts) as (s1 & f1 & -> & Hi1 & Hp1). run.
  destruct (inv_delta _ _ Hi1) as (md & Hd & _). unfold deref. rewrite Hd. run.
  assert (exists s2 f2, (if (immut_ts_min f1 <=? ts) && negb (bool_decide (data_cache md = ∅))
    then wrap_delta_flush_req s1 f1 else Ok (s1, f1)) = Ok (s2, f2) /\ inv s2 f2 /\
    forall fid', Permutation (pending s2 f2 fid') (pending s1 f1 fid')) as (s2 & f2 & -> & Hi2 & Hp2).
  { destruct (_ && _); [by apply wrap_delta_ok|by exists s1, f1]. }
  run. destruct (put_mut_full_ok s2 f2 Hi2) as (s3 & f3 & -> & Hi3 & Hp3). run.
  rewrite (inv_super _ _ Hi3). cbn [sv_delta_mut_cache publish].
  destruct (inv_delta _ _ Hi3) as (md3 & Hd3 & _). rewrite Hd3. run.
  destruct (is_full md3).
  - destruct (wrap_delta_ok s3 f3 Hi3) as (s4 & f4 & -> & Hi4 & Hp4). exists s4, f4. split; [done|]. split; [done|].
    intros fid'. by rewrite Hp4, Hp3, Hp2, Hp1.
  - exists s3, f3. split; [done|]. split; [done|]. intros fid'. by rewrite Hp3, Hp2, Hp1.
Qed.

(** A value that cannot be decoded panics. *)
Lemma put_needs_cell s f fid val dt seq ts r :
  inv s f -> put_mutcache n s f fid val dt seq ts = Ok r -> is_Some (raw_cell ts dt val).
Proof.
  intros Hi Hput. destruct (raw_cell ts dt val) as [d|] eqn:Hraw; [by exists d|]. exfalso.
  assert (forall l g, super_version g = super_version f -> holds (fun _ => True) s l ->
    update s l (fun m => insert_raw n m seq fid ts dt val) = Panic) as Hp.
  { intros l g _ (m & Hm & _). unfold update, deref. rewrite Hm. run. unfold insert_raw. by rewrite Hraw. }
  destruct (inv_mut _ _ Hi) as (m & Hm & _). destruct (inv_delta _ _ Hi) as (md & Hd & _).
  pose proof (inv_super _ _ Hi) as Hsu. unfold put_mutcache, put_point in Hput.
  set (f1 := if immut_ts_min f =? i64_MIN then _ else f) in *.
  assert (super_version f1 = publish f) as Hf1 by (unfold f1; by destruct (_ =? _)).
  destruct (immut_ts_min f1 <=? ts).
  - assert (super_version (if mut_ts_max f1 <? ts then with_times f1 (immut_ts_min f1) ts else f1) = publish f) as Hf2
      by (by destruct (_ <? _)).
    rewrite Hf2 in Hput. cbn [sv_mut_cache publish] in Hput. rewrite (Hp _ f) in Hput; [done|done|by exists m].
  - rewrite Hf1 in Hput. cbn [sv_delta_mut_cache publish] in Hput. rewrite (Hp _ f) in Hput; [done|done|by exists md].
Qed.

End steps.

(** ** What an operation leaves alone *)

(** The caches of other families, their versions and their requests. *)
Record frame (s : Store) (f : TseriesFamily) (s' : Store) (f' : TseriesFamily) : Prop := mkFrame {
  fr_super : super_version f' = publish f';
  fr_id : tf_id f' = tf_id f;
  fr_version : version_ f' = version_ f;
  fr_caches : forall l, l ∉ owned f ++ queued s f -> l < next_loc s -> caches s' !! l = caches s !! l;
  fr_versions : forall l, l <> version_ f -> versions s' !! l = versions s !! l;
  fr_next : next_loc s <= next_loc s';
  fr_receiver : receiver s' = receiver s;
  fr_queue : exists q, flush_req s' = flush_req s ++ q /\ forall tf, tf <> tf_id f -> queued_of tf q = [];
  fr_owned : forall l, l ∈ owned f' ++ queued s' f' -> l ∈ owned f ++ queued s f \/ next_loc s <= l }.

Lemma frame_refl s f : super_version f = publish f -> frame s f s f.
Proof. intros Hs. constructor; try done. exists []. by rewrite app_nil_r. by left. Qed.

Lemma frame_trans s f s1 f1 s2 f2 : frame s f s1 f1 -> frame s1 f1 s2 f2 -> frame s f s2 f2.
Proof.
  intros [_ Hi1 Hv1 Hc1 Hw1 Hn1 Hr1 (q1 & Hq1 & Hf1) Ho1] [Hs2 Hi2 Hv2 Hc2 Hw2 Hn2 Hr2 (q2 & Hq2 & Hf2) Ho2].
  constructor; [done|congruence|congruence| | |lia|congruence| |].
  - intros l Hl Hlt. rewrite Hc2; [by apply Hc1| |lia]. intros Hin. destruct (Ho1 l Hin); [done|lia].
  - intros l Hl. rewrite Hw2 by congruence. by apply Hw1.
  - exists (q1 ++ q2). rewrite Hq2, Hq1, app_assoc. split; [done|]. intros tf Htf. rewrite queued_of_app, Hf1 by done.
    by rewrite Hf2 by congruence.
  - intros l Hl. destruct (Ho2 l Hl) as [Hl1|]; [|lia]. by apply Ho1.
Qed.

(** An update of one of the caches of the family. *)
Lemma update_frame s f l g s' imin mmax :
  super_version f = publish f -> l ∈ owned f -> update s l g = Ok s' -> frame s f s' (with_times f imin mmax).
Proof.
  intros Hs Hl Hu. unfold update in Hu. bind_inv Hu. bind_inv Hu. injection Hu as <-.
  constructor; try done; [|by exists []; rewrite app_nil_r|by left].
  intros l' Hl' _. cbn [caches with_caches]. rewrite lookup_insert_ne; [done|]. intros <-. apply Hl', elem_of_app. by left.
Qed.

Lemma queued_of_other tf tf' ls w : tf <> tf' -> queued_of tf [mkFlushReq ((fun i => (tf', i)) <$> ls) w] = [].
Proof.
  intros Hne. unfold queued_of. cbn. rewrite app_nil_r. rewrite filter_none; [done|].
  apply Forall_fmap, Forall_forall. cbn. intros l _ E. by apply Hne.
Qed.

Lemma wrap_delta_frame {G : GlobalConfig} s f s' f' :
  super_version f = publish f -> wrap_delta_flush_req s f = Ok (s', f') -> frame s f s' f'.
Proof.
  intros Hs H. unfold wrap_delta_flush_req, send_req, alloc in H. cbn [receiver] in H.
  destruct (receiver s) eqn:Hr; [|done]. revert H. run. intros [= <- <-].
  constructor; cbn [super_version tf_id version_ next_loc receiver caches versions flush_req]; try done || lia.
  - intros l Hl Hlt. rewrite lookup_insert_ne; [done|lia].
  - eexists. split; [done|]. intros tf Htf. by apply (queued_of_other tf _ [_]).
  - intros l. unfold queued. cbn [flush_req tf_id]. rewrite queued_of_app.
    assert (queued_of (tf_id f) [mkFlushReq [(tf_id f, delta_mut_cache f)] 0] = [delta_mut_cache f]) as ->
      by apply (queued_of_req _ [_]).
    unfold owned. cbn [mut_cache delta_mut_cache immut_cache]. rewrite !elem_of_app, !elem_of_cons, ?elem_of_app, ?elem_of_cons, ?elem_of_nil.
    intuition lia.
Qed.

Lemma switch_frame {G : GlobalConfig} s f s' f' :
  super_version f = publish f -> switch_to_immutable s f = Ok (s', f') -> frame s f s' f'.
Proof.
  intros Hs H. unfold switch_to_immutable in H. destruct (update s _ _) as [s1| | |] eqn:Hu; try done.
  rewrite Hs in Hu. apply (update_frame s f _ _ s1 (immut_ts_min f) (mut_ts_max f) Hs) in Hu; [|by left].
  rewrite with_times_id in Hu. apply (frame_trans s f s1 f); [done|]. revert H. run. intros [= <- <-].
  constructor; cbn [super_version tf_id version_ next_loc receiver caches versions flush_req]; try done || lia.
  - intros l Hl Hlt. rewrite lookup_insert_ne; [done|lia].
  - exists []. by rewrite app_nil_r.
  - intros l. unfold queued. cbn [flush_req tf_id]. unfold owned. cbn [mut_cache delta_mut_cache immut_cache].
    rewrite !elem_of_app, !elem_of_cons, ?elem_of_app, ?elem_of_cons, ?elem_of_nil.
    intuition lia.
Qed.

Lemma flush_frame s f s' f' imin mmax ts :
  super_version f = publish f ->
  (s ← set_max_level_ts s (version_ f) ts; wrap_flush_req s (with_times f imin mmax)) = Ok (s', f') -> frame s f s' f'.
Proof.
  intros Hs H. unfold set_max_level_ts in H. bind_inv H. destruct (versions s !! version_ f) as [v|] eqn:Hv; [|done].
  cbn in E. injection E as <-. unfold wrap_flush_req, send_req in H. cbn [receiver] in H.
  destruct (receiver s) eqn:Hr; [|done]. revert H. run. intros [= <- <-].
  constructor; cbn [super_version tf_id version_ next_loc receiver caches versions flush_req]; try done || lia.
  - intros l Hl. by rewrite lookup_insert_ne.
  - eexists. split; [done|]. intros tf Htf. by apply queued_of_other.
  - intros l. unfold queued. cbn [flush_req tf_id]. rewrite queued_of_app, queued_of_req.
    unfold owned. cbn [mut_cache delta_mut_cache immut_cache with_times]. rewrite !elem_of_app, !elem_of_cons, ?elem_of_nil. intuition.
Qed.

Lemma put_point_frame n s f fid val dt seq ts s' f' :
  super_version f = publish f -> put_point n s f fid val dt seq ts = Ok (s', f') -> frame s f s' f'.
Proof.
  intros Hs H. unfold put_point in H.
  set (f1 := if immut_ts_min f =? i64_MIN then _ else f) in *.
  assert (exists a, f1 = with_times f a (mut_ts_max f)) as [a Hf1].
  { unfold f1. destruct (_ =? _); [by eexists|]. exists (immut_ts_min f). by rewrite with_times_id. }
  rewrite Hf1 in H. change (super_version (with_times f a (mut_ts_max f))) with (super_version f) in H.
  destruct (_ <=? _).
  - change (mut_ts_max (with_times f a (mut_ts_max f))) with (mut_ts_max f) in H.
    change (immut_ts_min (with_times f a (mut_ts_max f))) with a in H.
    destruct (_ <? _); bind_inv H; injection H as <- <-; cbn in E; rewrite Hs in E.
    + apply (update_frame s f _ _ _ a ts Hs) in E; [done|by left].
    + apply (update_frame s f _ _ _ a (mut_ts_max f) Hs) in E; [done|by left].
  - bind_inv H. injection H as <- <-. rewrite Hs in E.
    apply (update_frame s f _ _ _ a (mut_ts_max f) Hs) in E; [done|by right; left].
Qed.

Lemma put_mut_full_frame {G : GlobalConfig} s f s' f' :
  super_version f = publish f -> put_mut_full s f = Ok (s', f') -> frame s f s' f'.
Proof.
  intros Hs H. unfold put_mut_full in H. bind_inv H. destruct (is_full _); [|injection H as <- <-; by apply frame_refl].
  bind_inv H. destruct a0 as [s1 f1]. apply switch_frame in E0; [|done].
  destruct (Nat.leb _ _); [|by injection H as <- <-].
  apply (frame_trans s f s1 f1); [done|]. eapply flush_frame; [by apply E0|exact H].
Qed.

Lemma put_frame {G : GlobalConfig} n s f fid val dt seq ts s' f' :
  super_version f = publish f -> put_mutcache n s f fid val dt seq ts = Ok (s', f') -> frame s f s' f'.
Proof.
  intros Hs H. unfold put_mutcache in H.
  destruct (put_point _ _ _ _ _ _ _ _) as [[s1 f1]| | |] eqn:E1; try done.
  apply put_point_frame in E1; [|done]. apply (frame_trans s f s1 f1); [done|]. apply fr_super in E1. clear Hs s f.
  revert H. run. intros H. bind_inv H. clear E.
  match type of H with mbind _ ?m = _ => destruct m as [[s2 f2]| | |] eqn:E2; try done end. revert H. run. intros H.
  assert (frame s1 f1 s2 f2) as F2.
  { destruct (_ && _); [by apply wrap_delta_frame|]. injection E2 as <- <-. by apply frame_refl. }
  apply (frame_trans s1 f1 s2 f2); [done|]. apply fr_super in F2. clear E2 E1.
  destruct (put_mut_full s2 f2) as [[s3 f3]| | |] eqn:E3; try done. apply put_mut_full_frame in E3; [|done].
  apply (frame_trans s2 f2 s3 f3); [done|]. apply fr_super in E3. revert H. run. intros H. bind_inv H.
  destruct (is_full _); [by apply wrap_delta_frame|]. injection H as <- <-. by apply frame_refl.
Qed.

(** ** Deletion *)

Definition outside (r : time_range.TimeRange) (d : DataType) : Prop :=
  ~ (time_range.min_ts r <= timestamp d <= time_range.max_ts r).

#[global] Instance outside_dec r d : Decision (outside r d).
Proof. unfold outside. apply _. Defined.

Lemma cells_of_delete m r fid :
  bounded m -> cells_of (delete_range m r) fid = base.filter (outside r) (cells_of m fid).
Proof.
  intros Hb. unfold cells_of, delete_range. cbn [data_cache]. rewrite lookup_fmap.
  destruct (data_cache m !! fid) as [e|] eqn:E; [|done]. cbn [fmap option_fmap option_map].
  specialize (Hb fid e E). cbn in Hb. destruct (overlap e r) eqn:Ho.
  - unfold delete_data_cell. cbn [cells]. apply list_filter_iff. intros d. unfold outside. lia.
  - unfold overlap in Ho. apply negb_false_iff, andb_true_iff in Ho as [H1%Z.ltb_lt H2%Z.ltb_lt].
    induction Hb as [|d l Hd _ IH]; [done|]. rewrite filter_cons_True; [by f_equal|]. unfold outside. lia.
Qed.

Lemma bounded_delete m r : bounded m -> bounded (delete_range m r).
Proof.
  intros Hb. apply map_Forall_fmap. intros k e He. specialize (Hb k e He). cbn in *.
  destruct (overlap e r); [|done]. unfold delete_data_cell. cbn [ts_min ts_max cells].
  apply Forall_forall. intros d Hd. apply list_elem_of_filter in Hd as [_ Hd]. rewrite Forall_forall in Hb. by apply Hb.
Qed.

Lemma all_times_delete Q m r : bounded m -> all_times Q m -> all_times Q (delete_range m r).
Proof.
  intros Hb Hm fid d Hd. rewrite cells_of_delete in Hd by done. apply list_elem_of_filter in Hd as [_ Hd]. by apply (Hm fid).
Qed.

Lemma delete_caches_ok r ls : forall s, NoDup ls -> (forall l, l ∈ ls -> is_Some (caches s !! l)) ->
  exists c, delete_caches s ls r = Ok (with_caches s c) /\
    forall l, c !! l = if decide (l ∈ ls) then (fun m => delete_range m r) <$> caches s !! l else caches s !! l.
Proof.
  induction ls as [|l ls IH]; intros s Hnd Hs.
  - exists (caches s). split; [by destruct s|]. done.
  - apply NoDup_cons in Hnd as [Hni Hnd]. destruct (Hs l) as [m Hm]; [by left|]. cbn [delete_caches].
    rewrite (update_ok s l m (delete_range m r)) by done. run.
    destruct (IH (set_cache s l (delete_range m r)) Hnd) as (c & Hc & Hl).
    { intros l' Hl'. unfold set_cache. cbn [caches with_caches]. rewrite lookup_insert_ne by (by intros <-). apply Hs. by right. }
    exists c. split; [exact Hc|]. intros l'. rewrite Hl. unfold set_cache. cbn [caches with_caches].
    destruct (decide (l' = l)) as [->|Hne].
    + rewrite decide_False by done. rewrite decide_True by (by left). by rewrite lookup_insert_eq, Hm.
    + rewrite lookup_insert_ne by done. destruct (decide (l' ∈ ls)) as [?|Hn].
      * rewrite decide_True by (by right). done.
      * rewrite decide_False; [done|]. by intros [|]%elem_of_cons.
Qed.

Lemma filter_concat {A} (Q : A -> Prop) `{!forall x, Decision (Q x)} (ls : list (list A)) :
  base.filter Q (concat ls) = concat (base.filter Q <$> ls).
Proof. induction ls as [|l ls IH]; [done|]. cbn [concat fmap list_fmap]. by rewrite filter_app, IH. Qed.

Lemma owned_bounded s f l : inv s f -> l ∈ owned f -> holds bounded s l.
Proof.
  intros [_ _ _ Hm _ Hd Him _ _ _ _] [->|[->|Hl]%elem_of_cons]%elem_of_cons.
  - eapply holds_impl; [|exact Hm]. by intros m (_ & ? & _).
  - eapply holds_impl; [|exact Hd]. by intros m (_ & ? & _).
  - rewrite Forall_forall in Him. eapply holds_impl; [|by apply Him]. by intros m (_ & ? & _).
Qed.

Lemma delete_ok s f r :
  inv s f -> exists s', delete_cache s f r = Ok s' /\ inv s' f /\
    (forall fid, content s' (owned f) fid = base.filter (outside r) (content s (owned f) fid)) /\
    (forall fid, content s' (queued s' f) fid = content s (queued s f) fid).
Proof.
  intros Hi. pose proof (owned_bounded s f) as Hb. pose proof Hi as [Hsu Hnd Hfr Hm Hfull Hd Him (v & Hv & Hvm & Hq) Ho Hr Hmin].
  apply NoDup_app in Hnd as Hnd'. destruct Hnd' as (Hndo & Hdis & _).
  destruct (delete_caches_ok r (owned f) s Hndo) as (c & Hc & Hl).
  { intros l Hl. destruct (Hb l Hi Hl) as (m & -> & _). by eexists. }
  exists (with_caches s c). split; [exact Hc|].
  assert (forall l m, l ∈ owned f -> caches s !! l = Some m -> c !! l = Some (delete_range m r)) as Ho1.
  { intros l m Hin Hlm. by rewrite Hl, decide_True, Hlm. }
  assert (forall l, l ∈ queued s f -> c !! l = caches s !! l) as Hq1.
  { intros l Hin. rewrite Hl, decide_False; [done|]. intros H. by apply (Hdis l). }
  assert (forall Q l, l ∈ owned f -> (forall m, Q m -> Q (delete_range m r)) -> holds Q s l ->
    holds Q (with_caches s c) l) as Ho2.
  { intros Q l Hin HQ (m & Hlm & H). exists (delete_range m r). split; [by apply Ho1|by apply HQ]. }
  assert (forall m, in_order f m -> in_order f (delete_range m r)) as Hio.
  { intros m (? & ? & ?). split_and!; [done|by apply bounded_delete|by apply all_times_delete]. }
  split_and!.
  - constructor; [done|done|done| | | | | | |done|done].
    + apply Ho2; [by left|done|done].
    + intros m Hc'. destruct Hm as (m0 & Hm0 & _). cbn in Hc'. rewrite (Ho1 _ m0) in Hc' by (done || by left).
      injection Hc' as <-. apply (Hfull m0 Hm0).
    + apply Ho2; [by right; left| |done]. intros m (? & ? & ?). split_and!; [done|by apply bounded_delete|by apply all_times_delete].
    + apply Forall_forall. intros l Hin. rewrite Forall_forall in Him. apply Ho2; [by do 2 right|done|by apply Him].
    + exists v. split_and!; [done|done|]. apply Forall_forall. intros l Hin. rewrite Forall_forall in Hq.
      apply (holds_same _ s); [by apply Hq1|by apply Hq].
    + apply (order_same s); [|done]. intros l Hin. by apply Hq1.
  - intros fid. unfold content. rewrite filter_concat, <- list_fmap_compose. f_equal. apply Forall_fmap_ext_1, Forall_forall.
    intros l Hin. destruct (Hb l Hi Hin) as (m & Hlm & Hbm). cbn. unfold cells_at. cbn [caches with_caches].
    rewrite (Ho1 l m Hin Hlm), Hlm. by apply cells_of_delete.
  - intros fid. by apply content_same.
Qed.

(** ** Reachable states *)

(** What the rest of the program does to the store of a family: other families
    change their own caches and queue their own requests, a flush adds files to
    the version. *)
Definition env_step (s s' : Store) (f : TseriesFamily) : Prop :=
  (forall l, l ∈ owned f ++ queued s f -> caches s' !! l = caches s !! l) /\
  (forall v, versions s !! version_ f = Some v -> exists v', versions s' !! version_ f = Some v' /\
     version.max_level_ts v' = version.max_level_ts v) /\
  next_loc s <= next_loc s' /\ receiver s' = receiver s /\
  exists q, flush_req s' = flush_req s ++ q /\ queued_of (tf_id f) q = [].

(** [reqs.clear()] of the flush job. *)
Definition drained (s : Store) : Store :=
  mkStore (caches s) (versions s) (next_loc s) [] (receiver s) (sent s).

Inductive reachable {G : GlobalConfig} (n : Z) : Store -> TseriesFamily -> Prop :=
| reach_new s tf seq vl opt v s' f' :
    versions s !! vl = Some v -> i64_MIN <= version.max_level_ts v -> receiver s = true ->
    queued_of tf (flush_req s) = [] ->
    new s tf (memcache.new tf max_memcache_size seq false) vl opt = Ok (s', f') ->
    reachable n s' f'
| reach_put s f fid val dt seq ts s' f' :
    reachable n s f -> i64_MIN < ts -> put_mutcache n s f fid val dt seq ts = Ok (s', f') ->
    reachable n s' f'
| reach_delete s f r s' :
    reachable n s f -> delete_cache s f r = Ok s' -> reachable n s' f
| reach_drain s f : reachable n s f -> reachable n (drained s) f
| reach_env s f s' : reachable n s f -> env_step s s' f -> reachable n s' f.

Lemma queued_of_nil tf q r l : queued_of tf q = [] -> r ∈ q -> (tf, l) ∉ mems r.
Proof. intros Hq Hr Hl. pose proof (queued_of_in tf q r l Hr Hl) as H. rewrite Hq in H. by apply elem_of_nil in H. Qed.

Lemma order_foreign s tf q : queued_of tf q = [] -> StronglySorted (req_before s tf) q.
Proof.
  intros Hq. assert (StronglySorted (fun _ _ => True) q) as H.
  { clear. induction q; constructor; [done|]. by apply Forall_forall. }
  revert H. apply sorted_impl. intros r1 r2 H1 _ _ l1 l2 m1 m2 Hl1. by destruct (queued_of_nil tf q r1 l1 Hq H1).
Qed.

Lemma order_foreign_app s tf q q' :
  StronglySorted (req_before s tf) q -> queued_of tf q' = [] -> StronglySorted (req_before s tf) (q ++ q').
Proof.
  intros H Hq'. induction H as [|r q Hs IH Hr]; [by apply order_foreign|]. cbn [app]. constructor; [done|].
  apply Forall_app. split; [done|]. apply Forall_forall. intros r' Hr' l1 l2 m1 m2 _ Hl2.
  by destruct (queued_of_nil tf q' r' l2 Hq' Hr').
Qed.

Lemma new_inv {G : GlobalConfig} s tf seq vl opt v :
  0 < max_memcache_size -> versions s !! vl = Some v -> i64_MIN <= version.max_level_ts v -> receiver s = true ->
  queued_of tf (flush_req s) = [] ->
  exists s' f', new s tf (memcache.new tf max_memcache_size seq false) vl opt = Ok (s', f') /\ inv s' f' /\
    forall fid, pending s' f' fid = [].
Proof.
  intros Hpos Hv Hvm Hr Hq. unfold new, alloc. cbn [versions caches next_loc flush_req receiver sent]. rewrite Hv. run.
  set (s' := mkStore _ _ _ _ _ _). set (f' := mkTseriesFamily _ _ _ _ _ _ _ _ _ _ _). exists s', f'. split; [done|].
  assert (queued s' f' = []) as Hqs by exact Hq.
  assert (caches s' !! mut_cache f' = Some (memcache.new tf max_memcache_size seq false)) as Hm.
  { cbn. rewrite lookup_insert_ne by lia. apply lookup_insert_eq. }
  assert (caches s' !! delta_mut_cache f' = Some (memcache.new tf max_memcache_size (version.last_seq v) true)) as Hd
    by apply lookup_insert_eq.
  split.
  - constructor; rewrite ?Hqs; try done.
    + cbn. apply NoDup_cons. split; [|apply NoDup_singleton]. rewrite list_elem_of_singleton. lia.
    + cbn. constructor; [lia|]. constructor; [lia|constructor].
    + eexists. split; [exact Hm|]. split_and!; [done|apply bounded_new|apply all_times_new].
    + intros m. rewrite Hm. intros [= <-]. unfold is_full. cbn. rewrite Z.leb_le. lia.
    + eexists. split; [exact Hd|]. split_and!; [done|apply bounded_new|apply all_times_new].
    + exists v. split_and!; [done|cbn; lia|constructor].
    + by apply order_foreign.
  - intros fid. unfold pending. rewrite Hqs. unfold content, owned, cells_at. cbn [app fmap list_fmap concat immut_cache f'].
    by rewrite Hm, Hd.
Qed.

Lemma env_inv s s' f : inv s f -> env_step s s' f -> inv s' f.
Proof.
  intros [Hsu Hnd Hfr Hm Hfull Hd Him (v & Hv & Hvm & Hq) Ho Hr Hmin] (Hsame & Hver & Hnext & Hrec & q & Hq' & Hqn).
  assert (queued s' f = queued s f) as Hqs by (unfold queued; by rewrite Hq', queued_of_app, Hqn, app_nil_r).
  destruct (Hver v Hv) as (v' & Hv' & Hml).
  constructor; rewrite ?Hqs; try done.
  - eapply Forall_impl; [exact Hfr|]. cbn. lia.
  - by apply (kept s s' f _ Hsame _ (in_mut s f)).
  - rewrite Hsame by apply in_mut. done.
  - by apply (kept s s' f _ Hsame _ (in_delta s f)).
  - by apply (kept_all s s' f _ _ Hsame (in_immut s f)).
  - exists v'. split_and!; [done|lia|]. apply (kept_all s s' f _ _ Hsame (in_queued s f)).
    eapply Forall_impl; [exact Hq|]. intros l. apply holds_impl. unfold flushed. by rewrite Hml.
  - rewrite Hq'. apply order_foreign_app; [|done]. apply (order_same s); [|done]. intros l Hl. by apply Hsame, in_queued.
  - by rewrite Hrec.
Qed.

Lemma drained_inv s f : inv s f -> inv (drained s) f.
Proof.
  intros [Hsu Hnd Hfr Hm Hfull Hd Him (v & Hv & Hvm & Hq) Ho Hr Hmin].
  apply NoDup_app in Hnd as (Hnd & _ & _). apply Forall_app in Hfr as [Hfr _].
  constructor; try done.
  - change (NoDup (owned f ++ [])). by rewrite app_nil_r.
  - change (Forall (fun l => l < next_loc s) (owned f ++ [])). by rewrite app_nil_r.
  - exists v. split_and!; [done|done|constructor].
  - constructor.
Qed.

Lemma reachable_consistent {G : GlobalConfig} n s f : 0 < max_memcache_size -> reachable n s f -> inv s f.
Proof.
  intros Hpos H. induction H as [s tf seq vl opt v s' f' Hv Hvm Hr Hq Hnew|s f fid val dt seq ts s' f' _ IH Hts Hput
    |s f r s' _ IH Hdel|s f _ IH|s f s' _ IH Henv].
  - destruct (new_inv s tf seq vl opt v Hpos Hv Hvm Hr Hq) as (s1 & f1 & E & Hi & _).
    rewrite E in Hnew. by injection Hnew as <- <-.
  - destruct (put_needs_cell n s f fid val dt seq ts _ IH Hput) as [d Hd].
    destruct (put_ok n s f fid val dt seq ts d IH Hd Hts) as (s1 & f1 & E & Hi & _).
    rewrite E in Hput. by injection Hput as <- <-.
  - destruct (delete_ok s f r IH) as (s1 & E & Hi & _). rewrite E in Hdel. by injection Hdel as <-.
  - by apply drained_inv.
  - by apply (env_inv s).
Qed.

(** ** Theorems *)

Section theorems.
Context {G : GlobalConfig} (n : Z).

(** C13. Writing a decodable value to a family in a consistent state succeeds,
    keeps the state consistent, and adds exactly one cell to what is held in
    memory or queued for a flush: whichever caches are frozen, swapped or queued
    on the way, no cell is lost, duplicated or moved to another field. *)
Theorem put_keeps_points s f fid val dt seq ts d :
  inv s f -> raw_cell ts dt val = Some d -> i64_MIN < ts ->
  exists s' f', put_mutcache n s f fid val dt seq ts = Ok (s', f') /\ inv s' f' /\
    forall fid', Permutation (pending s' f' fid') ((if decide (fid' = fid) then [d] else []) ++ pending s f fid').
Proof. apply put_ok. Qed.

(** C14. In every state reachable by writes of timestamps above the smallest one,
    deletions and flushes, but not by the public [switch_memcache], which nothing
    calls, whatever other families and the flush job do in between, the super version names the caches of the family, no cache is in
    two places, the mutable and the frozen caches hold no point older than the
    boundary and the delta cache only older ones, and the points in order of one
    flush request are not after those of a later request, nor after the boundary
    recorded in the version. *)
Theorem reachable_inv s f : 0 < max_memcache_size -> reachable n s f -> inv s f.
Proof. apply reachable_consistent. Qed.

(** Deleting a time range removes the cells in it from the mutable, the delta
    and the frozen caches, for every field of the family, and from nothing else:
    caches that are queued for a flush keep the deleted cells. *)
Theorem delete_cache_spec s f r :
  inv s f -> exists s', delete_cache s f r = Ok s' /\ inv s' f /\
    (forall fid, content s' (owned f) fid = base.filter (outside r) (content s (owned f) fid)) /\
    (forall fid, content s' (queued s' f) fid = content s (queued s f) fid).
Proof. apply delete_ok. Qed.

(** After [switch_memcache] the super version has the mutable and the delta
    cache of the family the wrong way round: the next point in order is written
    to the delta cache, and the new mutable cache stays empty. *)
Theorem switch_memcache_swaps s f c m fid val dt seq ts d :
  inv s f -> c ∉ owned f -> caches s !! c = Some m -> (forall fid, cells_of m fid = []) ->
  raw_cell ts dt val = Some d -> i64_MIN < immut_ts_min f <= ts ->
  exists s1 f1 s2 f2, switch_memcache s f c = Ok (s1, f1) /\ mut_cache f1 = c /\
    put_point n s1 f1 fid val dt seq ts = Ok (s2, f2) /\
    cells_at s2 fid (delta_mut_cache f2) = cells_at s fid (delta_mut_cache f) ++ [d] /\
    cells_at s2 fid (mut_cache f2) = [].
Proof.
  intros Hi Hc Hm Hempty Hraw Hts. pose proof (inv_super _ _ Hi) as Hsu.
  destruct (inv_mut _ _ Hi) as (mm & Hmm & _). destruct (inv_delta _ _ Hi) as (md & Hd & Hdd & Hdb & _).
  pose proof (inv_nodup _ _ Hi) as Hnd. unfold owned in Hnd, Hc. cbn [app] in Hnd.
  apply NoDup_cons in Hnd as [[Hne _]%not_elem_of_cons _].
  apply not_elem_of_cons in Hc as [Hc1 [Hc2 _]%not_elem_of_cons].
  unfold switch_memcache. rewrite Hsu. cbn [sv_mut_cache publish].
  rewrite (update_ok s _ mm (memcache.switch_to_immutable mm)) by done. run.
  set (s1 := set_cache s _ _). set (f1 := mkTseriesFamily _ _ _ _ _ _ _ _ _ _ _).
  assert (caches s1 !! delta_mut_cache f = Some md) as Hd1.
  { unfold s1, set_cache. cbn [caches with_caches]. by rewrite lookup_insert_ne. }
  destruct (insert_raw_ok n md seq fid ts dt val d Hraw Hdb) as (m' & Hins & _ & _ & _ & Hcells).
  exists s1, f1, (set_cache s1 (delta_mut_cache f) m'), (if mut_ts_max f <? ts then with_times f1 (immut_ts_min f1) ts else f1).
  split_and!; [done|done| | |].
  - unfold put_point. cbn [immut_ts_min f1]. rewrite (proj2 (Z.eqb_neq _ _)) by lia. cbn [immut_ts_min f1].
    rewrite (proj2 (Z.leb_le _ _)) by lia. cbn [mut_ts_max f1].
    destruct (mut_ts_max f <? ts); cbn [super_version with_times f1 sv_mut_cache]; by rewrite (update_ok _ _ _ _ _ Hd1 Hins).
  - assert (delta_mut_cache (if mut_ts_max f <? ts then with_times f1 (immut_ts_min f1) ts else f1) = delta_mut_cache f) as ->
      by (by destruct (_ <? _)).
    unfold cells_at at 1. unfold set_cache at 1. cbn [caches with_caches]. rewrite lookup_insert_eq, Hcells, decide_True by done.
    unfold cells_at. by rewrite Hd.
  - assert (mut_cache (if mut_ts_max f <? ts then with_times f1 (immut_ts_min f1) ts else f1) = c) as ->
      by (by destruct (_ <? _)).
    unfold cells_at, set_cache. cbn [caches with_caches]. rewrite lookup_insert_ne by done.
    unfold s1, set_cache. cbn [caches with_caches]. rewrite lookup_insert_ne by done. by rewrite Hm.
Qed.

End theorems.

(** ** Witnesses *)

(** A configuration with caches of two cells and flushes of two caches. *)
#[local] Instance small_config : GlobalConfig :=
  mkGlobalConfig 80 0 2 1 1 false "db" "db" true "wal" true 4 0 16 4 64 "tsm/" "delta/" 0 0 "schema" 1.

Definition store0 : Store :=
  mkStore ∅ {[0 := version.mkVersion 0 0 i64_MIN "default0" []]} 1 [] true 0.

Definition opt0 : kv_option.TseriesFamOpt := kv_option.default_opt.

Definition state0 : outcome string (Store * TseriesFamily) :=
  new store0 0 (memcache.new 0 max_memcache_size 0 false) 0 opt0.

(** One point after the other. *)
Fixpoint puts (st : outcome string (Store * TseriesFamily)) (ts : list Z) : outcome string (Store * TseriesFamily) :=
  match ts with
  | [] => st
  | t :: ts' => puts ('(s, f) ← st; put_mutcache 40 s f 7 [1] Boolean t t) ts'
  end.

Definition the_store (st : outcome string (Store * TseriesFamily)) : Store :=
  match st with Ok (s, _) => s | _ => store0 end.

Definition the_family (st : outcome string (Store * TseriesFamily)) : TseriesFamily :=
  match st with Ok (_, f) => f | _ => mkTseriesFamily 0 0 0 [] (mkSuperVersion 0 0 0 [] 0 opt0 0) 0 0 opt0 0 0 0 end.

Lemma state0_inv : inv (the_store state0) (the_family state0).
Proof.
  destruct (new_inv store0 0 0 0 opt0 (version.mkVersion 0 0 i64_MIN "default0" [])) as (s & f & E & Hi & _); try done.
  unfold state0. rewrite E. exact Hi.
Qed.

Lemma put_keeps_points_witness :
  let s := the_store state0 in let f := the_family state0 in let d := Bool (mkDataCell 5 true) in
  exists s' f', put_mutcache 40 s f 7 [1] Boolean 3 5 = Ok (s', f') /\ inv s' f' /\
    forall fid', Permutation (pending s' f' fid') ((if decide (fid' = 7) then [d] else []) ++ pending s f fid').
Proof. intros s f d. apply (put_keeps_points 40 s f 7 [1] Boolean 3 5 d); [exact state0_inv|reflexivity|range]. Defined.

(** Late points, two frozen caches and a flush. *)
Lemma puts_reachable ts : forall st,
  (exists s f, st = Ok (s, f) /\ reachable 40 s f) -> Forall (fun t => i64_MIN < t) ts ->
  (exists s f, puts st ts = Ok (s, f)) -> exists s f, puts st ts = Ok (s, f) /\ reachable 40 s f.
Proof.
  induction ts as [|t ts IH]; intros st (s & f & -> & Hr) Ht Hok; [by exists s, f|]. inversion_clear Ht.
  cbn [puts] in *. rewrite bind_Ok in *. destruct (put_mutcache 40 s f 7 [1] Boolean t t) as [[s' f']| | |] eqn:E.
  2-4: clear -Hok; exfalso; destruct Hok as (? & ? & Hok); revert Hok; induction ts as [|? ? IHts]; [done|exact IHts].
  apply IH; [|done|done]. exists s', f'. split; [done|]. by eapply reach_put.
Qed.

Definition example_times : list Z := [5; 3; 6; 7; 2; 8; 9; 4].

Lemma example_reachable :
  reachable 40 (the_store (puts state0 example_times)) (the_family (puts state0 example_times)).
Proof.
  destruct (puts_reachable example_times state0) as (s & f & E & Hr).
  - exists (the_store state0), (the_family state0). split; [reflexivity|].
    by eapply (reach_new 40 store0 0 0 0 opt0).
  - repeat constructor; range.
  - eexists _, _. vm_compute. reflexivity.
  - by rewrite E.
Qed.

Lemma reachable_inv_witness :
  let s := the_store (puts state0 example_times) in let f := the_family (puts state0 example_times) in
  inv s f /\ length (flush_req s) = 3%nat.
Proof.
  intros s f. split; [|vm_compute; reflexivity].
  apply (reachable_inv 40 s f); [reflexivity|exact example_reachable].
Defined.

Lemma delete_cache_spec_witness :
  let s := the_store state0 in let f := the_family state0 in let r := time_range.mkTimeRange 10 0 in
  exists s', delete_cache s f r = Ok s' /\ inv s' f /\
    (forall fid, content s' (owned f) fid = base.filter (outside r) (content s (owned f) fid)) /\
    (forall fid, content s' (queued s' f) fid = content s (queued s f) fid).
Proof. intros s f r. apply (delete_cache_spec s f r). exact state0_inv. Defined.

(** The state after one point, with one more cache allocated. *)
Definition state1 : Store * TseriesFamily :=
  (fst (alloc (the_store (puts state0 [5])) (memcache.new 0 80 0 false)), the_family (puts state0 [5])).

Lemma state1_inv : inv state1.1 state1.2.
Proof.
  destruct (put_ok 40 (the_store state0) (the_family state0) 7 [1] Boolean 5 5 (Bool (mkDataCell 5 true)))
    as (s & f & E & Hi & _); [exact state0_inv|done|range|].
  assert (puts state0 [5] = Ok (s, f)) as E' by exact E.
  unfold state1. rewrite E'. cbn [the_store the_family fst snd]. apply (env_inv s); [done|].
  split_and!; [|by eauto|cbn; lia|done|exists []; cbn; by rewrite app_nil_r].
  intros l Hl. cbn. rewrite lookup_insert_ne; [done|]. intros <-. apply (inv_lt _ _ _ Hi) in Hl. lia.
Qed.

Lemma switch_memcache_swaps_witness :
  let s := state1.1 in let f := state1.2 in let d := Bool (mkDataCell 6 true) in
  exists s1 f1 s2 f2, switch_memcache s f 3 = Ok (s1, f1) /\ mut_cache f1 = 3 /\
    put_point 40 s1 f1 7 [1] Boolean 4 6 = Ok (s2, f2) /\
    cells_at s2 7 (delta_mut_cache f2) = cells_at s 7 (delta_mut_cache f) ++ [d] /\
    cells_at s2 7 (mut_cache f2) = [].
Proof.
  intros s f d. apply (switch_memcache_swaps 40 s f 3 (memcache.new 0 80 0 false) 7 [1] Boolean 4 6 d).
  - exact state1_inv.
  - apply (bool_decide_unpack _). vm_compute. exact I.
  - vm_compute. reflexivity.
  - reflexivity.
  - reflexivity.
  - vm_compute. split; [reflexivity|discriminate].
Defined.

End family_facts.
