(* ===== verification/VersionSet.v ===== *)
(** * Version sets and the global context (tskv/src/version_set.rs, context.rs)

    [context] is the set of counters the engine shares, [version_set] the map of
    series families with the dispatch of a series to a family. *)
From S2P Require Import Prelude Varint StringCodec Sorting Utils Models MemCache FileIO Tsm Version.
From S2P Require Import TseriesFamily.

Module context.

(** Four atomics; [fetch_add] wraps. *)
Record GlobalContext := mkGlobalContext { file_id : Z; mem_seq : Z; last_seq : Z; max_tsf_id : Z }.

Definition new : GlobalContext := mkGlobalContext 0 0 0 0.

Definition file_id_next (c : GlobalContext) : GlobalContext :=
  mkGlobalContext (u64 (file_id c + 1)) (mem_seq c) (last_seq c) (max_tsf_id c).
Definition mem_seq_next (c : GlobalContext) : Z * GlobalContext :=
  (mem_seq c, mkGlobalContext (file_id c) (u64 (mem_seq c + 1)) (last_seq c) (max_tsf_id c)).
Definition fetch_add_log_seq (c : GlobalContext) (n : Z) : Z * GlobalContext :=
  (file_id c, mkGlobalContext (u64 (file_id c + n)) (mem_seq c) (last_seq c) (max_tsf_id c)).
Definition set_last_seq (c : GlobalContext) (v : Z) : GlobalContext :=
  mkGlobalContext (file_id c) (mem_seq c) v (max_tsf_id c).
Definition set_file_id (c : GlobalContext) (v : Z) : GlobalContext :=
  mkGlobalContext v (mem_seq c) (last_seq c) (max_tsf_id c).
Definition set_max_tsf_idy (c : GlobalContext) (v : Z) : GlobalContext :=
  mkGlobalContext (file_id c) (mem_seq c) (last_seq c) v.
Definition next_tsf_id (c : GlobalContext) : GlobalContext :=
  mkGlobalContext (file_id c) (mem_seq c) (last_seq c) (u32 (max_tsf_id c + 1)).

(** [others] is what the counter holds at each [compare_exchange] that another
    thread got ahead of; the loop ends when the counter is above [v] or the
    exchange succeeds. *)
Fixpoint mark_log_number_used {E} {P : BuildProfile} (c : GlobalContext) (others : list Z) (v : Z)
    : outcome E GlobalContext :=
  if v <? file_id c then Ok c
  else
    new ← add_u64 v 1;
    match others with
    | [] => Ok (set_file_id c new)
    | x :: others' => mark_log_number_used (set_file_id c x) others' v
    end.

End context.

Module version_set.
Import tseries_family.

Record VersionSet := mkVersionSet {
  ts_families : gmap Z TseriesFamily; ts_families_names : gmap string Z }.

Definition new_default : VersionSet := mkVersionSet ∅ ∅.

Record TseriesFamDesc := mkTseriesFamDesc { name : string; opt : kv_option.TseriesFamOpt }.

(** [sid as u32 % self.ts_families.len() as u32]. *)
Definition part_id (vs : VersionSet) (sid : Z) : Z := u32 sid mod u32 (Z.of_nat (size (ts_families vs))).

Definition get_tsfamily (vs : VersionSet) (sid : Z) : option TseriesFamily :=
  if bool_decide (ts_families vs = ∅) then None else ts_families vs !! part_id vs sid.

(** A change made through [&mut TseriesFamily]. *)
Definition set_tsfamily (vs : VersionSet) (sid : Z) (f : TseriesFamily) : VersionSet :=
  mkVersionSet (<[part_id vs sid := f]> (ts_families vs)) (ts_families_names vs).

Definition tsf_num (vs : VersionSet) : nat := size (ts_families vs).

Section set.
Context {G : GlobalConfig} {HO : HashOrder}.

(** [for item in desc.iter()]. *)
Fixpoint add_matching (s : Store) (vs : VersionSet) (id vl seq : Z) (nm : string) (desc : list TseriesFamDesc)
    : outcome string (Store * VersionSet) :=
  match desc with
  | [] => Ok (s, vs)
  | item :: desc' =>
      '(s, vs) ← (if bool_decide (name item = nm) then
                    '(s, tf) ← tseries_family.new s id (memcache.new id max_memcache_size seq false) vl (opt item);
                    Ok (s, mkVersionSet (<[id := tf]> (ts_families vs)) (<[nm := id]> (ts_families_names vs)))
                  else Ok (s, vs));
      add_matching s vs id vl seq nm desc'
  end.

Fixpoint add_versions (s : Store) (vs : VersionSet) (l : list (Z * Z)) (desc : list TseriesFamDesc)
    : outcome string (Store * VersionSet) :=
  match l with
  | [] => Ok (s, vs)
  | (id, vl) :: l' =>
      v ← unwrap (versions s !! vl);
      '(s, vs) ← add_matching s vs id vl (version.last_seq v) (version.name v) desc;
      add_versions s vs l' desc
  end.

(** [vers_set] maps a family to the location of its version. *)
Definition new (s : Store) (desc : list TseriesFamDesc) (vers_set : gmap Z Z)
    : outcome string (Store * VersionSet) :=
  add_versions s new_default (iter vers_set) desc.

Definition switch_memcache (s : Store) (vs : VersionSet) (tf seq : Z) : outcome string (Store * VersionSet) :=
  f ← unwrap (ts_families vs !! tf);
  let '(s, mem) := alloc s (memcache.new tf max_memcache_size seq false) in
  '(s, f) ← tseries_family.switch_memcache s f mem;
  Ok (s, mkVersionSet (<[tf := f]> (ts_families vs)) (ts_families_names vs)).

(** [Arc::new(RwLock::new(v))]. *)
Definition alloc_version (s : Store) (v : version.Version) : Store * Z :=
  (mkStore (caches s) (<[next_loc s := v]> (versions s)) (next_loc s + 1) (flush_req s) (receiver s) (sent s),
   next_loc s).

(** The edit for the summary is the third result. *)
Definition add_tsfamily (s : Store) (vs : VersionSet) (tf : Z) (nm : string) (seq file_id : Z)
    (o : kv_option.TseriesFamOpt) : outcome string (Store * VersionSet * list version_edit.VersionEdit) :=
  let '(s, vl) := alloc_version s (version.mkVersion tf file_id i64_MIN nm []) in
  '(s, f) ← tseries_family.new s tf (memcache.new tf max_memcache_size seq false) vl o;
  let vs := mkVersionSet (<[tf := f]> (ts_families vs)) (<[nm := tf]> (ts_families_names vs)) in
  Ok (s, vs, [version_edit.add_tsf version_edit.edit_new tf "hello" 0]).

(** No edit when the name belongs to another family. *)
Definition del_tsfamily (vs : VersionSet) (tf : Z) (nm : string)
    : outcome string (VersionSet * list version_edit.VersionEdit) :=
  id ← unwrap (ts_families_names vs !! nm);
  if negb (tf =? id) then Ok (vs, [])
  else Ok (mkVersionSet (delete tf (ts_families vs)) (delete nm (ts_families_names vs)),
           [version_edit.del_tsf version_edit.edit_new tf]).

End set.
End version_set.

(** ** Families side by side *)
Module version_set_facts.
Import memcache tseries_family family_facts version_set.

(** Every family is consistent, and no cache and no version belongs to two. *)
Definition apart (s : Store) (f g : TseriesFamily) : Prop :=
  owned f ++ queued s f ## owned g ++ queued s g /\ version_ f <> version_ g.

Record set_inv (s : Store) (vs : VersionSet) : Prop := mkSetInv {
  set_each : forall id f, ts_families vs !! id = Some f -> tf_id f = id /\ inv s f;
  set_apart : forall i j f g, i <> j -> ts_families vs !! i = Some f -> ts_families vs !! j = Some g -> apart s f g }.

Lemma frame_env s f s' f' g :
  frame s f s' f' -> tf_id g <> tf_id f -> apart s f g -> inv s g -> env_step s s' g.
Proof.
  intros [_ Hi Hv Hc Hw Hn Hr (q & Hq & Hqf) _] Hne [Hd Hvne] Hg.
  split_and!; [| |done|done|exists q; split; [done|by apply Hqf]].
  - intros l Hl. apply Hc; [intros Hl'; by apply (Hd l)|by apply (inv_lt s g)].
  - intros v Hv'. exists v. rewrite Hw by done. done.
Qed.

Lemma env_queued s s' g : env_step s s' g -> queued s' g = queued s g.
Proof. intros (_ & _ & _ & _ & q & Hq & Hn). unfold queued. by rewrite Hq, queued_of_app, Hn, app_nil_r. Qed.

Lemma env_pending s s' g fid : env_step s s' g -> pending s' g fid = pending s g fid.
Proof. intros He. unfold pending. rewrite (env_queued _ _ _ He). apply content_same. apply He. Qed.

(** Replacing or adding one family. *)
Lemma set_step s vs s' id f' names :
  set_inv s vs -> inv s' f' -> tf_id f' = id ->
  (forall j g, j <> id -> ts_families vs !! j = Some g -> env_step s s' g /\ apart s' f' g) ->
  set_inv s' (mkVersionSet (<[id := f']> (ts_families vs)) names).
Proof.
  intros [He Ha] Hi Hid Hother. constructor; cbn [ts_families].
  - intros j g. destruct (decide (j = id)) as [->|Hne]; [rewrite lookup_insert_eq; by intros [= <-]|].
    rewrite lookup_insert_ne by done. intros Hg. destruct (He j g Hg) as [? Hg']. split; [done|].
    apply (env_inv s); [done|]. by apply (Hother j).
  - intros i j f g Hij. destruct (decide (i = id)) as [->|Hi'], (decide (j = id)) as [->|Hj']; [done|..].
    + rewrite lookup_insert_eq, lookup_insert_ne by done. intros [= <-] Hg. by apply (Hother j).
    + rewrite lookup_insert_eq, lookup_insert_ne by done. intros Hf [= <-].
      destruct (Hother i f Hi' Hf) as [_ [H1 H2]]. split; [intros l Hl Hl'; by apply (H1 l)|done].
    + rewrite !lookup_insert_ne by done. intros Hf Hg. destruct (Ha i j f g Hij Hf Hg) as [H1 H2].
      split; [|done]. rewrite (env_queued s s' f), (env_queued s s' g); [done|by apply (Hother j g)|by apply (Hother i f)].
Qed.

(** An operation of one family. *)
Lemma set_frame s vs s' id f f' :
  set_inv s vs -> ts_families vs !! id = Some f -> frame s f s' f' -> inv s' f' ->
  set_inv s' (mkVersionSet (<[id := f']> (ts_families vs)) (ts_families_names vs)) /\
  (forall j g fid, j <> id -> ts_families vs !! j = Some g -> pending s' g fid = pending s g fid).
Proof.
  intros Hs Hf Hfr Hi. destruct (set_each _ _ Hs id f Hf) as [Hid Hif].
  assert (forall j g, j <> id -> ts_families vs !! j = Some g -> env_step s s' g) as Henv.
  { intros j g Hj Hg. destruct (set_each _ _ Hs j g Hg) as [Hjg Hig].
    apply (frame_env s f s' f'); [done|congruence|by apply (set_apart _ _ Hs id j)|done]. }
  split; [|intros j g fid Hj Hg; by eapply env_pending, Henv].
  apply (set_step s); [done|done|rewrite (fr_id _ _ _ _ Hfr); done|]. intros j g Hj Hg. split; [by eapply Henv|].
  destruct (set_apart _ _ Hs id j f g) as [Hd Hv]; [done..|]. destruct (set_each _ _ Hs j g Hg) as [_ Hig].
  split; [|by rewrite (fr_version _ _ _ _ Hfr)]. rewrite (env_queued s s' g) by (by eapply Henv).
  intros l Hl Hl'. destruct (fr_owned _ _ _ _ Hfr l Hl) as [Hin|Hge]; [by apply (Hd l)|].
  pose proof (inv_lt s g l Hig Hl'). lia.
Qed.

Section facts.
Context {G : GlobalConfig} {HO : HashOrder}.

(** A new family takes fresh caches. *)
Lemma new_facts s id seq vl o v :
  0 < max_memcache_size -> versions s !! vl = Some v -> i64_MIN <= version.max_level_ts v -> receiver s = true ->
  flush_req s = [] ->
  exists s' f', tseries_family.new s id (memcache.new id max_memcache_size seq false) vl o = Ok (s', f') /\
    inv s' f' /\ (forall fid, pending s' f' fid = []) /\ tf_id f' = id /\ version_ f' = vl /\
    versions s' = versions s /\ receiver s' = true /\ flush_req s' = [] /\
    (forall g, inv s g -> version_ g <> vl -> env_step s s' g /\ apart s' f' g).
Proof.
  intros Hpos Hv Hm Hr Hq. destruct (new_inv s id seq vl o v) as (s' & f' & E & Hi & Hp); [done..|by rewrite Hq|].
  exists s', f'. split; [done|]. unfold tseries_family.new, alloc in E. cbn [versions caches next_loc] in E.
  rewrite Hv in E. revert E. run. intros [= <- <-]. split_and!; try done.
  intros g Hg Hne. match goal with |- env_step _ ?t _ /\ _ => set (s' := t) end.
  assert (env_step s s' g) as Henv; [|split; [exact Henv|]].
  - unfold s'. split_and!; cbn [caches versions next_loc receiver flush_req]; [|by eauto|lia|done|exists []; by rewrite app_nil_r].
    intros l Hl. pose proof (inv_lt s g l Hg Hl). rewrite !lookup_insert_ne; [done|lia..].
  - split; [|by apply not_eq_sym]. rewrite (env_queued _ _ _ Henv). unfold queued at 1. cbn [flush_req s' tf_id]. rewrite Hq.
    unfold owned at 1. cbn [mut_cache delta_mut_cache immut_cache]. intros l Hl Hl'.
    pose proof (inv_lt s g l Hg Hl'). rewrite !elem_of_app, !elem_of_cons in Hl. destruct Hl as [[|[|[]%elem_of_nil]]|[]%elem_of_nil]; lia.
Qed.

(** The families while they are being created: nothing has been written yet. *)
Record pristine (s : Store) (vs : VersionSet) : Prop := mkPristine {
  pr_inv : set_inv s vs;
  pr_receiver : receiver s = true;
  pr_queue : flush_req s = [];
  pr_empty : forall id f fid, ts_families vs !! id = Some f -> pending s f fid = [] }.

Lemma pristine_add s vs id seq vl o v names :
  0 < max_memcache_size -> pristine s vs -> versions s !! vl = Some v -> i64_MIN <= version.max_level_ts v ->
  (forall j g, j <> id -> ts_families vs !! j = Some g -> version_ g <> vl) ->
  exists s' f', tseries_family.new s id (memcache.new id max_memcache_size seq false) vl o = Ok (s', f') /\
    version_ f' = vl /\ versions s' = versions s /\ pristine s' (mkVersionSet (<[id := f']> (ts_families vs)) names).
Proof.
  intros Hpos [Hs Hr Hq He] Hv Hm Hvl.
  destruct (new_facts s id seq vl o v) as (s' & f' & E & Hi & Hp & Hid & Hv' & Hvs & Hr' & Hq' & Henv); [done..|].
  exists s', f'. split_and!; try done. assert (forall j g, j <> id -> ts_families vs !! j = Some g ->
    env_step s s' g /\ apart s' f' g) as Hother.
  { intros j g Hj Hg. apply Henv; [by apply (set_each _ _ Hs j)|by apply (Hvl j)]. }
  constructor; [by apply (set_step s)|done|done|]. intros j g fid. cbn [ts_families].
  destruct (decide (j = id)) as [->|Hne]; [rewrite lookup_insert_eq; intros [= <-]; apply Hp|].
  rewrite lookup_insert_ne by done. intros Hg. destruct (Hother j g Hne Hg) as [Hst _].
  rewrite (env_pending s s' g fid Hst). by apply (He j).
Qed.

Lemma add_matching_ok id vl seq nm v desc : forall s vs,
  0 < max_memcache_size -> pristine s vs -> versions s !! vl = Some v -> i64_MIN <= version.max_level_ts v ->
  (forall j g, j <> id -> ts_families vs !! j = Some g -> version_ g <> vl) ->
  exists s' vs', add_matching s vs id vl seq nm desc = Ok (s', vs') /\ pristine s' vs' /\ versions s' = versions s /\
    (forall j, j <> id -> ts_families vs' !! j = ts_families vs !! j) /\
    (nm ∈ (name <$> desc) \/ (exists f, ts_families vs !! id = Some f /\ version_ f = vl) ->
     exists f, ts_families vs' !! id = Some f /\ version_ f = vl).
Proof.
  induction desc as [|item desc IH]; intros s vs Hpos Hp Hv Hm Hvl; cbn [add_matching].
  { exists s, vs. split_and!; try done. by intros [[]%elem_of_nil|?]. }
  case_bool_decide as Hnm.
  - destruct (pristine_add s vs id seq vl (opt item) v (<[nm := id]> (ts_families_names vs))) as (s1 & f1 & -> & Hf1 & Hvs1 & Hp1); [done..|].
    run. edestruct (IH s1) as (s' & vs' & -> & Hp' & Hvs' & Hsame & Hgood); [done|exact Hp1|by rewrite Hvs1|done| |].
    { intros j g Hj. cbn [ts_families]. rewrite lookup_insert_ne by done. by apply Hvl. }
    exists s', vs'. split_and!; [done|done|congruence| |].
    + intros j Hj. rewrite Hsame by done. cbn [ts_families]. by rewrite lookup_insert_ne.
    + intros _. apply Hgood. right. exists f1. cbn [ts_families]. by rewrite lookup_insert_eq.
  - run. destruct (IH s vs) as (s' & vs' & -> & Hp' & Hvs' & Hsame & Hgood); [done..|].
    exists s', vs'. split_and!; try done. rewrite fmap_cons. intros [[E|]%elem_of_cons|]; [by rewrite E in Hnm|apply Hgood; by left|apply Hgood; by right].
Qed.

(** The descriptions name every version, and no version is used twice. *)
Definition described (s : Store) (desc : list TseriesFamDesc) (p : Z * Z) : Prop :=
  exists v, versions s !! p.2 = Some v /\ i64_MIN <= version.max_level_ts v /\ version.name v ∈ (name <$> desc).

Lemma add_versions_ok desc l : forall s vs,
  0 < max_memcache_size -> pristine s vs -> Forall (described s desc) l -> NoDup l.*1 -> NoDup l.*2 ->
  (forall j g, ts_families vs !! j = Some g -> j ∉ l.*1 /\ version_ g ∉ l.*2) ->
  exists s' vs', add_versions s vs l desc = Ok (s', vs') /\ pristine s' vs' /\ versions s' = versions s /\
    (forall j, j ∉ l.*1 -> ts_families vs' !! j = ts_families vs !! j) /\
    (forall id vl, (id, vl) ∈ l -> exists f, ts_families vs' !! id = Some f /\ version_ f = vl).
Proof.
  induction l as [|[id vl] l IH]; intros s vs Hpos Hp Hd Hn1 Hn2 Hvs; cbn [add_versions].
  { exists s, vs. split_and!; try done. by intros id vl []%elem_of_nil. }
  rewrite !fmap_cons in *. cbn [fst snd] in *. apply NoDup_cons in Hn1 as [Hi1 Hn1]. apply NoDup_cons in Hn2 as [Hi2 Hn2].
  apply Forall_cons in Hd as [(v & Hv & Hm & Hnm) Hd]. cbn [snd] in Hv. rewrite Hv. run.
  destruct (add_matching_ok id vl (version.last_seq v) (version.name v) v desc s vs)
    as (s1 & vs1 & -> & Hp1 & Hv1 & Hsame1 & Hgood); [done..| |].
  { intros j g _ Hg E. apply (Hvs j g Hg). rewrite E. by left. }
  run. destruct Hgood as (f & Hf & Hfv); [by left|].
  destruct (IH s1 vs1) as (s' & vs' & -> & Hp' & Hv' & Hsame & Hall); [done|done| |done|done| |].
  { eapply Forall_impl; [exact Hd|]. unfold described. by rewrite Hv1. }
  { intros j g. destruct (decide (j = id)) as [->|Hne].
    - rewrite Hf. intros [= <-]. by rewrite Hfv.
    - rewrite Hsame1 by done. intros Hg. destruct (Hvs j g Hg) as [H1 H2]. rewrite elem_of_cons in H1, H2. tauto. }
  exists s', vs'. split_and!; [done|done|congruence| |].
  - intros j [Hj1 Hj2]%not_elem_of_cons. rewrite Hsame by done. by apply Hsame1.
  - intros i x [[= -> ->]|Hin]%elem_of_cons; [|by apply Hall]. exists f. by rewrite Hsame.
Qed.

Lemma new_ok s desc (vers : gmap Z Z) :
  0 < max_memcache_size -> receiver s = true -> flush_req s = [] ->
  map_Forall (fun id vl => described s desc (id, vl)) vers -> (forall i j l, vers !! i = Some l -> vers !! j = Some l -> i = j) ->
  exists s' vs, version_set.new s desc vers = Ok (s', vs) /\ pristine s' vs /\ versions s' = versions s /\
    forall id, match vers !! id with
               | Some vl => exists f, ts_families vs !! id = Some f /\ version_ f = vl
               | None => ts_families vs !! id = None
               end.
Proof.
  intros Hpos Hr Hq Hd Hinj. unfold version_set.new.
  destruct (add_versions_ok desc (iter vers) s new_default) as (s' & vs & E & Hp & Hv & Hsame & Hall).
  - done.
  - constructor; [constructor|done|done|]; cbn; intros *; by rewrite lookup_empty.
  - by apply (iter_Forall (fun id vl => described s desc (id, vl))).
  - apply iter_NoDup.
  - apply (NoDup_fmap_2_strong snd).
    + intros [i l] [j l'] Hi Hj. cbn. intros ->. apply elem_of_iter in Hi, Hj. by rewrite (Hinj i j l').
    + apply (NoDup_fmap_1 fst), iter_NoDup.
  - intros j g. cbn. by rewrite lookup_empty.
  - exists s', vs. split_and!; [done|done|done|]. intros id. destruct (vers !! id) as [vl|] eqn:Ev.
    + apply Hall. by apply elem_of_iter.
    + rewrite Hsame; [done|]. intros ([j l] & -> & Hin)%list_elem_of_fmap. apply elem_of_iter in Hin. cbn in Ev. congruence.
Qed.

End facts.
End version_set_facts.
