(* ===== verification/WalManager.v ===== *)
(** * Replaying the write-ahead log (tskv/src/wal.rs, WalManager)

    [wal_manager] adds to Wal the manager: the choice of the segment to append
    to, and recovery, which reads every segment and puts the points of its
    entries into the caches of the version set.  The flatbuffers decoder is
    generated code, represented by [root_points] and the accessors of Models.

    [batch] is the abstract effect of a list of points on a version set; the
    lemmas here relate it to the caches of each family. *)
From S2P Require Import Prelude Varint StringCodec Sorting Utils Models MemCache FileIO Tsm TsmFacts Wal.
From S2P Require Import Version FileNames TseriesFamily VersionSet.
From Stdlib Require Import Sorting.Permutation.

(** [flatbuffers::root::<Points>(buf)] and its accessor [points()]; [None] is an
    invalid message. *)
Class Flatbuffers := root_points : list Z -> option (option (list fb_Point)).

Module wal_manager.
Import wal file_names tseries_family version_set.

(** ** Definitions *)

Inductive Error := IO (e : io_error) | OpenFile | FileName (e : name_error) | InvalidFlatbuffer.

Record WalManager := mkWalManager { current_dir : string; current_path : string; current_file : WalWriter }.

(** [dir.join(file_name)]. *)
Definition join (dir file_name : string) : string := dir +:+ "/" +:+ file_name.

(** A result that is [unwrap]ped. *)
Definition unwrapped {E F A} (m : outcome F A) : outcome E A :=
  match m with Ok a => Ok a | OutOfFuel => OutOfFuel | _ => Panic end.

Section manager.
Context {G : GlobalConfig} {P : BuildProfile} {PIO : PageIO} {Crc : Crc32} {FB : Flatbuffers} (size_of_val : Z).

(** [file_manager::open_create_file]. *)
Definition open_create_file {E} (f : fs.Fs) (path : string) : outcome E fs.Fs :=
  match fs.open_file f path with Some _ => Ok f | None => unwrap (fs.create_file f path) end.

(** The bytes of a writer reach its file. *)
Definition save (f : fs.Fs) (path : string) (w : WalWriter) : fs.Fs :=
  let f := fs.store f path (file w) in if synced w then fs.sync f path else f.

(** [WalWriter::open] at a path: the header of a new segment is written and
    synced, another one is only read. *)
Definition open_writer (f : fs.Fs) (id : Z) (path : string) (sync : bool) : outcome Error (fs.Fs * WalWriter) :=
  match fs.open_file f path with
  | Some bs =>
      w ← map_err IO (wal.open id sync (Some bs));
      Ok (if (length bs =? 0)%nat then save f path w else f, w)
  | None =>
      f ← of_option (fs.create_file f path) OpenFile;
      w ← map_err IO (wal.open id sync None);
      Ok (save f path w, w)
  end.

(** [segments] is what [list_file_names] finds in the directory. *)
Definition new (f : fs.Fs) (dir : string) (sync : bool) (segments : list string) : outcome Error (fs.Fs * WalManager) :=
  o ← unwrapped (get_max_sequence_file_name segments get_wal_file_id);
  let '(last, seq) := match o with
                      | Some (file, seq) => (join dir file, seq)
                      | None => (file_utils.make_wal_file dir 1, 1)
                      end in
  f ← open_create_file f last;
  '(f, w) ← unwrapped (open_writer f seq last sync);
  Ok (f, mkWalManager dir last w).

(** [WalManager::write]. *)
Definition manager_write (f : fs.Fs) (m : WalManager) (t : WalEntryType) (data : list Z)
    : outcome Error (fs.Fs * WalManager * (Z * nat)) :=
  '(w, r) ← map_err IO (wal.manager_write (current_file m) t data);
  Ok (save f (current_path m) w, mkWalManager (current_dir m) (current_path m) w, r).

(** ** Recovery *)

(** [for t in tags.iter()]: a tag without a key is skipped. *)
Definition replay_tags (ts : list fb_Tag) : list tag.Tag :=
  ts ≫= fun t => match fb_key t with Some k => [tag.mkTag k (default [] (fb_value t))] | None => [] end.

Definition replay_series_id (p : fb_Point) : Z :=
  match fb_tags p with Some ts => series_info.generate_series_id (replay_tags ts) | None => 0 end.

Definition replay_field_id (sid : Z) (f : fb_Field) : Z :=
  match fb_name f with Some n => field_info.generate_field_id n sid | None => 0 end.

(** [for f in fields.iter()]. *)
Fixpoint replay_fields (s : Store) (tsf : TseriesFamily) (sid : Z) (fields : list fb_Field) (seq ts : Z)
    : outcome string (Store * TseriesFamily) :=
  match fields with
  | [] => Ok (s, tsf)
  | f :: fields' =>
      '(s, tsf) ← put_mutcache size_of_val s tsf (replay_field_id sid f) (default [] (fb_fvalue f))
                    (field_info.from_fb (fb_type f)) seq ts;
      replay_fields s tsf sid fields' seq ts
  end.

Definition replay_point (s : Store) (vs : VersionSet) (p : fb_Point) (seq : Z) : outcome string (Store * VersionSet) :=
  let sid := replay_series_id p in
  match get_tsfamily vs sid with
  | Some tsf =>
      match fb_fields p with
      | Some fields =>
          '(s, tsf) ← replay_fields s tsf sid fields seq (fb_timestamp p);
          Ok (s, set_tsfamily vs sid tsf)
      | None => Ok (s, vs)
      end
  | None => Ok (s, vs)
  end.

Fixpoint replay_points (s : Store) (vs : VersionSet) (ps : list fb_Point) (seq : Z)
    : outcome string (Store * VersionSet) :=
  match ps with
  | [] => Ok (s, vs)
  | p :: ps' => '(s, vs) ← replay_point s vs p seq; replay_points s vs ps' seq
  end.

Definition replay_entry (s : Store) (vs : VersionSet) (e : WalEntryBlock) : outcome Error (Store * VersionSet) :=
  match typ e with
  | Write =>
      points ← of_option (root_points (buf e)) InvalidFlatbuffer;
      match points with
      | Some ps => unwrapped (replay_points s vs ps (seq e))
      | None => Ok (s, vs)
      end
  | _ => Ok (s, vs)
  end.

(** [while let Some(e) = reader.next_wal_entry()]. *)
Fixpoint replay_entries (fuel : nat) (s : Store) (vs : VersionSet) (min_log_seq : Z) (r : WalReader)
    : outcome Error (Store * VersionSet) :=
  match fuel with
  | O => OutOfFuel
  | S fuel' =>
      '(o, r) ← map_err IO (next_wal_entry r);
      match o with
      | None => Ok (s, vs)
      | Some e =>
          '(s, vs) ← (if seq e <? min_log_seq then Ok (s, vs) else replay_entry s vs e);
          replay_entries fuel' s vs min_log_seq r
      end
  end.

Definition recover_segment (f : fs.Fs) (s : Store) (vs : VersionSet) (min_log_seq : Z) (dir file_name : string)
    : outcome Error (fs.Fs * Store * VersionSet) :=
  id ← map_err FileName (get_wal_file_id file_name);
  '(f, w) ← open_writer f id (join dir file_name) sync;
  reader ← map_err IO (reader_new (bytes_file.mkCursor (file w) 0));
  if reader_max reader <? min_log_seq then Ok (f, s, vs)
  else
    '(s, vs) ← replay_entries (S (length (file w))) s vs min_log_seq reader;
    Ok (f, s, vs).

Fixpoint recover (f : fs.Fs) (s : Store) (vs : VersionSet) (min_log_seq : Z) (dir : string) (wal_files : list string)
    : outcome Error (fs.Fs * Store * VersionSet) :=
  match wal_files with
  | [] => Ok (f, s, vs)
  | file_name :: wal_files' =>
      '(f, s, vs) ← recover_segment f s vs min_log_seq dir file_name;
      recover f s vs min_log_seq dir wal_files'
  end.

End manager.
End wal_manager.

(** ** The effect of a batch *)
Module batch.
Import memcache tseries_family family_facts version_set version_set_facts.

(** A point: its series, its timestamp, and for each field the identifier, the
    bytes and the type. *)
Record row := mkRow { row_series : Z; row_ts : Z; row_fields : list (Z * list Z * field_info.ValueType) }.

(** The cells of one field a row stands for, and those a batch adds to a family
    when there are [n] families. *)
Definition field_cell (ts fid : Z) (x : Z * list Z * field_info.ValueType) : option DataType :=
  let '(i, v, t) := x in if decide (i = fid) then raw_cell ts t v else None.

Definition row_cells (r : row) (fid : Z) : list DataType := omap (field_cell (row_ts r) fid) (row_fields r).

Definition target (n : nat) (sid : Z) : Z := u32 sid mod u32 (Z.of_nat n).

Definition batch_cells (n : nat) (rs : list row) (id fid : Z) : list DataType :=
  rs ≫= fun r => if decide (target n (row_series r) = id) then row_cells r fid else [].

(** What is not yet flushed of a field in a family. *)
Definition set_pending (s : Store) (vs : VersionSet) (id fid : Z) : list DataType :=
  match ts_families vs !! id with Some f => pending s f fid | None => [] end.

Section batch.
Context {G : GlobalConfig} (n : Z).

Fixpoint puts (s : Store) (f : TseriesFamily) (fs : list (Z * list Z * field_info.ValueType)) (seq ts : Z)
    : outcome string (Store * TseriesFamily) :=
  match fs with
  | [] => Ok (s, f)
  | (fid, v, t) :: fs' => '(s, f) ← put_mutcache n s f fid v t seq ts; puts s f fs' seq ts
  end.

Definition put_row (s : Store) (vs : VersionSet) (r : row) (seq : Z) : outcome string (Store * VersionSet) :=
  match get_tsfamily vs (row_series r) with
  | Some f =>
      '(s, f) ← puts s f (row_fields r) seq (row_ts r);
      Ok (s, set_tsfamily vs (row_series r) f)
  | None => Ok (s, vs)
  end.

Fixpoint put_rows (s : Store) (vs : VersionSet) (rs : list row) (seq : Z) : outcome string (Store * VersionSet) :=
  match rs with
  | [] => Ok (s, vs)
  | r :: rs' => '(s, vs) ← put_row s vs r seq; put_rows s vs rs' seq
  end.

Definition good_row (r : row) : Prop :=
  i64_MIN < row_ts r /\ Forall (fun x => is_Some (raw_cell (row_ts r) x.2 x.1.2)) (row_fields r).

Lemma puts_total fs : forall s f seq ts, inv s f -> i64_MIN < ts ->
  Forall (fun x => is_Some (raw_cell ts x.2 x.1.2)) fs -> exists s' f', puts s f fs seq ts = Ok (s', f') /\ inv s' f'.
Proof.
  induction fs as [|[[i v] t] fs IH]; intros s f seq ts Hi Hts Hg; [by exists s, f|].
  apply Forall_cons in Hg as [[d Hd] Hg]. cbn [snd fst] in Hd.
  destruct (put_ok n s f i v t seq ts d) as (s1 & f1 & E & Hi1 & _); [done..|]. cbn [puts]. rewrite E. run. by apply IH.
Qed.

Lemma puts_spec fs : forall s f seq ts s' f', inv s f -> i64_MIN < ts -> puts s f fs seq ts = Ok (s', f') ->
  inv s' f' /\ frame s f s' f' /\
  forall fid, Permutation (pending s' f' fid) (omap (field_cell ts fid) fs ++ pending s f fid).
Proof.
  induction fs as [|[[i v] t] fs IH]; intros s f seq ts s' f' Hi Hts H; cbn [puts] in H.
  { injection H as <- <-. split_and!; [done|by apply frame_refl; apply Hi|done]. }
  destruct (put_mutcache n s f i v t seq ts) as [[s1 f1]| | |] eqn:E; try done. revert H. run. intros H.
  destruct (put_needs_cell n s f i v t seq ts _ Hi E) as [d Hd].
  destruct (put_ok n s f i v t seq ts d) as (s1' & f1' & E' & Hi1 & Hp1); [done..|]. rewrite E in E'. injection E' as <- <-.
  destruct (IH _ _ _ _ _ _ Hi1 Hts H) as (Hi' & Hfr & Hp). split_and!; [done| |].
  - apply (frame_trans s f s1 f1); [|done]. eapply put_frame; [apply Hi|done].
  - intros fid. rewrite Hp, Hp1, app_assoc. f_equiv. unfold field_cell at 2. cbn [omap list_omap]. rewrite Hd.
    destruct (decide (fid = i)) as [->|Hne].
    + rewrite decide_True by done. symmetry. apply Permutation_cons_append.
    + by rewrite decide_False, app_nil_r by congruence.
Qed.

(** The families of a version set stay the same. *)
Definition same_families (vs vs' : VersionSet) : Prop :=
  size (ts_families vs') = size (ts_families vs) /\
  forall id, is_Some (ts_families vs' !! id) <-> is_Some (ts_families vs !! id).

Lemma get_tsfamily_Some vs sid f : get_tsfamily vs sid = Some f ->
  ts_families vs !! target (size (ts_families vs)) sid = Some f /\ part_id vs sid = target (size (ts_families vs)) sid.
Proof. unfold get_tsfamily. by case_bool_decide. Qed.

Lemma get_tsfamily_None vs sid : get_tsfamily vs sid = None -> ts_families vs !! target (size (ts_families vs)) sid = None.
Proof. unfold get_tsfamily. case_bool_decide as H; [|done]. intros _. by rewrite H, lookup_empty. Qed.

Lemma put_row_spec s vs r seq s' vs' : set_inv s vs -> i64_MIN < row_ts r -> put_row s vs r seq = Ok (s', vs') ->
  set_inv s' vs' /\ same_families vs vs' /\
  forall id fid, is_Some (ts_families vs !! id) -> Permutation (set_pending s' vs' id fid)
    ((if decide (target (size (ts_families vs)) (row_series r) = id) then row_cells r fid else []) ++ set_pending s vs id fid).
Proof.
  intros Hs Hts H. unfold put_row in H. destruct (get_tsfamily vs (row_series r)) as [f|] eqn:Hg.
  - destruct (get_tsfamily_Some _ _ _ Hg) as [Hf Hpid]. destruct (set_each _ _ Hs _ _ Hf) as [_ Hi].
    destruct (puts s f (row_fields r) seq (row_ts r)) as [[s1 f1]| | |] eqn:E; try done. revert H. run. intros [= <- <-].
    destruct (puts_spec _ _ _ _ _ _ _ Hi Hts E) as (Hi1 & Hfr & Hp).
    destruct (set_frame s vs s1 _ f f1 Hs Hf Hfr Hi1) as [Hs1 Hother]. unfold set_tsfamily. rewrite Hpid.
    split_and!; [done| |].
    + split; cbn [ts_families]; [by rewrite map_size_insert_Some|]. intros id. rewrite lookup_insert_is_Some.
      split; [intros [<-|[_ ?]]; [by rewrite Hf|done]|]. intros Hid. destruct (decide (target (size (ts_families vs)) (row_series r) = id)); [by left|by right].
    + intros id fid [g Hid]. unfold set_pending. cbn [ts_families]. destruct (decide (target _ _ = id)) as [<-|Hne].
      * rewrite lookup_insert_eq, Hf. apply Hp.
      * rewrite lookup_insert_ne, Hid by done. cbn [app]. by rewrite (Hother id g fid).
  - injection H as <- <-. apply get_tsfamily_None in Hg. split_and!; [done|done|]. intros id fid [g Hid].
    rewrite decide_False; [done|]. intros <-. by rewrite Hg in Hid.
Qed.

Lemma put_rows_spec rs : forall s vs seq s' vs', set_inv s vs -> Forall (fun r => i64_MIN < row_ts r) rs ->
  put_rows s vs rs seq = Ok (s', vs') ->
  set_inv s' vs' /\ same_families vs vs' /\
  forall id fid, is_Some (ts_families vs !! id) ->
    Permutation (set_pending s' vs' id fid) (batch_cells (size (ts_families vs)) rs id fid ++ set_pending s vs id fid).
Proof.
  induction rs as [|r rs IH]; intros s vs seq s' vs' Hs Hts H; cbn [put_rows] in H.
  { injection H as <- <-. by split_and!. }
  apply Forall_cons in Hts as [Ht Hts]. destruct (put_row s vs r seq) as [[s1 vs1]| | |] eqn:E; try done. revert H. run. intros H.
  destruct (put_row_spec _ _ _ _ _ _ Hs Ht E) as (Hs1 & [Hn1 Hf1] & Hp1).
  destruct (IH _ _ _ _ _ Hs1 Hts H) as (Hs' & [Hn' Hf'] & Hp'). split_and!; [done| |].
  - split; [congruence|]. intros id. by rewrite Hf', Hf1.
  - intros id fid Hid. rewrite Hp' by (by apply Hf1). rewrite Hp1 by done. rewrite Hn1. cbn [batch_cells mbind list_bind].
    fold (batch_cells (size (ts_families vs)) rs id fid). rewrite !app_assoc. f_equiv. apply Permutation_app_comm.
Qed.

Lemma put_rows_total rs : forall s vs seq, set_inv s vs -> Forall good_row rs ->
  exists s' vs', put_rows s vs rs seq = Ok (s', vs').
Proof.
  induction rs as [|r rs IH]; intros s vs seq Hs Hg; [by exists s, vs|].
  apply Forall_cons in Hg as [[Ht Hr] Hg]. cbn [put_rows].
  assert (exists s1 vs1, put_row s vs r seq = Ok (s1, vs1)) as (s1 & vs1 & E).
  { unfold put_row. destruct (get_tsfamily vs (row_series r)) as [f|] eqn:Hf; [|by exists s, vs].
    destruct (get_tsfamily_Some _ _ _ Hf) as [Hf' _]. destruct (set_each _ _ Hs _ _ Hf') as [_ Hi].
    destruct (puts_total (row_fields r) s f seq (row_ts r)) as (s1 & f1 & -> & _); [done..|]. run. by eexists _, _. }
  rewrite E. run. destruct (put_row_spec _ _ _ _ _ _ Hs Ht E) as (Hs1 & _). by apply IH.
Qed.

End batch.
End batch.

Module replay_facts.
Import bytes_file wal wal_facts wal_manager tseries_family version_set batch.

Section replay.
Context {G : GlobalConfig} {P : BuildProfile} {PIO : PageIO} {Crc : Crc32} {FB : Flatbuffers} (n : Z).

(** The row recovery makes of a point. *)
Definition replay_row (p : fb_Point) : row :=
  let sid := replay_series_id p in
  mkRow sid (fb_timestamp p)
    ((fun f => (replay_field_id sid f, default [] (fb_fvalue f), field_info.from_fb (fb_type f))) <$> default [] (fb_fields p)).

Lemma replay_fields_puts sid fs : forall s f seq ts,
  replay_fields n s f sid fs seq ts =
  puts n s f ((fun f => (replay_field_id sid f, default [] (fb_fvalue f), field_info.from_fb (fb_type f))) <$> fs) seq ts.
Proof.
  induction fs as [|x fs IH]; intros s f seq ts; [done|]. cbn [replay_fields fmap list_fmap puts].
  destruct (put_mutcache n s f _ _ _ seq ts) as [[s1 f1]| | |]; [run; apply IH|done..].
Qed.

Lemma replay_point_row s vs p seq : replay_point n s vs p seq = put_row n s vs (replay_row p) seq.
Proof.
  unfold replay_point, put_row, replay_row. cbn [row_series row_ts row_fields].
  destruct (get_tsfamily vs (replay_series_id p)) as [f|] eqn:Hf; [|done].
  destruct (fb_fields p) as [fs|]; cbn [default from_option id].
  - by rewrite replay_fields_puts.
  - cbn [fmap list_fmap puts]. run. unfold set_tsfamily. destruct (get_tsfamily_Some _ _ _ Hf) as [H1 H2].
    rewrite H2, insert_id by done. by destruct vs.
Qed.

Lemma replay_points_rows ps : forall s vs seq, replay_points n s vs ps seq = put_rows n s vs (replay_row <$> ps) seq.
Proof.
  induction ps as [|p ps IH]; intros s vs seq; [done|]. cbn [replay_points fmap list_fmap put_rows].
  rewrite replay_point_row. destruct (put_row _ _ _ _ _) as [[s1 vs1]| | |]; [run; apply IH|done..].
Qed.

(** The entries one after the other. *)
Fixpoint replay_list (s : Store) (vs : VersionSet) (es : list WalEntryBlock) : outcome Error (Store * VersionSet) :=
  match es with
  | [] => Ok (s, vs)
  | e :: es' => '(s, vs) ← replay_entry n s vs e; replay_list s vs es'
  end.

Lemma replay_entries_list fuel : forall s vs m r es, read_all fuel r = Ok es ->
  replay_entries n fuel s vs m r = replay_list s vs (base.filter (fun e => m <= seq e) es).
Proof.
  induction fuel as [|fuel IH]; intros s vs m r es H; [done|]. cbn [read_all replay_entries] in *.
  destruct (next_wal_entry r) as [[[e|] r1]| | |]; try done; revert H; cbn [map_err]; run.
  - intros H. destruct (read_all fuel r1) as [es1| | |] eqn:E; try done. revert H. run. intros [= <-].
    destruct (Z.ltb_spec (seq e) m).
    + rewrite filter_cons_False by lia. run. by apply IH.
    + rewrite filter_cons_True by done. cbn [replay_list].
      destruct (replay_entry n s vs e) as [[s1 vs1]| | |]; [run; by apply IH|done..].
  - by intros [= <-].
Qed.

Lemma open_writer_segment f i path sy body : fs.open_file f path = Some (fresh_header ++ body) ->
  exists w, open_writer f i path sy = Ok (f, w) /\ file w = fresh_header ++ body /\ size w = length (file w) /\
    max_sequence w = 0 /\ config_sync w = sy.
Proof.
  intros Hf. unfold open_writer. rewrite Hf. destruct (open_segment i sy body) as (w & -> & Hw). cbn [map_err]. run.
  rewrite (proj2 (Nat.eqb_neq (length (fresh_header ++ body)) 0)) by (rewrite length_app; cbn; lia). by exists w.
Qed.

(** Recovery of a segment with entries [es]. *)
Lemma recover_segment_ok f s vs dir i es :
  Z.of_nat (length es) < U64 -> Forall (fun x => Z.of_nat (length x.2) < 2 ^ 32) es -> is_u64 i -> i < 10 ^ 6 ->
  fs.open_file f (join dir (names_facts.wal_name i)) = Some (fresh_header ++ stream 0 es) ->
  recover_segment n f s vs 0 dir (names_facts.wal_name i) =
  '(s, vs) ← replay_list s vs (readable 0 es); Ok (f, s, vs).
Proof.
  intros Hn Hl Hi Hi6 Hf. unfold recover_segment. rewrite names_facts.wal_id_ok by done. cbn [map_err]. run.
  destruct (open_writer_segment f i _ sync (stream 0 es) Hf) as (w & -> & Hw & _). run. rewrite Hw.
  destruct (reader_new_spec fresh_header (stream 0 es) eq_refl) as (mx & Hmx & ->). injection Hmx as <-. cbn [map_err]. run.
  cbn [reader_max Z.ltb]. rewrite (replay_entries_list _ _ _ _ _ (readable 0 es)); [by rewrite readable_seq|].
  apply read_all_spec; [done|rewrite length_app; cbn; lia|done|lia|lia|done|].
  rewrite length_app. assert (forall l z, (length l <= length (stream z l))%nat) as Hlen.
  { induction l as [|[t d] l IH]; intros z; [done|]. cbn [stream length]. rewrite length_app, length_entry_bytes.
    specialize (IH (z + 1)). lia. }
  specialize (Hlen es 0). lia.
Qed.

End replay.
End replay_facts.
