(* ===== verification/Summary.v ===== *)
(** * The summary (tskv/src/summary.rs)

    The summary is the record file in which the engine logs version edits; at
    start-up it is replayed into a version per series family.  [summary]
    translates the writer of edits, the batching processor, and recovery, which
    goes through four hash maps whose iteration order is not specified
    ([HashOrder]); [bincode_facts] is the stored format of an edit.

    [summary_spec] says what a family's live files are after a list of edits.
    The theorems show that recovery reconstructs them for every iteration order,
    and what it does to the counter of file numbers. *)
From S2P Require Import Prelude Varint StringCodec Sorting Utils Models MemCache FileIO Tsm TsmFacts Wal.
From S2P Require Import Bincode RecordFile Version TseriesFamily VersionSet.

Module summary.
Import record_file version_edit version_set.

(** ** Definitions *)

Definition MAX_BATCH_SIZE : nat := 64.

(** The errors of error.rs the summary returns. *)
Inductive Error := LogRecordErr (e : RecordFileError) | Encode | Decode | ErrApplyEdit.

Inductive EditType := SummaryEdit.
Definition edit_type_u8 (t : EditType) : Z := match t with SummaryEdit => 0 end.

(** A result whose error the code cannot see. *)
Definition infallible {E F A} (m : outcome F A) : outcome E A :=
  match m with Ok a => Ok a | OutOfFuel => OutOfFuel | _ => Panic end.

Section summary.
Context {G : GlobalConfig} {P : BuildProfile} {PIO : PageIO} {Crc : Crc32} {HO : HashOrder} {B : Bincode version_edit.VersionEdit}.

Definition encode (e : VersionEdit) : outcome Error (list Z) := of_option (serialize e) Encode.
Definition decode (buf : list Z) : outcome Error VersionEdit := of_option (deserialize buf) Decode.

(** [Writer::new] and [Reader::new] open the file, creating it when it does not
    exist; [unwrap] panics when that is not possible. *)
Definition open_record {E} (s : fs.Fs) (path : string) : outcome E fs.Fs :=
  match fs.open_file s path with
  | Some _ => Ok s
  | None => unwrap (fs.create_file s path)
  end.

Definition content (s : fs.Fs) (path : string) : list Z := default [] (fs.open_file s path).

(** [write_record] of an open writer. *)
Definition append {E} (s : fs.Fs) (path : string) (data_version data_type : Z) (data : list Z)
    (err : RecordFileError -> E) : outcome E fs.Fs :=
  '(f, _) ← map_err err (write_record (content s path) data_version data_type data);
  Ok (fs.store s path f).

(** ** Recovery *)

(** The state of the loop over the records. *)
Record Recovery := mkRecovery {
  ctx_ : context.GlobalContext; tf_cfg : list TseriesFamDesc;
  edits_ : gmap Z (list VersionEdit); tf_names : gmap Z string }.

(** [format!("default{}", i)]. *)
Definition default_name (i : Z) : string := "default" +:+ file_utils.to_string i.

(** [for i in 0..GLOBAL_CONFIG.tsfamily_num]. *)
Definition add_default (st : Recovery) (i : nat) : Recovery :=
  let name := default_name (Z.of_nat i) in
  mkRecovery (ctx_ st) (tf_cfg st ++ [mkTseriesFamDesc name kv_option.default_opt])
    (<[Z.of_nat i := []]> (edits_ st)) (<[Z.of_nat i := name]> (tf_names st)).

Definition start (ctx : context.GlobalContext) : outcome Error Recovery :=
  let st := foldl add_default (mkRecovery ctx [] ∅ ∅) (seq 0 (Z.to_nat tsfamily_num)) in
  if overflow_checks && (tsfamily_num =? 0) then Panic
  else Ok (mkRecovery (context.set_max_tsf_idy (ctx_ st) (u32 (tsfamily_num - 1))) (tf_cfg st) (edits_ st) (tf_names st)).

Definition on_edit (st : Recovery) (ed : VersionEdit) : Recovery :=
  if is_add_tsf ed then
    mkRecovery (context.set_max_tsf_idy (ctx_ st) (tsf_id ed))
      (tf_cfg st ++ [mkTseriesFamDesc (tsf_name ed) kv_option.default_opt])
      (<[tsf_id ed := []]> (edits_ st)) (<[tsf_id ed := tsf_name ed]> (tf_names st))
  else if is_del_tsf ed then
    mkRecovery (ctx_ st) (tf_cfg st) (delete (tsf_id ed) (edits_ st)) (delete (tsf_id ed) (tf_names st))
  else match edits_ st !! tsf_id ed with
       | Some data => mkRecovery (ctx_ st) (tf_cfg st) (<[tsf_id ed := data ++ [ed]]> (edits_ st)) (tf_names st)
       | None => st
       end.

(** The loop ends at the first error of the reader, whatever it is. *)
Fixpoint read_edits (fuel : nat) (f : list Z) (rd : Reader) (st : Recovery) : outcome Error Recovery :=
  match fuel with
  | O => OutOfFuel
  | S fuel' =>
      match read_record (S (length f)) f rd with
      | Ok (result, rd) =>
          ed ← decode (data result);
          read_edits fuel' f rd (on_edit st ed)
      | Err _ => Ok st
      | Panic => Panic
      | OutOfFuel => OutOfFuel
      end
  end.

(** [for e in eds]: the counters, the files, [max_log] and [max_level_ts]. *)
Definition replay_edit (acc : context.GlobalContext * gmap Z CompactMeta * Z * Z) (e : VersionEdit)
    : context.GlobalContext * gmap Z CompactMeta * Z * Z :=
  let '(ctx, files, max_log, max_level_ts) := acc in
  let ctx := if has_seq_no e then context.set_last_seq ctx (seq_no e) else ctx in
  let ctx := if has_file_id e then context.set_file_id ctx (ed_file_id e) else ctx in
  let files := foldl (fun fs m => delete (file_id m) fs) files (del_files e) in
  let files := foldl (fun fs m => <[file_id m := m]> fs) files (add_files e) in
  (ctx, files, Z.max max_log (seq_no e), Z.max max_level_ts (ed_max_level_ts e)).

(** [for (fd, meta) in files]. *)
Fixpoint group_levels (levels : gmap Z version.LevelInfo) (l : list (Z * CompactMeta))
    : outcome Error (gmap Z version.LevelInfo) :=
  match l with
  | [] => Ok levels
  | (_, meta) :: l' =>
      let info := default (version.init (level meta)) (levels !! level meta) in
      info ← infallible (version.apply info meta);
      group_levels (<[level meta := info]> levels) l'
  end.

(** [for (id, eds) in edits]. *)
Fixpoint build_versions (s : tseries_family.Store) (ctx : context.GlobalContext) (names : gmap Z string)
    (l : list (Z * list VersionEdit)) (versions : gmap Z Z)
    : outcome Error (tseries_family.Store * context.GlobalContext * gmap Z Z) :=
  match l with
  | [] => Ok (s, ctx, versions)
  | (id, eds) :: l' =>
      tsf_name ← unwrap (names !! id);
      let '(ctx, files, max_log, max_level_ts) := foldl replay_edit (ctx, ∅, 0, i64_MIN) eds in
      levels ← group_levels ∅ (iter files);
      let lvls := reverse (iter levels).*2 in
      let '(s, ver) := alloc_version s (version.mkVersion id max_log max_level_ts tsf_name lvls) in
      build_versions s ctx names l' (<[id := ver]> versions)
  end.

(** [f] is the content of the summary file. *)
Definition recover_version (s : tseries_family.Store) (f : list Z) (ctx : context.GlobalContext)
    : outcome Error (tseries_family.Store * context.GlobalContext * VersionSet) :=
  st ← start ctx;
  st ← read_edits (S (length f)) f new_reader st;
  '(s, ctx, versions) ← build_versions s (ctx_ st) (tf_names st) (iter (edits_ st)) ∅;
  '(s, vs) ← infallible (version_set.new s (tf_cfg st) versions);
  Ok (s, ctx, vs).

(** The version set and the context are shared with the engine; what they hold
    at the start is part of the result. *)
Record Summary := mkSummary { file_no : Z; version_set_ : VersionSet; ctx : context.GlobalContext; path : string }.

Definition recover (s : tseries_family.Store) (f : fs.Fs) (db_path : string)
    : outcome Error (tseries_family.Store * fs.Fs * Summary) :=
  let path := file_utils.make_summary_file db_path 0 in
  f ← open_record f path;
  '(s, ctx, vs) ← recover_version s (content f path) context.new;
  Ok (s, f, mkSummary 0 vs ctx path).

Definition new (s : tseries_family.Store) (f : fs.Fs) (db_path : string)
    : outcome Error (tseries_family.Store * fs.Fs * Summary) :=
  let db := edit_new in
  let path := file_utils.make_summary_file db_path 0 in
  f ← open_record f path;
  buf ← encode db;
  f ← append f path 1 (edit_type_u8 SummaryEdit) buf LogRecordErr;
  let f := fs.sync f path in
  recover s f db_path.

(** ** Writing edits *)

(** An error leaves the edits before it in the file. *)
Fixpoint apply_version_edit (f : fs.Fs) (path : string) (eds : list VersionEdit) : outcome (Error * fs.Fs) fs.Fs :=
  match eds with
  | [] => Ok f
  | edit :: eds' =>
      buf ← map_err (fun e => (e, f)) (encode edit);
      f ← append f path 1 (edit_type_u8 SummaryEdit) buf (fun e => (LogRecordErr e, f));
      let f := fs.sync f path in
      apply_version_edit f path eds'
  end.

(** A callback is the number of the task that waits for it. *)
Record SummaryTask := mkSummaryTask { task_edits : list VersionEdit; cb : Z }.

Record SummaryProcesser := mkSummaryProcesser { cbs : list Z; edits : list VersionEdit }.

Definition processer_new : SummaryProcesser := mkSummaryProcesser [] [].

Definition batch (p : SummaryProcesser) (task : SummaryTask) : SummaryProcesser * bool :=
  let need_apply := (MAX_BATCH_SIZE <? length (edits p))%nat in
  let need_apply := match task_edits task with
                    | [e] => if is_del_tsf e || is_add_tsf e then true else need_apply
                    | _ => need_apply
                    end in
  (mkSummaryProcesser (cbs p ++ [cb task]) (edits p ++ task_edits task), need_apply).

(** The file, the processor and the answers it sends. *)
Definition apply (f : fs.Fs) (path : string) (p : SummaryProcesser)
    : outcome Error (fs.Fs * SummaryProcesser * list (Z * option Error)) :=
  match apply_version_edit f path (edits p) with
  | Ok f => Ok (f, processer_new, (fun c => (c, None)) <$> cbs p)
  | Err (_, f) => Ok (f, processer_new, (fun c => (c, Some ErrApplyEdit)) <$> cbs p)
  | Panic => Panic
  | OutOfFuel => OutOfFuel
  end.

End summary.
End summary.

(** ** The format of an edit *)
Module bincode_facts.
Import bincode version_edit.

Definition meta : codec CompactMeta :=
  map_codec (fun '(fid, (size, (mn, (mx, (lv, (hi, (lo, d))))))) => mkCompactMeta fid size mn mx lv hi lo d)
    (fun m => (file_id m, (file_size m, (ts_min m, (ts_max m, (level m, (high_seq m, (low_seq m, is_delta m))))))))
    (fun _ => true)
    (pair (uint 8) (pair (uint 8) (pair int64 (pair int64 (pair (uint 4) (pair (uint 8) (pair (uint 8) boolean))))))).

Definition edit : codec VersionEdit :=
  map_codec
    (fun '(lv, (hs, (sq, (hf, (fid, (af, (df, (dt, (at_, (tid, (nm, mlt)))))))))))
      => mkVersionEdit lv hs sq hf fid af df dt at_ tid nm mlt)
    (fun e => (ed_level e, (has_seq_no e, (seq_no e, (has_file_id e, (ed_file_id e, (add_files e, (del_files e,
      (is_del_tsf e, (is_add_tsf e, (tsf_id e, (tsf_name e, ed_max_level_ts e))))))))))))
    (fun _ => true)
    (pair (uint 4) (pair boolean (pair (uint 8) (pair boolean (pair (uint 8) (pair (vec meta) (pair (vec meta)
      (pair boolean (pair boolean (pair (uint 4) (pair text int64))))))))))).

#[global] Instance meta_lawful : Lawful meta.
Proof. apply map_lawful; [apply _|]. by intros []. Qed.

#[global] Instance edit_lawful : Lawful edit.
Proof. apply map_lawful; [apply _|]. by intros []. Qed.

Definition edit_bincode : Bincode VersionEdit := of_codec edit.

#[global] Instance edit_laws : BincodeLaws edit_bincode.
Proof. apply codec_laws, edit_lawful. Qed.

End bincode_facts.

(** ** The files of a family after a list of edits *)
Module summary_spec.
Import version_edit.

Section spec.
Context {G : GlobalConfig}.

Definition apply_files (files : gmap Z CompactMeta) (e : VersionEdit) : gmap Z CompactMeta :=
  foldl (fun fs m => <[file_id m := m]> fs) (foldl (fun fs m => delete (file_id m) fs) files (del_files e)) (add_files e).

(** [None]: there is no such family. *)
Definition live_step (id : Z) (o : option (gmap Z CompactMeta)) (e : VersionEdit) : option (gmap Z CompactMeta) :=
  if negb (tsf_id e =? id) then o
  else if is_add_tsf e then Some ∅
  else if is_del_tsf e then None
  else (fun m => apply_files m e) <$> o.

Definition live (id : Z) (es : list VersionEdit) : option (gmap Z CompactMeta) :=
  foldl (live_step id) (if (0 <=? id) && (id <? tsfamily_num) then Some ∅ else None) es.

(** The files a version has at level [k]. *)
Definition files_at (v : version.Version) (k : Z) : list version.ColumnFile :=
  concat (version.files <$> base.filter (fun li => version.lvl li = k) (version.levels_info v)).

(** The levels of a version hold exactly the files of [m], each at its level. *)
Definition holds_files (m : gmap Z CompactMeta) (v : version.Version) : Prop :=
  NoDup (version.lvl <$> version.levels_info v) /\
  exists bloom, tsm.new_bloom_filter = Ok bloom /\
    forall k, files_at v k ≡ₚ (fun c => version.column_file c bloom) <$> base.filter (fun c => level c = k) (map_to_list m).*2.

End spec.
End summary_spec.

Module summary_facts.
Import record_file record_facts version_edit version_set summary summary_spec.

Section facts.
Context {G : GlobalConfig} {P : BuildProfile} {PIO : PageIO} {Crc : Crc32} {CR : Crc32Range Crc} {HO : HashOrder}
  {B : Bincode version_edit.VersionEdit} {BL : BincodeLaws B}.

(** ** Replaying the edits *)

Definition files_of (eds : list VersionEdit) : gmap Z CompactMeta := foldl apply_files ∅ eds.

Lemma replay_files eds : forall acc, (foldl replay_edit acc eds).1.1.2 = foldl apply_files acc.1.1.2 eds.
Proof.
  induction eds as [|e eds IH]; intros acc; [done|]. cbn [foldl]. rewrite IH. by destruct acc as [[[c m] l] t].
Qed.

(** Every family of the loop has a name, and the name has a description. *)
Definition named (st : Recovery) : Prop :=
  forall id, is_Some (edits_ st !! id) -> exists nm, tf_names st !! id = Some nm /\ nm ∈ (name <$> tf_cfg st).

Lemma named_insert st id nm eds c :
  named st -> named (mkRecovery c (tf_cfg st ++ [mkTseriesFamDesc nm kv_option.default_opt])
    (<[id := eds]> (edits_ st)) (<[id := nm]> (tf_names st))).
Proof.
  intros Hn i Hi. cbn [edits_ tf_names tf_cfg] in *. rewrite fmap_app. destruct (decide (i = id)) as [->|Hne].
  - rewrite lookup_insert_eq. exists nm. split; [done|]. apply elem_of_app. right. by constructor.
  - rewrite lookup_insert_ne in Hi by done. rewrite lookup_insert_ne by done. destruct (Hn i Hi) as (nm' & H1 & H2). exists nm'. split; [done|].
    apply elem_of_app. by left.
Qed.

Lemma on_edit_named st ed : named st -> named (on_edit st ed).
Proof.
  intros Hn. unfold on_edit. destruct (is_add_tsf ed); [by apply named_insert|].
  destruct (is_del_tsf ed).
  - intros i Hi. cbn [edits_ tf_names tf_cfg] in *. destruct (decide (i = tsf_id ed)) as [->|Hne].
    + rewrite lookup_delete_eq in Hi. by destruct Hi.
    + rewrite lookup_delete_ne in Hi by done. rewrite lookup_delete_ne by done. by apply Hn.
  - destruct (edits_ st !! tsf_id ed) as [data|] eqn:E; [|done]. intros i Hi. cbn [edits_ tf_names tf_cfg] in *.
    apply Hn. destruct (decide (i = tsf_id ed)) as [->|Hne]; [by eexists|]. by rewrite lookup_insert_ne in Hi.
Qed.

Lemma on_edit_live st ed id :
  files_of <$> edits_ (on_edit st ed) !! id = live_step id (files_of <$> edits_ st !! id) ed.
Proof.
  unfold on_edit, live_step. destruct (Z.eqb_spec (tsf_id ed) id) as [<-|Hne]; cbn [negb].
  - destruct (is_add_tsf ed); [cbn [edits_]; by rewrite lookup_insert_eq|].
    destruct (is_del_tsf ed); [cbn [edits_]; by rewrite lookup_delete_eq|].
    destruct (edits_ st !! tsf_id ed) as [data|] eqn:E; cbn [edits_ fmap option_fmap option_map].
    + rewrite lookup_insert_eq. cbn. unfold files_of. by rewrite foldl_app.
    + by rewrite E.
  - destruct (is_add_tsf ed); [cbn [edits_]; by rewrite lookup_insert_ne|].
    destruct (is_del_tsf ed); [cbn [edits_]; by rewrite lookup_delete_ne|].
    destruct (edits_ st !! tsf_id ed) as [data|] eqn:E; [cbn [edits_]; by rewrite lookup_insert_ne|done].
Qed.

Lemma on_edits_spec es : forall st, named st ->
  named (foldl on_edit st es) /\
  forall id, files_of <$> edits_ (foldl on_edit st es) !! id = foldl (live_step id) (files_of <$> edits_ st !! id) es.
Proof.
  induction es as [|e es IH]; intros st Hn; [done|]. cbn [foldl].
  destruct (IH (on_edit st e) (on_edit_named st e Hn)) as [H1 H2]. split; [done|].
  intros id. by rewrite H2, on_edit_live.
Qed.

Lemma defaults_spec n : forall st, named st ->
  let st' := foldl add_default st (seq 0 n) in
  named st' /\ forall id, edits_ st' !! id = if (0 <=? id) && (id <? Z.of_nat n) then Some [] else edits_ st !! id.
Proof.
  induction n as [|n IH]; intros st Hn.
  { split; [done|]. intros id. cbn [seq foldl]. destruct (Z.leb_spec 0 id), (Z.ltb_spec id (Z.of_nat 0)); done || lia. }
  rewrite seq_S, foldl_app. destruct (IH st Hn) as [H1 H2]. cbn [foldl Nat.add]. set (st' := foldl _ _ _) in *.
  split; [by apply named_insert|]. intros id. cbn [edits_ add_default].
  destruct (decide (id = Z.of_nat n)) as [->|Hne].
  - rewrite lookup_insert_eq. rewrite (proj2 (Z.leb_le _ _)), (proj2 (Z.ltb_lt _ _)) by lia. done.
  - rewrite lookup_insert_ne, H2 by done. destruct (Z.leb_spec 0 id), (Z.ltb_spec id (Z.of_nat n)), (Z.ltb_spec id (Z.of_nat (S n)));
      done || lia.
Qed.

Lemma start_spec ctx : 1 <= tsfamily_num -> exists st, start ctx = Ok st /\ named st /\
  (forall id, files_of <$> edits_ st !! id = live id []) /\ context.file_id (ctx_ st) = context.file_id ctx /\
  (forall id eds, edits_ st !! id = Some eds -> eds = []).
Proof.
  intros Hn. unfold start. rewrite (proj2 (Z.eqb_neq _ _)), andb_false_r by lia. eexists. split; [reflexivity|].
  destruct (defaults_spec (Z.to_nat tsfamily_num) (mkRecovery ctx [] ∅ ∅)) as [H1 H2].
  { intros id Hid. cbn in Hid. rewrite lookup_empty in Hid. by destruct Hid. }
  set (st := foldl _ _ _) in *. split_and!; [exact H1| | |].
  - intros id. cbn [edits_]. rewrite H2. cbn [edits_]. rewrite lookup_empty. unfold live. cbn [foldl].
    rewrite Z2Nat.id by lia. by destruct (_ && _).
  - cbn. assert (forall l st0, context.file_id (ctx_ (foldl add_default st0 l)) = context.file_id (ctx_ st0)) as H.
    { induction l as [|i l IH]; intros st0; [done|]. cbn [foldl]. by rewrite IH. }
    apply H.
  - intros id eds. cbn [edits_]. rewrite H2. cbn [edits_]. rewrite lookup_empty. destruct (_ && _); congruence.
Qed.

(** ** The levels *)

Definition total_size (ms : list CompactMeta) : Z := foldr (fun m n => file_size m + n) 0 ms.

Definition sized (ms : list CompactMeta) : Prop := Forall (fun m => 0 <= file_size m) ms /\ total_size ms < U64.

Lemma total_size_app l1 l2 : total_size (l1 ++ l2) = total_size l1 + total_size l2.
Proof.
  induction l1 as [|m l1 IH]; [done|].
  change (file_size m + total_size (l1 ++ l2) = file_size m + total_size l1 + total_size l2). lia.
Qed.

Lemma total_size_filter (Q : CompactMeta -> Prop) `{!forall m, Decision (Q m)} ms :
  Forall (fun m => 0 <= file_size m) ms -> 0 <= total_size (base.filter Q ms) <= total_size ms.
Proof.
  induction 1 as [|m ms Hm _ IH]; [cbn; lia|]. cbn [total_size foldr]. fold (total_size ms).
  destruct (decide (Q m)); [rewrite filter_cons_True by done|rewrite filter_cons_False by done; lia].
  cbn [total_size foldr]. fold (total_size (base.filter Q ms)). lia.
Qed.

Lemma total_size_perm l1 l2 : l1 ≡ₚ l2 -> total_size l1 = total_size l2.
Proof. induction 1; cbn in *; unfold total_size in *; lia. Qed.

Lemma sized_perm l1 l2 : l1 ≡ₚ l2 -> sized l1 -> sized l2.
Proof. intros Hp [H1 H2]. split; [by rewrite <- Hp|by rewrite <- (total_size_perm _ _ Hp)]. Qed.

Variable bloom : bloom_filter.BloomFilter.
Hypothesis Hbloom : tsm.new_bloom_filter = Ok bloom.

Definition at_level (k : Z) (ms : list CompactMeta) : list CompactMeta := base.filter (fun c => level c = k) ms.

Definition levels_ok (ms : list CompactMeta) (levels : gmap Z version.LevelInfo) : Prop :=
  forall k, match levels !! k with
            | Some li => version.lvl li = k /\ version.cur_size li = total_size (at_level k ms) /\
                version.files li = (fun c => version.column_file c bloom) <$> at_level k ms
            | None => at_level k ms = []
            end.

Lemma apply_ok li m : 0 <= version.cur_size li -> 0 <= file_size m -> version.cur_size li + file_size m < U64 ->
  exists li', version.apply li m = Ok li' /\ version.lvl li' = version.lvl li /\
    version.cur_size li' = version.cur_size li + file_size m /\
    version.files li' = version.files li ++ [version.column_file m bloom].
Proof.
  intros H0 H1 H2. unfold version.apply. rewrite Hbloom. run. rewrite add_u64_ok by range. run.
  by eexists.
Qed.

Lemma at_level_snoc k ms m : at_level k (ms ++ [m]) = at_level k ms ++ (if decide (level m = k) then [m] else []).
Proof. unfold at_level. by rewrite filter_app. Qed.

Lemma level_step ms levels m : levels_ok ms levels -> sized (ms ++ [m]) ->
  exists li', infallible (E := Error) (version.apply (default (version.init (level m)) (levels !! level m)) m) = Ok li' /\
    levels_ok (ms ++ [m]) (<[level m := li']> levels).
Proof.
  intros Hl [Hs0 Hs]. set (li := default _ _). rewrite total_size_app in Hs. cbn in Hs.
  apply Forall_app in Hs0 as [Hs0 Hm]. apply Forall_cons in Hm as [Hm _].
  pose proof (total_size_filter (fun c => level c = level m) ms Hs0) as Ht. fold (at_level (level m) ms) in Ht.
  assert (version.lvl li = level m /\ version.cur_size li = total_size (at_level (level m) ms) /\
    version.files li = (fun c => version.column_file c bloom) <$> at_level (level m) ms) as (Hlv & Hc & Hf).
  { specialize (Hl (level m)). unfold li. destruct (levels !! level m); [done|]. cbn. by rewrite Hl. }
  destruct (apply_ok li m) as (li' & -> & Hlv' & Hc' & Hf'); [lia|done|lia|].
  exists li'. split; [done|]. intros k. rewrite at_level_snoc. destruct (decide (level m = k)) as [<-|Hne].
  - rewrite lookup_insert_eq, Hlv', Hc', Hf', Hc, Hf, total_size_app, fmap_app. split_and!; [done| |done]. cbn. lia.
  - rewrite lookup_insert_ne, app_nil_r by done. apply Hl.
Qed.

Lemma group_levels_ok l : forall ms levels, levels_ok ms levels -> sized (ms ++ l.*2) ->
  exists levels', group_levels levels l = Ok levels' /\ levels_ok (ms ++ l.*2) levels'.
Proof.
  induction l as [|[i m] l IH]; intros ms levels Hl Hs.
  { exists levels. by rewrite app_nil_r. }
  rewrite fmap_cons in *. cbn [snd group_levels] in *.
  replace (ms ++ m :: l.*2) with ((ms ++ [m]) ++ l.*2) in * by (by rewrite <- app_assoc).
  destruct (level_step ms levels m Hl) as (li' & -> & Hl').
  { destruct Hs as [H1 H2]. apply Forall_app in H1 as [H1 H3]. split; [done|].
    rewrite total_size_app in H2. pose proof (total_size_filter (fun _ => True) l.*2 H3).
    pose proof (total_size_filter (fun _ => False) l.*2 H3). lia. }
  run. by apply IH.
Qed.

Lemma levels_version (m : gmap Z CompactMeta) levels id log ts nm :
  levels_ok (iter m).*2 levels ->
  holds_files m (version.mkVersion id log ts nm (reverse (iter levels).*2)).
Proof.
  intros Hl. unfold holds_files, files_at. cbn [version.levels_info].
  assert (version.lvl <$> (iter levels).*2 = (iter levels).*1) as Hlvl.
  { rewrite <- list_fmap_compose. apply list_fmap_ext. intros i [k li] Hi. cbn.
    specialize (Hl k). apply list_elem_of_lookup_2, elem_of_iter in Hi. rewrite Hi in Hl. by destruct Hl. }
  assert (NoDup (version.lvl <$> reverse (iter levels).*2)) as Hnd.
  { rewrite reverse_Permutation, Hlvl. apply iter_NoDup. }
  split; [done|]. exists bloom. split; [done|]. intros k.
  assert (base.filter (fun li => version.lvl li = k) (reverse (iter levels).*2) = option_list (levels !! k)) as ->.
  { assert (base.filter (fun li => version.lvl li = k) (reverse (iter levels).*2) ≡ₚ option_list (levels !! k)) as Hp.
    { apply NoDup_Permutation.
      - apply NoDup_filter. by apply NoDup_fmap_1 in Hnd.
      - destruct (levels !! k); repeat constructor. by intros ?%elem_of_nil.
      - intros li. rewrite list_elem_of_filter, elem_of_reverse, list_elem_of_fmap. split.
        + intros (Hk & [j li'] & -> & Hin). apply elem_of_iter in Hin. cbn in *. pose proof (Hl j) as Hj.
          rewrite Hin in Hj. destruct Hj as (Hj & _). rewrite <- Hk, Hj, Hin. by constructor.
        + destruct (levels !! k) as [li'|] eqn:E; [|by intros ?%elem_of_nil]. intros ->%list_elem_of_singleton.
          pose proof (Hl k) as Hj. rewrite E in Hj. destruct Hj as (Hj & _). split; [done|].
          exists (k, li'). split; [done|]. by apply elem_of_iter. }
    destruct (levels !! k); cbn in *; [by apply Permutation_singleton_r in Hp|by apply Permutation_nil_r in Hp]. }
  trans ((fun c => version.column_file c bloom) <$> at_level k (iter m).*2).
  - specialize (Hl k). destruct (levels !! k) as [li|]; cbn; [|by rewrite Hl].
    destruct Hl as (_ & _ & ->). by rewrite app_nil_r.
  - unfold at_level. by rewrite iter_perm.
Qed.

(** ** The versions *)

Definition ctx_edit (c : context.GlobalContext) (e : VersionEdit) : context.GlobalContext :=
  let c := if has_seq_no e then context.set_last_seq c (seq_no e) else c in
  if has_file_id e then context.set_file_id c (ed_file_id e) else c.

Definition ctx_after (c : context.GlobalContext) (l : list (Z * list VersionEdit)) : context.GlobalContext :=
  foldl (fun c p => foldl ctx_edit c p.2) c l.

Lemma replay_ctx eds : forall acc, (foldl replay_edit acc eds).1.1.1 = foldl ctx_edit acc.1.1.1 eds.
Proof.
  induction eds as [|e eds IH]; intros acc; [done|]. cbn [foldl]. rewrite IH. by destruct acc as [[[c m] l] t].
Qed.

Lemma replay_min eds : forall acc, i64_MIN <= acc.2 -> i64_MIN <= (foldl replay_edit acc eds).2.
Proof.
  induction eds as [|e eds IH]; intros acc Ha; [done|]. cbn [foldl]. apply IH. destruct acc as [[[c m] l] t]. cbn in *. lia.
Qed.

Definition recovered_version (s : tseries_family.Store) (names : gmap Z string) (vers : gmap Z Z)
    (id : Z) (eds : list VersionEdit) : Prop :=
  exists loc v, vers !! id = Some loc /\ loc < tseries_family.next_loc s /\ tseries_family.versions s !! loc = Some v /\
    version.id v = id /\ names !! id = Some (version.name v) /\ i64_MIN <= version.max_level_ts v /\
    holds_files (files_of eds) v.

Definition distinct (s : tseries_family.Store) (vers : gmap Z Z) : Prop :=
  (forall id loc, vers !! id = Some loc -> loc < tseries_family.next_loc s) /\
  (forall i j loc, vers !! i = Some loc -> vers !! j = Some loc -> i = j).

Lemma group_levels_start (m : gmap Z CompactMeta) : sized (map_to_list m).*2 ->
  exists levels, group_levels ∅ (iter m) = Ok levels /\ levels_ok (iter m).*2 levels.
Proof.
  intros Hs. destruct (group_levels_ok (iter m) [] ∅) as (levels & E & Hl); [|cbn; by apply (sized_perm (map_to_list m).*2); [rewrite iter_perm|]|by exists levels].
  intros k. rewrite lookup_empty. done.
Qed.

Lemma build_versions_ok names l : forall s c vers,
  NoDup l.*1 -> (forall id eds, (id, eds) ∈ l -> is_Some (names !! id) /\ sized (map_to_list (files_of eds)).*2) ->
  distinct s vers -> (forall id, is_Some (vers !! id) -> id ∉ l.*1) ->
  exists s' vers', build_versions s c names l vers = Ok (s', ctx_after c l, vers') /\ distinct s' vers' /\
    tseries_family.receiver s' = tseries_family.receiver s /\ tseries_family.flush_req s' = tseries_family.flush_req s /\
    tseries_family.next_loc s <= tseries_family.next_loc s' /\
    (forall loc, loc < tseries_family.next_loc s -> tseries_family.versions s' !! loc = tseries_family.versions s !! loc) /\
    (forall id, id ∉ l.*1 -> vers' !! id = vers !! id) /\
    (forall id eds, (id, eds) ∈ l -> recovered_version s' names vers' id eds).
Proof.
  induction l as [|[id eds] l IH]; intros s c vers Hnd Hl Hd Hni; cbn [build_versions].
  { exists s, vers. split_and!; try done. by intros ? ? []%elem_of_nil. }
  rewrite fmap_cons in Hnd, Hni. apply NoDup_cons in Hnd as [Hi Hnd]. cbn [fst] in Hi, Hni.
  destruct (Hl id eds) as [[nm Hnm] Hsz]; [by left|]. rewrite Hnm. run.
  pose proof (replay_files eds (c, ∅, 0, i64_MIN)) as Hrf. pose proof (replay_ctx eds (c, ∅, 0, i64_MIN)) as Hrc.
  pose proof (replay_min eds (c, ∅, 0, i64_MIN) ltac:(cbn; lia)) as Hrm.
  destruct (foldl replay_edit _ eds) as [[[c1 m] log] mlt] eqn:Er. cbn [fst snd] in Hrf, Hrc, Hrm.
  change (foldl apply_files ∅ eds) with (files_of eds) in Hrf. subst m c1.
  destruct (group_levels_start (files_of eds) Hsz) as (levels & -> & Hlv). run. unfold alloc_version.
  set (v := version.mkVersion _ _ _ _ _). set (s1 := tseries_family.mkStore _ _ _ _ _ _).
  destruct (IH s1 (foldl ctx_edit c eds) (<[id := tseries_family.next_loc s]> vers)) as
    (s' & vers' & -> & Hd' & Hr & Hq & Hn & Hold & Hother & Hall); [done| | | |].
  - intros i e Hin. apply Hl. by right.
  - destruct Hd as [Hd1 Hd2]. split.
    + intros i loc. destruct (decide (i = id)) as [->|Hne]; [rewrite lookup_insert_eq; intros [= <-]; cbn; lia|].
      rewrite lookup_insert_ne by done. intros H%Hd1. cbn. lia.
    + intros i j loc. destruct (decide (i = id)) as [->|Hi'], (decide (j = id)) as [->|Hj']; [done|..];
        rewrite ?lookup_insert_eq, ?lookup_insert_ne by done.
      * intros [= <-] H%Hd1. lia.
      * intros H%Hd1 [= <-]. lia.
      * by apply Hd2.
  - intros i. destruct (decide (i = id)) as [->|Hne]; [done|]. rewrite lookup_insert_ne by done. intros H%Hni.
    by apply not_elem_of_cons in H as [_ H].
  - exists s', vers'. split_and!; [done|done|done|done|cbn in Hn; lia| | |].
    + intros loc Hloc. rewrite Hold by (cbn; lia). cbn. rewrite lookup_insert_ne; [done|lia].
    + intros i [Hi1 Hi2]%not_elem_of_cons. rewrite Hother by done. by rewrite lookup_insert_ne.
    + intros i e [[= -> ->]|Hin]%elem_of_cons; [|by apply Hall]. exists (tseries_family.next_loc s), v.
      rewrite Hother, lookup_insert_eq by done. split_and!; [done|cbn in Hn; lia| |done|done|done|by apply levels_version].
      rewrite Hold by (cbn; lia). apply lookup_insert_eq.
Qed.

(** ** The file *)

(** The arguments of the calls that write the edits. *)
Definition stored (es : list VersionEdit) (xs : list (Z * Z * list Z)) : Prop :=
  Forall2 (fun e x => exists bs, serialize e = Some bs /\ x = (1, 0, bs) /\ fits READER_BUF_SIZE x) es xs.

Lemma cap_ok : (10 <= READER_BUF_SIZE)%nat.
Proof. unfold READER_BUF_SIZE. lia. Qed.

Lemma read_edits_ok es : forall xs pre r st fuel, stored es xs -> (length es < fuel)%nat ->
  Z.of_nat (length (pre ++ encode_all xs)) < U64 -> at_pos (pre ++ encode_all xs) READER_BUF_SIZE (length pre) r ->
  read_edits fuel (pre ++ encode_all xs) r st = Ok (foldl on_edit st es).
Proof.
  induction es as [|e es IH]; intros xs pre r st fuel Hx Hf Hl Ha; destruct fuel as [|fuel]; try (cbn in Hf; lia).
  - inversion Hx; subst. unfold encode_all in *. cbn [map concat read_edits] in *. rewrite app_nil_r in *.
    destruct (read_at_end READER_BUF_SIZE pre r cap_ok Hl Ha) as [r' Hr]. by rewrite Hr.
  - inversion Hx as [|? ? ? xs' (bs & Hs & -> & Hfit) Hx']; subst. unfold encode_all in *. cbn [map concat] in *.
    fold (encode_all xs') in *. cbn [read_edits foldl].
    destruct (read_encoded READER_BUF_SIZE pre 1 0 bs (encode_all xs') r cap_ok Hfit Hl Ha) as (r' & -> & A).
    unfold decode. cbn [data]. rewrite (deserialize_serialize e bs Hs). run.
    specialize (IH xs' (pre ++ record_facts.encode 1 0 bs) r' (on_edit st e) fuel Hx'). rewrite <- app_assoc in IH.
    apply IH; [cbn in Hf; lia|done|done].
Qed.

Lemma content_store f path d : content (fs.store f path d) path = d.
Proof. unfold content. by rewrite fs.open_same. Qed.

Lemma apply_version_edit_ok es : forall xs f path, stored es xs -> is_Some (fs.open_file f path) ->
  exists f', apply_version_edit f path es = Ok f' /\ fs.open_file f' path = Some (content f path ++ encode_all xs) /\
    (forall p, p <> path -> fs.open_file f' p = fs.open_file f p).
Proof.
  induction es as [|e es IH]; intros xs f path Hx [d Hd].
  { inversion Hx; subst. exists f. unfold encode_all, content. cbn. by rewrite app_nil_r, Hd. }
  inversion Hx as [|? ? ? xs' (bs & Hs & -> & Hfit) Hx']; subst. cbn [apply_version_edit].
  unfold summary.encode. rewrite Hs. cbn [of_option map_err]. run. unfold append. change (edit_type_u8 SummaryEdit) with 0.
  rewrite write_record_ok by apply Hfit. cbn [map_err]. run.
  set (f1 := fs.store f path _). destruct (IH xs' (fs.sync f1 path) path Hx') as (f' & -> & Hc' & Ho).
  { exists (content f path ++ record_facts.encode 1 0 bs). apply fs.open_same. }
  exists f'. rewrite Hc'. change (content (fs.sync f1 path) path) with (content f1 path). unfold f1 at 1.
  rewrite content_store. split_and!; [done|by rewrite <- app_assoc|].
  intros p Hp. rewrite Ho by done. by apply fs.open_other.
Qed.

(** A family that is live has a version with its files, any other has none. *)
Definition recovered (s : tseries_family.Store) (vs : VersionSet) (es : list VersionEdit) : Prop :=
  forall id, match live id es with
             | Some m => exists tf v, ts_families vs !! id = Some tf /\
                 tseries_family.versions s !! tseries_family.version_ tf = Some v /\ version.id v = id /\ holds_files m v
             | None => ts_families vs !! id = None
             end.

Lemma recover_version_ok s c es xs :
  0 < max_memcache_size -> 1 <= tsfamily_num -> tseries_family.receiver s = true -> tseries_family.flush_req s = [] ->
  stored es xs -> Z.of_nat (length (encode_all xs)) < U64 ->
  (forall id m, live id es = Some m -> sized (map_to_list m).*2) ->
  exists s' c' vs st, recover_version s (encode_all xs) c = Ok (s', c', vs) /\
    version_set_facts.pristine s' vs /\ recovered s' vs es /\
    start c = Ok st /\ c' = ctx_after (ctx_ (foldl on_edit st es)) (iter (edits_ (foldl on_edit st es))).
Proof.
  intros Hpos Hn Hr Hq Hx Hl Hsz. unfold recover_version.
  destruct (start_spec c Hn) as (st & -> & Hnm & Hlive & _). run.
  destruct (on_edits_spec es st Hnm) as [Hnm' Hlive'].
  assert (length es <= length (encode_all xs))%nat as Hfuel.
  { clear -Hx. induction Hx as [|e x es xs (bs & _ & -> & _) _ IH]; [done|]. unfold encode_all in *. cbn [map concat length].
    rewrite length_app, length_encode. lia. }
  pose proof (read_edits_ok es xs [] new_reader st (S (length (encode_all xs))) Hx ltac:(lia) Hl) as Hre.
  cbn [app] in Hre. rewrite Hre by (by apply at_pos_new, cap_ok). run. set (st' := foldl on_edit st es) in *.
  assert (forall id, live id es = files_of <$> edits_ st' !! id) as Hle.
  { intros id. rewrite Hlive', Hlive. done. }
  destruct (build_versions_ok (tf_names st') (iter (edits_ st')) s (ctx_ st') ∅) as
    (s1 & vers & -> & Hd & Hr1 & Hq1 & _ & _ & Hother & Hall).
  { apply iter_NoDup. }
  { intros id eds Hin%elem_of_iter. destruct (Hnm' id) as (nm & Hnm1 & _); [by eexists|]. split; [by eexists|].
    apply (Hsz id). by rewrite Hle, Hin. }
  { split; [intros id loc|intros i j loc]; by rewrite lookup_empty. }
  { intros id. rewrite lookup_empty. by intros []. }
  run. destruct (version_set_facts.new_ok s1 (tf_cfg st') vers) as (s2 & vs & -> & Hp & Hv2 & Hvs).
  { done. } { congruence. } { congruence. }
  { intros id vl Hvl. destruct (edits_ st' !! id) as [eds|] eqn:Ee.
    - destruct (Hall id eds) as (loc & v & H1 & _ & H2 & _ & H3 & H4 & _); [by apply elem_of_iter|].
      assert (loc = vl) as -> by congruence. exists v. split_and!; [done|done|].
      destruct (Hnm' id) as (nm & Hnm1 & Hnm2); [by eexists|]. congruence.
    - rewrite Hother in Hvl; [by rewrite lookup_empty in Hvl|].
      intros ([j e] & -> & Hin%elem_of_iter)%list_elem_of_fmap. cbn in Ee. congruence. }
  { apply Hd. }
  cbn [infallible]. run. exists s2, (ctx_after (ctx_ st') (iter (edits_ st'))), vs, st. split_and!; [done|done| |done|done].
  intros id. rewrite Hle. specialize (Hvs id). destruct (edits_ st' !! id) as [eds|] eqn:Ee; cbn.
  - destruct (Hall id eds) as (loc & v & H1 & _ & H2 & H3 & _ & _ & H4); [by apply elem_of_iter|].
    rewrite H1 in Hvs. destruct Hvs as (tf & Htf & Hv). exists tf, v. rewrite Hv, Hv2. done.
  - rewrite Hother, lookup_empty in Hvs; [done|].
    intros ([j e] & -> & Hin%elem_of_iter)%list_elem_of_fmap. cbn in Ee. congruence.
Qed.


End facts.

Section theorems.
Context {G : GlobalConfig} {P : BuildProfile} {PIO : PageIO} {Crc : Crc32} {CR : Crc32Range Crc} {HO : HashOrder}
  {B : Bincode version_edit.VersionEdit} {BL : BincodeLaws B}.

Lemma bloom_new : exists bloom, tsm.new_bloom_filter = Ok bloom.
Proof. by eexists. Qed.

Lemma live_edit_new id es : live id (edit_new :: es) = live id es.
Proof.
  unfold live. cbn [foldl]. f_equal. unfold live_step. destruct (negb _); [done|]. cbn. by destruct (_ && _).
Qed.

(** ** The sizes of the live files *)

Definition logged (es : list VersionEdit) : list CompactMeta := concat (add_files <$> es).

Lemma add_files_Some l : forall (m : gmap Z CompactMeta) k c,
  foldl (fun fs m => <[file_id m := m]> fs) m l !! k = Some c -> m !! k = Some c \/ c ∈ l /\ file_id c = k.
Proof.
  induction l as [|x l IH]; intros m k c H; [by left|]. cbn [foldl] in H. apply IH in H as [H|[H1 H2]].
  - apply lookup_insert_Some in H as [[<- <-]|[_ H]]; [right; split; [by left|done]|by left].
  - right. split; [by right|done].
Qed.

Lemma del_files_Some l : forall (m : gmap Z CompactMeta) k c,
  foldl (fun fs m => delete (file_id m) fs) m l !! k = Some c -> m !! k = Some c.
Proof.
  induction l as [|x l IH]; intros m k c H; [done|]. cbn [foldl] in H. apply IH, lookup_delete_Some in H. by destruct H.
Qed.

Lemma live_logged id es : forall o L, (forall m k c, o = Some m -> m !! k = Some c -> c ∈ L /\ file_id c = k) ->
  forall m k c, foldl (live_step id) o es = Some m -> m !! k = Some c -> c ∈ L ++ logged es /\ file_id c = k.
Proof.
  induction es as [|e es IH]; intros o L Ho m k c; cbn [foldl].
  { unfold logged. cbn. rewrite app_nil_r. apply Ho. }
  unfold logged. rewrite fmap_cons. cbn [concat]. rewrite app_assoc. apply IH. clear IH m k c. intros m k c. unfold live_step.
  assert (forall m k c, o = Some m -> m !! k = Some c -> c ∈ L ++ add_files e /\ file_id c = k) as Ho'.
  { intros m' k' c' H1 H2. destruct (Ho m' k' c' H1 H2). split; [apply elem_of_app; by left|done]. }
  destruct (negb _); [apply Ho'|]. destruct (is_add_tsf e); [intros [= <-]; by rewrite lookup_empty|].
  destruct (is_del_tsf e); [done|]. intros (m0 & -> & ->)%fmap_Some H. unfold apply_files in H.
  apply add_files_Some in H as [H|[H1 H2]]; [|split; [apply elem_of_app; by right|done]].
  apply del_files_Some in H. by apply (Ho' m0).
Qed.

Lemma total_size_sub l1 l2 : l1 ⊆+ l2 -> Forall (fun m => 0 <= file_size m) l2 -> total_size l1 <= total_size l2.
Proof.
  intros [l3 Hp]%submseteq_Permutation Hf. rewrite (total_size_perm _ _ Hp), total_size_app. rewrite Hp in Hf.
  apply Forall_app in Hf as [_ Hf]. pose proof (total_size_filter (fun _ => True) l3 Hf). lia.
Qed.

Lemma sized_live es id m : sized (logged es) -> live id es = Some m -> sized (map_to_list m).*2.
Proof.
  intros [Hs Ht] Hm. assert (forall k c, m !! k = Some c -> c ∈ logged es /\ file_id c = k) as Hin.
  { intros k c. apply (live_logged id es (if (0 <=? id) && (id <? tsfamily_num) then Some ∅ else None) []); [|exact Hm].
    intros m0 k0 c0. destruct (_ && _); [|done]. intros [= <-]. by rewrite lookup_empty. }
  assert ((map_to_list m).*2 ⊆+ logged es) as Hsub.
  { apply NoDup_submseteq.
    - apply (NoDup_fmap_2_strong snd); [|apply NoDup_map_to_list]. intros [i c] [j c'] Hi Hj. cbn. intros ->.
      apply elem_of_map_to_list in Hi, Hj. f_equal. destruct (Hin i c' Hi) as [_ <-]. by destruct (Hin j c' Hj) as [_ <-].
    - intros c ([i c'] & -> & Hi)%list_elem_of_fmap. apply elem_of_map_to_list in Hi. by apply (Hin i). }
  split; [|pose proof (total_size_sub _ _ Hsub Hs); lia].
  apply Forall_forall. intros c Hc. rewrite Forall_forall in Hs. apply Hs. by eapply elem_of_submseteq.
Qed.

(** A process that starts: nothing is queued and the flush job listens. *)
Definition started (s : tseries_family.Store) : Prop :=
  tseries_family.receiver s = true /\ tseries_family.flush_req s = [].

Lemma recover_ok s f db es xs :
  0 < max_memcache_size -> 1 <= tsfamily_num -> started s -> stored es xs -> Z.of_nat (length (encode_all xs)) < U64 ->
  (forall id m, live id es = Some m -> sized (map_to_list m).*2) ->
  fs.open_file f (file_utils.make_summary_file db 0) = Some (encode_all xs) ->
  exists s' sm st, recover s f db = Ok (s', f, sm) /\ path sm = file_utils.make_summary_file db 0 /\
    version_set_facts.pristine s' (version_set_ sm) /\ recovered s' (version_set_ sm) es /\
    start context.new = Ok st /\
    ctx sm = ctx_after (ctx_ (foldl on_edit st es)) (iter (edits_ (foldl on_edit st es))).
Proof.
  intros Hpos Hn [Hr Hq] Hx Hl Hsz Hf. unfold recover, open_record, content. rewrite Hf. run. rewrite Hf.
  change (default [] (Some (encode_all xs))) with (encode_all xs).
  destruct bloom_new as [bloom Hb].
  destruct (recover_version_ok bloom Hb s context.new es xs) as (s' & c & vs & st & -> & H1 & H2 & H3 & H4); [done..|].
  run. eexists _, _, st. split; [reflexivity|]. done.
Qed.

Lemma live_new_sized id m : live id [edit_new] = Some m -> sized (map_to_list m).*2.
Proof.
  rewrite live_edit_new. unfold live. cbn [foldl]. destruct (_ && _); [|done]. intros [= <-].
  rewrite map_to_list_empty. split; [constructor|]. cbn. range.
Qed.

(** A summary that logs nothing but the empty edit starts the log from the beginning. *)
Lemma ctx_after_seq l : forall c, Forall (fun p => Forall (fun e => has_seq_no e = false) p.2) l ->
  context.last_seq (ctx_after c l) = context.last_seq c.
Proof.
  assert (forall es c, Forall (fun e => has_seq_no e = false) es ->
    context.last_seq (foldl ctx_edit c es) = context.last_seq c) as H1.
  { induction es as [|e es IH]; intros c He; [done|]. apply Forall_cons in He as [He Hes]. cbn [foldl]. rewrite IH by done.
    unfold ctx_edit. rewrite He. by destruct (has_file_id e). }
  induction l as [|[i es] l IH]; intros c Hl; [done|]. apply Forall_cons in Hl as [He Hl].
  unfold ctx_after. cbn [foldl snd]. fold (ctx_after (foldl ctx_edit c es) l). by rewrite IH, H1.
Qed.

Lemma empty_last_seq st : start context.new = Ok st ->
  context.last_seq (ctx_after (ctx_ (foldl on_edit st [edit_new])) (iter (edits_ (foldl on_edit st [edit_new])))) = 0.
Proof.
  intros Hst. unfold start in Hst. destruct (_ && _); [done|]. injection Hst as <-.
  set (st := mkRecovery _ _ _ _). assert (context.last_seq (ctx_ st) = 0 /\ map_Forall (fun _ eds => eds = []) (edits_ st)) as [H0 Hn].
  { unfold st. cbn [ctx_ edits_]. generalize (seq 0 (Z.to_nat tsfamily_num)) as l.
    assert (forall l st0, context.last_seq (ctx_ st0) = 0 -> map_Forall (fun _ eds => eds = []) (edits_ st0) ->
      context.last_seq (ctx_ (foldl add_default st0 l)) = 0 /\ map_Forall (fun _ eds => eds = []) (edits_ (foldl add_default st0 l))) as H.
    { induction l as [|i l IH]; intros st0 H1 H2; [done|]. cbn [foldl]. apply IH; [done|]. by apply map_Forall_insert_2. }
    intros l. apply H; [done|apply map_Forall_empty]. }
  cbn [foldl]. unfold on_edit. change (is_add_tsf edit_new) with false. change (is_del_tsf edit_new) with false. cbn iota.
  assert (forall m : gmap Z (list VersionEdit), map_Forall (fun _ eds => Forall (fun e => has_seq_no e = false) eds) m ->
    Forall (fun p => Forall (fun e => has_seq_no e = false) p.2) (iter m)) as Hit.
  { intros m Hm. apply Forall_forall. intros [i es] Hin. apply elem_of_iter in Hin. by apply (Hm i). }
  assert (map_Forall (fun _ eds => Forall (fun e => has_seq_no e = false) eds) (edits_ st)) as Hall.
  { intros i eds Hi. by rewrite (Hn i eds Hi). }
  destruct (edits_ st !! tsf_id edit_new) as [d|] eqn:Ed; cbn [ctx_ edits_]; rewrite ctx_after_seq; try done; apply Hit; [|done].
  apply map_Forall_insert_2; [|done]. apply Forall_app. split; [by apply (Hall _ _ Ed)|]. by repeat constructor.
Qed.

Lemma new_summary_ok s f db xs :
  0 < max_memcache_size -> 1 <= tsfamily_num -> started s -> stored [edit_new] xs ->
  fs.open_file f (file_utils.make_summary_file db 0) = None ->
  fs.writable f (file_utils.make_summary_file db 0) = true ->
  exists s' f' sm, summary.new s f db = Ok (s', f', sm) /\ path sm = file_utils.make_summary_file db 0 /\
    fs.open_file f' (path sm) = Some (encode_all xs) /\ Z.of_nat (length (encode_all xs)) < U64 /\
    (forall p, p <> path sm -> fs.open_file f' p = fs.open_file f p) /\ fs.writable f' = fs.writable f /\
    fs.dirty f' ⊆ fs.dirty f /\ version_set_facts.pristine s' (version_set_ sm) /\ recovered s' (version_set_ sm) [] /\
    context.last_seq (ctx sm) = 0.
Proof.
  intros Hpos Hn Hs Hx Hf Hw. unfold summary.new, open_record. rewrite Hf.
  destruct (fs.create_empty f _ (or_introl Hf) Hw) as (f0 & -> & Hf0 & Hw0 & _ & Hd0 & Ho0). cbn [unwrap]. run.
  inversion Hx as [|? x ? xs' (bs & Hb & -> & Hfit) Hx']; subst. inversion Hx'; subst.
  unfold summary.encode. rewrite Hb. cbn [of_option]. run. unfold append. change (edit_type_u8 SummaryEdit) with 0.
  set (path := file_utils.make_summary_file db 0) in *. rewrite write_record_ok by apply Hfit. cbn [map_err]. run.
  assert (content f0 path = []) as -> by (unfold content; by rewrite Hf0).
  set (f1 := fs.sync (fs.store f0 path _) path). assert (fs.open_file f1 path = Some (encode_all [(1, 0, bs)])) as Hf1.
  { unfold encode_all. cbn [map concat]. rewrite app_nil_r. apply fs.open_same. }
  assert (Z.of_nat (length (encode_all [(1, 0, bs)])) < U64) as Hl.
  { unfold encode_all. cbn [map concat]. rewrite app_nil_r, length_encode. destruct Hfit as (_ & _ & _ & Hlt). range. }
  destruct (recover_ok s f1 db [edit_new] [(1, 0, bs)]) as (s' & sm & st & E & Hp & Hpr & Hrec & Hst & Hctx); try done.
  - apply live_new_sized.
  - exists s', f1, sm. rewrite Hp. split_and!; [exact E|done|done|done| |done| |done| |].
    + intros p Hne. rewrite <- (Ho0 p Hne). by apply fs.open_other.
    + etransitivity; [apply fs.dirty_sync_store|]. rewrite Hd0. apply subseteq_difference_l. done.
    + intros id. specialize (Hrec id). by rewrite live_edit_new in Hrec.
    + rewrite Hctx. by apply empty_last_seq.
Qed.

(** C12. The edits a summary logs are what a later start recovers: for every
    iteration order of the hash maps, each family that was not removed has a
    version whose levels hold exactly its live files, each at its level, the
    other families are gone, and the families are ready to be written to. *)
Theorem summary_recovers s0 s f db es x xs :
  0 < max_memcache_size -> 1 <= tsfamily_num -> started s0 -> started s -> stored (edit_new :: es) (x :: xs) ->
  Z.of_nat (length (encode_all (x :: xs))) < U64 ->
  sized (logged es) ->
  fs.open_file f (file_utils.make_summary_file db 0) = None ->
  fs.writable f (file_utils.make_summary_file db 0) = true ->
  exists s1 f1 sm1 f2 s2 sm2,
    summary.new s0 f db = Ok (s1, f1, sm1) /\ apply_version_edit f1 (path sm1) es = Ok f2 /\
    recover s f2 db = Ok (s2, f2, sm2) /\
    version_set_facts.pristine s2 (version_set_ sm2) /\ recovered s2 (version_set_ sm2) es.
Proof.
  intros Hpos Hn Hs0 Hs Hx Hl Hsz Hf Hw. pose proof Hx as Hall. inversion Hx as [|? ? ? ? Hx0 Hx']; subst.
  destruct (new_summary_ok s0 f db [x]) as (s1 & f1 & sm1 & -> & Hp1 & Hf1 & _); [done..|by constructor|done|done|].
  destruct (apply_version_edit_ok es xs f1 (path sm1) Hx') as (f2 & E2 & Hf2 & _); [by eexists|].
  unfold content in Hf2. rewrite Hf1 in Hf2. cbn [from_option id] in Hf2.
  assert (encode_all [x] ++ encode_all xs = encode_all (x :: xs)) as Hc.
  { unfold encode_all. cbn [map concat]. by rewrite app_nil_r. }
  rewrite Hc, Hp1 in Hf2. destruct (recover_ok s f2 db (edit_new :: es) (x :: xs)) as (s2 & sm2 & st & E & _ & H1 & H2 & _).
  - done.
  - done.
  - done.
  - done.
  - done.
  - intros id m. rewrite live_edit_new. by apply sized_live.
  - done.
  - exists s1, f1, sm1, f2, s2, sm2. split_and!; try done. intros id. rewrite <- live_edit_new. apply H2.
Qed.

(** ** The counter of file numbers *)

(** The edit a flush of family [tsf] logs. *)
Definition flush_edit (e : VersionEdit) : Prop :=
  exists lv tsf seq mlt m, e = add_file edit_new lv tsf (file_id m) seq mlt m.

Lemma flush_edits_ok es : forall st, Forall flush_edit es -> is_Some (edits_ st !! 0) ->
  edits_ (foldl on_edit st es) = <[0 := default [] (edits_ st !! 0) ++ es]> (edits_ st) /\ ctx_ (foldl on_edit st es) = ctx_ st.
Proof.
  induction es as [|e es IH]; intros st He [eds H0].
  { rewrite app_nil_r, H0. cbn. by rewrite insert_id. }
  apply Forall_cons in He as [(lv & tsf & seq & mlt & m & ->) He]. cbn [foldl]. set (e := add_file _ _ _ _ _ _ _).
  assert (on_edit st e = mkRecovery (ctx_ st) (tf_cfg st) (<[0 := eds ++ [e]]> (edits_ st)) (tf_names st)) as ->.
  { unfold on_edit. change (is_add_tsf e) with false. change (is_del_tsf e) with false. change (tsf_id e) with 0.
    cbn iota. by rewrite H0. }
  destruct (IH (mkRecovery (ctx_ st) (tf_cfg st) (<[0 := eds ++ [e]]> (edits_ st)) (tf_names st))) as [H1 H2]; [done| |].
  { cbn. rewrite lookup_insert_eq. by eexists. }
  rewrite H1, H2. cbn [edits_ ctx_]. rewrite lookup_insert_eq, H0, insert_insert_eq. cbn. by rewrite <- app_assoc.
Qed.

Lemma ctx_after_only c l es : NoDup l.*1 -> (0, es) ∈ l -> (forall id eds, (id, eds) ∈ l -> id <> 0 -> eds = []) ->
  ctx_after c l = foldl ctx_edit c es.
Proof.
  intros Hnd (l1 & l2 & ->)%list_elem_of_split Hother. unfold ctx_after. rewrite foldl_app. cbn [foldl snd].
  assert (forall l c, (forall id eds, (id, eds) ∈ l -> eds = []) ->
    foldl (fun c (p : Z * list VersionEdit) => foldl ctx_edit c p.2) c l = c) as Hnil.
  { clear. induction l as [|[i e] l IH]; intros c Hl; [done|]. cbn [foldl snd]. rewrite (Hl i e) by (by left).
    apply IH. intros id eds Hin. apply (Hl id). by right. }
  rewrite fmap_app, fmap_cons in Hnd. apply NoDup_app in Hnd as (_ & Hd & Hnd). apply NoDup_cons in Hnd as [Hd2 _].
  rewrite (Hnil l1), (Hnil l2); [done| |]; intros id eds Hin; apply (Hother id).
  - apply elem_of_app. right. by right.
  - intros ->. apply Hd2. by apply (list_elem_of_fmap_2 fst l2 (0, eds)).
  - apply elem_of_app. by left.
  - intros ->. apply (Hd 0); [by apply (list_elem_of_fmap_2 fst l1 (0, eds))|by left].
Qed.

Lemma live_flush_steps id es : Forall flush_edit es -> forall m0,
  foldl (live_step id) (Some m0) es = Some (if id =? 0 then foldl apply_files m0 es else m0).
Proof.
  induction 1 as [|e es (lv & tsf & seq & mlt & m & ->) _ IH]; intros m0; cbn [foldl]; [by destruct (_ =? _)|].
  unfold live_step at 2. change (tsf_id (add_file _ _ _ _ _ _ _)) with 0. rewrite (Z.eqb_sym 0 id).
  destruct (id =? 0) eqn:E; cbn [negb]; [|by rewrite IH].
  change (is_add_tsf (add_file _ _ _ _ _ _ _)) with false. change (is_del_tsf (add_file _ _ _ _ _ _ _)) with false.
  cbn iota. cbn [fmap option_fmap option_map]. by rewrite IH.
Qed.

Lemma live_flush_edits es id : Forall flush_edit es -> 0 <= id < tsfamily_num ->
  live id es = Some (if id =? 0 then files_of es else ∅).
Proof.
  intros He Hid. unfold live. rewrite (proj2 (Z.leb_le _ _)), (proj2 (Z.ltb_lt _ _)) by lia. by apply live_flush_steps.
Qed.

(** C28. After flushes of any families, recovery finds every file in family 0 and
    none in the others, and it sets the counter of file numbers to the number of
    the last file: the next flush will use a number that names a live file. *)
Theorem recovery_reuses_file_id s f db es e xs :
  0 < max_memcache_size -> 1 <= tsfamily_num -> started s -> Forall flush_edit (es ++ [e]) -> stored (es ++ [e]) xs ->
  Z.of_nat (length (encode_all xs)) < U64 -> sized (logged (es ++ [e])) ->
  fs.open_file f (file_utils.make_summary_file db 0) = Some (encode_all xs) ->
  exists s' sm, recover s f db = Ok (s', f, sm) /\ recovered s' (version_set_ sm) (es ++ [e]) /\
    context.file_id (ctx sm) = ed_file_id e /\
    (exists m, live 0 (es ++ [e]) = Some m /\ is_Some (m !! context.file_id (ctx sm))) /\
    (forall id, 1 <= id < tsfamily_num -> live id (es ++ [e]) = Some ∅).
Proof.
  intros Hpos Hn Hs He Hx Hl Hsz Hf. destruct (recover_ok s f db (es ++ [e]) xs) as (s' & sm & st & E & _ & _ & Hrec & Hst & Hctx);
    [done..|by intros id m; apply sized_live|done|].
  exists s', sm. destruct (start_spec context.new Hn) as (st' & Hst' & _ & Hlive & _ & Hnil).
  assert (st' = st) as -> by congruence. assert (edits_ st !! 0 = Some []) as H0.
  { specialize (Hlive 0). unfold live in Hlive. cbn [foldl] in Hlive. rewrite (proj2 (Z.ltb_lt _ _)) in Hlive by lia.
    cbn in Hlive. destruct (edits_ st !! 0) as [eds|] eqn:E0; [|done]. by rewrite (Hnil 0 eds). }
  destruct (flush_edits_ok (es ++ [e]) st He) as [H1 H2]; [by eexists|]. rewrite H1, H2, H0 in Hctx. cbn [from_option app id] in Hctx.
  rewrite (ctx_after_only _ _ (es ++ [e])) in Hctx.
  2:{ apply iter_NoDup. }
  2:{ apply elem_of_iter, lookup_insert_eq. }
  2:{ intros id eds Hin%elem_of_iter Hne. rewrite lookup_insert_ne in Hin by done. by apply (Hnil id). }
  apply Forall_app in He as [He1 He2]. pose proof He2 as He3. apply Forall_cons in He3 as [(lv & tsf & seq & mlt & m & ->) _].
  assert (context.file_id (ctx sm) = file_id m) as Hid by (rewrite Hctx, foldl_app; done).
  split_and!; [done|done|done| |].
  - exists (files_of (es ++ [add_file edit_new lv tsf (file_id m) seq mlt m])).
    rewrite live_flush_edits by (lia || by apply Forall_app). split; [done|]. rewrite Hid. unfold files_of. rewrite foldl_app.
    cbn. rewrite lookup_insert_eq. by eexists.
  - intros id Hr. rewrite live_flush_edits by (lia || by apply Forall_app). by rewrite (proj2 (Z.eqb_neq _ _)) by lia.
Qed.


End theorems.

(** ** Examples *)

Definition calls {B : Bincode version_edit.VersionEdit} (es : list VersionEdit) : list (Z * Z * list Z) :=
  (fun e => (1, 0, default [] (serialize e))) <$> es.

Definition small {B : Bincode version_edit.VersionEdit} (e : VersionEdit) : bool :=
  match serialize e with Some bs => Z.of_nat (length bs) <=? 65536 | None => false end.

Lemma stored_calls {B : Bincode version_edit.VersionEdit} es : forallb small es = true -> stored es (calls es).
Proof.
  induction es as [|e es IH]; intros H; [constructor|]. cbn [forallb] in H. apply andb_prop in H as [He H].
  constructor; [|by apply IH]. unfold small in He. destruct (serialize e) as [bs|] eqn:Es; [|done]. apply Z.leb_le in He.
  exists bs. split_and!; [done|done|]. unfold fits, is_u8, READER_BUF_SIZE. cbn [from_option id]. lia.
Qed.

Module example.

#[local] Instance two_families : GlobalConfig :=
  mkGlobalConfig 80 0 2 1 1 false "db" "db" true "wal" true 4 0 16 4 64 "tsm/" "delta/" 0 0 "schema" 2.
#[local] Existing Instance bincode_facts.edit_bincode.
#[local] Instance profile : BuildProfile := true.
#[local] Instance pages : PageIO := cursor_facts.page16.
#[local] Instance crc : Crc32 := record_facts.ieee.
#[local] Instance order : HashOrder := {| iter A m := map_to_list m; iter_perm A m := Permutation_refl _ |}.

Definition meta (id lvl : Z) : CompactMeta := mkCompactMeta id 100 10 20 lvl 3 1 (lvl =? 0).

(** Two files of family 0, one of them removed; family 7 is added and removed,
    family 8 added. *)
Definition edits_example : list VersionEdit :=
  [add_file edit_new 0 0 4 3 20 (meta 4 0); add_tsf edit_new 7 "seven" 0; add_file edit_new 1 0 5 3 20 (meta 5 1);
   del_tsf edit_new 7; add_tsf edit_new 8 "eight" 0;
   mkVersionEdit 0 true 9 false 0 [meta 6 1] [meta 4 0] false false 0 "" 30].

Definition flushes_example : list VersionEdit :=
  [add_file edit_new 0 0 4 3 20 (meta 4 0); add_file edit_new 1 1 5 3 20 (meta 5 1)].

Definition empty_store : tseries_family.Store := tseries_family.mkStore ∅ ∅ 0 [] true 0.
Definition no_files : fs.Fs := fs.mkFs ∅ ∅ (fun _ => None) (fun _ => true).
Definition flushed_files : fs.Fs :=
  fs.mkFs {[file_utils.make_summary_file "db" 0 := encode_all (calls (flushes_example ++ [add_file edit_new 1 0 6 3 20 (meta 6 1)]))]}
    ∅ (fun _ => None) (fun _ => true).

End example.

Import example.

Lemma summary_recovers_witness :
  let P := profile in let G := two_families in let B := bincode_facts.edit_bincode in let C := crc in let HO := order in let PG := pages in
  exists s1 f1 sm1 f2 s2 sm2,
    summary.new empty_store no_files "db" = Ok (s1, f1, sm1) /\ apply_version_edit f1 (path sm1) edits_example = Ok f2 /\
    recover empty_store f2 "db" = Ok (s2, f2, sm2) /\
    version_set_facts.pristine s2 (version_set_ sm2) /\ recovered s2 (version_set_ sm2) edits_example.
Proof.
  intros P G B C HO PG. apply (summary_recovers empty_store empty_store no_files "db" edits_example
    (1, 0, default [] (serialize edit_new)) (calls edits_example)).
  - done.
  - done.
  - done.
  - done.
  - apply (stored_calls (edit_new :: edits_example)). vm_compute. reflexivity.
  - vm_compute. reflexivity.
  - split; [|vm_compute; reflexivity]. repeat (constructor; [done|]). constructor.
  - done.
  - done.
Defined.

Lemma recovery_reuses_file_id_witness :
  let P := profile in let G := two_families in let B := bincode_facts.edit_bincode in let C := crc in let HO := order in let PG := pages in
  let e := add_file edit_new 1 0 6 3 20 (meta 6 1) in
  exists s' sm, recover empty_store flushed_files "db" = Ok (s', flushed_files, sm) /\
    recovered s' (version_set_ sm) (flushes_example ++ [e]) /\ context.file_id (ctx sm) = ed_file_id e /\
    (exists m, live 0 (flushes_example ++ [e]) = Some m /\ is_Some (m !! context.file_id (ctx sm))) /\
    (forall id, 1 <= id < tsfamily_num -> live id (flushes_example ++ [e]) = Some ∅).
Proof.
  intros P G B C HO PG e.
  apply (recovery_reuses_file_id empty_store flushed_files "db" flushes_example e (calls (flushes_example ++ [e]))).
  - done.
  - done.
  - done.
  - constructor; [by exists 0, 0, 3, 20, (meta 4 0)|]. constructor; [by exists 1, 1, 3, 20, (meta 5 1)|].
    constructor; [by exists 1, 0, 3, 20, (meta 6 1)|constructor].
  - apply stored_calls. vm_compute. reflexivity.
  - vm_compute. reflexivity.
  - split; [|vm_compute; reflexivity]. repeat (constructor; [done|]). constructor.
  - apply lookup_singleton_eq.
Defined.

End summary_facts.
