(* ===== verification/Flush.v ===== *)
(** * Flushing caches to files (tskv/src/compaction/flush.rs)

    A flush groups the entries of the queued caches by field, builds one block
    per field, writes a delta file and a TSM file, adds each file to its level of
    the version and records it in an edit for the summary.

    The theorems relate what a flush writes to what the level reader
    ([version.read_files]) later finds. *)
From S2P Require Import Prelude Varint StringCodec Sorting Utils Models MemCache FileIO DataBlock Tsm TsmFacts.
From S2P Require Import Version TseriesFamily VersionSet.

Module flush.
Import field_info memcache tseries_family version_set context version_edit.

(** ** Definitions *)

Section flush.
Context {G : GlobalConfig} {V : VarInt} {Sn : Snap} {P : BuildProfile} {PIO : PageIO} {Crc : Crc32} {HO : HashOrder}.

(** [for (field_id, entry) in data]: the number of cells and the entries of each
    field so far; [usize] sums are exact. *)
Definition gather_entry (acc : gmap Z nat * gmap Z (list MemEntry)) (p : Z * MemEntry)
    : gmap Z nat * gmap Z (list MemEntry) :=
  let '(field_size, field_map) := acc in
  let '(field_id, entry) := p in
  (<[field_id := (default 0 (field_size !! field_id) + length (cells entry))%nat]> field_size,
   <[field_id := default [] (field_map !! field_id) ++ [entry]]> field_map).

Definition gather (delta : bool) (mems : list MemCache) : gmap Z nat * gmap Z (list MemEntry) :=
  foldl (fun acc m => if bool_decide (memcache.is_delta m = delta) then foldl gather_entry acc (iter (data_cache m)) else acc)
    (∅, ∅) mems.

(** The sequence numbers of the request. *)
Definition seq_range (mems : list MemCache) : Z * Z :=
  foldl (fun '(high, low) m =>
      (if high <? memcache.seq_no m then memcache.seq_no m else high,
       if memcache.seq_no m <? low then memcache.seq_no m else low))
    (0, u64_MAX) mems.

(** [for entry in entrys.iter()]. *)
Definition add_entry (acc : block.DataBlock * Z * Z) (entry : MemEntry) : block.DataBlock * Z * Z :=
  let '(blk, tmax, tmin) := acc in
  (block.batch_insert blk (cells entry),
   if tmax <? memcache.ts_max entry then memcache.ts_max entry else tmax,
   if memcache.ts_min entry <? tmin then memcache.ts_min entry else tmin).

(** [for (fid, entrys) in field_map]. *)
Fixpoint build_blocks (field_size : gmap Z nat) (l : list (Z * list MemEntry)) (tmax tmin : Z)
    (block_set : gmap Z block.DataBlock) : outcome tsm_error (gmap Z block.DataBlock * Z * Z) :=
  match l with
  | [] => Ok (block_set, tmax, tmin)
  | (fid, entrys) :: l' =>
      size ← unwrap (field_size !! fid);
      entry ← unwrap (head entrys);
      blk ← block.new size (memcache.field_type entry);
      let '(blk, tmax, tmin) := foldl add_entry (blk, tmax, tmin) entrys in
      build_blocks field_size l' tmax tmin (<[fid := blk]> block_set)
  end.

Definition build_block_set (field_size : gmap Z nat) (field_map : gmap Z (list MemEntry)) (tmax tmin : Z)
    : outcome tsm_error (gmap Z block.DataBlock * Z * Z) :=
  build_blocks field_size (iter field_map) tmax tmin ∅.

(** [build_tsm_file]: the file at [fname] and its length. *)
Definition build_tsm_file (s : fs.Fs) (fname : string) (block_set : gmap Z block.DataBlock)
    : outcome tsm_error (fs.Fs * Z) :=
  s ← unwrap (fs.create_file s fname);
  c ← tsm.build_tsm_file_on (bytes_file.mkCursor (default [] (fs.open_file s fname)) 0) block_set;
  let s := fs.sync (fs.store s fname (bytes_file.data c)) fname in
  Ok (s, Z.of_nat (length (bytes_file.data c))).

(** [while version.levels_info.len() <= level]. *)
Definition grow_levels (levels : list version.LevelInfo) (level : nat) : list version.LevelInfo :=
  levels ++ (version.init ∘ Z.of_nat <$> seq (length levels) (S level - length levels)).

(** What a flush task changes. *)
Record World := mkWorld {
  store : Store; fsys : fs.Fs; kernel : GlobalContext; edits : list VersionEdit }.

Definition lift {E A} (m : outcome E A) : outcome tsm_error A :=
  match m with Ok a => Ok a | OutOfFuel => OutOfFuel | _ => Panic end.

Definition build_tsm_file_workflow (w : World) (vs : VersionSet) (meta : CompactMeta)
    (block_set : gmap Z block.DataBlock) (tsf : Z) (path : string) (low high tmax tmin : Z)
    (level : nat) (delta : bool) : outcome tsm_error (World * CompactMeta) :=
  let fname := if delta then file_utils.make_delta_file_name path (version_edit.file_id meta)
               else file_utils.make_tsm_file_name path (version_edit.file_id meta) in
  '(f, file_size) ← build_tsm_file (fsys w) fname block_set;
  let meta := mkCompactMeta (version_edit.file_id meta) file_size tmin tmax (u32 (Z.of_nat level)) high low delta in
  tf ← unwrap (get_tsfamily vs tsf);
  let s := store w in
  v ← unwrap (versions s !! version_ tf);
  let levels := grow_levels (version.levels_info v) level in
  lv ← get levels level;
  lv ← lift (version.apply lv meta);
  let levels := <[level := lv]> levels in
  let v := version.mkVersion (version.id v) (version.last_seq v) (version.max_level_ts v) (version.name v) levels in
  let s := mkStore (caches s) (<[version_ tf := v]> (versions s)) (next_loc s) (flush_req s) (receiver s) (sent s) in
  let edit := add_file edit_new (version_edit.level meta) tsf (version_edit.file_id meta) high
                (version.max_level_ts v) meta in
  Ok (mkWorld s f (kernel w) (edits w ++ [edit]), meta).

Definition with_file_id (m : CompactMeta) (id : Z) : CompactMeta :=
  mkCompactMeta id (file_size m) (version_edit.ts_min m) (version_edit.ts_max m) (level m) (high_seq m) (low_seq m)
    (version_edit.is_delta m).

(** One of the two halves of [FlushTask::run]; the error of the workflow is
    [expect]ed away. *)
Definition run_half (w : World) (vs : VersionSet) (meta : CompactMeta) (mems : list MemCache) (tsf : Z) (path : string)
    (level : nat) (delta : bool) : outcome tsm_error (World * CompactMeta) :=
  let '(high, low) := seq_range mems in
  let '(field_size, field_map) := gather delta mems in
  '(block_set, tmax, tmin) ← build_block_set field_size field_map i64_MIN i64_MAX;
  if bool_decide (block_set = ∅) then Ok (w, meta)
  else
    let meta := with_file_id meta (context.file_id (kernel w)) in
    let w := mkWorld (store w) (fsys w) (context.file_id_next (kernel w)) (edits w) in
    version.expect (build_tsm_file_workflow w vs meta block_set tsf path low high tmax tmin level delta).

(** [i.read().await] of every cache. *)
Definition read_mems (s : Store) (ls : list Z) : outcome tsm_error (list MemCache) :=
  lift (mapM (deref s) ls).

Record FlushTask := mkFlushTask {
  mems_ : list Z; tsf_id : Z; path_tsm : string; path_delta : string }.

Definition run (w : World) (vs : VersionSet) (t : FlushTask) : outcome tsm_error World :=
  mems ← read_mems (store w) (mems_ t);
  '(w, meta) ← run_half w vs meta_new mems (tsf_id t) (path_delta t) 0 true;
  '(w, meta) ← run_half w vs meta mems (tsf_id t) (path_tsm t) 1 false;
  Ok w.

(** [mems[tf].push(mem)] after growing the vector. *)
Definition push_mem (mems : list (list Z)) (p : Z * Z) : list (list Z) :=
  let i := Z.to_nat p.1 in
  let mems := mems ++ replicate (S i - length mems) [] in
  alter (fun l => l ++ [p.2]) i mems.

Definition group_mems (reqs : list FlushReq) : list (list Z) :=
  foldl push_mem [] (concat (mems <$> reqs)).

Fixpoint run_tasks (w : World) (vs : VersionSet) (cfg : gmap Z kv_option.TseriesFamOpt) (i : nat) (mems : list (list Z))
    : outcome tsm_error World :=
  match mems with
  | [] => Ok w
  | memtables :: mems' =>
      w ← (match memtables with
           | [] => Ok w
           | _ =>
               let o := default kv_option.default_opt (cfg !! Z.of_nat i) in
               run w vs (mkFlushTask memtables (Z.of_nat i)
                 (kv_option.tsm_dir o +:+ file_utils.to_string (Z.of_nat i))
                 (kv_option.delta_dir o +:+ file_utils.to_string (Z.of_nat i)))
           end);
      run_tasks w vs cfg (S i) mems'
  end.

(** The queue is cleared, every family with caches is flushed, and the edits are
    sent to the summary: they are the [edits] of the result. *)
Definition run_flush_memtable_job (s : Store) (f : fs.Fs) (k : GlobalContext) (vs : VersionSet)
    (cfg : gmap Z kv_option.TseriesFamOpt) : outcome tsm_error World :=
  let mems := group_mems (flush_req s) in
  let s := mkStore (caches s) (versions s) (next_loc s) [] (receiver s) (sent s) in
  run_tasks (mkWorld s f k []) vs cfg 0 mems.

End flush.
End flush.

Module flush_facts.
Import field_info memcache tseries_family version_set context version_edit flush.
Import block_facts tsm_facts.

Section facts.
Context {G : GlobalConfig} {V : VarInt} {L : VarIntLaws V} {Sn : Snap} {SL : SnapLaws Sn} {P : BuildProfile}
  {PIO : PageIO} {Crc : Crc32} {HO : HashOrder}.

(** ** What a flush collects *)

(** The entries of a field in the caches of one kind, and their cells. *)
Definition entries_in (delta : bool) (mems : list MemCache) (fid : Z) : list MemEntry :=
  omap (fun m => if bool_decide (memcache.is_delta m = delta) then data_cache m !! fid else None) mems.

Definition field_cells (delta : bool) (mems : list MemCache) (fid : Z) : list DataType :=
  concat (memcache.cells <$> entries_in delta mems fid).

(** A map that holds a list, the empty list for an absent key. *)
Definition listed {A} (m : gmap Z (list A)) (f : Z -> list A) : Prop :=
  forall fid, m !! fid = match f fid with [] => None | es => Some es end.

Lemma listed_default {A} (m : gmap Z (list A)) f fid : listed m f -> default [] (m !! fid) = f fid.
Proof. intros H. rewrite H. by destruct (f fid). Qed.

Lemma gather_entries l : forall acc (f : Z -> list MemEntry), NoDup l.*1 -> listed acc.2 f ->
  (forall fid, is_Some (acc.2 !! fid) -> is_Some (acc.1 !! fid)) ->
  let acc' := foldl gather_entry acc l in
  listed acc'.2 (fun fid => f fid ++ option_list (list_to_map (M := gmap Z MemEntry) l !! fid)) /\
  (forall fid, is_Some (acc'.2 !! fid) -> is_Some (acc'.1 !! fid)).
Proof.
  induction l as [|[k e] l IH]; intros [sz mp] f Hnd Hl Hs.
  { split; [|done]. intros fid. cbn. by rewrite app_nil_r. }
  rewrite fmap_cons in Hnd. apply NoDup_cons in Hnd as [Hni Hnd]. cbn [foldl fst snd] in *.
  set (f' := fun fid => f fid ++ (if decide (fid = k) then [e] else [])).
  destruct (IH (gather_entry (sz, mp) (k, e)) f' Hnd) as [H1 H2].
  - intros fid. unfold f'. cbn [gather_entry fst snd]. destruct (decide (fid = k)) as [->|Hne].
    + rewrite lookup_insert_eq, (listed_default mp f) by done. by destruct (f k).
    + by rewrite lookup_insert_ne, app_nil_r by done.
  - intros fid. cbn [gather_entry fst snd]. destruct (decide (fid = k)) as [->|Hne].
    + rewrite !lookup_insert_eq. by eexists.
    + rewrite !lookup_insert_ne by done. apply Hs.
  - split; [|done]. intros fid. rewrite H1. unfold f'. cbn [list_to_map foldr].
    destruct (decide (fid = k)) as [->|Hne].
    + rewrite lookup_insert_eq. rewrite (not_elem_of_list_to_map_1 l k) by done. cbn [option_list]. by rewrite app_nil_r.
    + by rewrite lookup_insert_ne, app_nil_r by done.
Qed.

Lemma gather_spec delta mems :
  listed (gather delta mems).2 (entries_in delta mems) /\
  (forall fid, is_Some ((gather delta mems).2 !! fid) -> is_Some ((gather delta mems).1 !! fid)).
Proof.
  unfold gather. set (step := fun acc m => _).
  assert (forall ms acc f, listed acc.2 f -> (forall fid, is_Some (acc.2 !! fid) -> is_Some (acc.1 !! fid)) ->
    listed (foldl step acc ms).2 (fun fid => f fid ++ entries_in delta ms fid) /\
    (forall fid, is_Some ((foldl step acc ms).2 !! fid) -> is_Some ((foldl step acc ms).1 !! fid))) as H.
  { induction ms as [|m ms IH]; intros acc f Hl Hs.
    { split; [|done]. intros fid. cbn. by rewrite app_nil_r. }
    cbn [foldl]. set (f' := fun fid => f fid ++ (if bool_decide (memcache.is_delta m = delta)
      then option_list (data_cache m !! fid) else [])).
    assert (listed (step acc m).2 f' /\ (forall fid, is_Some ((step acc m).2 !! fid) -> is_Some ((step acc m).1 !! fid))) as [H1 H2].
    { unfold step, f'. case_bool_decide; [|split; [intros fid; by rewrite app_nil_r|done]].
      destruct (gather_entries (iter (data_cache m)) acc f) as [G1 G2]; [apply iter_NoDup|done|done|].
      split; [|done]. intros fid. rewrite G1. by rewrite iter_to_map. }
    destruct (IH (step acc m) f' H1 H2) as [G1 G2]. split; [|done]. intros fid. rewrite G1. unfold f', entries_in.
    rewrite <- app_assoc. cbn.
    destruct (bool_decide (memcache.is_delta m = delta)); [by destruct (data_cache m !! fid)|done]. }
  destruct (H mems (∅, ∅) (fun _ => [])) as [H1 H2]; [|by intros fid []|done].
  intros fid. apply lookup_empty.
Qed.

(** ** The blocks *)

Lemma batch_insert_app b l1 l2 : block.batch_insert b (l1 ++ l2) = block.batch_insert (block.batch_insert b l1) l2.
Proof. revert b. induction l1 as [|d l1 IH]; intros b; [done|]. apply IH. Qed.

Lemma batch_insert_cells l : forall b, val_len b = block.len b -> Forall (fun d => cell_type d = block.field_type b) l ->
  all_cells (block.batch_insert b l) = all_cells b ++ l.
Proof.
  induction l as [|d l IH]; intros b Hv Hl; [by rewrite app_nil_r|]. inversion_clear Hl as [|? ? Hd Hl'].
  cbn [block.batch_insert]. assert (val_len (block.insert b d) = block.len (block.insert b d) /\
    all_cells (block.insert b d) = all_cells b ++ [d] /\ block.field_type (block.insert b d) = block.field_type b)
    as (Hv' & Hc & Ht).
  { destruct b as [i t v|i t v|i t v|i t v|i t v], d as [[]|[]|[]|[]|[]]; try discriminate Hd; unfold block.len in *;
      cbn [block.insert block.block_ts val_len all_cells block.field_type memcache.ts memcache.val] in *;
      rewrite !length_app; cbn [length]; rewrite zip_with_app by done; split_and!; done || lia. }
  rewrite IH by (rewrite ?Ht; done). by rewrite Hc, <- app_assoc.
Qed.

(** A field whose cells have one type and make a block the format can hold. *)
Definition typed (ft : ValueType) (e : MemEntry) : Prop :=
  memcache.field_type e = ft /\ Forall (fun d => cell_type d = ft) (memcache.cells e).

Definition flushable_field (es : list MemEntry) : Prop :=
  exists ft b, block.new (E := tsm_error) 0 ft = Ok b /\ Forall (typed ft) es /\
    storable (block.batch_insert b (concat (memcache.cells <$> es))).

Lemma new_block_facts {E} n ft b :
  block.new (E := E) n ft = Ok b -> all_cells b = [] /\ block.field_type b = ft /\ val_len b = block.len b.
Proof. destruct ft; intros [= <-]; done. Qed.

Lemma add_entries es : forall blk tmax tmin, exists tmax' tmin',
  foldl add_entry (blk, tmax, tmin) es = (block.batch_insert blk (concat (memcache.cells <$> es)), tmax', tmin') /\
  tmax <= tmax' /\ tmin' <= tmin /\
  Forall (fun e => memcache.ts_max e <= tmax' /\ tmin' <= memcache.ts_min e) es.
Proof.
  induction es as [|e es IH]; intros blk tmax tmin; [exists tmax, tmin; by split_and!|].
  cbn [foldl add_entry]. destruct (IH (block.batch_insert blk (memcache.cells e))
    (if tmax <? memcache.ts_max e then memcache.ts_max e else tmax)
    (if memcache.ts_min e <? tmin then memcache.ts_min e else tmin)) as (tmax' & tmin' & -> & H1 & H2 & H3).
  exists tmax', tmin'. rewrite fmap_cons. cbn [concat]. rewrite batch_insert_app.
  destruct (Z.ltb_spec tmax (memcache.ts_max e)), (Z.ltb_spec (memcache.ts_min e) tmin);
    (split_and!; [done|lia|lia|]; constructor; [lia|done]).
Qed.

Definition block_holds (bs : gmap Z block.DataBlock) (tmax tmin : Z) (p : Z * list MemEntry) : Prop :=
  exists b, bs !! p.1 = Some b /\ storable b /\ all_cells b = concat (memcache.cells <$> p.2) /\
    Forall (fun e => memcache.ts_max e <= tmax /\ tmin <= memcache.ts_min e) p.2.

Lemma build_blocks_spec sz l : forall tmax tmin bs, NoDup l.*1 ->
  Forall (fun p => is_Some (sz !! p.1) /\ flushable_field p.2 /\ p.2 <> []) l ->
  exists bs' tmax' tmin', build_blocks sz l tmax tmin bs = Ok (bs', tmax', tmin') /\
    tmax <= tmax' /\ tmin' <= tmin /\ Forall (block_holds bs' tmax' tmin') l /\
    (forall fid, fid ∉ l.*1 -> bs' !! fid = bs !! fid).
Proof.
  induction l as [|[fid es] l IH]; intros tmax tmin bs Hnd Hl; [exists bs, tmax, tmin; by split_and!|].
  rewrite fmap_cons in Hnd. apply NoDup_cons in Hnd as [Hni Hnd]. inversion_clear Hl as [|? ? ([n Hn] & Hf & Hne) Hl'].
  cbn [fst snd] in *. cbn [build_blocks]. rewrite Hn. cbn [unwrap]. run.
  destruct Hf as (ft & b & Hb & Hty & Hst). destruct es as [|e es]; [done|]. cbn [head unwrap]. run.
  assert (memcache.field_type e = ft) as -> by (inversion Hty as [|? ? [? _]]; done).
  assert (block.new (E := tsm_error) n ft = Ok b) as -> by exact Hb. run.
  destruct (add_entries (e :: es) b tmax tmin) as (tmax1 & tmin1 & -> & H1 & H2 & H3).
  destruct (new_block_facts _ _ _ Hb) as (Hc & Hft & Hvl).
  set (blk := block.batch_insert b _) in *.
  destruct (IH tmax1 tmin1 (<[fid := blk]> bs) Hnd Hl') as (bs' & tmax' & tmin' & -> & G1 & G2 & G3 & G4).
  exists bs', tmax', tmin'. split_and!; [done|lia|lia| |].
  - constructor; [|done]. exists blk. cbn [fst snd]. rewrite G4, lookup_insert_eq by done. split_and!; [done|done| |].
    + unfold blk. rewrite batch_insert_cells, Hc by (done || (rewrite Hft; apply Forall_concat, Forall_fmap;
        eapply Forall_impl; [exact Hty|]; by intros ? [_ ?])). done.
    + eapply Forall_impl; [exact H3|]. cbn. lia.
  - intros k Hk. rewrite fmap_cons in Hk. apply not_elem_of_cons in Hk as [Hk1 Hk2]. cbn [fst] in Hk1.
    rewrite G4 by done. by rewrite lookup_insert_ne.
Qed.

(** What [build_block_set] makes of the collected entries. *)
Definition flushable (delta : bool) (mems : list MemCache) : Prop :=
  forall fid, entries_in delta mems fid <> [] -> is_u64 fid /\ flushable_field (entries_in delta mems fid).

Lemma build_block_set_spec delta mems :
  flushable delta mems -> exists bs tmax tmin,
    build_block_set (gather delta mems).1 (gather delta mems).2 i64_MIN i64_MAX = Ok (bs, tmax, tmin) /\
    (forall fid b, bs !! fid = Some b -> is_u64 fid /\ storable b /\ all_cells b = field_cells delta mems fid /\
       entries_in delta mems fid <> []) /\
    (forall fid, bs !! fid = None -> entries_in delta mems fid = []) /\
    (forall fid, Forall (fun e => memcache.ts_max e <= tmax /\ tmin <= memcache.ts_min e) (entries_in delta mems fid)).
Proof.
  intros Hf. destruct (gather_spec delta mems) as [Hl Hs]. set (sz := (gather delta mems).1) in *.
  set (mp := (gather delta mems).2) in *. unfold build_block_set.
  assert (forall fid es, (fid, es) ∈ iter mp <-> es = entries_in delta mems fid /\ es <> []) as Hin.
  { intros fid es. rewrite elem_of_iter, Hl. destruct (entries_in delta mems fid);
      (split; [by intros [= <-]|by intros [-> ?]]). }
  destruct (build_blocks_spec sz (iter mp) i64_MIN i64_MAX ∅) as (bs & tmax & tmin & E & _ & _ & Hh & Hother).
  { apply iter_NoDup. }
  { apply Forall_forall. intros [fid es] Hp. cbn [fst snd]. pose proof (proj1 (Hin _ _) Hp) as [-> Hne].
    split_and!; [|by apply Hf|done]. apply Hs. rewrite elem_of_iter in Hp. by eexists. }
  exists bs, tmax, tmin. split; [exact E|]. rewrite Forall_forall in Hh.
  assert (forall fid, entries_in delta mems fid = [] -> bs !! fid = None) as Hnone.
  { intros fid He. rewrite Hother; [apply lookup_empty|]. intros ([k es] & -> & Hp)%list_elem_of_fmap.
    apply Hin in Hp as [-> ?]. done. }
  assert (forall fid, entries_in delta mems fid <> [] -> block_holds bs tmax tmin (fid, entries_in delta mems fid)) as Hsome.
  { intros fid Hne. by apply Hh, Hin. }
  split_and!.
  - intros fid b Hb. destruct (decide (entries_in delta mems fid = [])) as [He|Hne]; [by rewrite Hnone in Hb|].
    destruct (Hsome fid Hne) as (b' & Hb' & Hst & Hc & _). cbn [fst] in Hb'. rewrite Hb in Hb'. injection Hb' as <-.
    split_and!; [by apply Hf|done|done|done].
  - intros fid Hb. destruct (decide (entries_in delta mems fid = [])) as [He|Hne]; [done|].
    destruct (Hsome fid Hne) as (b' & Hb' & _). cbn [fst] in Hb'. congruence.
  - intros fid. destruct (decide (entries_in delta mems fid = [])) as [->|Hne]; [constructor|].
    by destruct (Hsome fid Hne) as (_ & _ & _ & _ & ?).
Qed.

(** ** Reading a flushed file *)

Lemma read_built (bs : gmap Z block.DataBlock) :
  map_Forall (fun fid b => is_u64 fid /\ storable b) bs ->
  exists c, tsm.build_tsm_file bs = Ok c /\
    let file := bytes_file.data c in
    (Z.of_nat (length file) < Prelude.U64 -> forall fid r,
      version.read_file (bytes_file.mkCursor file 0) (Z.of_nat (length file)) fid r =
      Ok (base.filter (in_window r) (match bs !! fid with Some b => all_cells b | None => [] end))).
Proof.
  intros Hbs. destruct (tsm_file_ok bs Hbs) as (c & Hc & Hread). exists c. split; [done|]. cbv zeta. intros Hlen fid r.
  destruct (Hread Hlen) as (rd & es & Hnew & Hcol & Hdom & Hcells & _).
  unfold version.read_file. rewrite Hnew. cbn [version.expect]. run. rewrite Nat2Z.id, Hcol. cbn [version.expect]. run.
  change (version.blocks_of fid es) with (tsm.fblock <$> entries_of fid es).
  destruct (bs !! fid) as [b|] eqn:Hb.
  - destruct (Hcells fid b Hb) as (chunks & Hd & <-).
    destruct (read_blocks_ok (bytes_file.data c) r _ _ Hd 0) as (c' & ->). by run.
  - assert (entries_of fid es = []) as ->; [|by run].
    destruct (entries_of fid es) as [|e l] eqn:He; [done|]. exfalso.
    assert (e ∈ entries_of fid es) as Hin by (rewrite He; by left).
    apply list_elem_of_filter in Hin as [Hfid Hin]. destruct (Hdom e Hin) as (fid' & Hf & [b Hb']). congruence.
Qed.

(** The name of a column file. *)
Definition col_path (delta : bool) (tf id : Z) : string :=
  if delta then delta_dir +:+ file_utils.to_string tf +:+ "/_" +:+ file_utils.fmt06 id +:+ ".delta"
  else tsm_dir +:+ file_utils.to_string tf +:+ "/_" +:+ file_utils.fmt06 id +:+ ".tsm".

Lemma string_app_assoc (a b c : string) : (a +:+ b) +:+ c = a +:+ b +:+ c.
Proof. induction a as [|x a IH]; [done|].
  change (String x ((a +:+ b) +:+ c) = String x (a +:+ b +:+ c)). by rewrite IH.
Qed.

Lemma col_path_inj d1 d2 tf i1 i2 :
  is_u64 i1 -> is_u64 i2 -> col_path d1 tf i1 = col_path d2 tf i2 -> d1 = d2 /\ i1 = i2.
Proof.
  intros H1 H2 E. unfold col_path in E. destruct d1, d2; rewrite <- !string_app_assoc in E.
  - split; [done|]. rewrite !(string_app_assoc _ (file_utils.fmt06 _)) in E. by apply name_facts.fmt06_inj in E.
  - exfalso. revert E. by apply name_facts.last_char_ne.
  - exfalso. revert E. by apply name_facts.last_char_ne.
  - split; [done|]. rewrite !(string_app_assoc _ (file_utils.fmt06 _)) in E. by apply name_facts.fmt06_inj in E.
Qed.

Lemma file_reader_path s f tf :
  version.file_reader s f tf =
  (fun v : list Z => (bytes_file.mkCursor v 0, Z.of_nat (length v))) <$>
    fs.files s !! col_path (version.cf_is_delta f) tf (version.cf_file_id f).
Proof.
  unfold version.file_reader, col_path, fs.open_file. cbn [kv_option.delta_dir kv_option.tsm_dir kv_option.default_opt].
  destruct (version.cf_is_delta f); cbv zeta; by destruct (fs.files s !! _).
Qed.

Lemma flush_name (delta : bool) tf id :
  (if delta then file_utils.make_delta_file_name (delta_dir +:+ file_utils.to_string tf) id
   else file_utils.make_tsm_file_name (tsm_dir +:+ file_utils.to_string tf) id) = col_path delta tf id.
Proof. unfold file_utils.make_delta_file_name, file_utils.make_tsm_file_name, col_path. destruct delta; apply string_app_assoc. Qed.

(** Files whose names are not touched read the same. *)
Lemma read_files_frame s s' tf fid r fl :
  Forall (fun f => fs.files s' !! col_path (version.cf_is_delta f) tf (version.cf_file_id f) =
                   fs.files s !! col_path (version.cf_is_delta f) tf (version.cf_file_id f)) fl ->
  version.read_files s' fl tf fid r = version.read_files s fl tf fid r.
Proof.
  induction 1 as [|f fl Hf _ IH]; [done|]. cbn [version.read_files]. by rewrite !file_reader_path, Hf, IH.
Qed.

Lemma read_files_app s fl1 fl2 tf fid r o1 o2 :
  version.read_files s fl1 tf fid r = Ok o1 -> version.read_files s fl2 tf fid r = Ok o2 ->
  version.read_files s (fl1 ++ fl2) tf fid r = Ok (o1 ++ o2).
Proof.
  revert o1. induction fl1 as [|f fl1 IH]; intros o1 H1 H2; cbn [version.read_files app] in *; [by injection H1 as <-|].
  bind_inv H1. bind_inv H1. injection H1 as <-.
  erewrite IH by done. run. by rewrite app_assoc.
Qed.

(** ** One file *)

(** The bytes a flush of one kind of cache writes. *)
Definition flush_image (delta : bool) (mems : list MemCache) : list Z :=
  match build_block_set (gather delta mems).1 (gather delta mems).2 i64_MIN i64_MAX with
  | Ok (bs, _, _) => match tsm.build_tsm_file bs with Ok c => bytes_file.data c | _ => [] end
  | _ => []
  end.

Definition level_at (v : version.Version) (k : nat) : version.LevelInfo :=
  default (version.init (Z.of_nat k)) (version.levels_info v !! k).

(** Every file of the version has a number below [n]. *)
Definition ids_below (n : Z) (v : version.Version) : Prop :=
  Forall (fun lv => Forall (fun f => 0 <= version.cf_file_id f < n) (version.files lv)) (version.levels_info v).

Lemma ids_below_at n v k : ids_below n v -> Forall (fun f => 0 <= version.cf_file_id f < n) (version.files (level_at v k)).
Proof.
  intros H. unfold level_at. destruct (version.levels_info v !! k) as [lv|] eqn:E; cbn [default from_option]; [|constructor].
  unfold ids_below in H. rewrite Forall_forall in H. apply H. by apply list_elem_of_lookup_2 in E.
Qed.

Lemma lookup_grow levels k j :
  (j < length levels)%nat -> grow_levels levels k !! j = levels !! j.
Proof. intros Hj. unfold grow_levels. by rewrite lookup_app_l. Qed.

Lemma lookup_grow_default levels k j :
  default (version.init (Z.of_nat j)) (grow_levels levels k !! j) = default (version.init (Z.of_nat j)) (levels !! j).
Proof.
  destruct (decide (j < length levels)%nat) as [Hj|Hj]; [by rewrite lookup_grow|].
  unfold grow_levels. rewrite lookup_app_r, (lookup_ge_None_2 levels j) by lia. rewrite list_lookup_fmap.
  destruct (seq _ _ !! _) as [i|] eqn:E; [|done]. apply lookup_seq in E as [-> _]. cbn. do 2 f_equal. lia.
Qed.

Lemma lookup_grow_at levels k : is_Some (grow_levels levels k !! k).
Proof.
  apply lookup_lt_is_Some_2. unfold grow_levels. rewrite length_app, length_fmap, length_seq. lia.
Qed.

Lemma grow_levels_below n levels k :
  Forall (fun lv => Forall (fun f => 0 <= version.cf_file_id f < n) (version.files lv)) levels ->
  Forall (fun lv => Forall (fun f => 0 <= version.cf_file_id f < n) (version.files lv)) (grow_levels levels k).
Proof. intros H. apply Forall_app. split; [done|]. apply Forall_fmap, Forall_true. intros i. constructor. Qed.

Lemma level_at_insert v k lv i j l nm ml :
  level_at (version.mkVersion i l ml nm (<[k := lv]> (grow_levels (version.levels_info v) k))) j =
  if decide (j = k) then lv else level_at v j.
Proof.
  unfold level_at. cbn [version.levels_info]. destruct (decide (j = k)) as [->|Hne].
  - destruct (lookup_grow_at (version.levels_info v) k) as [x Hx].
    rewrite list_lookup_insert_eq by (by eapply lookup_lt_Some). done.
  - rewrite list_lookup_insert_ne by done. apply lookup_grow_default.
Qed.

(** A new file of the level returns the cells in the window. *)
Lemma read_new_file s cf tf fid r data cs tmax tmin :
  fs.files s !! col_path (version.cf_is_delta cf) tf (version.cf_file_id cf) = Some data ->
  version.deleted cf = false -> version.cf_range cf = time_range.mkTimeRange tmax tmin ->
  version.read_file (bytes_file.mkCursor data 0) (Z.of_nat (length data)) fid r = Ok (base.filter (in_window r) cs) ->
  Forall (fun d => tmin <= timestamp d <= tmax) cs ->
  version.read_files s [cf] tf fid r = Ok (base.filter (in_window r) cs).
Proof.
  intros Hf Hd Hr Hread Hcs. cbn [version.read_files]. rewrite file_reader_path, Hf, Hd. cbn [fmap option_fmap option_map orb].
  destruct (version.overlap cf r) eqn:Ho; cbn [negb].
  - rewrite Hread. run. by rewrite app_nil_r.
  - run. f_equal. symmetry. unfold version.overlap, time_range.overlaps in Ho. rewrite Hr in Ho.
    cbn [time_range.min_ts time_range.max_ts] in Ho. apply negb_false_iff, orb_true_iff in Ho.
    rewrite !Z.ltb_lt in Ho. apply filter_none. eapply Forall_impl; [exact Hcs|]. unfold in_window. cbn. lia.
Qed.

(** The cells of a field lie in the bounds of its entries. *)
Lemma field_cells_bounds delta mems fid tmax tmin :
  Forall family_facts.bounded mems ->
  Forall (fun e => memcache.ts_max e <= tmax /\ tmin <= memcache.ts_min e) (entries_in delta mems fid) ->
  Forall (fun d => tmin <= timestamp d <= tmax) (field_cells delta mems fid).
Proof.
  intros Hb He. unfold field_cells. apply Forall_concat, Forall_fmap, Forall_forall. intros e Hin.
  rewrite Forall_forall in He. destruct (He e Hin) as [H1 H2].
  apply list_elem_of_omap in Hin as (m & Hm & Hl). case_bool_decide; [|done].
  rewrite Forall_forall in Hb. specialize (Hb m Hm fid e Hl). cbn in Hb.
  eapply Forall_impl; [exact Hb|]. cbn. lia.
Qed.

(** What one half of a flush leaves behind: the caches and the paths that can be
    written are as before, the version keeps its times, and a level reads as
    before, with the flushed cells added to level [k]. *)
Record half_done (w w' : World) (vl tsf : Z) (v : version.Version) (k : nat) (delta : bool) (mems : list MemCache) : Prop := {
  hd_caches : caches (store w') = caches (store w);
  hd_queue : flush_req (store w') = flush_req (store w);
  hd_next : next_loc (store w') = next_loc (store w) /\ receiver (store w') = receiver (store w);
  hd_writable : fs.writable (fsys w') = fs.writable (fsys w) /\ fs.held (fsys w') = fs.held (fsys w);
  hd_id : context.file_id (kernel w) <= context.file_id (kernel w') <= context.file_id (kernel w) + 1;
  hd_other : forall vl', vl' <> vl -> versions (store w') !! vl' = versions (store w) !! vl';
  hd_version : exists v', versions (store w') !! vl = Some v' /\
    version.max_level_ts v' = version.max_level_ts v /\
    ids_below (context.file_id (kernel w')) v' /\
    (forall j, j <> k -> level_at v' j = level_at v j) /\
    forall j fid r old, version.read_columnfile (fsys w) (level_at v j) tsf fid r = Ok old ->
      version.read_columnfile (fsys w') (level_at v' j) tsf fid r =
      Ok (old ++ (if decide (j = k) then base.filter (in_window r) (field_cells delta mems fid) else [])) }.

Definition dir_of (delta : bool) : string := if delta then delta_dir else tsm_dir.

(** The level has room for the file, and its name can be written. *)
Definition ready (w : World) (v : version.Version) (tsf : Z) (k : nat) (delta : bool) (mems : list MemCache) : Prop :=
  flushable delta mems /\
  0 <= version.cur_size (level_at v k) /\
  version.cur_size (level_at v k) + Z.of_nat (length (flush_image delta mems)) < Prelude.U64 /\
  fs.writable (fsys w) (col_path delta tsf (context.file_id (kernel w))) = true /\
  fs.held (fsys w) (col_path delta tsf (context.file_id (kernel w))) = None.

Lemma half_none w vl tsf v k delta mems :
  versions (store w) !! vl = Some v -> ids_below (context.file_id (kernel w)) v ->
  (forall fid, entries_in delta mems fid = []) -> half_done w w vl tsf v k delta mems.
Proof.
  intros Hv Hid Hnone. constructor; [done|done|done|done|lia|done|]. exists v. split_and!; try done.
  intros j fid r old ->. unfold field_cells. rewrite Hnone. cbn. destruct (decide _); by rewrite app_nil_r.
Qed.

Lemma run_half_ok w vs meta mems tsf k delta tf v :
  Forall family_facts.bounded mems -> ready w v tsf k delta mems ->
  get_tsfamily vs tsf = Some tf -> versions (store w) !! version_ tf = Some v ->
  ids_below (context.file_id (kernel w)) v -> 0 <= context.file_id (kernel w) -> context.file_id (kernel w) + 1 < Prelude.U64 ->
  exists w' meta', run_half w vs meta mems tsf (dir_of delta +:+ file_utils.to_string tsf) k delta = Ok (w', meta') /\
    half_done w w' (version_ tf) tsf v k delta mems.
Proof.
  intros Hb (Hf & Hcur0 & Hcur & Hwr & Hlive) Htf Hv Hids Hid0 Hid1. unfold run_half.
  destruct (seq_range mems) as [high low]. destruct (build_block_set_spec delta mems Hf) as (bs & tmax & tmin & E & Hbs & Hno & Hbd).
  unfold flush_image in Hcur. rewrite E in Hcur. rewrite (surjective_pairing (gather delta mems)), E. run.
  case_bool_decide as Hempty.
  { exists w, meta. split; [done|]. apply half_none; [done|done|]. intros fid. apply Hno. rewrite Hempty. apply lookup_empty. }
  destruct (read_built bs) as (c & Hc & Hread).
  { intros fid b Hb'. destruct (Hbs fid b Hb') as (? & ? & _). done. }
  rewrite Hc in Hcur. cbv zeta in Hread. set (data := bytes_file.data c) in *. set (id := context.file_id (kernel w)) in *.
  unfold build_tsm_file_workflow, build_tsm_file. cbn [version_edit.file_id with_file_id fsys kernel store edits].
  assert ((if delta then file_utils.make_delta_file_name (dir_of delta +:+ file_utils.to_string tsf) id
    else file_utils.make_tsm_file_name (dir_of delta +:+ file_utils.to_string tsf) id) = col_path delta tsf id) as ->.
  { rewrite <- flush_name. by destruct delta. }
  destruct (fs.create_empty _ _ (or_intror Hlive) Hwr) as (f0 & -> & Hf0 & Hw0 & Hl0 & _ & Ho0). cbn [unwrap]. run.
  rewrite Hf0. change (default [] (Some [])) with (@nil Z). unfold tsm.build_tsm_file in Hc. rewrite Hc. run. fold data. rewrite Htf. cbn [unwrap]. run. rewrite Hv. cbn [unwrap]. run.
  unfold get. destruct (lookup_grow_at (version.levels_info v) k) as [lv Hlv]. rewrite Hlv. cbn [unwrap]. run.
  assert (lv = level_at v k) as ->.
  { unfold level_at. by rewrite <- (lookup_grow_default _ k), Hlv. }
  unfold version.apply. assert (exists bloom, tsm.new_bloom_filter = Ok bloom) as (bloom & ->) by (by eexists). run.
  cbn [version_edit.file_size]. rewrite add_u64_ok by (Prelude.range). run. cbn [lift]. run. cbn [version.expect].
  eexists _, _. split; [reflexivity|]. set (cf := version.column_file _ bloom).
  assert (u64 (id + 1) = id + 1) as Hnext by (apply u64_id; Prelude.range).
  constructor; cbn [store fsys kernel caches flush_req fs.store fs.sync fs.writable fs.held fs.files context.file_id_next context.file_id];
    [done|done|done|done|fold id; rewrite Hnext; lia| |].
  { intros vl' Hne. cbn [versions]. by rewrite lookup_insert_ne. }
  cbn [versions]. rewrite lookup_insert_eq. eexists. split; [reflexivity|]. split; [done|]. fold id. rewrite Hnext.
  split_and!.
  - unfold ids_below. cbn [version.levels_info]. apply Forall_insert.
    + apply grow_levels_below. eapply Forall_impl; [exact Hids|]. intros lv' H. eapply Forall_impl; [exact H|]. cbn. lia.
    + cbn [version.files]. apply Forall_app. split; [|by repeat constructor; cbn; lia].
      eapply Forall_impl; [by apply ids_below_at|]. cbn. lia.
  - intros j Hj. rewrite level_at_insert. by rewrite decide_False.
  - intros j fid r old Hold. rewrite level_at_insert. unfold version.read_columnfile in *.
    set (s' := fs.sync _ _). assert (version.read_files s' (version.files (level_at v j)) tsf fid r = Ok old) as Hold'.
    { rewrite <- Hold. apply read_files_frame. eapply Forall_impl; [by apply ids_below_at|]. cbn. intros f Hfid.
      etransitivity; [refine (fs.open_other f0 _ data _ _)|refine (Ho0 _ _)];
        (intros Hp; apply col_path_inj in Hp as [_ Hp]; [lia|Prelude.range|Prelude.range]). }
    destruct (decide (j = k)) as [->|Hne]; [|by rewrite app_nil_r]. cbn [version.files].
    apply read_files_app; [exact Hold'|].
    apply (read_new_file s' cf tsf fid r data _ tmax tmin); [by apply lookup_insert_eq|done|done| |].
    + rewrite Hread by lia. do 2 f_equal. destruct (bs !! fid) as [b|] eqn:Eb; [by apply Hbs in Eb as (_ & _ & -> & _)|].
      unfold field_cells. by rewrite (Hno fid Eb).
    + by apply field_cells_bounds.
Qed.

(** ** A flush task *)

Lemma read_mems_ok s ls ms :
  Forall2 (fun l m => caches s !! l = Some m) ls ms -> read_mems s ls = Ok ms.
Proof.
  intros H. unfold read_mems. assert (mapM (deref s) ls = Ok ms) as ->; [|done].
  induction H as [|l m ls ms Hl _ IH]; [done|].
  assert (deref s l = Ok m) as Hd by (unfold deref; by rewrite Hl). cbn. rewrite Hd. cbn. by rewrite IH.
Qed.

(** The cells a flush adds to level [j] for a field. *)
Definition flushed_to (mems : list MemCache) (j : nat) (fid : Z) : list DataType :=
  match j with O => field_cells true mems fid | 1%nat => field_cells false mems fid | _ => [] end.

(** What a task needs: the caches, its directories, file numbers that are not in
    use, files that can be created and are not held, and room in the two levels. *)
Record task_ready (w : World) (vs : VersionSet) (t : FlushTask) (tf : TseriesFamily) (v : version.Version)
    (mems : list MemCache) : Prop := {
  tr_mems : Forall2 (fun l m => caches (store w) !! l = Some m) (mems_ t) mems;
  tr_bounded : Forall family_facts.bounded mems;
  tr_delta : path_delta t = delta_dir +:+ file_utils.to_string (flush.tsf_id t);
  tr_tsm : path_tsm t = tsm_dir +:+ file_utils.to_string (flush.tsf_id t);
  tr_family : get_tsfamily vs (flush.tsf_id t) = Some tf;
  tr_version : versions (store w) !! version_ tf = Some v;
  tr_ids : ids_below (context.file_id (kernel w)) v;
  tr_id : 0 <= context.file_id (kernel w) /\ context.file_id (kernel w) + 2 < Prelude.U64;
  tr_write : forall delta id, context.file_id (kernel w) <= id ->
    fs.writable (fsys w) (col_path delta (flush.tsf_id t) id) = true /\
    fs.held (fsys w) (col_path delta (flush.tsf_id t) id) = None;
  tr_flushable : forall delta, flushable delta mems;
  tr_room : forall j delta, 0 <= version.cur_size (level_at v j) /\
    version.cur_size (level_at v j) + Z.of_nat (length (flush_image delta mems)) < Prelude.U64 }.

Lemma run_ok w vs t tf v mems :
  task_ready w vs t tf v mems ->
  exists w' v', run w vs t = Ok w' /\ caches (store w') = caches (store w) /\
    flush_req (store w') = flush_req (store w) /\ next_loc (store w') = next_loc (store w) /\
    receiver (store w') = receiver (store w) /\
    versions (store w') !! version_ tf = Some v' /\ version.max_level_ts v' = version.max_level_ts v /\
    forall j fid r old, version.read_columnfile (fsys w) (level_at v j) (flush.tsf_id t) fid r = Ok old ->
      version.read_columnfile (fsys w') (level_at v' j) (flush.tsf_id t) fid r =
      Ok (old ++ base.filter (in_window r) (flushed_to mems j fid)).
Proof.
  intros [Hmems Hb Hpd Hpt Htf Hv Hids [Hid0 Hid2] Hwr Hfl Hroom]. unfold run.
  rewrite (read_mems_ok _ _ _ Hmems). run. rewrite Hpd, Hpt.
  destruct (run_half_ok w vs meta_new mems (flush.tsf_id t) 0 true tf v) as (w1 & meta1 & E1 & [C1 Q1 [N1 P1] [W1 X1] I1 _ (v1 & V1 & M1 & B1 & L1 & R1)]);
    [done|split_and!; [apply Hfl|apply (Hroom 0%nat true)|apply Hroom|apply Hwr; lia..]|done|done|done|done|lia|].
  change (dir_of true) with delta_dir in E1. rewrite E1. run.
  destruct (run_half_ok w1 vs meta1 mems (flush.tsf_id t) 1 false tf v1) as (w2 & meta2 & E2 & [C2 Q2 [N2 P2] [W2 X2] I2 _ (v2 & V2 & M2 & B2 & L2 & R2)]);
    [done|unfold ready; rewrite W1, X1; split_and!; rewrite ?(L1 1%nat) by done;
      [apply Hfl|apply (Hroom 1%nat false)|apply Hroom|apply Hwr; lia..]|done|done|done|lia|lia|].
  change (dir_of false) with tsm_dir in E2. rewrite E2. run.
  exists w2, v2. split_and!; [done|by rewrite C2, C1|by rewrite Q2, Q1|by rewrite N2, N1|by rewrite P2, P1|done|by rewrite M2, M1|].
  intros j fid r old Hold. rewrite (R2 j fid r _ (R1 j fid r old Hold)), <- app_assoc. do 2 f_equal.
  destruct j as [|[|j]]; cbn [flushed_to]; repeat (rewrite decide_False by done || rewrite decide_True by done);
    by rewrite ?app_nil_r.
Qed.

(** ** The flush job *)

Lemma push_mem_lookup acc p i :
  default [] (push_mem acc p !! i) = default [] (acc !! i) ++ (if decide (Z.to_nat p.1 = i) then [p.2] else []).
Proof.
  unfold push_mem. set (acc' := acc ++ _).
  assert (default [] (acc' !! i) = default [] (acc !! i)) as Hd.
  { unfold acc'. destruct (decide (i < length acc)%nat); [by rewrite lookup_app_l|].
    rewrite lookup_app_r, (lookup_ge_None_2 acc i) by lia. destruct (replicate _ _ !! _) as [x|] eqn:E; [|done].
    by apply lookup_replicate in E as [-> _]. }
  destruct (decide (Z.to_nat p.1 = i)) as [<-|Hne].
  - rewrite list_lookup_alter, <- Hd. destruct (lookup_lt_is_Some_2 acc' (Z.to_nat p.1)) as [x Hx].
    + unfold acc'. rewrite length_app, length_replicate. lia.
    + by rewrite decide_True, Hx.
  - by rewrite list_lookup_alter, decide_False, Hd, app_nil_r.
Qed.

Lemma group_mems_lookup reqs i :
  Forall (fun p => 0 <= p.1) (concat (mems <$> reqs)) ->
  default [] (group_mems reqs !! i) = family_facts.queued_of (Z.of_nat i) reqs.
Proof.
  intros Hpos. unfold group_mems, family_facts.queued_of.
  assert (forall l acc, Forall (fun p => 0 <= p.1) l -> default [] (foldl push_mem acc l !! i) =
    default [] (acc !! i) ++ (snd <$> base.filter (fun p => p.1 = Z.of_nat i) l)) as H.
  { induction l as [|p l IH]; intros acc Hl; [by rewrite app_nil_r|]. inversion_clear Hl. cbn [foldl].
    rewrite IH by done. rewrite push_mem_lookup, <- app_assoc, filter_cons. f_equal.
    destruct (decide (Z.to_nat p.1 = i)), (decide (p.1 = Z.of_nat i)); done || lia. }
  by rewrite H.
Qed.

Lemma run_tasks_app w vs cfg a : forall w0 i b, run_tasks w0 vs cfg i a = Ok w ->
  run_tasks w0 vs cfg i (a ++ b) = run_tasks w vs cfg (i + length a) b.
Proof.
  induction a as [|l a IH]; intros w0 i b H; cbn [run_tasks app length] in *.
  - injection H as ->. by rewrite Nat.add_0_r.
  - bind_inv H. run. rewrite (IH _ _ _ H). by rewrite Nat.add_succ_r.
Qed.

Lemma run_tasks_none w vs cfg a : forall i, Forall (fun l => l = []) a -> run_tasks w vs cfg i a = Ok w.
Proof. intros i H. revert i. induction H as [|l a -> _ IH]; intros i; [done|]. cbn [run_tasks]. run. apply IH. Qed.

Lemma run_tasks_one w vs mems n l :
  (forall i, i <> n -> default [] (mems !! i) = []) -> mems !! n = Some l -> l <> [] ->
  run_tasks w vs ∅ 0 mems =
  run w vs (mkFlushTask l (Z.of_nat n) (tsm_dir +:+ file_utils.to_string (Z.of_nat n))
    (delta_dir +:+ file_utils.to_string (Z.of_nat n))).
Proof.
  intros Ho Hn Hne. rewrite <- (take_drop_middle mems n l Hn).
  assert (length (take n mems) = n) as Hlen by (rewrite length_take; apply lookup_lt_Some in Hn; lia).
  rewrite (run_tasks_app w); [|apply run_tasks_none].
  - rewrite Hlen. cbn [Nat.add run_tasks]. destruct l as [|x l]; [done|]. rewrite lookup_empty. cbn [default from_option].
    cbn [kv_option.tsm_dir kv_option.delta_dir kv_option.default_opt]. destruct (run _ _ _); run; try done.
    apply run_tasks_none. apply Forall_lookup_2. intros i y Hy. rewrite lookup_drop in Hy.
    specialize (Ho (S n + i)%nat). rewrite Hy in Ho. apply Ho. lia.
  - apply Forall_lookup_2. intros i y Hy. pose proof (lookup_lt_Some _ _ _ Hy). rewrite lookup_take_lt in Hy by lia.
    specialize (Ho i). rewrite Hy in Ho. apply Ho. lia.
Qed.

Lemma field_cells_cons delta m ms fid :
  field_cells delta (m :: ms) fid =
  (if bool_decide (memcache.is_delta m = delta) then cells_of m fid else []) ++ field_cells delta ms fid.
Proof.
  unfold field_cells, entries_in, cells_of. cbn [omap list_omap].
  destruct (bool_decide (memcache.is_delta m = delta)); [|done]. by destruct (data_cache m !! fid).
Qed.

Lemma content_mems s ls ms fid : Forall2 (fun l m => caches s !! l = Some m) ls ms ->
  Permutation (family_facts.content s ls fid) (field_cells true ms fid ++ field_cells false ms fid).
Proof.
  induction 1 as [|l m ls ms Hl _ IH]; [done|]. unfold family_facts.content in *. cbn [fmap list_fmap concat].
  rewrite IH, !field_cells_cons. unfold family_facts.cells_at. rewrite Hl.
  destruct (memcache.is_delta m);
    [rewrite bool_decide_true, bool_decide_false by done|rewrite bool_decide_false, bool_decide_true by done];
    cbn [app]; [by rewrite app_assoc|].
  by rewrite Permutation_app_swap_app.
Qed.

(** ** Theorems *)

(** C4. The flush job hands every queued point of one family over to the files.
    Suppose that only this family has requests, that every column of its caches
    can be stored in a block ([flushable]), that no file of its version has a
    number at or above the counter, that the files of these numbers can be created
    and are not held, and that the sizes of the two levels do not overflow.  Then
    the job succeeds, empties the queue, keeps the family consistent and its caches
    as they were, and afterwards a level of the family reads what it read before
    followed by the flushed points in the window, those of delta caches in level 0
    and the others in level 1, which together are exactly the points that were
    queued. *)
Theorem flush_job_keeps_points s f n fsy k vs v ms :
  family_facts.inv s f -> tseries_family.tf_id f = Z.of_nat n ->
  Forall (fun p => p.1 = tseries_family.tf_id f) (concat (mems <$> flush_req s)) -> family_facts.queued s f <> [] ->
  task_ready (mkWorld (family_facts.drained s) fsy k []) vs
    (mkFlushTask (family_facts.queued s f) (Z.of_nat n) (tsm_dir +:+ file_utils.to_string (Z.of_nat n))
       (delta_dir +:+ file_utils.to_string (Z.of_nat n))) f v ms ->
  exists w' v', run_flush_memtable_job s fsy k vs ∅ = Ok w' /\
    family_facts.inv (store w') f /\ flush_req (store w') = [] /\
    (forall fid, family_facts.content (store w') (family_facts.owned f) fid =
                 family_facts.content s (family_facts.owned f) fid) /\
    versions (store w') !! version_ f = Some v' /\
    (forall j fid r old, version.read_columnfile fsy (level_at v j) (Z.of_nat n) fid r = Ok old ->
      version.read_columnfile (fsys w') (level_at v' j) (Z.of_nat n) fid r =
      Ok (old ++ base.filter (in_window r) (flushed_to ms j fid))) /\
    (forall fid, Permutation (family_facts.content s (family_facts.queued s f) fid)
                   (flushed_to ms 0 fid ++ flushed_to ms 1 fid)).
Proof.
  intros Hi Hn Hall Hne Hr. destruct (run_ok _ _ _ _ _ _ Hr) as (w' & v' & E & Hc & Hq & Hnext & Hrec & Hv' & Hm & Hread).
  pose proof (tr_version _ _ _ _ _ _ Hr) as Hv. pose proof (tr_mems _ _ _ _ _ _ Hr) as Hms. cbn [store family_facts.drained mems_] in *.
  assert (Forall (fun p => 0 <= p.1) (concat (mems <$> flush_req s))) as Hpos.
  { eapply Forall_impl; [exact Hall|]. cbn. lia. }
  assert (forall i, default [] (group_mems (flush_req s) !! i) = if decide (i = n) then family_facts.queued s f else []) as Hg.
  { intros i. rewrite group_mems_lookup by done. destruct (decide (i = n)) as [->|Hi']; [by rewrite <- Hn|].
    unfold family_facts.queued_of. rewrite (filter_none (fun p => p.1 = Z.of_nat i)); [done|].
    eapply Forall_impl; [exact Hall|]. cbn. lia. }
  exists w', v'. split; [|split; [|split; [done|split; [|split; [done|split; [exact Hread|]]]]]].
  - unfold run_flush_memtable_job. rewrite (run_tasks_one _ vs _ n (family_facts.queued s f)); [exact E| | |done].
    + intros i Hi'. by rewrite Hg, decide_False.
    + specialize (Hg n). rewrite decide_True in Hg by done. destruct (group_mems (flush_req s) !! n); cbn in Hg; congruence.
  - apply (family_facts.env_inv (family_facts.drained s)); [by apply family_facts.drained_inv|].
    split_and!; [by intros; rewrite Hc| |cbn in *; lia|done|exists []; by rewrite Hq].
    intros v0 Hv0. exists v'. split; [done|]. rewrite Hv in Hv0. injection Hv0 as <-. done.
  - intros fid. apply family_facts.content_same. intros l _. by rewrite Hc.
  - intros fid. by apply content_mems.
Qed.

End facts.
(** ** Witness *)

Module example.
Import family_facts.

#[local] Existing Instance small_config.
#[local] Instance varint : VarInt := leb128.varint.
#[local] Instance snap : Snap := string_codec.stored.
#[local] Instance profile : BuildProfile := true.
#[local] Instance pages : PageIO := cursor_facts.page16.
#[local] Instance crc : Crc32 := fun l => Z.of_nat (length l).
#[local] Instance order : HashOrder := {| iter A m := map_to_list m; iter_perm A m := Permutation_refl _ |}.

(** The family after eight points, three of them late. *)
Definition s := the_store (puts state0 example_times).
Definition f := the_family (puts state0 example_times).
Definition fsy := fs.mkFs ∅ ∅ (fun _ => None) (fun _ => true).
Definition vs := mkVersionSet {[0 := f]} ∅.
Definition v := version.mkVersion 0 0 8 "default0" [].
Definition ms : list MemCache := omap (fun l => caches s !! l) (queued s f).

Lemma consistent : inv s f.
Proof.
  destruct (puts_reachable example_times state0) as (s1 & f1 & E & Hr).
  - exists (the_store state0), (the_family state0). split; [reflexivity|]. by eapply (reach_new 40 store0 0 0 0 opt0).
  - repeat constructor; Prelude.range.
  - eexists _, _. vm_compute. reflexivity.
  - unfold s, f. rewrite E. by apply (reachable_consistent 40).
Qed.

Lemma omap_lookup_all (st : Store) fsy k ls : Forall (fun l => is_Some (caches st !! l)) ls ->
  Forall2 (fun l m => caches (store (mkWorld (drained st) fsy k [])) !! l = Some m) ls (omap (fun l => caches st !! l) ls).
Proof. cbn [store drained caches]. induction 1 as [|l ls [m Hm] _ IH]; [constructor|]. cbn [omap list_omap]. rewrite Hm. by constructor. Qed.

Lemma only_seven delta fid : fid <> 7 -> entries_in delta ms fid = [].
Proof.
  intros Hf. assert (Forall (fun m => dom (data_cache m) = {[7]}) ms) as Hd.
  { apply (bool_decide_unpack _). vm_compute. exact I. }
  unfold entries_in. induction Hd as [|m l Hm _ IH]; [done|]. cbn [omap list_omap].
  assert (data_cache m !! fid = None) as ->; [|by destruct (bool_decide _)].
  apply not_elem_of_dom. rewrite Hm. by rewrite elem_of_singleton.
Qed.

Definition is_bool_cell (d : DataType) : bool := match d with Bool _ => true | _ => false end.

Lemma seven_flushable delta : flushable delta ms.
Proof.
  intros fid Hne. destruct (decide (fid = 7)) as [->|Hf]; [|by rewrite only_seven in Hne].
  split; [by vm_compute|]. exists Boolean, (block.BBool 0 [] []). split; [done|].
  destruct delta; vm_compute (entries_in _ ms 7);
    (split; [by repeat constructor|]; split_and!; [split_and!; cbn; lia|split; [by repeat constructor|right; by repeat constructor]| |done|done]);
    by repeat constructor.
Qed.

Lemma ready :
  task_ready (mkWorld (drained s) fsy (context.new) []) vs
    (mkFlushTask (queued s f) 0 (tsm_dir +:+ file_utils.to_string 0) (delta_dir +:+ file_utils.to_string 0)) f v ms.
Proof.
  constructor.
  - refine (omap_lookup_all s fsy context.new (queued s f) _). apply (bool_decide_unpack _). vm_compute. exact I.
  - unfold bounded. apply (bool_decide_unpack _). vm_compute. exact I.
  - reflexivity.
  - reflexivity.
  - vm_compute. reflexivity.
  - vm_compute. reflexivity.
  - constructor.
  - split; [vm_compute; discriminate|vm_compute; reflexivity].
  - done.
  - intros delta. apply seven_flushable.
  - intros j delta. assert (level_at v j = version.init (Z.of_nat j)) as -> by (by destruct j).
    cbn [version.cur_size version.init]. split; [vm_compute; discriminate|]. destruct delta; vm_compute; reflexivity.
Qed.

End example.

Lemma flush_job_keeps_points_witness :
  let G := family_facts.small_config in let V := leb128.varint in let Sn := string_codec.stored in
  let P : BuildProfile := true in let PIO := cursor_facts.page16 in let Crc : Crc32 := fun l => Z.of_nat (length l) in
  let HO := example.order in let s := example.s in let f := example.f in
  exists w' v', run_flush_memtable_job s example.fsy context.new example.vs ∅ = Ok w' /\
    family_facts.inv (store w') f /\ flush_req (store w') = [] /\
    (forall fid, family_facts.content (store w') (family_facts.owned f) fid =
                 family_facts.content s (family_facts.owned f) fid) /\
    versions (store w') !! version_ f = Some v' /\
    (forall j fid r old, version.read_columnfile example.fsy (level_at example.v j) 0 fid r = Ok old ->
      version.read_columnfile (fsys w') (level_at v' j) 0 fid r =
      Ok (old ++ base.filter (in_window r) (flushed_to example.ms j fid))) /\
    (forall fid, Permutation (family_facts.content s (family_facts.queued s f) fid)
                   (flushed_to example.ms 0 fid ++ flushed_to example.ms 1 fid)).
Proof.
  intros G V Sn P PIO Crc HO s f.
  apply (flush_job_keeps_points s f 0 example.fsy context.new example.vs example.v example.ms).
  - apply example.consistent.
  - reflexivity.
  - vm_compute. repeat constructor.
  - vm_compute. discriminate.
  - exact example.ready.
Defined.

End flush_facts.
