(* ===== verification/KvCore.v ===== *)
(** * The storage engine (tskv/src/kvcore.rs)

    [kv_core] composes the components: opening an engine (summary, write-ahead
    log, forward index), writing a batch (index, then log, then caches), reading a
    field of a series, and deleting a range.  The jobs the engine spawns take tasks
    off channels; the log job is the [wal_job] of the engine, which is gone after
    it panicked, the flush job is [flush.run_flush_memtable_job], and
    [summary_job] runs the summary's processor.

    The theorems say what a successful write leaves in each component and that a
    rejected one leaves log and caches alone, that replaying a logged batch is
    the same as writing it, that with a synced log a restart recovers every
    acknowledged write of a segment, and that every summary task is answered. *)
From S2P Require Import Prelude Varint StringCodec Sorting Utils Models MemCache FileIO Tsm TsmFacts Tombstone.
From S2P Require Import Wal Bincode RecordFile ForwardIndex Version FileNames TseriesFamily VersionSet.
From S2P Require Import WalManager Summary.
From Stdlib Require Import Sorting.Permutation.

(** What [list_file_names] finds in a directory. *)
Class ListDir := list_file_names : fs.Fs -> string -> list string.

(** It lists the files of the directory, each once. *)
Definition plain (name : string) : Prop := Ascii.ascii_of_nat 47 ∉ file_names.chars name.

Class ListDirLaws (LD : ListDir) : Prop := {
  list_nodup f dir : NoDup (list_file_names f dir);
  list_elem f dir name :
    name ∈ list_file_names f dir <-> plain name /\ is_Some (fs.open_file f (wal_manager.join dir name))
}.

Module kv_core.
Import tseries_family version_set forward_index wal_manager.

(** ** Definitions *)

(** The errors of error.rs the engine returns. *)
Inductive Error :=
| InvalidFlatbuffer | InvalidModel (e : string) | ForwardIndexErr (e : ForwardIndexError) | Send | Receive
| Wal (e : wal_manager.Error) | LogRecordErr (e : record_file.RecordFileError) | IO (e : io_error).

(** The options the engine reads; [wal_sync] is the [sync] flag of the log. *)
Record Options := mkOptions { db_path : string; wal_dir : string; index_path : string; wal_sync : bool }.

(** [wal_job]: the manager of the log job, while it runs. *)
Record TsKv := mkTsKv {
  options : Options; disk : fs.Fs; store_ : Store; version_set_ : VersionSet; forward_index_ : ForwardIndex;
  wal_job : option WalManager }.

Record Response := mkResponse { version : Z; points : list Z }.

Section engine.
Context {G : GlobalConfig} {P : BuildProfile} {V : VarInt} {Sn : Snap} {PIO : PageIO} {Crc : Crc32} {HO : HashOrder}
  {FB : Flatbuffers} {BE : Bincode version_edit.VersionEdit} {BS : Bincode series_info.SeriesInfo} {LD : ListDir}
  (size_of_val : Z).

(** ** Opening *)

(** [TsKv::recover]; every error is [unwrap]ped. *)
Definition recover (o : Options) (f : fs.Fs) (s : Store) : outcome Error (fs.Fs * Store * VersionSet) :=
  '(s, f, summary) ← unwrapped (match fs.open_file f (file_utils.make_summary_file (db_path o) 0) with
                                | Some _ => summary.recover s f (db_path o)
                                | None => summary.new s f (db_path o)
                                end);
  '(f, _) ← unwrapped (wal_manager.new f (wal_dir o) (wal_sync o) (list_file_names f (wal_dir o)));
  unwrapped (wal_manager.recover size_of_val f s (summary.version_set_ summary)
    (context.last_seq (summary.ctx summary)) (wal_dir o) (list_file_names f (wal_dir o))).

(** The flush channel is new: nothing is queued and its receiver lives. *)
Definition new_store : Store := mkStore ∅ ∅ 0 [] true 0.

Definition open (o : Options) (f : fs.Fs) : outcome Error TsKv :=
  '(f, s, vs) ← recover o f new_store;
  f ← summary.open_record f (index_path o);
  fidx ← map_err LogRecordErr (load_cache_file (forward_index.new (summary.content f (index_path o))));
  '(f, m) ← unwrapped (wal_manager.new f (wal_dir o) (wal_sync o) (list_file_names f (wal_dir o)));
  Ok (mkTsKv o f s vs fidx (Some m)).

(** ** Writing *)

(** The index writes its record file, without a sync. *)
Definition with_index (k : TsKv) (x : ForwardIndex) : TsKv :=
  mkTsKv (options k) (fs.store (disk k) (index_path (options k)) (file x)) (store_ k) (version_set_ k) x (wal_job k).

(** The first loop of [write]. *)
Fixpoint index_points (k : TsKv) (ps : list fb_Point) : outcome (Error * TsKv) TsKv :=
  match ps with
  | [] => Ok k
  | p :: ps' =>
      info ← map_err (fun e => (InvalidModel e, k)) (series_info.from_flatbuffers p);
      x ← map_err (fun '(e, x) => (ForwardIndexErr e, with_index k x))
            (add_series_info_if_not_exists (forward_index_ k) info);
      index_points (with_index k x) ps'
  end.

(** The log job at one task: it writes the entry and answers with the result.  A
    job that panics drops the answer and closes the channel. *)
Definition run_wal_task (k : TsKv) (m : WalManager) (buf : list Z) : outcome (Error * TsKv) (TsKv * Z) :=
  match manager_write (disk k) m wal.Write buf with
  | Ok (f, m, (seq, _)) =>
      Ok (mkTsKv (options k) f (store_ k) (version_set_ k) (forward_index_ k) (Some m), seq)
  | Err e => Err (Wal e, k)
  | Panic => Err (Receive, mkTsKv (options k) (disk k) (store_ k) (version_set_ k) (forward_index_ k) None)
  | OutOfFuel => OutOfFuel
  end.

(** Send a task to the log job and wait for its answer. *)
Definition log_points (k : TsKv) (buf : list Z) : outcome (Error * TsKv) (TsKv * Z) :=
  match wal_job k with
  | None => Err (Send, k)
  | Some m => run_wal_task k m buf
  end.

(** [for f in p.fields().iter()]. *)
Fixpoint insert_fields (s : Store) (tsf : TseriesFamily) (fields : list points.FieldValue) (seq ts : Z)
    : outcome string (Store * TseriesFamily) :=
  match fields with
  | [] => Ok (s, tsf)
  | f :: fields' =>
      '(s, tsf) ← put_mutcache size_of_val s tsf (points.field_id f) (points.fv_value f) (points.fv_type f) seq ts;
      insert_fields s tsf fields' seq ts
  end.

Definition insert_point (s : Store) (vs : VersionSet) (p : fb_Point) (seq : Z) : outcome string (Store * VersionSet) :=
  q ← points.from_point p;
  let sid := points.series_id q in
  match get_tsfamily vs sid with
  | Some tsf =>
      '(s, tsf) ← insert_fields s tsf (points.fields q) seq (fb_timestamp p);
      Ok (s, set_tsfamily vs sid tsf)
  | None => Ok (s, vs)
  end.

Fixpoint insert_points (s : Store) (vs : VersionSet) (ps : list fb_Point) (seq : Z)
    : outcome string (Store * VersionSet) :=
  match ps with
  | [] => Ok (s, vs)
  | p :: ps' => '(s, vs) ← insert_point s vs p seq; insert_points s vs ps' seq
  end.

Definition with_caches (k : TsKv) (s : Store) (vs : VersionSet) : TsKv :=
  mkTsKv (options k) (disk k) s vs (forward_index_ k) (wal_job k).

(** The second loop of [write], and [insert_cache]. *)
Definition insert_batch {E} (k : TsKv) (ps : list fb_Point) (seq : Z) : outcome E TsKv :=
  '(s, vs) ← unwrapped (insert_points (store_ k) (version_set_ k) ps seq);
  Ok (with_caches k s vs).

Definition write (k : TsKv) (write_batch : list Z) : outcome (Error * TsKv) (TsKv * Response) :=
  fb_points ← of_option (root_points write_batch) (InvalidFlatbuffer, k);
  ps ← unwrap fb_points;
  k ← index_points k ps;
  '(k, seq) ← log_points k write_batch;
  k ← insert_batch k ps seq;
  Ok (k, mkResponse 1 []).

Definition insert_cache (k : TsKv) (seq : Z) (buf : list Z) : outcome Error TsKv :=
  ps ← of_option (root_points buf) InvalidFlatbuffer;
  match ps with
  | Some ps => insert_batch k ps seq
  | None => Ok k
  end.

(** ** Reading *)

(** A cache, when it has the field; the cells are logged, the model returns them. *)
Definition read_cache (s : Store) (l field_id : Z) (r : time_range.TimeRange) : outcome tsm_error (list memcache.DataType) :=
  m ← unwrapped (deref s l);
  Ok (match memcache.data_cache m !! field_id with Some e => memcache.read_cell e r | None => [] end).

Fixpoint read_caches (s : Store) (ls : list Z) (field_id : Z) (r : time_range.TimeRange)
    : outcome tsm_error (list memcache.DataType) :=
  match ls with
  | [] => Ok []
  | l :: ls' => out ← read_cache s l field_id r; rest ← read_caches s ls' field_id r; Ok (out ++ rest)
  end.

(** [for level_info in levels_info.iter()]: level 0 is skipped. *)
Fixpoint read_levels (f : fs.Fs) (levels : list version.LevelInfo) (tf_id field_id : Z) (r : time_range.TimeRange)
    : outcome tsm_error (list memcache.DataType) :=
  match levels with
  | [] => Ok []
  | li :: levels' =>
      out ← (if version.lvl li =? 0 then Ok [] else version.read_columnfile f li tf_id field_id r);
      rest ← read_levels f levels' tf_id field_id r;
      Ok (out ++ rest)
  end.

(** The delta files are those of the first element of [levels_info]. *)
Definition read_point (k : TsKv) (sid : Z) (r : time_range.TimeRange) (field_id : Z)
    : outcome tsm_error (list memcache.DataType) :=
  match get_tsfamily (version_set_ k) sid with
  | None => Ok []
  | Some tsf =>
      mem ← read_cache (store_ k) (mut_cache tsf) field_id r;
      delta_mem ← read_cache (store_ k) (delta_mut_cache tsf) field_id r;
      im ← read_caches (store_ k) (immut_cache tsf) field_id r;
      v ← unwrap (versions (store_ k) !! version_ tsf);
      levels ← read_levels (disk k) (version.levels_info v) (tf_id tsf) field_id r;
      delta ← (match version.levels_info v with
               | [] => Ok []
               | li :: _ => version.read_columnfile (disk k) li (tf_id tsf) field_id r
               end);
      Ok (mem ++ delta_mem ++ im ++ levels ++ delta)
  end.

Fixpoint read_fields (k : TsKv) (sid : Z) (r : time_range.TimeRange) (fields : list Z)
    : outcome tsm_error (list memcache.DataType) :=
  match fields with
  | [] => Ok []
  | field_id :: fields' => out ← read_point k sid r field_id; rest ← read_fields k sid r fields'; Ok (out ++ rest)
  end.

Fixpoint read (k : TsKv) (sids : list Z) (r : time_range.TimeRange) (fields : list Z)
    : outcome tsm_error (list memcache.DataType) :=
  match sids with
  | [] => Ok []
  | sid :: sids' => out ← read_fields k sid r fields; rest ← read k sids' r fields; Ok (out ++ rest)
  end.

(** ** Deleting *)

(** [for column_file in level.files.iter()]. *)
Fixpoint delete_files (f : fs.Fs) (path : string) (files : list version.ColumnFile) (field_ids : list Z)
    (r : time_range.TimeRange) : outcome Error fs.Fs :=
  match files with
  | [] => Ok f
  | column_file :: files' =>
      f ← (if time_range.overlaps (version.cf_range column_file) r then
             let name := file_utils.make_tsm_tombstone_file_name path (version.cf_file_id column_file) in
             t ← map_err IO (tombstone.with_tsm_file_id (fs.open_file f name));
             t ← map_err IO (tombstone.add_range t field_ids (time_range.min_ts r) (time_range.max_ts r));
             Ok (fs.sync (fs.store f name (bytes_file.data (tombstone.file_cursor t))) name)
           else Ok f);
      delete_files f path files' field_ids r
  end.

Fixpoint delete_levels (f : fs.Fs) (path : string) (levels : list version.LevelInfo) (field_ids : list Z)
    (r : time_range.TimeRange) : outcome Error fs.Fs :=
  match levels with
  | [] => Ok f
  | level :: levels' =>
      f ← (if time_range.overlaps (version.ts_range level) r
           then delete_files f path (version.files level) field_ids r else Ok f);
      delete_levels f path levels' field_ids r
  end.

Definition delete_one (k : TsKv) (info : series_info.SeriesInfo) (r : time_range.TimeRange) : outcome Error TsKv :=
  match get_tsfamily (version_set_ k) (series_info.id info) with
  | None => Ok k
  | Some tsf =>
      s ← unwrapped (delete_cache (store_ k) tsf r);
      v ← unwrap (versions s !! version_ tsf);
      f ← delete_levels (disk k) (db_path (options k)) (version.levels_info v)
            (field_info.id <$> series_info.field_infos info) r;
      Ok (mkTsKv (options k) f s (version_set_ k) (forward_index_ k) (wal_job k))
  end.

Fixpoint delete_all (k : TsKv) (infos : list series_info.SeriesInfo) (r : time_range.TimeRange) : outcome Error TsKv :=
  match infos with
  | [] => Ok k
  | info :: infos' => k ← delete_one k info r; delete_all k infos' r
  end.

Definition delete_series (k : TsKv) (sids : list Z) (min max : Z) : outcome Error TsKv :=
  series_infos ← get_series_info_list (forward_index_ k) sids;
  delete_all k series_infos (time_range.mkTimeRange max min).

(** ** The summary job *)

(** [run_summary_job]: every task is batched and applied at once. *)
Fixpoint summary_job (f : fs.Fs) (path : string) (p : summary.SummaryProcesser) (tasks : list summary.SummaryTask)
    : outcome summary.Error (fs.Fs * summary.SummaryProcesser * list (Z * option summary.Error)) :=
  match tasks with
  | [] => Ok (f, p, [])
  | x :: tasks' =>
      let '(p, _) := summary.batch p x in
      '(f, p, answers) ← summary.apply f path p;
      '(f, p, rest) ← summary_job f path p tasks';
      Ok (f, p, answers ++ rest)
  end.

(** ** The main loop *)

(** A command: write a batch, or one the loop does not know. *)
Inductive Task := WritePoints (req : list Z) (tx : Z) | OtherTask.

(** [TsKv::start]: an answer goes to each request; an unknown command panics. *)
Fixpoint start (k : TsKv) (commands : list Task) : outcome Error (TsKv * list (Z * (Response + Error))) :=
  match commands with
  | [] => Ok (k, [])
  | WritePoints req tx :: commands' =>
      match write k req with
      | Ok (k, resp) => '(k, rest) ← start k commands'; Ok (k, (tx, inl resp) :: rest)
      | Err (e, k) => '(k, rest) ← start k commands'; Ok (k, (tx, inr e) :: rest)
      | Panic => Panic
      | OutOfFuel => OutOfFuel
      end
  | OtherTask :: _ => Panic
  end.

End engine.
End kv_core.

Module kv_facts.
Import tseries_family version_set version_set_facts forward_index index_spec index_facts wal_manager replay_facts batch kv_core.

(** ** Points and rows *)

(** A point the write path can decode: every key, value and name is there. *)
Definition decodes (p : fb_Point) : Prop := exists q, points.from_point p = Ok q.

Lemma from_tags_replay ts : forall out, try_map points.from_tag ts = Ok out -> replay_tags ts = out.
Proof.
  induction ts as [|[k v] ts IH]; intros out H; [cbn in H; by injection H as <-|]. cbn [try_map] in H.
  destruct k as [k|]; [|done]. destruct v as [v|]; [|done]. revert H.
  change (points.from_tag (mk_fb_Tag (Some k) (Some v))) with (Ok (E := string) (tag.mkTag k v)). run.
  destruct (try_map points.from_tag ts) as [l| | |] eqn:E; try done. run. intros [= <-].
  unfold replay_tags. cbn [mbind list_bind fb_key fb_value app]. f_equal. by apply IH.
Qed.

Definition field_row (f : points.FieldValue) : Z * list Z * field_info.ValueType :=
  (points.field_id f, points.fv_value f, points.fv_type f).

Lemma from_fields_replay sid fs : forall out, try_map (points.from_field sid) fs = Ok out ->
  (fun f => (replay_field_id sid f, default [] (fb_fvalue f), field_info.from_fb (fb_type f))) <$> fs = field_row <$> out.
Proof.
  induction fs as [|[n t v] fs IH]; intros out H; [cbn in H; by injection H as <-|]. cbn [try_map] in H.
  destruct n as [n|]; [|done]. destruct v as [v|]; [|done]. revert H.
  change (points.from_field sid (mk_fb_Field (Some n) t (Some v)))
    with (Ok (E := string) (points.mkFieldValue (field_info.generate_field_id n sid) (field_info.from_fb t) v)). run.
  destruct (try_map (points.from_field sid) fs) as [l| | |] eqn:E; try done. run. intros [= <-].
  rewrite !fmap_cons. f_equal. by apply IH.
Qed.

Lemma from_point_row p q : points.from_point p = Ok q ->
  replay_row p = mkRow (points.series_id q) (fb_timestamp p) (field_row <$> points.fields q).
Proof.
  unfold points.from_point. intros H. destruct (try_map points.from_tag _) as [ts| | |] eqn:Et; try done. revert H. run.
  destruct (try_map (points.from_field _) _) as [fs| | |] eqn:Ef; try done. run. intros [= <-].
  assert (replay_series_id p = series_info.generate_series_id ts) as Hs.
  { unfold replay_series_id. apply from_tags_replay in Et. destruct (fb_tags p) as [l|]; cbn [default from_option id] in Et; by subst ts. }
  unfold replay_row. rewrite Hs. cbn [points.series_id points.fields]. f_equal. by apply from_fields_replay.
Qed.

Section rows.
Context {G : GlobalConfig} (n : Z).

Lemma insert_fields_puts fs : forall s f seq ts, insert_fields n s f fs seq ts = puts n s f (field_row <$> fs) seq ts.
Proof.
  induction fs as [|x fs IH]; intros s f seq ts; [done|]. cbn [insert_fields fmap list_fmap puts field_row].
  destruct (put_mutcache n s f _ _ _ seq ts) as [[s1 f1]| | |]; [run; apply IH|done..].
Qed.

Lemma insert_point_row s vs p seq : decodes p -> insert_point n s vs p seq = put_row n s vs (replay_row p) seq.
Proof.
  intros [q Hq]. rewrite (from_point_row p q Hq). unfold insert_point, put_row. rewrite Hq. run.
  cbn [row_series row_fields row_ts]. destruct (get_tsfamily vs _); [|done]. by rewrite insert_fields_puts.
Qed.

Lemma insert_points_rows ps : forall s vs seq, Forall decodes ps ->
  insert_points n s vs ps seq = put_rows n s vs (replay_row <$> ps) seq.
Proof.
  induction ps as [|p ps IH]; intros s vs seq Hp; [done|]. apply Forall_cons in Hp as [Hp Hps].
  cbn [insert_points fmap list_fmap put_rows]. rewrite insert_point_row by done.
  destruct (put_row _ _ _ _ _) as [[s1 vs1]| | |]; [run; by apply IH|done..].
Qed.

Lemma insert_points_decodes ps : forall s vs seq r, insert_points n s vs ps seq = Ok r -> Forall decodes ps.
Proof.
  induction ps as [|p ps IH]; intros s vs seq r H; [constructor|]. cbn [insert_points] in H.
  destruct (insert_point n s vs p seq) as [[s1 vs1]| | |] eqn:E; try done. revert H. run. intros H.
  constructor; [|by eapply IH]. unfold insert_point in E. destruct (points.from_point p) as [q| | |] eqn:Eq; try done. by exists q.
Qed.

End rows.

(** ** Writing *)

Section write.
Context {G : GlobalConfig} {P : BuildProfile} {PIO : PageIO} {Crc : Crc32} {FB : Flatbuffers}
  {BS : Bincode series_info.SeriesInfo} (n : Z).

(** C31. Replaying a logged batch does what inserting it into the caches did: for
    every store and version set, recovery of a write entry and [insert_cache]
    under the entry's sequence number give the same result. *)
Theorem replay_is_insert k e ps :
  wal.typ e = wal.Write -> root_points (wal.buf e) = Some (Some ps) -> Forall decodes ps ->
  insert_cache n k (wal.seq e) (wal.buf e) =
  ('(s, vs) ← unwrapped (replay_entry n (store_ k) (version_set_ k) e); Ok (with_caches k s vs)).
Proof.
  intros Ht Hb Hp. unfold insert_cache, replay_entry, insert_batch. rewrite Ht, Hb. cbn [of_option]. run.
  rewrite insert_points_rows, <- replay_points_rows by done.
  by destruct (replay_points n _ _ ps _) as [[s vs]| | |].
Qed.

(** The first loop of [write] touches the index and its file only. *)
Definition same_but_index (k k' : TsKv) : Prop :=
  options k' = options k /\ store_ k' = store_ k /\ version_set_ k' = version_set_ k /\ wal_job k' = wal_job k /\
  fs.dirty (disk k') ⊆ {[index_path (options k)]} ∪ fs.dirty (disk k) /\ fs.writable (disk k') = fs.writable (disk k) /\
  (forall p, p <> index_path (options k) -> fs.open_file (disk k') p = fs.open_file (disk k) p).

Lemma same_refl k : same_but_index k k.
Proof. split_and!; try done. apply union_subseteq_r. Qed.

Lemma with_index_same k k' x : same_but_index k k' -> same_but_index k (with_index k' x).
Proof.
  intros (H1 & H2 & H3 & H4 & H5 & H6 & H7). split_and!; try done.
  - cbn [disk with_index fs.store fs.dirty]. rewrite H1. apply union_least; [apply union_subseteq_l|done].
  - intros p Hp. cbn [disk with_index]. rewrite fs.open_other by congruence. by apply H7.
Qed.

Lemma index_points_same ps : forall k0 k, same_but_index k0 k ->
  match index_points k ps with Ok k' | Err (_, k') => same_but_index k0 k' | _ => True end.
Proof.
  induction ps as [|p ps IH]; intros k0 k Hk; [done|]. cbn [index_points].
  destruct (series_info.from_flatbuffers p) as [info|e| |]; cbn [map_err]; try done. run.
  destruct (add_series_info_if_not_exists (forward_index_ k) info) as [x|[e x]| |]; cbn [map_err]; try done.
  - run. by apply IH, with_index_same.
  - by apply with_index_same.
Qed.

(** What an acknowledged batch consists of. *)
Definition valid_batch (b : list Z) (ps : list fb_Point) : Prop :=
  root_points b = Some (Some ps) /\ Forall decodes ps /\ Forall good_row (replay_row <$> ps).

(** The log job runs, its segment is on disk and has room. *)
Definition log_ready (k : TsKv) (m : WalManager) : Prop :=
  let w := current_file m in
  wal_job k = Some m /\ fs.open_file (disk k) (current_path m) = Some (wal.file w) /\
  wal.size w = length (wal.file w) /\ 0 <= wal.max_sequence w /\ wal.max_sequence w + 1 < U64 /\
  Z.of_nat (wal.size w) <= wal.SEGMENT_SIZE.

Definition logged_writer (w : wal.WalWriter) (b : list Z) : wal.WalWriter :=
  wal.mkWalWriter (wal.id w) (wal.file w ++ wal_facts.entry_bytes wal.Write (wal.max_sequence w) b)
    (length (wal.file w) + (17 + length b)) (wal.header_buf w) (wal.min_sequence w) (wal.max_sequence w + 1)
    (wal.config_sync w) (wal.config_sync w).

Lemma save_same f p w : fs.open_file (save f p w) p = Some (wal.file w).
Proof. unfold save. destruct (wal.synced w); apply fs.open_same. Qed.

Lemma save_other f p w q : q <> p -> fs.open_file (save f p w) q = fs.open_file f q.
Proof. unfold save. intros H. destruct (wal.synced w); by apply fs.open_other. Qed.

Lemma save_writable f p w : fs.writable (save f p w) = fs.writable f.
Proof. unfold save. by destruct (wal.synced w). Qed.

Lemma save_dirty f p w : wal.synced w = true -> fs.dirty (save f p w) ⊆ fs.dirty f.
Proof. unfold save. intros ->. apply fs.dirty_sync_store. Qed.

Lemma log_points_ok k m b : log_ready k m ->
  let w := logged_writer (current_file m) b in
  log_points k b =
  Ok (mkTsKv (options k) (save (disk k) (current_path m) w) (store_ k) (version_set_ k) (forward_index_ k)
        (Some (mkWalManager (current_dir m) (current_path m) w)), wal.max_sequence w).
Proof.
  intros (Hj & _ & Hs & H0 & H1 & Hsz) w. unfold log_points, run_wal_task. rewrite Hj. unfold manager_write, wal.manager_write, wal.roll_wal_file.
  rewrite (proj2 (Z.ltb_ge _ _)) by done. run. rewrite wal_facts.write_spec by done. cbn [map_err]. run. done.
Qed.

(** What a successful write did. *)
Lemma write_success k m b k' r :
  set_inv (store_ k) (version_set_ k) -> log_ready k m -> index_path (options k) <> current_path m ->
  write n k b = Ok (k', r) ->
  exists ps k1, root_points b = Some (Some ps) /\ Forall decodes ps /\ index_points k ps = Ok k1 /\
    options k' = options k /\ forward_index_ k' = forward_index_ k1 /\
    wal_job k' = Some (mkWalManager (current_dir m) (current_path m) (logged_writer (current_file m) b)) /\
    disk k' = save (disk k1) (current_path m) (logged_writer (current_file m) b) /\
    (Forall (fun p => i64_MIN < fb_timestamp p) ps ->
     set_inv (store_ k') (version_set_ k') /\ same_families (version_set_ k) (version_set_ k') /\
     forall id fid, is_Some (ts_families (version_set_ k) !! id) ->
       Permutation (set_pending (store_ k') (version_set_ k') id fid)
         (batch_cells (size (ts_families (version_set_ k))) (replay_row <$> ps) id fid ++
          set_pending (store_ k) (version_set_ k) id fid)).
Proof.
  intros Hs Hl Hpath H. unfold write in H. destruct (root_points b) as [[ps|]|] eqn:Hb; try done. revert H.
  cbn [of_option unwrap]. run. intros H. pose proof (index_points_same ps k k (same_refl k)) as Hsame.
  destruct (index_points k ps) as [k1|[e k1]| |] eqn:Ei; try done. revert H. run. intros H.
  destruct Hsame as (Ho & Hst & Hvs & Hj & _ & _ & Hd).
  assert (log_ready k1 m) as Hl1 by (unfold log_ready in *; rewrite Hj, Hd by done; done).
  rewrite (log_points_ok k1 m b Hl1) in H. revert H. run. unfold insert_batch. cbn [store_ version_set_]. rewrite Hst, Hvs.
  destruct (insert_points n (store_ k) (version_set_ k) ps _) as [[s' vs']| | |] eqn:E; try done. cbn [unwrapped]. run.
  intros [= <- <-]. pose proof (insert_points_decodes _ _ _ _ _ _ E) as Hdec. rewrite insert_points_rows in E by done.
  exists ps, k1. split_and!; try done. intros Hts. eapply put_rows_spec; [done| |exact E].
  apply Forall_fmap. eapply Forall_impl; [exact Hts|]. done.
Qed.

Lemma write_total k m b ps k1 :
  set_inv (store_ k) (version_set_ k) -> log_ready k m -> index_path (options k) <> current_path m -> valid_batch b ps ->
  index_points k ps = Ok k1 -> exists k', write n k b = Ok (k', mkResponse 1 []).
Proof.
  intros Hs Hl Hpath (Hb & Hp & Hg) Ei. pose proof (index_points_same ps k k (same_refl k)) as Hsame.
  rewrite Ei in Hsame. destruct Hsame as (Ho & Hst & Hvs & Hj & _ & _ & Hd).
  assert (log_ready k1 m) as Hl1 by (unfold log_ready in *; rewrite Hj, Hd by done; done).
  unfold write. rewrite Hb. cbn [of_option unwrap]. run. rewrite Ei. run. rewrite (log_points_ok k1 m b Hl1). run.
  unfold insert_batch. cbn [store_ version_set_]. rewrite Hst, Hvs, insert_points_rows by done.
  edestruct (put_rows_total n (replay_row <$> ps) (store_ k)) as (s' & vs' & ->); [done..|]. cbn [unwrapped]. run. by eexists.
Qed.

(** C2. Let the log job run with room in its segment, and let the values of a batch
    decode and its timestamps be above the smallest one.
    A write whose index entries are accepted is acknowledged: the log gets
    one entry with the bytes of the batch, the caches of each family get the
    cells of the batch's points that belong to it, each once, and nothing else,
    and the families stay consistent.  When the index rejects a point, the error
    is returned and neither the log nor the caches nor the families change. *)
Theorem write_batch k m b ps :
  set_inv (store_ k) (version_set_ k) -> log_ready k m -> index_path (options k) <> current_path m -> valid_batch b ps ->
  match index_points k ps with
  | Ok k1 => exists k', write n k b = Ok (k', mkResponse 1 []) /\
      forward_index_ k' = forward_index_ k1 /\
      wal_job k' = Some (mkWalManager (current_dir m) (current_path m) (logged_writer (current_file m) b)) /\
      fs.open_file (disk k') (current_path m) = Some (wal.file (logged_writer (current_file m) b)) /\
      set_inv (store_ k') (version_set_ k') /\ same_families (version_set_ k) (version_set_ k') /\
      forall id fid, is_Some (ts_families (version_set_ k) !! id) ->
        Permutation (set_pending (store_ k') (version_set_ k') id fid)
          (batch_cells (size (ts_families (version_set_ k))) (replay_row <$> ps) id fid ++
           set_pending (store_ k) (version_set_ k) id fid)
  | Err (e, k1) => write n k b = Err (e, k1) /\ same_but_index k k1
  | _ => True
  end.
Proof.
  intros Hs Hl Hpath (Hb & Hp & Hg). pose proof (index_points_same ps k k (same_refl k)) as Hsame.
  destruct (index_points k ps) as [k1|[e k1]| |] eqn:Ei; [| |done|done].
  2:{ unfold write. rewrite Hb. cbn [of_option unwrap]. run. by rewrite Ei. }
  destruct (write_total k m b ps k1) as [k' E]; [done..|by split_and!|done|].
  destruct (write_success k m b k' _ Hs Hl Hpath E) as (ps' & k1' & Hb' & _ & Ei' & _ & Hx & Hw & Hdk & Hrest).
  rewrite Hb in Hb'. injection Hb' as <-. rewrite Ei in Ei'. injection Ei' as <-.
  exists k'. split_and!; [done..|rewrite Hdk; apply save_same| | |]; apply Hrest;
    rewrite (Forall_fmap replay_row) in Hg; (eapply Forall_impl; [exact Hg|]); by intros p [H _].
Qed.

End write.
(** ** Restarting *)

Section restart.
Context {G : GlobalConfig} {P : BuildProfile} {PIO : PageIO} {Crc : Crc32} {CR : Crc32Range Crc} {HO : HashOrder}
  {FB : Flatbuffers} {BE : Bincode version_edit.VersionEdit} {BEL : BincodeLaws BE}
  {BS : Bincode series_info.SeriesInfo} {BSL : BincodeLaws BS} {LD : ListDir} {LDL : ListDirLaws LD} (n : Z).

Definition summary_path (o : Options) : string := file_utils.make_summary_file (db_path o) 0.
Definition segment_path (o : Options) : string := join (wal_dir o) (names_facts.wal_name 1).

(** The log has a directory of its own, and the three files are different. *)
Definition separate (o : Options) : Prop :=
  (forall name, join (wal_dir o) name <> summary_path o /\ join (wal_dir o) name <> index_path o) /\
  summary_path o <> index_path o.

(** The segment is the only file of the log directory. *)
Definition only_segment (o : Options) (f : fs.Fs) : Prop :=
  forall name, plain name -> name <> names_facts.wal_name 1 -> fs.open_file f (join (wal_dir o) name) = None.

Lemma join_inj dir a b : join dir a = join dir b -> a = b.
Proof.
  unfold join. intros H. apply (f_equal String.list_ascii_of_string) in H. rewrite !name_facts.chars_app in H.
  apply app_inv_head, app_inv_head in H. apply (f_equal String.string_of_list_ascii) in H.
  by rewrite !String.string_of_list_ascii_of_string in H.
Qed.

Lemma segment_plain : plain (names_facts.wal_name 1).
Proof. apply (bool_decide_unpack _). vm_compute. exact I. Qed.

Lemma list_segment o f : only_segment o f ->
  list_file_names f (wal_dir o) =
  match fs.open_file f (segment_path o) with Some _ => [names_facts.wal_name 1] | None => [] end.
Proof.
  intros Honly. assert (forall name, name ∈ list_file_names f (wal_dir o) -> name = names_facts.wal_name 1) as Hall.
  { intros name [Hp Hs]%list_elem. destruct (decide (name = names_facts.wal_name 1)); [done|].
    rewrite Honly in Hs by done. by destruct Hs. }
  pose proof (list_nodup f (wal_dir o)) as Hnd. pose proof (list_elem f (wal_dir o) (names_facts.wal_name 1)) as Hel.
  fold (segment_path o) in Hel. destruct (list_file_names f (wal_dir o)) as [|a [|b l]].
  - destruct (fs.open_file f (segment_path o)); [|done]. exfalso. apply (not_elem_of_nil (names_facts.wal_name 1)), Hel.
    split; [apply segment_plain|done].
  - rewrite (Hall a) in * by (by left). destruct Hel as [[_ [c ->]] _]; [by left|done].
  - apply NoDup_cons in Hnd as [Hni _]. exfalso. apply Hni. rewrite (Hall a), (Hall b); [by left|by right; left|by left].
Qed.

(** The manager of an empty directory, and of one with a segment. *)
Lemma manager_new_empty o f : only_segment o f -> fs.open_file f (segment_path o) = None -> fs.writable f (segment_path o) = true ->
  exists f', wal_manager.new f (wal_dir o) (wal_sync o) (list_file_names f (wal_dir o)) =
    Ok (f', mkWalManager (wal_dir o) (segment_path o)
              (wal.mkWalWriter 1 wal_facts.fresh_header 32 wal_facts.fresh_header 0 0 (wal_sync o) true)) /\
    fs.open_file f' (segment_path o) = Some wal_facts.fresh_header /\ fs.writable f' = fs.writable f /\
    fs.dirty f' ⊆ fs.dirty f /\ (forall p, p <> segment_path o -> fs.open_file f' p = fs.open_file f p).
Proof.
  intros Honly Hn Hw. rewrite list_segment, Hn by done. unfold wal_manager.new. cbn [unwrapped file_names.get_max_sequence_file_name].
  run. change (file_utils.make_wal_file (wal_dir o) 1) with (segment_path o). unfold open_create_file. rewrite Hn.
  destruct (fs.create_empty f _ (or_introl Hn) Hw) as (f1 & -> & Hf1 & Hw1 & _ & Hd1 & Ho1). cbn [unwrap]. run.
  unfold open_writer. rewrite Hf1. assert (wal.open 1 (wal_sync o) (Some []) = wal.open 1 (wal_sync o) None) as -> by done.
  rewrite wal_facts.open_new. cbn [map_err]. run. cbn [length Nat.eqb unwrapped]. run.
  eexists. split; [reflexivity|]. split_and!; [apply save_same|by rewrite save_writable| |].
  - etransitivity; [by apply save_dirty|]. rewrite Hd1. by apply subseteq_difference_l.
  - intros p Hp. by rewrite save_other, Ho1.
Qed.

Lemma manager_new_segment o f body : only_segment o f ->
  fs.open_file f (segment_path o) = Some (wal_facts.fresh_header ++ body) ->
  exists m, wal_manager.new f (wal_dir o) (wal_sync o) (list_file_names f (wal_dir o)) = Ok (f, m) /\
    Some m = Some (mkWalManager (wal_dir o) (segment_path o) (current_file m)) /\
    wal.file (current_file m) = wal_facts.fresh_header ++ body /\
    wal.size (current_file m) = length (wal.file (current_file m)) /\ wal.max_sequence (current_file m) = 0 /\
    wal.config_sync (current_file m) = wal_sync o.
Proof.
  intros Honly Hf. rewrite list_segment, Hf by done. unfold wal_manager.new.
  assert (file_names.get_max_sequence_file_name [names_facts.wal_name 1] file_names.get_wal_file_id =
    Ok (Some (names_facts.wal_name 1, 1))) as -> by reflexivity.
  cbn [unwrapped]. run. fold (segment_path o). unfold open_create_file. rewrite Hf. run.
  destruct (open_writer_segment f 1 _ (wal_sync o) body Hf) as (w & -> & Hw). cbn [unwrapped]. run.
  eexists. split; [reflexivity|]. done.
Qed.

(** What an engine has on disk after the batches [bs]. *)
Definition entries (bs : list (list Z)) : list (wal.WalEntryType * list Z) := (fun b => (wal.Write, b)) <$> bs.

Record on_disk (o : Options) (xs : list (Z * Z * list Z)) (bs : list (list Z)) (f : fs.Fs) : Prop := mkOnDisk {
  od_summary : fs.open_file f (summary_path o) = Some (record_facts.encode_all xs);
  od_segment : fs.open_file f (segment_path o) = Some (wal_facts.fresh_header ++ wal_facts.stream 0 (entries bs));
  od_only : only_segment o f }.

(** The families of a new engine: one for each number below [tsfamily_num]. *)
Definition default_families (vs : VersionSet) : Prop :=
  forall id, is_Some (ts_families vs !! id) <-> 0 <= id < tsfamily_num.

Lemma recovered_default s vs : summary_facts.recovered s vs [] -> default_families vs.
Proof.
  intros H id. specialize (H id). unfold summary_spec.live in H. cbn [foldl] in H.
  destruct (Z.leb_spec 0 id), (Z.ltb_spec id tsfamily_num); cbn [andb] in H.
  - destruct H as (tf & v & -> & _). split; [lia|by eexists].
  - rewrite H. split; [by intros []|lia].
  - rewrite H. split; [by intros []|lia].
  - rewrite H. split; [by intros []|lia].
Qed.

Lemma default_same vs vs' : default_families vs -> default_families vs' -> same_families vs vs'.
Proof.
  intros H H'. assert (dom (ts_families vs') = dom (ts_families vs)) as E.
  { apply set_eq. intros id. by rewrite !elem_of_dom, (H id), (H' id). }
  split; [by rewrite <- !size_dom, E|]. intros id. by rewrite (H id), (H' id).
Qed.

Lemma same_default vs vs' : default_families vs -> same_families vs vs' -> default_families vs'.
Proof. intros H [_ Hs] id. by rewrite (Hs id), (H id). Qed.

(** The rows of the batches of a log. *)
Definition batch_rows (b : list Z) : list row :=
  match root_points b with Some (Some ps) => replay_row <$> ps | _ => [] end.

Definition batch_ok (b : list Z) : Prop :=
  b <> [] /\ Z.of_nat (length b) < 2 ^ 32 /\
  exists ps, root_points b = Some (Some ps) /\ Forall decodes ps /\ Forall good_row (replay_row <$> ps).

Lemma batch_cells_app k a b id fid : batch_cells k (a ++ b) id fid = batch_cells k a id fid ++ batch_cells k b id fid.
Proof. unfold batch_cells. apply bind_app. Qed.

Lemma replay_list_ok bs : forall z s vs, Forall batch_ok bs -> set_inv s vs ->
  exists s' vs', replay_list n s vs (wal_facts.readable z (entries bs)) = Ok (s', vs') /\ set_inv s' vs' /\
    same_families vs vs' /\
    forall id fid, is_Some (ts_families vs !! id) -> Permutation (set_pending s' vs' id fid)
      (batch_cells (size (ts_families vs)) (bs ≫= batch_rows) id fid ++ set_pending s vs id fid).
Proof.
  induction bs as [|b bs IH]; intros z s vs Hb Hs.
  { exists s, vs. by split_and!. }
  apply Forall_cons in Hb as [(Hne & _ & ps & Hps & Hdec & Hgood) Hb]. destruct b as [|x b]; [done|].
  cbn [entries fmap list_fmap wal_facts.readable replay_list]. unfold replay_entry. cbn [wal.typ wal.buf wal.seq].
  rewrite Hps. cbn [of_option]. run. rewrite replay_points_rows.
  destruct (put_rows_total n (replay_row <$> ps) s vs z Hs Hgood) as (s1 & vs1 & E). rewrite E. cbn [unwrapped]. run.
  destruct (put_rows_spec n _ _ _ _ _ _ Hs (Forall_impl _ _ _ Hgood (fun r H => proj1 H)) E) as (Hs1 & Hf1 & Hp1).
  destruct (IH (z + 1) s1 vs1 Hb Hs1) as (s' & vs' & E' & Hs' & Hf' & Hp'). exists s', vs'.
  pose proof Hf1 as [Hn1 Hid1]. split_and!; [exact E'|done| |].
  - destruct Hf' as [Hn' Hid']. split; [congruence|]. intros id. by rewrite Hid', Hid1.
  - intros id fid Hid. rewrite Hp' by (by apply Hid1). rewrite Hp1, Hn1 by done. cbn [mbind list_bind].
    unfold batch_rows at 2. rewrite Hps, batch_cells_app, !app_assoc. f_equiv. apply Permutation_app_comm.
Qed.

Variable xs : list (Z * Z * list Z).
Hypothesis Hcache : 0 < max_memcache_size.
Hypothesis Hnum : 1 <= tsfamily_num.
Hypothesis Hstored : summary_facts.stored [version_edit.edit_new] xs.
Hypothesis Hxs : Z.of_nat (length (record_facts.encode_all xs)) < U64.

Lemma recover_disk o f bs :
  on_disk o xs bs f -> Forall batch_ok bs -> Z.of_nat (length bs) < U64 ->
  exists s vs, kv_core.recover n o f new_store = Ok (f, s, vs) /\ set_inv s vs /\ default_families vs /\
    forall id fid, is_Some (ts_families vs !! id) ->
      Permutation (set_pending s vs id fid) (batch_cells (size (ts_families vs)) (bs ≫= batch_rows) id fid).
Proof.
  intros [Hsum Hseg Honly] Hbs Hlen. unfold kv_core.recover. unfold summary_path in Hsum. rewrite Hsum.
  destruct (summary_facts.recover_ok new_store f (db_path o) [version_edit.edit_new] xs)
    as (s1 & sm & st & -> & _ & Hpr & Hrec & Hst & Hctx); [done..|apply summary_facts.live_new_sized|done|].
  cbn [unwrapped]. run.
  destruct (manager_new_segment o f _ Honly Hseg) as (m & -> & _). cbn [unwrapped]. run.
  rewrite list_segment, Hseg by done. cbn [wal_manager.recover].
  rewrite Hctx, summary_facts.empty_last_seq by done.
  rewrite (recover_segment_ok n f s1 _ (wal_dir o) 1 (entries bs)).
  - destruct (replay_list_ok bs 0 s1 (summary.version_set_ sm) Hbs) as (s & vs & -> & Hs & Hf & Hp); [apply Hpr|].
    run. cbn [unwrapped].
    assert (default_families (summary.version_set_ sm)) as Hd.
    { apply (recovered_default s1). intros id. specialize (Hrec id). by rewrite summary_facts.live_edit_new in Hrec. }
    exists s, vs. split_and!; [done|done|by apply (same_default (summary.version_set_ sm))|].
    intros id fid Hid. destruct Hf as [Hn Hids]. rewrite Hp by (by apply Hids). rewrite Hn.
    assert (set_pending s1 (summary.version_set_ sm) id fid = []) as ->; [|by rewrite app_nil_r].
    unfold set_pending. destruct (ts_families (summary.version_set_ sm) !! id) as [g|] eqn:Eg; [|done]. by apply (pr_empty _ _ Hpr id).
  - unfold entries. by rewrite length_fmap.
  - unfold entries. apply Forall_fmap. eapply Forall_impl; [exact Hbs|]. by intros b (_ & H & _).
  - range.
  - done.
  - done.
Qed.

(** A running engine that has acknowledged the batches [bs] since it was created. *)
Record alive (o : Options) (bs : list (list Z)) (k : TsKv) : Prop := mkAlive {
  al_options : options k = o;
  al_disk : on_disk o xs bs (disk k);
  al_dirty : wal_sync o = true -> fs.dirty (disk k) ⊆ {[index_path o]};
  al_writable : fs.writable (disk k) (index_path o) = true;
  al_index : fs.open_file (disk k) (index_path o) = Some (file (forward_index_ k));
  al_log : exists w, wal_job k = Some (mkWalManager (wal_dir o) (segment_path o) w) /\
    wal.file w = wal_facts.fresh_header ++ wal_facts.stream 0 (entries bs) /\ wal.size w = length (wal.file w) /\
    wal.max_sequence w = Z.of_nat (length bs) /\ wal.config_sync w = wal_sync o;
  al_inv : set_inv (store_ k) (version_set_ k);
  al_families : default_families (version_set_ k);
  al_pending : forall id fid, is_Some (ts_families (version_set_ k) !! id) ->
    Permutation (set_pending (store_ k) (version_set_ k) id fid)
      (batch_cells (size (ts_families (version_set_ k))) (bs ≫= batch_rows) id fid) }.

(** What a restart leaves of a running engine's disk. *)
Lemma restart_disk o bs k lost : separate o -> alive o bs k -> wal_sync o = true -> on_disk o xs bs (fs.restart lost (disk k)).
Proof.
  intros [Hsep Hsi] Hk Hsync. destruct (al_disk _ _ _ Hk) as [Hsum Hseg Honly]. pose proof (al_dirty _ _ _ Hk Hsync) as Hd.
  assert (forall p, p <> index_path o -> p ∉ fs.dirty (disk k)) as Hclean.
  { intros p Hp Hin. apply Hp. apply Hd in Hin. by apply elem_of_singleton in Hin. }
  constructor.
  - rewrite fs.restart_clean; [done|by apply Hclean].
  - rewrite fs.restart_clean; [done|]. apply Hclean, (Hsep (names_facts.wal_name 1)).
  - intros name Hp Hn. by apply fs.restart_none, Honly.
Qed.

(** Opening such a disk, whatever of the index is left. *)
Lemma reopen o bs k lost y : separate o -> alive o bs k -> wal_sync o = true -> Forall batch_ok bs -> Z.of_nat (length bs) < U64 ->
  load_cache_file (forward_index.new (summary.content (fs.restart lost (disk k)) (index_path o))) = Ok y ->
  exists k2, open n o (fs.restart lost (disk k)) = Ok k2 /\
    (forall id fid, Permutation (set_pending (store_ k2) (version_set_ k2) id fid) (set_pending (store_ k) (version_set_ k) id fid)) /\
    forward_index_ k2 = y.
Proof.
  intros Hsep Hk Hsync Hbs Hlen Hy. pose proof (restart_disk o bs k lost Hsep Hk Hsync) as Hd. unfold kv_core.open.
  assert (fs.writable (fs.restart lost (disk k)) (index_path o) = true) as Hw by apply (al_writable _ _ _ Hk).
  set (f2 := fs.restart lost (disk k)) in *. clearbody f2. pose proof Hsep as [Hne _].
  destruct (recover_disk o f2 bs Hd Hbs Hlen) as (s2 & vs2 & -> & Hs2 & Hdf2 & Hp2). run.
  assert (exists f3, summary.open_record (E := Error) f2 (index_path o) = Ok f3 /\ summary.content f3 (index_path o) = summary.content f2 (index_path o) /\
    forall q, q <> index_path o -> fs.open_file f3 q = fs.open_file f2 q) as (f3 & -> & Hc3 & Ho3).
  { unfold summary.open_record, summary.content. destruct (fs.open_file f2 (index_path o)) as [c|] eqn:Ec; [by exists f2; rewrite Ec|].
    destruct (fs.create_empty f2 _ (or_introl Ec) Hw) as (f3 & -> & Hc & _ & _ & _ & Ho). exists f3. by rewrite Hc. }
  run. rewrite Hc3, Hy. cbn [map_err]. run.
  destruct (manager_new_segment o f3 (wal_facts.stream 0 (entries bs))) as (m & -> & _).
  { intros name Hpl Hn. rewrite Ho3 by apply Hne. by apply Hd. }
  { rewrite Ho3 by apply (Hne (names_facts.wal_name 1)). apply Hd. }
  cbn [unwrapped]. run. eexists. split; [reflexivity|]. cbn [store_ version_set_ forward_index_]. split; [|done]. intros id fid.
  pose proof (al_families _ _ _ Hk) as Hdf. pose proof (al_pending _ _ _ Hk) as Hp.
  destruct (default_same _ _ Hdf Hdf2) as [Hn Hids]. destruct (ts_families (version_set_ k) !! id) as [g|] eqn:Eg.
  - rewrite Hp2, Hp, Hn; [done|by rewrite Eg|]. apply Hids. by rewrite Eg.
  - unfold set_pending. rewrite Eg. destruct (ts_families vs2 !! id) as [g'|] eqn:Eg'; [|done].
    destruct (proj1 (Hids id)) as [g'' Hg'']; [by rewrite Eg'|]. by rewrite Eg in Hg''.
Qed.

(** ** Running *)

Lemma index_points_file ps : forall k k1, index_points k ps = Ok k1 ->
  fs.open_file (disk k) (index_path (options k)) = Some (file (forward_index_ k)) ->
  fs.open_file (disk k1) (index_path (options k)) = Some (file (forward_index_ k1)).
Proof.
  induction ps as [|p ps IH]; intros k k1 H Hf; cbn [index_points] in H; [by injection H as <-|].
  destruct (series_info.from_flatbuffers p) as [info|e| |]; try done. revert H. cbn [map_err]. run.
  destruct (add_series_info_if_not_exists (forward_index_ k) info) as [x|[e x]| |]; try done. cbn [map_err]. run. intros H.
  apply (IH (with_index k x)); [done|apply fs.open_same].
Qed.

(** Every description the index writes for the points can be stored. *)
Fixpoint indexable (x : ForwardIndex) (ps : list fb_Point) : Prop :=
  match ps with
  | [] => True
  | p :: ps' => forall info, series_info.from_flatbuffers p = Ok info ->
      room x (series_info.finish info) /\ forall x', add_series_info_if_not_exists x info = Ok x' -> indexable x' ps'
  end.

Lemma add_series_consistent x info x' : consistent x -> room x (series_info.finish info) ->
  add_series_info_if_not_exists x info = Ok x' -> consistent x'.
Proof.
  intros Hc Hr E. destruct (add_series_ok x info Hc Hr) as (x1 & Hc1 & _ & H).
  destruct (fields x _) as [olds|]; [destruct (merge_fields olds _) as [fs []]|]; destruct H as [H _]; congruence.
Qed.

Lemma index_points_consistent ps rest : forall k k1, index_points k ps = Ok k1 -> consistent (forward_index_ k) ->
  indexable (forward_index_ k) (ps ++ rest) -> consistent (forward_index_ k1) /\ indexable (forward_index_ k1) rest.
Proof.
  induction ps as [|p ps IH]; intros k k1 H Hc Hi; cbn [index_points app indexable] in *; [by injection H as <-|].
  destruct (series_info.from_flatbuffers p) as [info|e| |]; try done. revert H. cbn [map_err]. run.
  destruct (add_series_info_if_not_exists (forward_index_ k) info) as [x|[e x]| |] eqn:E; try done. cbn [map_err]. run. intros H.
  destruct (Hi info eq_refl) as [Hr Hi']. apply (IH (with_index k x)); [done| |by apply Hi'].
  by apply (add_series_consistent _ _ _ Hc Hr).
Qed.

Lemma stream_snoc es t b : forall z,
  wal_facts.stream z (es ++ [(t, b)]) = wal_facts.stream z es ++ wal_facts.entry_bytes t (z + Z.of_nat (length es)) b.
Proof.
  induction es as [|[t0 b0] es IH]; intros z; cbn [app wal_facts.stream length].
  - by rewrite app_nil_r, Z.add_0_r.
  - rewrite IH, <- app_assoc. by replace (z + 1 + Z.of_nat (length es)) with (z + Z.of_nat (S (length es))) by lia.
Qed.

(** The size of the segment after the batches. *)
Definition segment_size (bs : list (list Z)) : Z := Z.of_nat (length (wal_facts.fresh_header ++ wal_facts.stream 0 (entries bs))).

Lemma alive_ready o bs k : alive o bs k -> Z.of_nat (length bs) + 1 < U64 -> segment_size bs <= wal.SEGMENT_SIZE ->
  exists w, log_ready k (mkWalManager (wal_dir o) (segment_path o) w) /\
    wal.file w = wal_facts.fresh_header ++ wal_facts.stream 0 (entries bs) /\ wal.max_sequence w = Z.of_nat (length bs) /\
    wal.config_sync w = wal_sync o.
Proof.
  intros Hk Hlen Hsz. destruct (al_log _ _ _ Hk) as (w & Hj & Hf & Hs & Hm & Hc). exists w. split_and!; [|done|done|done].
  unfold log_ready. cbn [current_file current_path]. rewrite Hf. split_and!; [done|apply Hk|by rewrite <- Hf|lia|lia|].
  by rewrite Hs, Hf.
Qed.

Lemma write_alive o bs k b k' r :
  separate o -> alive o bs k -> batch_ok b -> Z.of_nat (length bs) + 1 < U64 -> segment_size bs <= wal.SEGMENT_SIZE ->
  write n k b = Ok (k', r) -> alive o (bs ++ [b]) k'.
Proof.
  intros [Hsep Hsi] Hk (_ & _ & ps & Hps & _ & Hgood) Hlen Hsz H. destruct (alive_ready o bs k Hk Hlen Hsz) as (w & Hready & Hf & Hm & Hcs).
  pose proof Hk as [Ho [Hsum Hseg Honly] Hdt Hwt Hx _ Hi Hdf Hp].
  assert (index_path (options k) <> segment_path o) as Hne by (rewrite Ho; apply not_eq_sym, (Hsep (names_facts.wal_name 1))).
  destruct (write_success n k _ b k' r Hi Hready Hne H) as (ps' & k1 & Hps' & _ & Hidx & Ho' & Hfi & Hj & Hd & Hrest).
  rewrite Hps in Hps'. injection Hps' as <-. cbn [current_path current_dir current_file] in *.
  destruct Hrest as (Hi' & Hsame & Hp').
  { rewrite (Forall_fmap replay_row) in Hgood. eapply Forall_impl; [exact Hgood|]. by intros p [Ht _]. }
  assert (wal.file (logged_writer w b) = wal_facts.fresh_header ++ wal_facts.stream 0 (entries (bs ++ [b]))) as Hfile.
  { unfold logged_writer. cbn [wal.file]. unfold entries. rewrite fmap_app. cbn [fmap list_fmap]. rewrite stream_snoc, length_fmap.
    by rewrite Hf, Hm, <- app_assoc. }
  pose proof (index_points_same ps k k (same_refl k)) as Hsm. rewrite Hidx in Hsm. destruct Hsm as (_ & _ & _ & _ & Hdt1 & Hwt1 & Hd1).
  pose proof (index_points_file ps k k1 Hidx) as Hx1. rewrite Ho in *. constructor; [done| | | | | |done|by apply (same_default (version_set_ k))|].
  - rewrite Hd. constructor.
    + rewrite save_other by (apply not_eq_sym, (Hsep (names_facts.wal_name 1))). by rewrite Hd1.
    + by rewrite save_same, Hfile.
    + intros name Hpl Hnm. rewrite save_other; [|by intros E; apply Hnm; apply join_inj in E].
      rewrite Hd1 by apply (Hsep name). by apply Honly.
  - intros Hsync. rewrite Hd. etransitivity; [apply save_dirty; cbn [wal.synced logged_writer]; congruence|].
    etransitivity; [exact Hdt1|]. apply union_least; [done|by apply Hdt].
  - by rewrite Hd, save_writable, Hwt1.
  - rewrite Hd, Hfi. rewrite save_other by done. by apply Hx1.
  - exists (logged_writer w b). split_and!; [done|done| | |done].
    + unfold logged_writer. cbn [wal.size wal.file]. by rewrite length_app, wal_facts.length_entry_bytes.
    + unfold logged_writer. cbn [wal.max_sequence]. rewrite Hm, length_app. cbn [length]. lia.
  - destruct Hsame as [Hn Hids]. intros id fid Hid. rewrite Hp', Hp by (by apply Hids). rewrite Hn.
    rewrite bind_app, batch_cells_app. rewrite Permutation_app_comm. f_equiv. cbn [mbind list_bind]. rewrite app_nil_r.
    unfold batch_rows. by rewrite Hps.
Qed.

(** A disk without any of the engine's files, on which they can be created. *)
Definition blank (o : Options) (f : fs.Fs) : Prop :=
  Forall (fun p => fs.open_file f p = None /\ fs.writable f p = true) [summary_path o; segment_path o; index_path o] /\
  only_segment o f /\ fs.dirty f = ∅.

Lemma recover_segment_fresh o f s vs m :
  only_segment o f -> fs.open_file f (segment_path o) = Some wal_facts.fresh_header -> m = 0 ->
  wal_manager.recover n f s vs m (wal_dir o) (list_file_names f (wal_dir o)) = Ok (f, s, vs).
Proof.
  intros Honly Hf ->. rewrite list_segment, Hf by done. cbn [wal_manager.recover].
  rewrite (recover_segment_ok n f s vs (wal_dir o) 1 []).
  - cbn [wal_facts.readable replay_list]. run. done.
  - done.
  - constructor.
  - range.
  - done.
  - cbn [wal_facts.stream]. by rewrite app_nil_r.
Qed.

(** An empty index file. *)
Lemma load_empty : load_cache_file (forward_index.new []) = Ok (forward_index.new []).
Proof.
  destruct (reload_ok (forward_index.new []) consistent_new ltac:(done)) as (y & Ey & Hy & Hfy).
  assert (y = forward_index.new []) as ->.
  { destruct y as [m fl]. cbn [file forward_index.new] in Hy. rewrite Hy. unfold forward_index.new. f_equal. apply map_eq.
    intros sid. specialize (Hfy sid). unfold fields in Hfy. cbn [series_info_set forward_index.new] in Hfy.
    rewrite lookup_empty in *. by destruct (m !! sid). }
  done.
Qed.

Lemma open_blank o f : separate o -> blank o f -> exists k, open n o f = Ok k /\ alive o [] k /\ forward_index_ k = forward_index.new [].
Proof.
  intros [Hsep Hsi] (Hfs & Honly & Hclean). apply Forall_cons in Hfs as [[Hsum Hsw] Hfs]. apply Forall_cons in Hfs as [[Hseg Hgw] Hfs].
  apply Forall_cons in Hfs as [[Hidx Hiw] _]. pose proof (Hsep (names_facts.wal_name 1)) as [Hgs Hgi]. fold (segment_path o) in Hgs, Hgi.
  unfold kv_core.open, kv_core.recover. fold (summary_path o). rewrite Hsum.
  destruct (summary_facts.new_summary_ok new_store f (db_path o) xs)
    as (s1 & f1 & sm & -> & Hpath & Hf1 & _ & Ho1 & Hw1 & Hd1 & Hpr & Hrec & Hseq); [done..|].
  fold (summary_path o) in Hpath. rewrite Hpath in *. cbn [unwrapped]. run.
  destruct (manager_new_empty o f1) as (f2 & -> & Hf2 & Hw2 & Hd2 & Ho2); [| |by rewrite Hw1|].
  { intros name Hp Hn. rewrite Ho1 by apply Hsep. by apply Honly. }
  { by rewrite Ho1. }
  cbn [unwrapped]. run.
  assert (only_segment o f2) as Honly2.
  { intros name Hp Hn. rewrite Ho2, Ho1; [by apply Honly|apply Hsep|]. intros E. by apply join_inj in E. }
  rewrite recover_segment_fresh by done. cbn [unwrapped]. run.
  assert (fs.open_file f2 (index_path o) = None) as Hi2 by (rewrite Ho2, Ho1 by done; done).
  unfold summary.open_record. rewrite Hi2.
  destruct (fs.create_empty f2 _ (or_introl Hi2)) as (f3 & -> & Hi3 & Hw3 & _ & Hd3 & Ho3); [by rewrite Hw2, Hw1|].
  cbn [unwrap]. run.
  unfold summary.content. rewrite Hi3. cbn [default from_option id].
  rewrite load_empty. cbn [map_err]. run.
  assert (only_segment o f3) as Honly3 by (intros name Hp Hn; rewrite Ho3 by apply Hsep; by apply Honly2).
  assert (fs.open_file f3 (segment_path o) = Some (wal_facts.fresh_header ++ [])) as Hg3 by (by rewrite Ho3, app_nil_r).
  destruct (manager_new_segment o f3 [] Honly3 Hg3) as (m & Em & Hm). rewrite Em. cbn [unwrapped]. run.
  eexists. split; [reflexivity|]. split; [|done].
  constructor; cbn [options disk forward_index_ wal_job store_ version_set_]; [done| | | |done| |apply Hpr| |].
  - constructor; [|done|done]. rewrite Ho3, Ho2; [done|by apply not_eq_sym|done].
  - intros _. rewrite Hd3. apply elem_of_subseteq. intros p [Hp _]%elem_of_difference. apply Hd2, Hd1 in Hp. by rewrite Hclean in Hp.
  - by rewrite Hw3, Hw2, Hw1.
  - by exists (current_file m).
  - by apply (recovered_default s1).
  - intros id fid _. unfold set_pending. destruct (ts_families _ !! id) as [g|] eqn:Eg; [|done]. by rewrite (pr_empty _ _ Hpr id).
Qed.

Fixpoint write_all (k : TsKv) (bs : list (list Z)) : outcome (Error * TsKv) TsKv :=
  match bs with
  | [] => Ok k
  | b :: bs' => '(k, _) ← write n k b; write_all k bs'
  end.

Lemma segment_size_app a b : segment_size a <= segment_size (a ++ b).
Proof.
  unfold segment_size, entries. rewrite fmap_app, !length_app. set (x := (fun b => (wal.Write, b)) <$> a).
  enough (forall e z, length (wal_facts.stream z x) <= length (wal_facts.stream z (x ++ e)))%nat as H by (specialize (H ((fun b => (wal.Write, b)) <$> b) 0); lia).
  intros e. induction x as [|[t d] x IH]; intros z; cbn [app wal_facts.stream length]; [lia|]. rewrite !length_app. specialize (IH (z + 1)). lia.
Qed.

Lemma write_all_alive o : separate o -> forall bs pre k k', alive o pre k -> Forall batch_ok bs ->
  Z.of_nat (length (pre ++ bs)) < U64 -> segment_size (pre ++ bs) <= wal.SEGMENT_SIZE -> write_all k bs = Ok k' ->
  alive o (pre ++ bs) k'.
Proof.
  intros Hsep. induction bs as [|b bs IH]; intros pre k k' Hk Hb Hl Hsz H; cbn [write_all] in H.
  { injection H as <-. by rewrite app_nil_r. }
  apply Forall_cons in Hb as [Hb Hbs]. destruct (write n k b) as [[k1 r]| | |] eqn:E; try done. revert H. run. intros H.
  pose proof (segment_size_app pre (b :: bs)). rewrite length_app in Hl. cbn [length] in Hl.
  replace (pre ++ b :: bs) with ((pre ++ [b]) ++ bs) in * by (by rewrite <- app_assoc).
  eapply (IH (pre ++ [b]) k1); [|done|rewrite !length_app; cbn [length]; lia|done|done].
  eapply write_alive; [done|done|done|lia|lia|exact E].
Qed.

(** The points of the batches, in the order in which they are written. *)
Definition batch_points (b : list Z) : list fb_Point := match root_points b with Some (Some ps) => ps | _ => [] end.

Lemma write_all_consistent o : separate o -> forall bs pre k k', alive o pre k -> Forall batch_ok bs ->
  Z.of_nat (length (pre ++ bs)) < U64 -> segment_size (pre ++ bs) <= wal.SEGMENT_SIZE -> write_all k bs = Ok k' ->
  consistent (forward_index_ k) -> indexable (forward_index_ k) (bs ≫= batch_points) -> consistent (forward_index_ k').
Proof.
  intros Hsep. induction bs as [|b bs IH]; intros pre k k' Hk Hb Hl Hsz H Hc Hi; cbn [write_all] in H; [by injection H as <-|].
  apply Forall_cons in Hb as [Hb Hbs]. destruct (write n k b) as [[k1 r]| | |] eqn:E; try done. revert H. run. intros H.
  pose proof (segment_size_app pre (b :: bs)). rewrite length_app in Hl. cbn [length] in Hl.
  assert (alive o (pre ++ [b]) k1) as Hk1 by (eapply write_alive; [done|done|done|lia|lia|exact E]).
  replace (pre ++ b :: bs) with ((pre ++ [b]) ++ bs) in * by (by rewrite <- app_assoc).
  destruct (alive_ready o pre k Hk) as (w & Hready & _); [lia|lia|].
  assert (index_path (options k) <> segment_path o) as Hne
    by (rewrite (al_options _ _ _ Hk); apply not_eq_sym, (proj1 Hsep (names_facts.wal_name 1))).
  destruct (write_success n k _ b k1 r (al_inv _ _ _ Hk) Hready Hne E) as (ps & k2 & Hps & _ & Hidx & _ & Hfi & _).
  cbn [mbind list_bind] in Hi. unfold batch_points at 1 in Hi. rewrite Hps in Hi.
  destruct (index_points_consistent ps _ k k2 Hidx Hc Hi) as [Hc2 Hi2]. rewrite <- Hfi in *.
  eapply (IH (pre ++ [b]) k1); [done|done|rewrite !length_app; cbn [length]; lia|done|done|done|done].
Qed.

(** C1. With the [sync] flag of the log on, no acknowledged write is lost when
    the process ends.  On an empty disk the engine opens; after any batches it
    acknowledged, the only file with bytes that were not synced is the forward
    index.  Whatever is left of that file, if it can be loaded, opening what is
    left of the disk gives an engine whose caches hold, for every family and
    field, the same cells as before, which are those of the batches, and whose
    forward index is what was loaded.  An index file that is gone or empty can be
    loaded; one that is whole gives the same fields, provided that every
    description written to it fits a record.  The batches fill at most one segment
    of the log, each has values that decode and a timestamp above the smallest
    one, and nothing has been flushed to files. *)
Theorem restart_recovers o f bs :
  separate o -> wal_sync o = true -> blank o f -> Forall batch_ok bs -> Z.of_nat (length bs) < U64 ->
  segment_size bs <= wal.SEGMENT_SIZE -> indexable (forward_index.new []) (bs ≫= batch_points) ->
  exists k0, open n o f = Ok k0 /\
    forall k, write_all k0 bs = Ok k ->
      (forall id fid, 0 <= id < tsfamily_num -> Permutation (set_pending (store_ k) (version_set_ k) id fid)
         (batch_cells (size (ts_families (version_set_ k))) (bs ≫= batch_rows) id fid)) /\
      fs.dirty (disk k) ⊆ {[index_path o]} /\
      forall lost, let f2 := fs.restart lost (disk k) in
        let load := load_cache_file (forward_index.new (summary.content f2 (index_path o))) in
        (forall y, load = Ok y ->
           exists k2, open n o f2 = Ok k2 /\ forward_index_ k2 = y /\
             forall id fid, Permutation (set_pending (store_ k2) (version_set_ k2) id fid)
                              (set_pending (store_ k) (version_set_ k) id fid)) /\
        (summary.content f2 (index_path o) = [] -> load = Ok (forward_index.new [])) /\
        (summary.content f2 (index_path o) = summary.content (disk k) (index_path o) ->
         Z.of_nat (length (summary.content f2 (index_path o))) < U64 ->
         exists y, load = Ok y /\ forall sid, fields y sid = fields (forward_index_ k) sid).
Proof.
  intros Hsep Hsync Hblank Hbs Hl Hsz Hix. destruct (open_blank o f Hsep Hblank) as (k0 & E0 & Hk0 & Hx0). exists k0. split; [done|].
  intros k Hw. pose proof (write_all_alive o Hsep bs [] k0 k Hk0 Hbs Hl Hsz Hw) as Hk. cbn [app] in Hk. split_and!.
  - intros id fid Hid. apply (al_pending _ _ _ Hk). by apply (al_families _ _ _ Hk).
  - by apply (al_dirty _ _ _ Hk).
  - intros lost f2 load. split_and!.
    + intros y Hy. destruct (reopen o bs k lost y) as (k2 & E & Hp & Hfy); [done..|]. by exists k2.
    + unfold load. intros ->. apply load_empty.
    + assert (consistent (forward_index_ k)) as Hc.
      { eapply (write_all_consistent o Hsep bs [] k0 k); try done; rewrite Hx0; [apply consistent_new|done]. }
      unfold load. intros ->. unfold summary.content. rewrite (al_index _ _ _ Hk). cbn [default from_option id]. intros Hfl.
      destruct (reload_ok (forward_index_ k) Hc Hfl) as (y & E & _ & Hy). by exists y.
Qed.

End restart.
(** ** Reading *)

Section reading.
Context {G : GlobalConfig} {P : BuildProfile} {V : VarInt} {Sn : Snap} {PIO : PageIO} {Crc : Crc32}.

Definition in_range (r : time_range.TimeRange) (l : list memcache.DataType) : list memcache.DataType :=
  base.filter (fun d => time_range.min_ts r < memcache.timestamp d < time_range.max_ts r) l.

Lemma read_cache_ok s l fid r : is_Some (caches s !! l) ->
  read_cache s l fid r = Ok (in_range r (family_facts.cells_at s fid l)).
Proof.
  intros [m Hm]. unfold read_cache, deref, family_facts.cells_at. rewrite Hm. cbn [unwrap unwrapped]. run.
  unfold memcache.cells_of. by destruct (memcache.data_cache m !! fid).
Qed.

Lemma in_range_app r a b : in_range r (a ++ b) = in_range r a ++ in_range r b.
Proof. apply filter_app. Qed.

Lemma read_caches_ok s ls fid r : Forall (fun l => is_Some (caches s !! l)) ls ->
  read_caches s ls fid r = Ok (in_range r (family_facts.content s ls fid)).
Proof.
  induction 1 as [|l ls Hl _ IH]; [done|]. cbn [read_caches]. rewrite read_cache_ok by done. run. rewrite IH. run.
  unfold family_facts.content. rewrite fmap_cons. cbn [concat]. by rewrite in_range_app.
Qed.

(** The levels other than 0, each with what it reads. *)
Definition upper (levels : list version.LevelInfo) (reads : list (list memcache.DataType)) : list memcache.DataType :=
  concat (snd <$> base.filter (fun p => version.lvl p.1 <> 0) (zip levels reads)).

Lemma read_levels_ok f levels tf fid r reads :
  Forall2 (fun li out => version.read_columnfile f li tf fid r = Ok out) levels reads ->
  read_levels f levels tf fid r = Ok (upper levels reads).
Proof.
  induction 1 as [|li out levels reads H _ IH]; [done|]. cbn [read_levels]. rewrite IH. unfold upper. cbn [zip zip_with].
  destruct (Z.eqb_spec (version.lvl li) 0).
  - rewrite filter_cons_False by (cbn; tauto). by run.
  - rewrite filter_cons_True by done. rewrite H. by run.
Qed.

Lemma upper_all levels : forall reads, length levels = length reads -> Forall (fun li => version.lvl li <> 0) levels ->
  upper levels reads = concat reads.
Proof.
  induction levels as [|li levels IH]; intros [|out reads] Hl H; try done. apply Forall_cons in H as [H1 H2].
  unfold upper. cbn [zip zip_with]. rewrite filter_cons_True by done. cbn [fmap list_fmap concat]. f_equal. by apply IH; [injection Hl|].
Qed.

Lemma inv_caches s f : family_facts.inv s f -> Forall (fun l => is_Some (caches s !! l)) (family_facts.owned f).
Proof.
  intros Hi. constructor; [|constructor].
  - destruct (family_facts.inv_mut _ _ Hi) as (m & -> & _). by eexists.
  - destruct (family_facts.inv_delta _ _ Hi) as (m & -> & _). by eexists.
  - eapply Forall_impl; [apply (family_facts.inv_immut _ _ Hi)|]. intros l (m & -> & _). by eexists.
Qed.

(** A read returns the cells of the field strictly inside the range that are
    in the caches the family owns, then what the levels above 0 hold, then what
    the first level of the list holds.  When that one is level 0 every level is
    read exactly once; when level 1 comes first, which is how recovery may order
    them, level 1 is read twice and the delta files of level 0 not at all. *)
Theorem read_point_reads k sid r fid tsf v reads :
  set_inv (store_ k) (version_set_ k) -> get_tsfamily (version_set_ k) sid = Some tsf ->
  versions (store_ k) !! version_ tsf = Some v ->
  Forall2 (fun li out => version.read_columnfile (disk k) li (tf_id tsf) fid r = Ok out) (version.levels_info v) reads ->
  let cached := in_range r (family_facts.content (store_ k) (family_facts.owned tsf) fid) in
  exists out, read_point k sid r fid = Ok out /\
    out = cached ++ upper (version.levels_info v) reads ++ default [] (head reads) /\
    (forall l0 ls, version.levels_info v = l0 :: ls -> version.lvl l0 = 0 -> Forall (fun li => version.lvl li <> 0) ls ->
       Permutation out (cached ++ concat reads)) /\
    (forall l1 l0 out1 out0, version.levels_info v = [l1; l0] -> version.lvl l1 = 1 -> version.lvl l0 = 0 ->
       reads = [out1; out0] -> out = cached ++ out1 ++ out1).
Proof.
  intros Hs Hg Hv Hr cached. destruct (get_tsfamily_Some _ _ _ Hg) as [Hf _]. destruct (set_each _ _ Hs _ _ Hf) as [_ Hi].
  pose proof (inv_caches _ _ Hi) as Hc. unfold family_facts.owned in Hc. apply Forall_cons in Hc as [Hc1 Hc]. apply Forall_cons in Hc as [Hc2 Hc3].
  exists (cached ++ upper (version.levels_info v) reads ++ default [] (head reads)). split_and!; [|done| |].
  - unfold read_point. rewrite Hg, !read_cache_ok, read_caches_ok by done. run. rewrite Hv. cbn [unwrap]. run.
    rewrite (read_levels_ok _ _ _ _ _ reads Hr). run.
    assert (cached = in_range r (family_facts.cells_at (store_ k) fid (mut_cache tsf)) ++
      in_range r (family_facts.cells_at (store_ k) fid (delta_mut_cache tsf)) ++
      in_range r (family_facts.content (store_ k) (immut_cache tsf) fid)) as ->.
    { unfold cached, family_facts.content, family_facts.owned. rewrite !fmap_cons. cbn [concat]. by rewrite !in_range_app. }
    destruct Hr as [|li out levels reads H _]; [run; by rewrite <- !app_assoc|]. rewrite H. run. by rewrite <- !app_assoc.
  - intros l0 ls El Hl0 Hls. rewrite El in *. destruct reads as [|out reads]; [inversion Hr|]. apply Forall2_cons in Hr as [_ Hr].
    f_equiv. unfold upper. cbn [zip zip_with head default concat]. rewrite filter_cons_False by (cbn; tauto).
    fold (upper ls reads). rewrite upper_all by (done || by eapply Forall2_length). apply Permutation_app_comm.
  - intros l1 l0 out1 out0 El Hl1 Hl0 ->. rewrite El. unfold upper. cbn [zip zip_with head default].
    rewrite filter_cons_True by (cbn; lia). rewrite filter_cons_False by (cbn; lia). cbn. by rewrite app_nil_r.
Qed.

End reading.
(** ** The summary job *)

Section jobs.
Context {P : BuildProfile} {PIO : PageIO} {Crc : Crc32} {BE : Bincode version_edit.VersionEdit}.
Import record_file record_facts summary.

(** The records of a list of edits up to the first that cannot be encoded, and
    whether there is none. *)
Fixpoint written (es : list version_edit.VersionEdit) : list (Z * Z * list Z) * bool :=
  match es with
  | [] => ([], true)
  | e :: es' =>
      match serialize e with
      | None => ([], false)
      | Some bs => let '(xs, ok) := written es' in ((1, 0, bs) :: xs, ok)
      end
  end.

(** An edit that does not encode to four gigabytes. *)
Definition short_edit (e : version_edit.VersionEdit) : Prop :=
  forall bs, serialize e = Some bs -> Z.of_nat (length bs) < 2 ^ 32.

Lemma apply_written path es : forall f, is_Some (fs.open_file f path) -> Forall short_edit es ->
  exists f', apply_version_edit f path es = (if (written es).2 then Ok f' else Err (Encode, f')) /\
    fs.open_file f' path = Some (content f path ++ encode_all (written es).1).
Proof.
  induction es as [|e es IH]; intros f [c Hc] Hs; cbn [apply_version_edit written].
  { exists f. unfold content. rewrite Hc. cbn [fst snd default from_option id]. unfold encode_all. cbn. by rewrite app_nil_r. }
  apply Forall_cons in Hs as [He Hs]. unfold summary.encode. destruct (serialize e) as [bs|] eqn:E; cbn [of_option map_err].
  - run. unfold append. change (edit_type_u8 SummaryEdit) with 0. rewrite write_record_ok by (by apply He). cbn [map_err]. run.
    set (f1 := fs.store f path _). assert (fs.open_file (fs.sync f1 path) path = Some (content f path ++ record_facts.encode 1 0 bs)) as Hf1
      by apply fs.open_same.
    destruct (IH (fs.sync f1 path)) as (f' & E' & Hf'); [by rewrite Hf1|done|].
    exists f'. destruct (written es) as [xs ok]. cbn [fst snd] in *. split; [done|]. rewrite Hf'. unfold content at 1. rewrite Hf1.
    cbn [default from_option id]. by rewrite <- app_assoc, <- index_facts.encode_all_cons.
  - exists f. cbn [fst snd]. split; [done|]. unfold content, encode_all. rewrite Hc. cbn. by rewrite app_nil_r.
Qed.

(** The answer to a task. *)
Definition answer (t : SummaryTask) : Z * option Error :=
  (cb t, if (written (task_edits t)).2 then None else Some ErrApplyEdit).

(** C32. Every task sent to the summary job is answered, once and in order: with
    success when all its edits are logged, with an error when one of them cannot
    be encoded.  The records of all the tasks are in the file in the order in
    which they were sent, those of a failed task up to the failing edit, and
    nothing is left waiting in the processor. *)
Theorem summary_job_answers path tasks : forall f,
  is_Some (fs.open_file f path) -> Forall (fun t => Forall short_edit (task_edits t)) tasks ->
  exists f', summary_job f path processer_new tasks = Ok (f', processer_new, answer <$> tasks) /\
    fs.open_file f' path =
      Some (content f path ++ encode_all (tasks ≫= fun t => (written (task_edits t)).1)).
Proof.
  induction tasks as [|t tasks IH]; intros f Hf Hs; cbn [summary_job].
  { destruct Hf as [c Hc]. exists f. split; [done|]. unfold content, encode_all. rewrite Hc. cbn. by rewrite app_nil_r. }
  apply Forall_cons in Hs as [Ht Hs]. unfold batch. cbn [cbs edits processer_new app]. unfold summary.apply. cbn [edits cbs].
  destruct (apply_written path (task_edits t) f Hf Ht) as (f1 & E & Hf1).
  destruct (IH f1) as (f' & E' & Hf'); [by rewrite Hf1|done|]. exists f'. split.
  - rewrite E. change (answer <$> t :: tasks)
      with ((cb t, if (written (task_edits t)).2 then None else Some ErrApplyEdit) :: (answer <$> tasks)).
    destruct (written (task_edits t)).2; run; rewrite E'; by run.
  - rewrite Hf'. unfold content at 1. rewrite Hf1. cbn [default from_option id mbind list_bind].
    by rewrite index_facts.encode_all_app, app_assoc.
Qed.

End jobs.
(** ** An example: one batch with one point, and a directory listing *)
Module example.

Fixpoint strip (pre s : string) : option string :=
  match pre, s with
  | EmptyString, _ => Some s
  | String.String a p, String.String b t => if bool_decide (a = b) then strip p t else None
  | _, _ => None
  end.

Lemma strip_spec pre : forall s r, strip pre s = Some r <-> s = pre +:+ r.
Proof.
  induction pre as [|a pre IH]; intros s r.
  - change ("" +:+ r) with r. destruct s; cbn [strip]; split; congruence.
  - change (String.String a pre +:+ r) with (String.String a (pre +:+ r)). destruct s as [|b s]; cbn [strip]; [done|].
    case_bool_decide as Hab; [subst; rewrite IH|]; split; congruence.
Qed.

#[global] Instance plain_dec name : Decision (plain name).
Proof. unfold plain. apply _. Defined.

Definition name_in (dir path : string) : option string :=
  match strip (dir +:+ "/") path with Some r => if decide (plain r) then Some r else None | None => None end.

Lemma name_in_spec dir path r : name_in dir path = Some r <-> plain r /\ path = join dir r.
Proof.
  unfold name_in. assert (forall r', (dir +:+ "/") +:+ r' = join dir r') as Hj.
  { intros r'. unfold join. induction dir as [|c dir IH]; [done|]. exact (f_equal (String.String c) IH). }
  destruct (strip (dir +:+ "/") path) as [r'|] eqn:E.
  - apply strip_spec in E. rewrite Hj in E. destruct (decide (plain r')) as [Hp|Hp].
    + split; [by intros [= <-]|]. intros [_ H]. rewrite E in H. apply join_inj in H. by subst.
    + split; [done|]. intros [H1 H2]. rewrite E in H2. apply join_inj in H2. by subst.
  - split; [done|]. intros [_ H]. rewrite <- Hj in H. apply strip_spec in H. congruence.
Qed.

#[global] Instance listing : ListDir := fun f dir => omap (name_in dir) (map_to_list (fs.files f)).*1.

Lemma NoDup_omap_inj {A B} (f : A -> option B) l :
  (forall x y z, f x = Some z -> f y = Some z -> x = y) -> NoDup l -> NoDup (omap f l).
Proof.
  intros Hinj. induction 1 as [|x l Hx _ IH]; [constructor|]. cbn [omap list_omap]. destruct (f x) as [z|] eqn:E; [|done].
  constructor; [|done]. intros (y & Hy & Ey)%list_elem_of_omap. by rewrite (Hinj x y z) in Hx.
Qed.

#[global] Instance listing_laws : ListDirLaws listing.
Proof.
  constructor.
  - intros f dir. apply NoDup_omap_inj; [|apply NoDup_fst_map_to_list]. intros x y z Hx Hy.
    apply name_in_spec in Hx as [_ ->]. by apply name_in_spec in Hy as [_ ->].
  - intros f dir name. unfold list_file_names, listing. rewrite list_elem_of_omap. split.
    + intros (path & Hp & [Hpl ->]%name_in_spec). split; [done|]. apply list_elem_of_fmap in Hp as ([p c] & -> & Hin).
      apply elem_of_map_to_list in Hin. by exists c.
    + intros [Hp [c Hc]]. exists (join dir name). split; [|by apply name_in_spec]. apply list_elem_of_fmap. exists (join dir name, c).
      split; [done|]. by apply elem_of_map_to_list.
Qed.

#[local] Instance config : GlobalConfig := summary_facts.example.two_families.
#[local] Instance profile : BuildProfile := true.
#[local] Instance pages : PageIO := cursor_facts.page16.
#[local] Instance crc : Crc32 := record_facts.ieee.
#[local] Instance crc_range : Crc32Range crc := record_facts.ieee_range.
#[local] Instance order : HashOrder := summary_facts.example.order.
#[local] Instance edits : Bincode version_edit.VersionEdit := bincode_facts.edit_bincode.
#[local] Instance edits_laws : BincodeLaws edits := bincode_facts.edit_laws.
#[local] Instance series : Bincode series_info.SeriesInfo := index_facts.example.series_bincode.
#[local] Instance series_laws : BincodeLaws series := index_facts.example.series_laws.

(** The message [7] is a batch with one point of series [h = x]. *)
Definition point : fb_Point :=
  model_facts.complete_point [tag.mkTag [0x68] [0x78]] [([0x75], FbFloat, [0; 0; 0; 0; 0; 0; 0; 1])] 5.

#[local] Instance messages : Flatbuffers := fun b => if bool_decide (b = [7]) then Some (Some [point]) else None.

Definition opts : Options := mkOptions "db" "wal" "index" true.
Definition empty_disk : fs.Fs := fs.mkFs ∅ ∅ (fun _ => None) (fun _ => true).
Definition first_record : list (Z * Z * list Z) := summary_facts.calls [version_edit.edit_new].

Lemma first_stored : summary_facts.stored [version_edit.edit_new] first_record.
Proof. apply summary_facts.stored_calls. vm_compute. reflexivity. Qed.

Lemma opts_separate : separate opts.
Proof. split; [|done]. intros name. split; intros H; discriminate H. Qed.

Lemma disk_blank : blank opts empty_disk.
Proof. split_and!; [|by intros name|done]. by repeat constructor. Qed.

Lemma point_decodes : Forall decodes [point].
Proof. repeat constructor. eexists. vm_compute. reflexivity. Qed.

Lemma point_good : Forall good_row (replay_row <$> [point]).
Proof. repeat constructor. by eexists. Qed.

Lemma batch_valid : valid_batch [7] [point].
Proof. split_and!; [done|apply point_decodes|apply point_good]. Qed.

Lemma batches_ok : Forall batch_ok [[7]].
Proof. repeat constructor; [done|]. exists [point]. apply batch_valid. Qed.

Lemma point_indexed k : forward_index_ k = forward_index.new [] ->
  index_points k [point] = Ok (with_index k index_facts.example.one_series).
Proof.
  intros Hk. cbn [index_points].
  assert (series_info.from_flatbuffers point = Ok (series_info.finish index_facts.example.first)) as -> by (vm_compute; reflexivity).
  cbn [map_err]. run. rewrite Hk.
  assert (add_series_info_if_not_exists (forward_index.new []) (series_info.finish index_facts.example.first) =
    Ok index_facts.example.one_series) as -> by (vm_compute; reflexivity).
  cbn [map_err]. by run.
Qed.

Lemma opened : exists k0, open 8 opts empty_disk = Ok k0 /\ alive first_record opts [] k0 /\
  forward_index_ k0 = forward_index.new [].
Proof.
  apply (open_blank 8 first_record); [done|done|apply first_stored|apply opts_separate|apply disk_blank].
Qed.

Lemma replay_is_insert_witness :
  exists k0, open 8 opts empty_disk = Ok k0 /\
    insert_cache 8 k0 3 [7] =
    ('(s, vs) ← unwrapped (replay_entry 8 (store_ k0) (version_set_ k0) (wal.mkWalEntryBlock wal.Write 3 0 1 [7]));
     Ok (with_caches k0 s vs)).
Proof.
  destruct opened as (k0 & E & _). exists k0. split; [exact E|].
  apply (replay_is_insert 8 k0 (wal.mkWalEntryBlock wal.Write 3 0 1 [7]) [point]); [done|done|apply point_decodes].
Defined.

Lemma write_batch_witness :
  exists k0 k', open 8 opts empty_disk = Ok k0 /\ write 8 k0 [7] = Ok (k', mkResponse 1 []) /\
    set_inv (store_ k') (version_set_ k') /\
    forall id fid, is_Some (ts_families (version_set_ k0) !! id) ->
      Permutation (set_pending (store_ k') (version_set_ k') id fid)
        (batch_cells (size (ts_families (version_set_ k0))) (replay_row <$> [point]) id fid ++
         set_pending (store_ k0) (version_set_ k0) id fid).
Proof.
  destruct opened as (k0 & E & Hk & Hx). destruct (alive_ready _ _ _ _ Hk) as (w & Hr & _); [done|done|].
  assert (index_path (options k0) <> segment_path opts) as Hne by (by rewrite (al_options _ _ _ _ Hk)).
  pose proof (write_batch 8 k0 _ [7] [point] (al_inv _ _ _ _ Hk) Hr Hne batch_valid) as H.
  rewrite (point_indexed k0 Hx) in H. destruct H as (k' & Hw & _ & _ & _ & Hi & _ & Hp).
  exists k0, k'. split; [exact E|]. split; [exact Hw|]. split; [exact Hi|exact Hp].
Defined.

Lemma points_indexable : indexable (forward_index.new []) ([[7]] ≫= batch_points).
Proof.
  change ([[7]] ≫= batch_points) with [point]. cbn [indexable]. intros info Hinfo. split; [|done].
  assert (series_info.from_flatbuffers point = Ok (series_info.finish index_facts.example.first)) as E by (vm_compute; reflexivity).
  rewrite E in Hinfo. injection Hinfo as <-. unfold room. cbn [forward_index.new series_info_set]. rewrite lookup_empty.
  apply index_facts.storable_small. vm_compute. reflexivity.
Qed.

Lemma restart_recovers_witness :
  exists k0 k k2, open 8 opts empty_disk = Ok k0 /\ write_all 8 k0 [[7]] = Ok k /\
    open 8 opts (fs.restart (fs.open_file (disk k)) (disk k)) = Ok k2 /\
    (forall id fid, Permutation (set_pending (store_ k2) (version_set_ k2) id fid)
                      (set_pending (store_ k) (version_set_ k) id fid)) /\
    (forall sid, fields (forward_index_ k2) sid = fields (forward_index_ k) sid).
Proof.
  destruct (restart_recovers 8 first_record ltac:(done) ltac:(done) first_stored ltac:(vm_compute; reflexivity) opts empty_disk [[7]]
    opts_separate eq_refl disk_blank batches_ok ltac:(done) ltac:(vm_compute; discriminate) points_indexable) as (k0 & E & H).
  destruct opened as (k0' & E' & Hk & Hx). rewrite E in E'. injection E' as <-.
  destruct (alive_ready _ _ _ _ Hk) as (w & Hr & _); [done|done|].
  assert (index_path (options k0) <> segment_path opts) as Hne by (by rewrite (al_options _ _ _ _ Hk)).
  destruct (write_total 8 k0 _ [7] [point] _ (al_inv _ _ _ _ Hk) Hr Hne batch_valid (point_indexed k0 Hx)) as [k Ew].
  assert (write_all 8 k0 [[7]] = Ok k) as Ewa by (cbn [write_all]; rewrite Ew; by run).
  assert (summary.content (disk k) "index" = file index_facts.example.one_series) as Hfile.
  { destruct (write_success 8 k0 _ [7] k _ (al_inv _ _ _ _ Hk) Hr Hne Ew) as (ps & k1 & Hps & _ & Hidx & _ & Hf & _ & Hd & _).
    injection Hps as <-. rewrite (point_indexed k0 Hx) in Hidx. injection Hidx as <-. unfold summary.content. rewrite Hd, save_other by done.
    cbn [disk with_index]. rewrite (al_options _ _ _ _ Hk). by rewrite fs.open_same. }
  destruct (H k Ewa) as (_ & _ & Hl). destruct (Hl (fs.open_file (disk k))) as (Hopen & _ & Hload).
  destruct Hload as (y & Ey & Hf).
  - unfold summary.content. by rewrite fs.restart_whole.
  - unfold summary.content. rewrite fs.restart_whole. fold (summary.content (disk k) (index_path opts)). change (index_path opts) with "index".
    rewrite Hfile. vm_compute. reflexivity.
  - destruct (Hopen y Ey) as (k2 & E2 & Hy & Hp). exists k0, k, k2. rewrite Hy. split; [exact E|]. split; [exact Ewa|].
    split; [exact E2|]. split; [exact Hp|exact Hf].
Defined.

(** One family whose levels recovery put in the order 1, 0. *)
Definition recovered_store : Store :=
  mkStore ∅ {[0 := version.mkVersion 0 0 i64_MIN "default0" [version.init 1; version.init 0]]} 1 [] true 0.
Definition one_family : outcome string (Store * VersionSet) :=
  version_set.new recovered_store [mkTseriesFamDesc "default0" kv_option.default_opt] {[0 := 0]}.
Definition engine : TsKv :=
  match one_family with
  | Ok (s, vs) => mkTsKv opts empty_disk s vs (forward_index.new []) None
  | _ => mkTsKv opts empty_disk recovered_store new_default (forward_index.new []) None
  end.

Definition range : time_range.TimeRange := time_range.mkTimeRange 10 0.

Lemma engine_inv : set_inv (store_ engine) (version_set_ engine).
Proof.
  destruct (new_ok recovered_store [mkTseriesFamDesc "default0" kv_option.default_opt] {[0 := 0]}) as (s & vs & E & Hp & _).
  - done.
  - done.
  - done.
  - apply map_Forall_singleton. eexists. split; [reflexivity|]. split; [done|by left].
  - intros i j l [<- _]%lookup_singleton_Some [<- _]%lookup_singleton_Some. done.
  - unfold engine, one_family. rewrite E. apply Hp.
Qed.

Lemma read_point_reads_witness :
  let V := leb128.varint in let Sn := string_codec.stored in
  exists out, read_point engine 5 range 1 = Ok out /\ out = [].
Proof.
  assert (exists tsf v, get_tsfamily (version_set_ engine) 5 = Some tsf /\ versions (store_ engine) !! version_ tsf = Some v /\
    version.levels_info v = [version.init 1; version.init 0] /\
    in_range range (family_facts.content (store_ engine) (family_facts.owned tsf) 1) = []) as (tsf & v & Hg & Hv & Hl & Hc).
  { eexists _, _. split_and!; vm_compute; reflexivity. }
  intros V Sn. destruct (read_point_reads engine 5 range 1 tsf v [[]; []] engine_inv Hg Hv) as (out & E & _ & _ & H).
  - rewrite Hl. by repeat constructor.
  - exists out. split; [exact E|]. rewrite (H _ _ [] [] Hl eq_refl eq_refl eq_refl), Hc. done.
Defined.

Lemma summary_job_answers_witness :
  let tasks := [summary.mkSummaryTask [version_edit.edit_new] 1; summary.mkSummaryTask [] 2] in
  let f := fs.store empty_disk "summary" [] in
  exists f', summary_job f "summary" summary.processer_new tasks = Ok (f', summary.processer_new, [(1, None); (2, None)]) /\
    fs.open_file f' "summary" = Some (record_facts.encode_all first_record).
Proof.
  intros tasks f.
  assert (Forall short_edit [version_edit.edit_new]) as Hs.
  { repeat constructor. intros bs Hb. vm_compute in Hb. injection Hb as <-. reflexivity. }
  destruct (summary_job_answers "summary" tasks f) as (f' & E & Hf).
  - by eexists.
  - constructor; [exact Hs|repeat constructor].
  - exists f'. split; [exact E|exact Hf].
Defined.

End example.
End kv_facts.
