(* ===== verification/Schema.v ===== *)
(** * The schema store (tskv/src/schema.rs)

    The schemas of databases, tables and columns are kept in memory and saved as
    one bincode value in a file.  [schema] translates the data, its operations,
    loading and saving over the files of Version, and the start of the store.

    The theorems give the invariant of the identifiers, the round trip through the
    file, and where the store looks for its file at the first start. *)
From S2P Require Import Prelude Bincode FileIO Version FileNames WalManager.

Module schema.

Inductive ColumnType := I64 | U64_ | F64 | Bool | String_ | Time | Tag.

Definition as_u32 (t : ColumnType) : Z :=
  match t with I64 => 1 | U64_ => 2 | F64 => 3 | Bool => 4 | String_ => 5 | Time => 6 | Tag => 7 end.

Definition as_str (t : ColumnType) : string :=
  match t with
  | I64 => "i64" | U64_ => "u64" | F64 => "f64" | Bool => "bool" | String_ => "string" | Time => "time" | Tag => "tag"
  end.

(** [TryFrom<u32>]: the arms are tried in order. *)
Definition column_type (value : Z) : option ColumnType :=
  if value =? as_u32 I64 then Some I64
  else if value =? as_u32 U64_ then Some U64_
  else if value =? as_u32 F64 then Some F64
  else if value =? as_u32 Bool then Some Bool
  else if value =? as_u32 String_ then Some String_
  else if value =? as_u32 Time then Some Time
  else if value =? as_u32 Tag then Some Tag
  else None.

Record ColumnSchema := mkColumnSchema { col_id : Z; col_name : string; col_type : ColumnType }.
Record TableSchema := mkTableSchema { tab_id : Z; tab_name : string; columns : gmap string ColumnSchema }.
Record DatabaseSchema := mkDatabaseSchema { db_id : Z; db_name : string; tables : gmap string TableSchema }.

(** A column of the protocol. *)
Record Column := mkColumn { c_id : Z; c_name : string; c_type : Z }.

Definition database_new (id : Z) (name : string) : DatabaseSchema := mkDatabaseSchema id name ∅.
Definition table_new (id : Z) (name : string) : TableSchema := mkTableSchema id name ∅.

Definition column_try_from (c : Column) : option ColumnSchema :=
  t ← column_type (c_type c); Some (mkColumnSchema (c_id c) (c_name c) t).

(** [expect] panics on a column whose type is not known. *)
Definition add_column {E} (t : TableSchema) (c : Column) : outcome E TableSchema :=
  s ← unwrap (column_try_from c);
  Ok (mkTableSchema (tab_id t) (tab_name t) (<[c_name c := s]> (columns t))).

Record Data := mkData {
  schema : gmap string DatabaseSchema; next_database_id : Z; next_table_id : Z; next_column_id : Z; index : Z }.

Definition default_data : Data := mkData ∅ 1 1 1 1.

Inductive Error := DatabaseNotFound (database : string) | Encode | Decode | OpenFile | ReadFile | WriteFile.

(** *** Databases and tables *)

Definition with_schema (s : gmap string DatabaseSchema) (d : Data) : Data :=
  mkData s (next_database_id d) (next_table_id d) (next_column_id d) (index d).

(** Not implemented: every name is answered with [None]. *)
Definition database (d : Data) (name : string) : option DatabaseSchema := None.

Definition create_database (d : Data) (name : string) : Data :=
  match schema d !! name with
  | Some _ => d
  | None =>
      let id := next_database_id d in
      mkData (<[name := mkDatabaseSchema id name ∅]> (schema d)) (u64 (id + 1)) (next_table_id d) (next_column_id d) (index d)
  end.

Definition drop_database (d : Data) (name : string) : Data := with_schema (delete name (schema d)) d.

Definition create_table (d : Data) (db : string) (t : TableSchema) : outcome Error Data :=
  s ← of_option (schema d !! db) (DatabaseNotFound db);
  Ok (with_schema (<[db := mkDatabaseSchema (db_id s) (db_name s) (<[tab_name t := t]> (tables s))]> (schema d)) d).

Definition drop_table (d : Data) (db t : string) : outcome Error Data :=
  s ← of_option (schema d !! db) (DatabaseNotFound db);
  Ok (with_schema (<[db := mkDatabaseSchema (db_id s) (db_name s) (delete t (tables s))]> (schema d)) d).

(** *** The file *)
Section file.
Context {B : Bincode Data} {PIO : PageIO}.

Definition encode (d : Data) : outcome Error (list Z) := of_option (serialize d) Encode.
Definition decode (bs : list Z) : outcome Error Data := of_option (deserialize bs) Decode.

Definition create (f : fs.Fs) (path : string) : outcome Error fs.Fs := of_option (fs.create_file f path) OpenFile.

(** [file.write_at(0, &data.encode()?)]. *)
Definition write_data (f : fs.Fs) (path : string) (d : Data) : outcome Error fs.Fs :=
  bs ← encode d;
  Ok (fs.store f path (bytes_file.write_at (default [] (fs.open_file f path)) 0 bs)).

Definition load (f : fs.Fs) (path : string) : outcome Error (Data * fs.Fs) :=
  '(new_file, f) ← (match fs.open_file f path with
                    | Some content => Ok ((length content =? 0)%nat, f)
                    | None => f ← create f path; Ok (true, f)
                    end);
  if new_file : bool then
    f ← write_data f path default_data;
    Ok (default_data, f)
  else
    let content := default [] (fs.open_file f path) in
    buf ← bytes_file.read_at content 0 (length content);
    d ← decode buf;
    Ok (d, f).

Definition save (f : fs.Fs) (path : string) (d : Data) : outcome Error fs.Fs :=
  f ← create f path;
  write_data f path d.

(** *** The store *)

(** [Path::join]: an absolute path replaces the directory, and a separator is
    added unless the directory is empty or ends in one. *)
Definition separator : Ascii.ascii := Ascii.ascii_of_nat 47.
Definition is_absolute (path : string) : bool := bool_decide (head (file_names.chars path) = Some separator).
Definition ends_open (dir : string) : bool :=
  match last (file_names.chars dir) with None => true | Some c => bool_decide (c = separator) end.
Definition path_join (dir file : string) : string :=
  if is_absolute file then file else if ends_open dir then dir +:+ file else wal_manager.join dir file.

(** The file the store loads at its start; [segments] are the names in the
    directory. *)
Definition current_file (dir : string) (segments : list string) : outcome Error string :=
  o ← wal_manager.unwrapped (file_names.get_max_sequence_file_name segments file_names.get_schema_file_id);
  Ok (path_join dir (match o with Some (file, _) => file | None => file_utils.make_schema_file dir 1 end)).

(** [SchemaStore::new]; creating the directory is left to the file system. *)
Definition store_new (f : fs.Fs) (dir : string) (segments : list string) : outcome Error (Data * fs.Fs) :=
  path ← current_file dir segments;
  wal_manager.unwrapped (load f path).

Definition get_database (d : Data) (name : string) : option DatabaseSchema := schema d !! name.

End file.
End schema.

(** ** The databases over time *)
Module schema_facts.
Import schema.

Inductive op :=
| CreateDatabase (db : string) | DropDatabase (db : string)
| CreateTable (db : string) (t : TableSchema) | DropTable (db t : string).

(** An operation that fails leaves the data as it is. *)
Definition keep (d : Data) (m : outcome Error Data) : Data := match m with Ok d' => d' | _ => d end.

Definition apply_op (d : Data) (o : op) : Data :=
  match o with
  | CreateDatabase db => create_database d db
  | DropDatabase db => drop_database d db
  | CreateTable db t => keep d (create_table d db t)
  | DropTable db t => keep d (drop_table d db t)
  end.

Definition apply_ops (d : Data) (ops : list op) : Data := foldl apply_op d ops.

Record inv (d : Data) : Prop := {
  inv_named db s : schema d !! db = Some s -> db_name s = db;
  inv_tables db s t x : schema d !! db = Some s -> tables s !! t = Some x -> tab_name x = t;
  inv_issued db s : schema d !! db = Some s -> 1 <= db_id s < next_database_id d;
  inv_unique db db' s s' :
    schema d !! db = Some s -> schema d !! db' = Some s' -> db_id s = db_id s' -> db = db'
}.

(** Every database of [e] was in [d] under its name and identifier, or has an
    identifier [d] had not issued. *)
Definition since (d e : Data) : Prop :=
  next_database_id d <= next_database_id e /\
  forall db s, schema e !! db = Some s ->
    next_database_id d <= db_id s \/ exists s0, schema d !! db = Some s0 /\ db_id s0 = db_id s.

Lemma since_refl d : since d d.
Proof. split; [done|]. intros db s Hs. right. by exists s. Qed.

Lemma since_trans d e f : since d e -> since e f -> since d f.
Proof.
  intros [H1 H2] [H3 H4]. split; [lia|]. intros db s Hs. destruct (H4 db s Hs) as [?|(s0&Hs0&<-)]; [left; lia|eauto].
Qed.

Lemma inv_default : inv default_data.
Proof. split; cbn; intros *; by rewrite lookup_empty. Qed.

(** An update of the tables of one database. *)
Lemma update_tables_ok d db s ts : inv d -> schema d !! db = Some s -> (forall t x, ts !! t = Some x -> tab_name x = t) ->
  let e := with_schema (<[db := mkDatabaseSchema (db_id s) (db_name s) ts]> (schema d)) d in inv e /\ since d e.
Proof.
  intros I Hs Ht e.
  assert (Hl : forall n x, schema e !! n = Some x -> exists x0, schema d !! n = Some x0 /\ db_id x0 = db_id x /\
    db_name x0 = db_name x /\ (tables x = tables x0 \/ tables x = ts)).
  { intros n x. cbn. rewrite lookup_insert_Some. intros [[<- <-]|[_ Hx]]; [exists s|exists x]; cbn; auto. }
  split; [split|split; [done|]].
  - intros n x Hx. destruct (Hl n x Hx) as (x0&H0&_&<-&_). by apply (inv_named _ I).
  - intros n x t y Hx Hy. destruct (Hl n x Hx) as (x0&H0&_&_&[E|E]); rewrite E in Hy; [|by apply Ht].
    by apply (inv_tables _ I n x0).
  - intros n x Hx. destruct (Hl n x Hx) as (x0&H0&<-&_). by apply (inv_issued _ I n).
  - intros n n' x x' Hx Hx' E. destruct (Hl n x Hx) as (x0&H0&E0&_), (Hl n' x' Hx') as (x1&H1&E1&_).
    apply (inv_unique _ I n n' x0 x1); congruence.
  - intros n x Hx. destruct (Hl n x Hx) as (x0&H0&E0&_). eauto.
Qed.

Lemma create_ok d db : inv d -> 0 < next_database_id d < U64 - 1 ->
  inv (create_database d db) /\ since d (create_database d db) /\
  next_database_id (create_database d db) <= next_database_id d + 1.
Proof.
  intros I Hn. unfold create_database. destruct (schema d !! db) as [s0|] eqn:Hdb.
  { split; [done|]. split; [apply since_refl|lia]. }
  rewrite u64_id by (unfold is_u64; lia).
  assert (Hl : forall n x, <[db := mkDatabaseSchema (next_database_id d) db ∅]> (schema d) !! n = Some x ->
    (n = db /\ x = mkDatabaseSchema (next_database_id d) db ∅) \/ schema d !! n = Some x).
  { intros n x. rewrite lookup_insert_Some. intros [[<- <-]|[_ Hx]]; auto. }
  pose proof (inv_issued _ I) as Hi. split; [split|split; [split|]]; cbn; try lia.
  - intros n x Hx. destruct (Hl n x Hx) as [[-> ->]|H]; [done|by apply (inv_named _ I)].
  - intros n x t y Hx Hy. destruct (Hl n x Hx) as [[-> ->]|H]; [cbn in Hy; by rewrite lookup_empty in Hy|by apply (inv_tables _ I n x)].
  - intros n x Hx. destruct (Hl n x Hx) as [[-> ->]|H]; cbn; [lia|]. specialize (Hi n x H). lia.
  - intros n n' x x' Hx Hx'. destruct (Hl n x Hx) as [[-> ->]|H], (Hl n' x' Hx') as [[-> ->]|H']; cbn; intros E; try done.
    + specialize (Hi n' x' H'). lia.
    + specialize (Hi n x H). lia.
    + by apply (inv_unique _ I n n' x x').
  - intros n x Hx. destruct (Hl n x Hx) as [[-> ->]|H]; cbn; [lia|eauto].
Qed.

Lemma drop_ok d db : inv d -> inv (drop_database d db) /\ since d (drop_database d db).
Proof.
  intros I. assert (Hl : forall n x, delete db (schema d) !! n = Some x -> schema d !! n = Some x).
  { intros n x. rewrite lookup_delete_Some. by intros [_ ?]. }
  split; [split|split; [done|]]; cbn; intros *.
  - intros H%Hl. by apply (inv_named _ I).
  - intros H%Hl. by apply (inv_tables _ I _ _ _ _ H).
  - intros H%Hl. by apply (inv_issued _ I _ _ H).
  - intros H%Hl H'%Hl. by apply (inv_unique _ I _ _ _ _ H H').
  - intros H%Hl. right. eauto.
Qed.

Lemma apply_op_ok d o : inv d -> 0 < next_database_id d < U64 - 1 ->
  inv (apply_op d o) /\ since d (apply_op d o) /\ next_database_id (apply_op d o) <= next_database_id d + 1.
Proof.
  intros I Hn. destruct o as [db|db|db t|db t]; cbn [apply_op].
  - by apply create_ok.
  - destruct (drop_ok d db I). split_and!; [done..|cbn; lia].
  - unfold create_table. destruct (schema d !! db) as [s|] eqn:Hs; cbn; [|split_and!; [done|apply since_refl|lia]].
    destruct (update_tables_ok d db s (<[tab_name t := t]> (tables s)) I Hs); [|split_and!; [done..|lia]].
    intros n x. rewrite lookup_insert_Some. intros [[<- <-]|[_ Hx]]; [done|by apply (inv_tables _ I db s)].
  - unfold drop_table. destruct (schema d !! db) as [s|] eqn:Hs; cbn; [|split_and!; [done|apply since_refl|lia]].
    destruct (update_tables_ok d db s (delete t (tables s)) I Hs); [|split_and!; [done..|lia]].
    intros n x. rewrite lookup_delete_Some. intros [_ Hx]. by apply (inv_tables _ I db s).
Qed.

Lemma apply_ops_ok ops d : inv d -> 0 < next_database_id d -> next_database_id d + Z.of_nat (length ops) < U64 ->
  inv (apply_ops d ops) /\ since d (apply_ops d ops) /\
  next_database_id (apply_ops d ops) <= next_database_id d + Z.of_nat (length ops).
Proof.
  revert d. induction ops as [|o ops IH]; intros d I H0 H1; cbn [length] in *.
  { split_and!; [done|apply since_refl|cbn; lia]. }
  destruct (apply_op_ok d o I) as (I'&S'&N'); [lia|]. pose proof (proj1 S').
  destruct (IH (apply_op d o) I') as (I''&S''&N''); [lia..|]. cbn.
  split_and!; [done|by eapply since_trans|unfold apply_ops in N''; lia].
Qed.

(** C23. Of the operations on a new store, in any order and with any failures: every
    database is filed under its own name and every table under its own, and an
    identifier belongs to one name for ever: a database that exists after some of
    the operations and one that exists after more of them have the same identifier
    only if they have the same name, so that dropping a database never frees its
    identifier for another. *)
Theorem database_ids_unique ops ops' db db' s s' :
  Z.of_nat (length (ops ++ ops')) + 1 < U64 ->
  let d := apply_ops default_data ops in
  let d' := apply_ops default_data (ops ++ ops') in
  schema d !! db = Some s -> schema d' !! db' = Some s' ->
  db_name s' = db' /\ (forall t x, tables s' !! t = Some x -> tab_name x = t) /\
  1 <= db_id s' < next_database_id d' /\ (db_id s = db_id s' -> db = db').
Proof.
  intros Hl d d' Hs Hs'. rewrite length_app in Hl.
  destruct (apply_ops_ok ops default_data inv_default) as (I&S0&N); [cbn; lia..|].
  assert (d' = apply_ops d ops') as E by apply foldl_app. pose proof (proj1 S0) as N0. cbn in N, N0.
  destruct (apply_ops_ok ops' d I) as (I'&[_ S']&_); [unfold d; lia..|]. rewrite <- E in I', S'.
  split_and!; [by apply (inv_named _ I')|intros t x; by apply (inv_tables _ I' db')|apply (inv_issued _ I' db' s' Hs')..|].
  intros Eid. pose proof (inv_issued _ I db s Hs). destruct (S' db' s' Hs') as [?|(s0&H0&E0)]; [unfold d in *; lia|].
  apply (inv_unique _ I db db' s s0); [exact Hs|exact H0|congruence].
Qed.

(** *** The file *)
Section file_facts.
Context {B : Bincode Data} {PIO : PageIO}.

(** Writing puts the encoded data at the front of the file. *)
Lemma write_data_ok f path d bs : serialize d = Some bs -> bs <> [] ->
  exists rest, write_data f path d = Ok (fs.store f path (bs ++ rest)).
Proof.
  intros Hs Hne. unfold write_data, encode. rewrite Hs. cbn. unfold bytes_file.write_at. destruct bs as [|b bs]; [done|].
  cbn [length Nat.eqb Nat.add take app]. case_match; eexists; [reflexivity|by rewrite app_nil_r].
Qed.

Lemma load_saved {L : BincodeLaws B} f path d bs rest : fs.open_file f path = Some (bs ++ rest) -> serialize d = Some bs ->
  bs <> [] -> load f path = Ok (d, f).
Proof.
  intros Hf Hs Hne. unfold load. rewrite Hf. destruct (Nat.eqb_spec (length (bs ++ rest)) 0) as [E|E].
  { rewrite length_app in E. destruct bs; [done|]. cbn in E. lia. }
  cbn. rewrite Hf. unfold bytes_file.read_at, default, id. rewrite (proj2 (Nat.eqb_neq _ _) E). cbn.
  rewrite firstn_all. cbn. unfold decode. by rewrite (deserialize_prefix d bs rest).
Qed.

(** A missing or empty file gets the data of a new store. *)
Lemma load_new f path bs : default [] (fs.open_file f path) = [] -> fs.writable f path = true ->
  serialize default_data = Some bs -> bs <> [] ->
  exists f' rest, load f path = Ok (default_data, f') /\ fs.open_file f' path = Some (bs ++ rest) /\
    fs.writable f' = fs.writable f.
Proof.
  intros Hf Hw Hs Hne. unfold load, create. destruct (fs.open_file f path) as [c|] eqn:Ec.
  - cbn in Hf. subst c. destruct (write_data_ok f path default_data bs Hs Hne) as [rest E].
    exists (fs.store f path (bs ++ rest)), rest. cbn. rewrite E. split_and!; [done|apply fs.open_same|done].
  - destruct (fs.create_empty f path (or_introl Ec) Hw) as (f1 & -> & _ & Hw1 & _).
    destruct (write_data_ok f1 path default_data bs Hs Hne) as [rest E].
    exists (fs.store f1 path (bs ++ rest)), rest. cbn. rewrite E. split_and!; [done|apply fs.open_same|done].
Qed.

(** Saving, whether or not the file is held; the bytes are not synced. *)
Lemma save_ok f path d bs : fs.writable f path = true -> serialize d = Some bs -> bs <> [] ->
  exists f' rest, save f path d = Ok f' /\ fs.open_file f' path = Some (bs ++ rest) /\ path ∈ fs.dirty f' /\
    fs.writable f' path = true.
Proof.
  intros Hw Hs Hne. unfold save, create. assert (exists f1, fs.create_file f path = Some f1 /\ fs.writable f1 path = true) as (f1 & -> & Hw1).
  { unfold fs.create_file. rewrite Hw. by repeat case_match; eexists. }
  destruct (write_data_ok f1 path d bs Hs Hne) as [rest E]. exists (fs.store f1 path (bs ++ rest)), rest. cbn. rewrite E.
  split_and!; [done|apply fs.open_same| |done]. cbn. apply elem_of_union_l, elem_of_singleton_2. done.
Qed.

Lemma load_refused f path : fs.open_file f path = None -> fs.writable f path = false -> load f path = Err OpenFile.
Proof. intros Hf Hw. unfold load, create, fs.create_file. by rewrite Hf, Hw. Qed.

(** *** The name of the file *)

Lemma absolute_app (dir s : string) : dir <> "" -> is_absolute (dir +:+ s) = is_absolute dir.
Proof. by destruct dir. Qed.

Lemma current_file_none dir : dir <> "" ->
  current_file dir [] = Ok (if is_absolute dir then file_utils.make_schema_file dir 1
                            else path_join dir (file_utils.make_schema_file dir 1)).
Proof.
  intros Hd. unfold current_file, file_utils.make_schema_file. cbn -[is_absolute]. unfold path_join.
  rewrite absolute_app by done. by destruct (is_absolute dir).
Qed.

Lemma current_file_one dir : ends_open dir = false ->
  current_file dir ["_000001.schema"] = Ok (file_utils.make_schema_file dir 1).
Proof. intros Hd. unfold current_file, path_join. cbn. by rewrite Hd. Qed.

(** C24. With an absolute directory the store starts on an empty directory with the data
    of a new store, and a start that finds the file [_000001.schema], of the same
    process, loads what was saved last, whether or not the file was still held when
    it was saved.  Saving does not sync the file: if it is synced, the start of
    every later process loads the same data; if it is not, the bytes are still
    dirty, and the next process, when nothing of the file is left, starts with the
    data of a new store. *)
Theorem schema_store_restart {L : BincodeLaws B} f dir d bs0 bs :
  let file := file_utils.make_schema_file dir 1 in
  let start f := store_new f dir ["_000001.schema"] in
  is_absolute dir = true -> ends_open dir = false ->
  fs.open_file f file = None -> fs.writable f file = true ->
  serialize default_data = Some bs0 -> bs0 <> [] -> serialize d = Some bs -> bs <> [] ->
  exists f1 f2, store_new f dir [] = Ok (default_data, f1) /\ is_Some (fs.open_file f1 file) /\
    save f1 file d = Ok f2 /\ start f2 = Ok (d, f2) /\
    (forall lost, let g := fs.restart lost (fs.sync f2 file) in start g = Ok (d, g)) /\
    file ∈ fs.dirty f2 /\
    (forall lost, lost file = Some [] -> exists g, start (fs.restart lost f2) = Ok (default_data, g)).
Proof.
  intros file start Ha Ho Hf Hw Hs0 Hne0 Hs Hne. assert (dir <> "") as Hd by by intros ->.
  destruct (load_new f file bs0) as (f1 & rest1 & Hl & H1 & Hw1); [by rewrite Hf|done..|].
  destruct (save_ok f1 file d bs) as (f2 & rest & H2 & Hf2 & Hdirty & Hw2); [by rewrite Hw1|done|done|].
  assert (forall g, start g = wal_manager.unwrapped (load g file)) as Hstart.
  { intros g. unfold start, store_new. by rewrite current_file_one. }
  exists f1, f2. split_and!; [|by eexists|exact H2| | |done|].
  - unfold store_new. rewrite current_file_none by done. rewrite Ha. cbn. fold file. by rewrite Hl.
  - rewrite Hstart. by rewrite (load_saved f2 file d bs rest).
  - intros lost g. rewrite Hstart. rewrite (load_saved g file d bs rest); [done| |done|done]. unfold g.
    rewrite fs.restart_clean; [done|]. cbn. intros H%elem_of_difference. by destruct H as [_ []%not_elem_of_singleton].
  - intros lost Hlost. destruct (load_new (fs.restart lost f2) file bs0) as (g & ? & E & _); [|done..|].
    + by rewrite (fs.restart_dirty lost f2 file _ Hdirty Hf2), Hlost.
    + exists g. by rewrite Hstart, E.
Qed.

(** C37. With a relative directory the first start does not use the file of the directory:
    the directory is put twice in front of the name.  Where no such file can be
    created, as its directory does not exist, the start panics. *)
Theorem relative_first_start_panics f dir :
  let path := wal_manager.join dir (wal_manager.join dir "_000001.schema") in
  dir <> "" -> is_absolute dir = false -> ends_open dir = false ->
  fs.open_file f path = None -> fs.writable f path = false ->
  current_file dir [] = Ok path /\ store_new f dir [] = Panic.
Proof.
  intros path Hd Ha Ho Hf Hw.
  assert (current_file dir [] = Ok path) as E.
  { rewrite current_file_none, Ha by done. unfold path_join. unfold file_utils.make_schema_file at 1.
    rewrite absolute_app, Ha, Ho by done. done. }
  split; [done|]. unfold store_new. rewrite E. cbn. by rewrite load_refused.
Qed.

End file_facts.

(** *** Examples *)
Module example.
Import bincode.

(** The format bincode gives the data; an enumeration is its index as [u32]. *)
Definition kind_codec : codec ColumnType :=
  map_codec (fun i => default I64 (column_type (i + 1))) (fun t => as_u32 t - 1) (fun _ => true) (uint 4).
Definition dict {A} (c : codec A) : codec (gmap string A) :=
  map_codec list_to_map map_to_list (fun _ => true) (vec (pair text c)).
Definition col_codec : codec ColumnSchema :=
  map_codec (fun '(i, (n, t)) => mkColumnSchema i n t) (fun c => (col_id c, (col_name c, schema.col_type c))) (fun _ => true)
    (pair (uint 8) (pair text kind_codec)).
Definition tab_codec : codec TableSchema :=
  map_codec (fun '(i, (n, m)) => mkTableSchema i n m) (fun t => (tab_id t, (tab_name t, columns t))) (fun _ => true)
    (pair (uint 8) (pair text (dict col_codec))).
Definition db_codec : codec DatabaseSchema :=
  map_codec (fun '(i, (n, m)) => mkDatabaseSchema i n m) (fun t => (db_id t, (db_name t, tables t))) (fun _ => true)
    (pair (uint 8) (pair text (dict tab_codec))).
Definition data_codec : codec Data :=
  map_codec (fun '(s, (a, (b, (c, i)))) => mkData s a b c i)
    (fun d => (schema d, (next_database_id d, (next_table_id d, (next_column_id d, index d))))) (fun _ => true)
    (pair (dict db_codec) (pair (uint 8) (pair (uint 8) (pair (uint 8) (uint 8))))).

#[local] Instance dict_lawful {A} (c : codec A) : Lawful c -> Lawful (dict c).
Proof. intros Hc. apply map_lawful; [apply _|]. intros m _ _. apply list_to_map_to_list. Qed.
#[local] Instance kind_lawful : Lawful kind_codec.
Proof. apply map_lawful; [apply _|]. by intros []. Qed.
#[local] Instance col_lawful : Lawful col_codec.
Proof. apply map_lawful; [apply _|]. by intros []. Qed.
#[local] Instance tab_lawful : Lawful tab_codec.
Proof. apply map_lawful; [apply _|]. by intros []. Qed.
#[local] Instance db_lawful : Lawful db_codec.
Proof. apply map_lawful; [apply _|]. by intros []. Qed.
#[local] Instance data_lawful : Lawful data_codec.
Proof. apply map_lawful; [apply _|]. by intros []. Qed.

#[local] Instance data_bincode : Bincode Data := of_codec data_codec.
#[local] Instance data_laws : BincodeLaws data_bincode := codec_laws data_codec _.
#[local] Instance pages : PageIO := cursor_facts.page16.

Definition cpu : TableSchema := mkTableSchema 1 "cpu" {[ "load" := mkColumnSchema 1 "load" F64 ]}.
Definition ops : list op := [CreateDatabase "a"; CreateDatabase "b"; CreateTable "a" cpu; DropTable "c" "cpu"].
Definition more : list op := [DropDatabase "a"; CreateDatabase "c"; CreateDatabase "a"].
Definition disk : fs.Fs := fs.mkFs ∅ ∅ (fun _ => None) (fun p => bool_decide (p = "/db/_000001.schema")).

(** The database [a] is dropped and created again: [c] has another identifier than
    either of them. *)
Lemma database_ids_unique_witness :
  let a := mkDatabaseSchema 1 "a" {[ "cpu" := cpu ]} in
  let c := mkDatabaseSchema 3 "c" ∅ in
  schema (apply_ops default_data ops) !! "a" = Some a /\ schema (apply_ops default_data (ops ++ more)) !! "c" = Some c /\
  db_name c = "c" /\ (db_id a = db_id c -> "a" = "c").
Proof.
  set (a := mkDatabaseSchema 1 "a" {[ "cpu" := cpu ]}). set (c := mkDatabaseSchema 3 "c" ∅).
  destruct (database_ids_unique ops more "a" "c" a c) as (H1&_&_&H2); [vm_compute; reflexivity..|].
  split; [vm_compute; reflexivity|]. split; [vm_compute; reflexivity|]. exact (conj H1 H2).
Defined.

Lemma schema_store_restart_witness :
  let d := apply_ops default_data ops in
  exists f1 f2, store_new disk "/db" [] = Ok (default_data, f1) /\ save f1 "/db/_000001.schema" d = Ok f2 /\
    store_new f2 "/db" ["_000001.schema"] = Ok (d, f2).
Proof.
  destruct (schema_store_restart disk "/db" (apply_ops default_data ops) (enc data_codec default_data)
    (enc data_codec (apply_ops default_data ops))) as (f1 & f2 & H1 & _ & H2 & H3 & _); [vm_compute; congruence..|].
  exists f1, f2. exact (conj H1 (conj H2 H3)).
Defined.

Lemma relative_first_start_panics_witness : store_new disk "dev/schema" [] = Panic.
Proof. apply (relative_first_start_panics disk "dev/schema"); vm_compute; congruence. Defined.

End example.
End schema_facts.
