(* ===== verification/Picker.v ===== *)
(** * Choosing files to compact (tskv/src/compaction/picker.rs)

    The picker scores the levels of a version, takes the level with the highest score
    and the first files of that level up to a size.  [picker] translates it; an [f64]
    is the binary64 number of the Standard Library's [SpecFloat].

    [picker_facts] shows which files it takes, and that on every version the engine
    builds it panics before it gets there. *)
From S2P Require Import Prelude Sorting Utils MemCache Version.
From Stdlib Require Import Floats.SpecFloat.

Module picker.
Import version.

(** ** Floating point *)

Definition f64 : Type := spec_float.
Definition as_f64 (z : Z) : f64 := binary_normalize 53 1024 z 0 false.
Definition f64_div : f64 -> f64 -> f64 := SFdiv 53 1024.
Definition f64_lt : f64 -> f64 -> bool := SFltb.

(** [f64::max] ignores a NaN. *)
Definition f64_max (a b : f64) : f64 :=
  match a, b with
  | S754_nan, _ => b
  | _, S754_nan => a
  | _, _ => if f64_lt a b then b else a
  end.

(** ** The picker *)

Definition LevelCompactionPicker : Type := gmap Z kv_option.TseriesFamOpt.

Record LevelCompatContext := mkContext { lvl_scores : list (Z * f64); base_level : Z; max_level : Z }.

Definition default_context : LevelCompatContext := mkContext [] 0 0.

Record CompactReq := mkCompactReq { req_files : Z * list ColumnFile; req_version : Version; req_cf : Z; out_lvl : Z }.

Section picker.
Context {E : Type} {P : BuildProfile}.

(** [u64::checked_div]. *)
Definition checked_div (a b : Z) : option Z := if b =? 0 then None else Some (a / b).

Fixpoint score_levels (l : nat) (info : list LevelInfo) : outcome E (list (Z * f64)) :=
  match info with
  | [] => Ok []
  | item :: info =>
      score ← unwrap (checked_div (cur_size item) (max_size item));
      rest ← score_levels (S l) info;
      Ok ((Z.of_nat l, as_f64 score) :: rest)
  end.

Definition cal_score (self : LevelCompatContext) (version : Version) (opts : kv_option.TseriesFamOpt) : outcome E LevelCompatContext :=
  let info := levels_info version in
  info0 ← unwrap (info !! 0%nat);
  let level0_being_compact := existsb being_compact (files info0) in
  let first :=
    if level0_being_compact then []
    else
      let score := f64_div (as_f64 (Z.of_nat (length (files info0)))) (as_f64 (kv_option.compact_trigger opts)) in
      [(0, f64_max score (f64_div (as_f64 (cur_size info0)) (as_f64 (max_size info0))))] in
  scores ← score_levels 0 info;
  Ok (mkContext (lvl_scores self ++ first ++ scores) 0 (Z.of_nat (length info) - 1)).

(** The comparison makes the element with the higher score the lesser one and never
    answers [Equal]; the sort only asks whether an element is less than one before
    it, so that equal scores keep their order. *)
Definition before (a b : Z * f64) : bool := negb (f64_lt a.2 b.2).

Definition pick_level (self : LevelCompatContext) : option (Z * Z) * LevelCompatContext :=
  let scores := sort_by before (lvl_scores self) in
  let self := mkContext scores (base_level self) (max_level self) in
  (match scores with
   | (level, score) :: _ =>
       if f64_lt score (as_f64 1) then None
       else if level =? 0 then Some (level, base_level self)
       else if level + 1 =? max_level self then Some (level, level)
       else Some (level, level + 1)
   | [] => None
   end, self).

(** The loop of [pick_files]; the time range it also computes is not used. *)
Fixpoint take_files (max file_size : Z) (fs : list ColumnFile) : outcome E (list ColumnFile) :=
  match fs with
  | [] => Ok []
  | file :: fs =>
      file_size ← add_u64 file_size (cf_size file);
      if max <=? file_size then Ok [file]
      else rest ← take_files max file_size fs; Ok (file :: rest)
  end.

Definition pick_files (version : Version) (opts : kv_option.TseriesFamOpt) (level output_level : Z) : outcome E (option (Z * list ColumnFile)) :=
  let infos := levels_info version in
  if Z.of_nat (length infos) - 1 <? level then Ok None
  else
    max ← kv_option.level_file_size opts output_level;
    info ← unwrap (infos !! Z.to_nat level);
    inputs ← take_files max 0 (files info);
    Ok (Some (level, inputs)).

(** The picked files are shared with the version: marking them marks them there. *)
Definition mark_files (version : Version) (level : Z) (n : nat) : Version :=
  let mark info :=
    mkLevelInfo ((mark_compaction <$> take n (files info)) ++ drop n (files info)) (lvl info) (cur_size info) (max_size info) (ts_range info) in
  mkVersion (id version) (last_seq version) (max_level_ts version) (name version) (alter mark (Z.to_nat level) (levels_info version)).

Definition pick_compaction (self : LevelCompactionPicker) (cf : Z) (version : Version) : outcome E (option CompactReq) :=
  opts ← unwrap (self !! cf);
  ctx ← cal_score default_context version opts;
  let '(picked, ctx) := pick_level ctx in
  match picked with
  | None => Ok None
  | Some (start_level, out_lvl) =>
      input ← pick_files version opts start_level out_lvl;
      match input with
      | None => Ok None
      | Some (lvl, fs) =>
          Ok (Some (mkCompactReq (lvl, mark_compaction <$> fs) (mark_files version lvl (length fs)) cf out_lvl))
      end
  end.

End picker.
End picker.

Module picker_facts.
Import version picker.

(** The files are taken until their sizes reach the limit. *)
Definition total_size (fs : list ColumnFile) : Z := foldr (fun f n => cf_size f + n) 0 fs.

(** The levels the engine makes: a new one, and one with a file added. *)
Inductive built {P : BuildProfile} : LevelInfo -> Prop :=
| built_init l : built (init l)
| built_apply info delta info' : built info -> version.apply info delta = Ok info' -> built info'.

Section facts.
Context {E : Type} {P : BuildProfile}.

Lemma built_max_size info : built info -> max_size info = 0.
Proof.
  induction 1 as [l|info delta info' _ IH H]; [done|]. unfold version.apply in H. bind_inv H. bind_inv H. by injection H as <-.
Qed.

Lemma score_levels_zero l info : (exists i, In i info /\ max_size i = 0) -> score_levels (E := E) l info = Panic.
Proof.
  revert l. induction info as [|a info IH]; intros l (i & Hi & Hm); [done|]. cbn [score_levels]. unfold checked_div.
  destruct (Z.eqb_spec (max_size a) 0) as [|Ha]; [done|]. run. destruct Hi as [->|Hi]; [done|]. by rewrite IH by eauto.
Qed.

(** C40. The picker panics on every version of the engine: a level is made with a maximal
    size of zero, which nothing changes, and the score of the level divides by it. *)
Theorem picker_panics (self : LevelCompactionPicker) cf version :
  Forall built (levels_info version) -> pick_compaction (E := E) self cf version = Panic.
Proof.
  intros H. unfold pick_compaction. destruct (self !! cf) as [opts|]; [|done]. run. unfold cal_score.
  destruct (levels_info version) as [|i info] eqn:Hi; [done|]. run. rewrite score_levels_zero; [done|].
  exists i. split; [by left|]. apply built_max_size. by inversion H.
Qed.

Lemma total_nonneg fs : Forall (fun f => 0 <= cf_size f) fs -> 0 <= total_size fs.
Proof. unfold total_size. induction 1; cbn; lia. Qed.

Lemma take_files_ok max fs : Forall (fun f => 0 <= cf_size f) fs -> forall size, 0 <= size -> size + total_size fs < U64 ->
  exists k, take_files (E := E) max size fs = Ok (take k fs) /\
    (forall j, (j < k)%nat -> (0 < j)%nat -> size + total_size (take j fs) < max) /\
    (k = length fs \/ (0 < k)%nat /\ max <= size + total_size (take k fs)).
Proof.
  induction 1 as [|f fs Hf Hfs IH]; intros size Hs Hb; cbn [take_files]; [by exists 0%nat; split_and!; [|lia|left]|].
  pose proof (total_nonneg fs Hfs) as H0.
  change (total_size (f :: fs)) with (cf_size f + total_size fs) in Hb. rewrite add_u64_ok by (unfold is_u64; lia). run. destruct (Z.leb_spec max (size + cf_size f)) as [Hm|Hm].
  - exists 1%nat. split_and!; [done|lia|]. right. split; [lia|].
    change (total_size (take 1 (f :: fs))) with (cf_size f + 0). lia.
  - destruct (IH (size + cf_size f)) as (k & Hk & Hlt & Hend); [lia..|]. exists (S k). rewrite Hk. run. split_and!; [done|..].
    + intros [|j] Hj Hj0; [lia|]. change (total_size (take (S j) (f :: fs))) with (cf_size f + total_size (take j fs)). destruct j as [|j]; [change (total_size (take 0 fs)) with 0; lia|].
      specialize (Hlt (S j) ltac:(lia) ltac:(lia)). lia.
    + destruct Hend as [->|[Hk0 Hend]]; [by left|right]. split; [lia|].
      change (total_size (take (S k) (f :: fs))) with (cf_size f + total_size (take k fs)). lia.
Qed.

(** Otherwise the picker takes the files of the level in order and stops with the
    first one at which their sizes reach the limit of the output level. *)
Theorem picked_files version opts level out max info :
  0 <= level < Z.of_nat (length (levels_info version)) -> levels_info version !! Z.to_nat level = Some info ->
  kv_option.level_file_size (E := E) opts out = Ok max ->
  Forall (fun f => 0 <= cf_size f) (files info) -> total_size (files info) < U64 ->
  exists k, pick_files (E := E) version opts level out = Ok (Some (level, take k (files info))) /\
    (forall j, (0 < j < k)%nat -> total_size (take j (files info)) < max) /\
    (k = length (files info) \/ (0 < k)%nat /\ max <= total_size (take k (files info))).
Proof.
  intros Hl Hi Hm Hn Ht. unfold pick_files. rewrite (proj2 (Z.ltb_ge _ _)) by lia. rewrite Hm, Hi. run.
  destruct (take_files_ok max (files info) Hn 0) as (k & -> & H1 & H2); [lia..|]. run. exists k. split; [done|].
  split; [intros j [Hj0 Hj]; specialize (H1 j Hj Hj0); lia|]. destruct H2 as [?|[? ?]]; [by left|right]. split; [done|lia].
Qed.

Lemma pick_level_zero ctx out ctx' : pick_level ctx = (Some (0, out), ctx') -> out = base_level ctx.
Proof.
  unfold pick_level. destruct (sort_by _ _) as [|[l s] scores]; [done|]. cbn [base_level max_level]. destruct (f64_lt s (as_f64 1)); [done|].
  destruct (Z.eqb_spec l 0) as [->|Hl]; [by intros [= <- _]|].
  destruct (l + 1 =? _); intros H; by simplify_eq.
Qed.

Lemma take_files_zero fs r : Forall (fun f => 0 <= cf_size f) fs -> take_files (E := E) 0 0 fs = Ok r -> r = take 1 fs.
Proof.
  destruct 1 as [|f fs Hf _]; cbn [take_files]; [by intros [= <-]|]. unfold add_u64. rewrite Z.add_0_l.
  destruct (_ && _); run; [done|]. pose proof (u64_range (cf_size f)) as [? _]. rewrite (proj2 (Z.leb_le _ _)) by done. by intros [= <-].
Qed.

Lemma level0_file_size opts : kv_option.level_file_size (E := E) opts 0 = Ok 0.
Proof.
  unfold kv_option.level_file_size. rewrite mul_u64_ok; rewrite Z.mul_0_r; [run|done].
  by rewrite mul_u64_ok; rewrite Z.mul_0_l.
Qed.

Ltac run_in H := cbn [of_option unwrap] in H; rewrite ?bind_Ok in H; cbn beta iota in H.

(** A compaction of level 0 goes to level 0 and has one file: the limit of the output
    level, a multiple of its number, is zero. *)
Theorem level0_one_file (self : LevelCompactionPicker) cf version info req :
  levels_info version !! 0%nat = Some info -> Forall (fun f => 0 <= cf_size f) (files info) ->
  pick_compaction (E := E) self cf version = Ok (Some req) -> (req_files req).1 = 0 ->
  out_lvl req = 0 /\ (req_files req).2 = mark_compaction <$> take 1 (files info).
Proof.
  intros Hi Hn H H0. unfold pick_compaction in H. destruct (self !! cf) as [opts|]; [run_in H|discriminate H].
  unfold cal_score in H. rewrite Hi in H. run_in H. destruct (score_levels 0 (levels_info version)) as [scores| | |]; try discriminate H. run_in H.
  destruct (pick_level _) as [[[lv out]|] ctx] eqn:Hp; [|discriminate H]. unfold pick_files in H. destruct (_ <? lv); [discriminate H|].
  destruct (kv_option.level_file_size opts out) as [max| | |] eqn:Hm; try discriminate H. run_in H.
  destruct (levels_info version !! Z.to_nat lv) as [info'|] eqn:Hi'; [|discriminate H]. run_in H.
  destruct (take_files max 0 (files info')) as [r| | |] eqn:Hr; try discriminate H. run_in H. injection H as <-. cbn in H0 |- *. subst lv.
  apply pick_level_zero in Hp. cbn in Hp. subst out. split; [done|].
  change (Z.to_nat 0) with 0%nat in Hi'. rewrite Hi in Hi'. injection Hi' as <-.
  assert (max = 0) as ->; [|by rewrite (take_files_zero _ _ Hn Hr)].
  rewrite level0_file_size in Hm. by injection Hm as <-.
Qed.

End facts.

(** *** Examples *)
Module example.

#[local] Instance checked : BuildProfile := true.

Definition file (n sz : Z) : ColumnFile :=
  mkColumnFile n false false (time_range.new 9 0) sz (bloom_filter.mkBloomFilter [] 0) false.
Definition level (n cur max : Z) (fs : list ColumnFile) : LevelInfo := mkLevelInfo fs n cur max (time_range.mkTimeRange 9 0).
Definition opts : kv_option.TseriesFamOpt := kv_option.mkTseriesFamOpt 4 0 10 4 100 "tsm" "delta".
Definition v : Version := mkVersion 1 1 0 "v" [level 0 60 20 [file 1 30; file 2 30]; level 1 10 100 [file 3 35; file 4 10; file 5 10]].

Lemma picker_panics_witness : pick_compaction (E := unit) {[ 1 := opts ]} 1 (mkVersion 1 1 0 "v" [init 0; init 1]) = Panic.
Proof. apply (picker_panics {[ 1 := opts ]} 1 (mkVersion 1 1 0 "v" [init 0; init 1])). repeat constructor. Defined.

Lemma picked_files_witness : exists k, pick_files (E := unit) v opts 1 1 = Ok (Some (1, take k [file 3 35; file 4 10; file 5 10])) /\
  (forall j, (0 < j < k)%nat -> total_size (take j [file 3 35; file 4 10; file 5 10]) < 40) /\
  (k = 3%nat \/ (0 < k)%nat /\ 40 <= total_size (take k [file 3 35; file 4 10; file 5 10])).
Proof. apply (picked_files v opts 1 1 40 (level 1 10 100 [file 3 35; file 4 10; file 5 10])); [cbn; lia|done|done|repeat constructor; cbn; lia|done]. Defined.

Definition req : CompactReq := mkCompactReq (0, [mark_compaction (file 1 30)]) (mark_files v 0 1) 1 0.

Lemma level0_one_file_witness : pick_compaction (E := unit) {[ 1 := opts ]} 1 v = Ok (Some req) /\ out_lvl req = 0.
Proof.
  assert (pick_compaction (E := unit) {[ 1 := opts ]} 1 v = Ok (Some req)) as H by (vm_compute; reflexivity).
  split; [exact H|]. apply (level0_one_file (E := unit) {[ 1 := opts ]} 1 v (level 0 60 20 [file 1 30; file 2 30]) req); [done|repeat constructor; cbn; lia|exact H|done].
Defined.

End example.
End picker_facts.
