(* ===== verification/PageLock.v ===== *)
(** * The lock of a cached page (tskv/src/direct_io/cache/page/lock.rs)

    A page is guarded by one atomic word: 0 is unlocked, the lower half of the
    range counts the shared owners, the upper half means that one thread owns the
    page exclusively.  [page_lock] has the operations as the atomic steps they
    consist of; [lock_steps] interleaves the steps of any number of threads that
    use the lock the way page/internal.rs does.

    The theorem is mutual exclusion over all interleavings; the lemmas after it
    show what becomes of the reset that should keep the count from overflowing. *)
From S2P Require Import Prelude.

Module page_lock.

(** ** Definitions *)

Definition USIZE : Z := 2 ^ 64.
Definition UNLOCKED : Z := 0.
Definition MIN_SHARED : Z := 1.
Definition MAX_EXCLUSIVE : Z := USIZE - 1.
Definition MIN_EXCLUSIVE : Z := MAX_EXCLUSIVE / 2 + 1.
Definition MAX_SHARED : Z := MIN_EXCLUSIVE - 1.

Inductive LockState := Unlocked | Shared | Exclusive.

#[global] Instance LockState_eq_dec : EqDecision LockState.
Proof. solve_decision. Defined.

(** [From<StateInt> for LockState]. *)
Definition lock_state (v : Z) : LockState :=
  if v =? UNLOCKED then Unlocked
  else if (MIN_SHARED <=? v) && (v <=? MAX_SHARED) then Shared
  else Exclusive.

Definition new_exclusive : Z := MIN_EXCLUSIVE.

(** The atomic operations return the old value and the new word. *)
Definition inc (w : Z) : Z * Z := (w, (w + 1) mod USIZE).
Definition dec (w : Z) : Z * Z := (w, (w - 1) mod USIZE).
Definition cas (w old new : Z) : Z * Z := (w, if w =? old then new else w).

Definition is_locked (w : Z) : bool := negb (bool_decide (lock_state w = Unlocked)).

(** What [lock_shared] does with the value [inc] returned: take the lock, give
    up, or try to reset the word. *)
Inductive attempt := Taken | GiveUp | Reset (state : Z).

Definition after_inc {E} (state : Z) : outcome E attempt :=
  if state <=? MAX_SHARED then (if state <? MAX_SHARED then Ok Taken else Panic)
  else if negb (state <? MAX_EXCLUSIVE) then Panic
  else if MIN_EXCLUSIVE / 2 + MAX_EXCLUSIVE / 2 <=? state then Ok (Reset state)
  else Ok GiveUp.

(** [lock_shared] when no other thread comes between its steps; the word is
    changed even when it panics. *)
Definition lock_shared {E} (w : Z) : outcome E bool * Z :=
  let '(state, w) := inc w in
  match after_inc state with
  | Ok Taken => (Ok true, w)
  | Ok GiveUp => (Ok false, w)
  | Ok (Reset state) => (Ok false, (cas w state MIN_EXCLUSIVE).2)
  | Err e => (Err e, w)
  | Panic => (Panic, w)
  | OutOfFuel => (OutOfFuel, w)
  end.

(** The assertions are checked in a debug build only. *)
Definition unlock_shared {E} {P : BuildProfile} (w : Z) : outcome E unit * Z :=
  let '(v, w) := dec w in
  (if overflow_checks && negb ((UNLOCKED <? v) && (v <=? MAX_SHARED)) then Panic else Ok tt, w).

Definition lock_exclusive0 (w : Z) : Z * Z := cas w UNLOCKED MIN_EXCLUSIVE.

Definition lock_exclusive (w : Z) : bool * Z :=
  let '(old, w) := lock_exclusive0 w in (old =? UNLOCKED, w).

Definition ensure_exclusive (w : Z) : bool * Z :=
  let '(old, w) := lock_exclusive0 w in
  (match lock_state old with Unlocked | Exclusive => true | Shared => false end, w).

Definition exclusive_to_shared {E} {P : BuildProfile} (w count : Z) : outcome E unit * Z :=
  (if overflow_checks && negb ((0 <? count) && (count <=? MAX_SHARED) && bool_decide (lock_state w = Exclusive))
   then Panic else Ok tt, count).

End page_lock.

(** ** Threads *)
Module lock_steps.
Import page_lock.

(** Where a thread is: not using the page, about to reset the word, waiting for
    the owner that loads the page, or owning it. *)
Inductive pc := Idle | Resetting (state : Z) | Waiting | HoldsShared | HoldsExclusive.

#[global] Instance pc_eq_dec : EqDecision pc.
Proof. solve_decision. Defined.

Record config := mkConfig { word : Z; threads : list pc }.

Definition count (p : pc) (ts : list pc) : Z := Z.of_nat (length (base.filter (fun q => q = p) ts)).

(** The owner shares the page with everyone who waited for it. *)
Definition release (p : pc) : pc := match p with Waiting | HoldsExclusive => HoldsShared | _ => p end.

Section steps.
Context {P : BuildProfile}.

(** Thread [i] makes one atomic step. *)
Inductive step : config -> config -> Prop :=
| step_shared w ts i a :
    ts !! i = Some Idle -> after_inc (E := unit) (inc w).1 = Ok a ->
    step (mkConfig w ts)
      (mkConfig (inc w).2 (<[i := match a with Taken => HoldsShared | GiveUp => Idle | Reset s => Resetting s end]> ts))
| step_reset w ts i s :
    ts !! i = Some (Resetting s) -> step (mkConfig w ts) (mkConfig (cas w s MIN_EXCLUSIVE).2 (<[i := Idle]> ts))
| step_unlock w ts i :
    ts !! i = Some HoldsShared -> step (mkConfig w ts) (mkConfig (unlock_shared (E := unit) w).2 (<[i := Idle]> ts))
| step_exclusive w ts i :
    ts !! i = Some Idle ->
    step (mkConfig w ts) (mkConfig (lock_exclusive w).2 (<[i := if (lock_exclusive w).1 then HoldsExclusive else Idle]> ts))
| step_wait w ts i :
    ts !! i = Some Idle -> HoldsExclusive ∈ ts -> step (mkConfig w ts) (mkConfig w (<[i := Waiting]> ts))
| step_share w ts i :
    ts !! i = Some HoldsExclusive ->
    step (mkConfig w ts)
      (mkConfig (exclusive_to_shared (E := unit) w (1 + count Waiting ts)).2 (release <$> ts)).

Inductive run : nat -> config -> config -> Prop :=
| run_0 c : run 0 c c
| run_S n c c' c'' : run n c c' -> step c' c'' -> run (S n) c c''.

End steps.
End lock_steps.

Module lock_facts.
Import page_lock lock_steps.

(** ** Counting threads *)

Definition one (p q : pc) : Z := if decide (q = p) then 1 else 0.

Lemma count_cons p q ts : count p (q :: ts) = one p q + count p ts.
Proof.
  unfold count, one. destruct (decide (q = p)); [rewrite filter_cons_True by done|rewrite filter_cons_False by done]; cbn [length]; lia.
Qed.

Lemma count_insert p q r ts : forall i, ts !! i = Some r -> count p (<[i := q]> ts) = count p ts - one p r + one p q.
Proof.
  induction ts as [|t ts IH]; intros [|i] H; [done|done| |].
  - injection H as ->. change (<[0%nat := q]> (r :: ts)) with (q :: ts). rewrite !count_cons. lia.
  - change (<[S i := q]> (t :: ts)) with (t :: <[i := q]> ts). rewrite !count_cons, (IH i H). lia.
Qed.

Lemma count_range p ts : 0 <= count p ts <= Z.of_nat (length ts).
Proof. unfold count. pose proof (length_filter (fun q => q = p) ts). lia. Qed.

Lemma count_elem p ts : p ∈ ts <-> 0 < count p ts.
Proof.
  unfold count. split.
  - intros H. assert (p ∈ base.filter (fun q => q = p) ts) as Hf by (by apply list_elem_of_filter).
    destruct (base.filter _ ts); [by apply elem_of_nil in Hf|cbn; lia].
  - intros H. destruct (base.filter (fun q => q = p) ts) as [|x l] eqn:E; [cbn in H; lia|].
    assert (x ∈ base.filter (fun q => q = p) ts) as Hx by (rewrite E; by left). apply list_elem_of_filter in Hx as [-> Hx]. done.
Qed.

Lemma count_release ts :
  count HoldsShared (release <$> ts) = count HoldsShared ts + count Waiting ts + count HoldsExclusive ts /\
  count HoldsExclusive (release <$> ts) = 0 /\ count Waiting (release <$> ts) = 0 /\
  (forall s, count (Resetting s) (release <$> ts) = count (Resetting s) ts).
Proof.
  induction ts as [|t ts (H1 & H2 & H3 & H4)]; [done|]. rewrite !fmap_cons, !count_cons.
  split_and!; [destruct t; unfold one; repeat case_decide; cbn [release] in *; try done; lia..|].
  intros s. rewrite !count_cons, H4. destruct t; unfold one; repeat case_decide; cbn [release] in *; done || lia.
Qed.

(** ** The invariant *)

(** After [n] steps: unlocked or shared, and the word counts the owners; or one
    exclusive owner, and the word counts the attempts that failed. *)
Definition inv (n : nat) (c : config) : Prop :=
  (forall s, count (Resetting s) (threads c) = 0) /\
  ((count HoldsExclusive (threads c) = 0 /\ count Waiting (threads c) = 0 /\ word c = count HoldsShared (threads c)) \/
   (count HoldsExclusive (threads c) = 1 /\ count HoldsShared (threads c) = 0 /\
    MIN_EXCLUSIVE <= word c <= MIN_EXCLUSIVE + Z.of_nat n)).

(** Fewer threads and steps than a quarter of the range. *)
Definition bounded (n : nat) (c : config) : Prop := Z.of_nat n < 2 ^ 62 /\ Z.of_nat (length (threads c)) < 2 ^ 62.

Lemma constants : MIN_EXCLUSIVE = 2 ^ 63 /\ MAX_SHARED = 2 ^ 63 - 1 /\ MIN_EXCLUSIVE / 2 + MAX_EXCLUSIVE / 2 = 2 ^ 63 + 2 ^ 62 - 1.
Proof. done. Qed.

Lemma small_mod x : 0 <= x < 2 ^ 63 + 2 ^ 62 + 1 -> x mod USIZE = x.
Proof. intros H. apply Z.mod_small. unfold USIZE. lia. Qed.

(** What an attempt to share does. *)
Lemma attempt_ok n c : inv n c -> bounded (S n) c ->
  after_inc (E := unit) (inc (word c)).1 = Ok (if word c <=? MAX_SHARED then Taken else GiveUp) /\
  (inc (word c)).2 = word c + 1.
Proof.
  intros [_ Hc] [Hn Ht]. pose proof constants as (Hmin & Hmax & Hthr). unfold after_inc. cbn [inc fst snd].
  pose proof (count_range HoldsShared (threads c)) as Hr. rewrite Hthr. destruct Hc as [(He & _ & Hw)|(He & Hs & Hw)].
  - rewrite !(proj2 (Z.leb_le _ _)), (proj2 (Z.ltb_lt _ _)) by lia. split; [done|]. apply small_mod. lia.
  - rewrite (proj2 (Z.leb_gt (word c) MAX_SHARED)), (proj2 (Z.ltb_lt (word c) _)) by (unfold MAX_EXCLUSIVE, USIZE; lia).
    rewrite (proj2 (Z.leb_gt _ (word c))) by lia. split; [done|]. apply small_mod. lia.
Qed.

Ltac counts H :=
  rewrite ?(count_insert _ _ _ _ _ H);
  repeat match goal with |- context [one ?a ?b] => let v := eval vm_compute in (one a b) in change (one a b) with v end; lia.

Section facts.
Context {P : BuildProfile}.

Lemma inv_step n c c' : inv n c -> bounded (S n) c -> step c c' -> inv (S n) c' /\ length (threads c') = length (threads c).
Proof.
  intros Hi Hb Hs. pose proof constants as (Hmin & Hmax & _). pose proof Hi as [Hres Hc].
  destruct Hs as [w ts i a Hid Ha|w ts i s Hid|w ts i Hid|w ts i Hid|w ts i Hid Hex|w ts i Hid]; cbn [word threads] in *.
  - split; [|by cbn; rewrite length_insert]. destruct (attempt_ok n _ Hi Hb) as [Ha' Hw']. cbn [word] in *. rewrite Ha in Ha'. rewrite Hw'.
    injection Ha' as ->. pose proof (count_range HoldsShared ts). destruct Hb as [_ Hb]. cbn [threads] in Hb.
    destruct (Z.leb_spec w MAX_SHARED); split; cbn [threads word]; try (intros s; rewrite (count_insert _ _ _ _ _ Hid), Hres; done).
    + left. destruct Hc as [(H1 & H2 & H3)|(H1 & H2 & H3)]; [|lia]. split_and!; counts Hid.
    + right. destruct Hc as [(H1 & H2 & H3)|(H1 & H2 & H3)]; [lia|]. split_and!; counts Hid.
  - exfalso. assert (Resetting s ∈ ts) as Hin by (by eapply list_elem_of_lookup_2). apply count_elem in Hin. by rewrite Hres in Hin.
  - split; [|by cbn; rewrite length_insert]. assert (0 < count HoldsShared ts) as Hpos by (apply count_elem; by eapply list_elem_of_lookup_2).
    pose proof (count_range HoldsShared ts). destruct Hb as [_ Hb]. cbn [threads] in Hb.
    split; cbn [threads word]; [intros s; rewrite (count_insert _ _ _ _ _ Hid), Hres; done|]. left.
    destruct Hc as [(H1 & H2 & H3)|(H1 & H2 & H3)]; [|lia]. cbn [unlock_shared dec snd]. rewrite small_mod by lia. split_and!; counts Hid.
  - split; [|by cbn; rewrite length_insert]. unfold lock_exclusive, lock_exclusive0, cas, UNLOCKED. cbn [fst snd].
    destruct (Z.eqb_spec w 0) as [->|Hne]; (split; cbn [threads word]; [intros s; rewrite (count_insert _ _ _ _ _ Hid), Hres; done|]).
    + right. destruct Hc as [(H1 & H2 & H3)|(H1 & H2 & H3)]; [|lia]. split_and!; counts Hid.
    + destruct Hc as [(H1 & H2 & H3)|(H1 & H2 & H3)]; [left|right]; split_and!; counts Hid.
  - split; [|by cbn; rewrite length_insert]. apply count_elem in Hex.
    split; cbn [threads word]; [intros s; rewrite (count_insert _ _ _ _ _ Hid), Hres; done|].
    right. destruct Hc as [(H1 & H2 & H3)|(H1 & H2 & H3)]; [lia|]. split_and!; counts Hid.
  - split; [|by cbn; rewrite length_fmap]. assert (0 < count HoldsExclusive ts) as Hpos by (apply count_elem; by eapply list_elem_of_lookup_2).
    destruct (count_release ts) as (R1 & R2 & R3 & R4). split; cbn [threads word exclusive_to_shared snd]; [intros s; by rewrite R4|].
    left. destruct Hc as [(H1 & H2 & H3)|(H1 & H2 & H3)]; [lia|]. split_and!; lia.
Qed.

Lemma inv_run n c0 c : inv 0 c0 -> bounded n c0 -> run n c0 c -> inv n c /\ length (threads c) = length (threads c0).
Proof.
  intros Hi Hb Hr. induction Hr as [c|n c c' c'' Hr IH Hs]; [done|]. destruct Hb as [Hn Ht].
  destruct IH as [Hi' Hl]; [done|split; [lia|done]|].
  destruct (inv_step n c' c'' Hi') as [Hi'' Hl']; [split; [done|by rewrite Hl]|done|]. split; [done|congruence].
Qed.

(** An unlocked page, and one that a thread has just created. *)
Definition initial (c : config) : Prop :=
  (word c = UNLOCKED \/ word c = new_exclusive) /\
  Forall (fun p => p = Idle \/ p = HoldsExclusive) (threads c) /\
  count HoldsExclusive (threads c) = (if word c =? UNLOCKED then 0 else 1).

Lemma initial_inv c : initial c -> inv 0 c.
Proof.
  intros (Hw & Hall & He). assert (forall p, p <> Idle -> p <> HoldsExclusive -> count p (threads c) = 0) as Hz.
  { intros p H1 H2. unfold count. rewrite filter_none; [done|]. eapply Forall_impl; [exact Hall|]. intros q [-> | ->]; congruence. }
  split; [intros s; by apply Hz|]. destruct Hw as [Hw|Hw]; rewrite Hw in He; [left|right]; cbn in He.
  - rewrite Hw, He, !Hz by done. done.
  - rewrite Hw, He, Hz by done. unfold new_exclusive. split_and!; [done|done|lia|lia].
Qed.

Lemma lock_state_shared w : 0 <= w <= MAX_SHARED -> lock_state w = if w =? 0 then Unlocked else Shared.
Proof. intros Hw. unfold lock_state, UNLOCKED, MIN_SHARED. destruct (Z.eqb_spec w 0); [done|]. by rewrite !(proj2 (Z.leb_le _ _)) by lia. Qed.

Lemma lock_state_exclusive w : MIN_EXCLUSIVE <= w -> lock_state w = Exclusive.
Proof.
  pose proof constants as (Hmin & Hmax & _). intros Hw. unfold lock_state, UNLOCKED.
  by rewrite (proj2 (Z.eqb_neq _ _)), (proj2 (Z.leb_gt w MAX_SHARED)), andb_false_r by lia.
Qed.

(** C33. The lock excludes: over every interleaving of the atomic steps of any
    number of threads below 2^62, in every execution of fewer than 2^62 steps, at
    most one thread owns the page exclusively, none shares it at the same time,
    the word says which of the three states the page is in, and no assertion of
    [lock_shared] fails. *)
Theorem lock_excludes n c0 c : initial c0 -> bounded (S n) c0 -> run n c0 c ->
  count HoldsExclusive (threads c) <= 1 /\
  (HoldsExclusive ∈ threads c -> HoldsShared ∉ threads c) /\
  (lock_state (word c) = Exclusive <-> HoldsExclusive ∈ threads c) /\
  (lock_state (word c) = Shared <-> HoldsShared ∈ threads c) /\
  exists a, after_inc (E := unit) (inc (word c)).1 = Ok a.
Proof.
  intros H0 Hb Hr. destruct (inv_run n c0 c) as [Hi Hl]; [by apply initial_inv|destruct Hb; split; [lia|done]|done|].
  pose proof constants as (Hmin & Hmax & _). rewrite !count_elem. pose proof (count_range HoldsShared (threads c)) as Hrange.
  assert (bounded (S n) c) as Hb' by (destruct Hb; split; [done|by rewrite Hl]).
  destruct (attempt_ok n c Hi Hb') as [Ha _]. destruct Hb' as [_ Hb'].
  destruct Hi as [_ [(H1 & H2 & H3)|(H1 & H2 & H3)]].
  - rewrite lock_state_shared by lia. rewrite H1. split_and!; [lia|lia| | |by eexists]; destruct (Z.eqb_spec (word c) 0);
      (split; intros Hst; done || lia).
  - rewrite lock_state_exclusive by lia. rewrite H1, H2. split_and!; [lia|lia|done|split; done || lia|by eexists].
Qed.

End facts.

(** ** The reset *)

Lemma failed_attempt {E} w : MIN_EXCLUSIVE <= w < MAX_EXCLUSIVE -> lock_shared (E := E) w = (Ok false, w + 1).
Proof.
  pose proof constants as (Hmin & Hmax & _). intros Hw. unfold lock_shared, inc, after_inc. cbn [fst snd].
  assert ((w + 1) mod USIZE = w + 1) as -> by (apply Z.mod_small; unfold MAX_EXCLUSIVE, USIZE in *; lia).
  rewrite (proj2 (Z.leb_gt _ MAX_SHARED)), (proj2 (Z.ltb_lt _ _)) by lia. cbn [negb].
  destruct (_ <=? w); [|done]. unfold cas. cbn [snd]. by rewrite (proj2 (Z.eqb_neq _ _)) by lia.
Qed.

(** The reset of the count never happens: it compares the word with the value
    from before the thread's own increment.  Failed attempts to share an
    exclusively owned page count up to the end of the range, and the attempt after
    that fails its assertion and leaves the page unlocked, so that a second
    thread can own it. *)
Theorem failed_attempts_overflow :
  let attempt w := (lock_shared (E := unit) w).2 in
  (forall k, (Z.of_nat k <= MAX_EXCLUSIVE - MIN_EXCLUSIVE) ->
     Nat.iter k attempt new_exclusive = MIN_EXCLUSIVE + Z.of_nat k) /\
  lock_shared (E := unit) MAX_EXCLUSIVE = (Panic, UNLOCKED) /\ lock_exclusive UNLOCKED = (true, MIN_EXCLUSIVE).
Proof.
  intros attempt. split; [|done]. induction k as [|k IH]; intros Hk; [by rewrite Z.add_0_r|].
  change (Nat.iter (S k) attempt new_exclusive) with (attempt (Nat.iter k attempt new_exclusive)). rewrite IH by lia.
  unfold attempt. rewrite failed_attempt by lia. cbn [snd]. lia.
Qed.

(** ** An example: a page is loaded while another thread waits for it *)

Definition loading : config := mkConfig new_exclusive [HoldsExclusive; Idle; Idle].
Definition loaded : config := mkConfig 2 [HoldsShared; HoldsShared; Idle].

Lemma lock_excludes_witness :
  let P : BuildProfile := true in
  count HoldsExclusive (threads loaded) <= 1 /\
  (HoldsExclusive ∈ threads loaded -> HoldsShared ∉ threads loaded) /\
  (lock_state (word loaded) = Exclusive <-> HoldsExclusive ∈ threads loaded) /\
  (lock_state (word loaded) = Shared <-> HoldsShared ∈ threads loaded) /\
  exists a, after_inc (E := unit) (inc (word loaded)).1 = Ok a.
Proof.
  intros P. apply (lock_excludes 3 loading loaded).
  - split_and!; [by right|apply (bool_decide_unpack _); vm_compute; exact I|done].
  - done.
  - pose (c1 := mkConfig (new_exclusive + 1) [HoldsExclusive; Idle; Idle]).
    pose (c2 := mkConfig (new_exclusive + 1) [HoldsExclusive; Waiting; Idle]).
    apply (run_S 2 loading c2 loaded); [apply (run_S 1 loading c1 c2); [apply (run_S 0 loading loading c1); [apply run_0|]|]|].
    + apply (step_shared new_exclusive [HoldsExclusive; Idle; Idle] 2 GiveUp); done.
    + apply (step_wait (new_exclusive + 1) [HoldsExclusive; Idle; Idle] 1); [done|by left].
    + apply (step_share (new_exclusive + 1) [HoldsExclusive; Waiting; Idle] 0). done.
Defined.

End lock_facts.
