(* ===== verification/PageCache.v ===== *)
(** * The page cache (tskv/src/direct_io/cache.rs, cache/page.rs,
      cache/page/internal.rs, cache/scope.rs)

    The cache keeps the pages of all open files in one circular list, the clock,
    and replaces them by the Clock-Pro algorithm: a hot hand, a cold hand and a
    test hand move over the clock.  The list has raw pointers both ways, so the
    pages live in an explicit heap; a dropped page is removed from it, and reading
    a location that is not in the heap is [Dangling].

    [page] and [internal] have the page and its bookkeeping, [cache_inner] the
    clock (everything the mutex guards), [cache] the operations of the cache.  A
    fault is split where the code releases the mutex: [enter] takes a buffer from
    another page, [transfer] writes the old page out and reads the new one, and
    [finish] publishes it.  The hands can go round for ever when pages are pinned,
    so every loop has fuel. *)
From S2P Require Import Prelude PageLock.

Inductive memory_fault := Dangling.

Notation res := (outcome memory_fault).

(** [debug_assert!(b)]. *)
Definition debug_assert {E} {P : BuildProfile} (b : bool) : outcome E unit :=
  if overflow_checks && negb b then Panic else Ok tt.

Module page.

(** The content of a page. *)
Record Page := mkPage { dirty : bool; bytes : list Z }.

(** [AlignedBuf::new]: the layout must be valid. *)
Definition aligned_buf {E} (size align : Z) : outcome E (list Z) :=
  if (0 <? align) && (Z.land align (align - 1) =? 0) && (size <=? I63 - align)
  then Ok (replicate (Z.to_nat size) 0) else Panic.

Definition new {E} (size align : Z) : outcome E Page :=
  b ← aligned_buf size align; Ok (mkPage false b).

Definition is_dirty (p : Page) : bool := dirty p.
Definition set_dirty (p : Page) (d : bool) : Page := mkPage d (bytes p).

End page.

Module internal.
Import page.

(** [PagePtr]; 0 is [PagePtr::dangling()]. *)
Definition ptr : Type := nat.
Definition dangling : ptr := 0%nat.

Inductive Status := Hot | Cold | Test | ProtectedTest | End_.

#[global] Instance Status_eq_dec : EqDecision Status.
Proof. solve_decision. Defined.

Inductive IoError := Read | Write.

(** [Some None] is [Ok(())]. *)
Record Io := mkIo { waiters : Z; result : option (option IoError) }.

(** A scope is known by its number. *)
Record Page_ := mkPage_ {
  scope : option nat; id : Z; io : Io; prev : ptr; next : ptr; status : Status;
  data : option Page; lock : Z; refd : bool }.

Definition io_new : Io := mkIo 0 None.

Definition new (scope : nat) (id : Z) (d : Page) : Page_ :=
  mkPage_ (Some scope) id io_new dangling dangling Test (Some d) page_lock.new_exclusive false.

Definition end_ (p : ptr) : Page_ :=
  mkPage_ None 0 io_new p p End_ None page_lock.new_exclusive false.

Definition set_io (v : Io) (g : Page_) := mkPage_ (scope g) (id g) v (prev g) (next g) (status g) (data g) (lock g) (refd g).
Definition set_prev (v : ptr) (g : Page_) := mkPage_ (scope g) (id g) (io g) v (next g) (status g) (data g) (lock g) (refd g).
Definition set_next (v : ptr) (g : Page_) := mkPage_ (scope g) (id g) (io g) (prev g) v (status g) (data g) (lock g) (refd g).
Definition set_status (v : Status) (g : Page_) := mkPage_ (scope g) (id g) (io g) (prev g) (next g) v (data g) (lock g) (refd g).
Definition set_data (v : option Page) (g : Page_) := mkPage_ (scope g) (id g) (io g) (prev g) (next g) (status g) v (lock g) (refd g).
Definition set_lock (v : Z) (g : Page_) := mkPage_ (scope g) (id g) (io g) (prev g) (next g) (status g) (data g) v (refd g).
Definition set_refd (v : bool) (g : Page_) := mkPage_ (scope g) (id g) (io g) (prev g) (next g) (status g) (data g) (lock g) v.

Definition is_resident (g : Page_) : bool := match data g with Some _ => true | None => false end.

Section io.
Context {P : BuildProfile}.

(** [Io::begin]; the lock on the result is free exactly when nobody waits. *)
Definition begin {E} (i : Io) : outcome E Io :=
  if waiters i =? 0 then Ok (mkIo 1 (result i)) else Panic.

Definition is_running (i : Io) : bool := 0 <? waiters i.

Definition register_waiter {E} (i : Io) : outcome E Io :=
  _ ← debug_assert (0 <? waiters i);
  if waiters i + 1 <? 2 ^ 32 then Ok (mkIo (waiters i + 1) (result i)) else Panic.

Definition finish (i : Io) (r : option IoError) : Io := mkIo 0 (Some r).

(** [Page_::finish_io]: a page that was loaded is shared by everyone who waits. *)
Definition finish_io {E} (g : Page_) (r : option IoError) : outcome E Page_ :=
  let '(x, w) := match r with
    | None => page_lock.exclusive_to_shared (E := E) (lock g) (waiters (io g))
    | Some _ => (Ok tt, lock g)
    end in
  _ ← x; Ok (set_io (finish (io g) r) (set_lock w g)).

(** [Drop for Page_]. *)
Definition drop_page {E} (g : Page_) : outcome E unit :=
  if (page_lock.ensure_exclusive (lock g)).1
  then match data g with Some d => assert_ (negb (is_dirty d)) | None => Ok tt end
  else Panic.

End io.
End internal.

Module cache_inner.
Import page internal.

Record Options := mkOptions { max_resident : Z; max_non_resident : Z; page_len : Z; page_align : Z }.

(** The page maps of all scopes are one map; [fresh] is the next address. *)
Record CacheInner := mkCacheInner {
  options : Options; heap : gmap ptr Page_; page_map : gmap (nat * Z) ptr; fresh : ptr; pages : ptr;
  hot_page_count : Z; resident_cold_page_count : Z; non_resident_page_count : Z; io_page_count : Z;
  hand_hot : ptr; hand_cold : ptr; hand_cold_cost : Z; max_hand_cold_cost : Z; hand_test : ptr }.

Inductive PageCountKind := KHot | KCold (resident : bool).
Inductive PageCountUpdate := Inc | Dec.

Record DonorPage := mkDonorPage { donor_id : Z; donor_scope : nat }.

Definition set_heap (h : gmap ptr Page_) (s : CacheInner) := mkCacheInner (options s) h (page_map s) (fresh s) (pages s)
  (hot_page_count s) (resident_cold_page_count s) (non_resident_page_count s) (io_page_count s)
  (hand_hot s) (hand_cold s) (hand_cold_cost s) (max_hand_cold_cost s) (hand_test s).
Definition set_page_map (m : gmap (nat * Z) ptr) (s : CacheInner) := mkCacheInner (options s) (heap s) m (fresh s) (pages s)
  (hot_page_count s) (resident_cold_page_count s) (non_resident_page_count s) (io_page_count s)
  (hand_hot s) (hand_cold s) (hand_cold_cost s) (max_hand_cold_cost s) (hand_test s).
Definition set_pages (p : ptr) (s : CacheInner) := mkCacheInner (options s) (heap s) (page_map s) (fresh s) p
  (hot_page_count s) (resident_cold_page_count s) (non_resident_page_count s) (io_page_count s)
  (hand_hot s) (hand_cold s) (hand_cold_cost s) (max_hand_cold_cost s) (hand_test s).
Definition set_counts (h r n : Z) (s : CacheInner) := mkCacheInner (options s) (heap s) (page_map s) (fresh s) (pages s)
  h r n (io_page_count s)
  (hand_hot s) (hand_cold s) (hand_cold_cost s) (max_hand_cold_cost s) (hand_test s).
Definition set_io_count (n : Z) (s : CacheInner) := mkCacheInner (options s) (heap s) (page_map s) (fresh s) (pages s)
  (hot_page_count s) (resident_cold_page_count s) (non_resident_page_count s) n
  (hand_hot s) (hand_cold s) (hand_cold_cost s) (max_hand_cold_cost s) (hand_test s).
Definition set_hands (h c t : ptr) (s : CacheInner) := mkCacheInner (options s) (heap s) (page_map s) (fresh s) (pages s)
  (hot_page_count s) (resident_cold_page_count s) (non_resident_page_count s) (io_page_count s)
  h c (hand_cold_cost s) (max_hand_cold_cost s) t.
Definition set_costs (c m : Z) (s : CacheInner) := mkCacheInner (options s) (heap s) (page_map s) (fresh s) (pages s)
  (hot_page_count s) (resident_cold_page_count s) (non_resident_page_count s) (io_page_count s)
  (hand_hot s) (hand_cold s) c m (hand_test s).

(** [p.as_ref()], and an assignment through [p.as_mut()]. *)
Definition deref (s : CacheInner) (p : ptr) : res Page_ := of_option (heap s !! p) Dangling.
Definition modify (s : CacheInner) (p : ptr) (f : Page_ -> Page_) : res CacheInner :=
  g ← deref s p; Ok (set_heap (<[p := f g]> (heap s)) s).

Definition resident_page_count (s : CacheInner) : Z := hot_page_count s + resident_cold_page_count s.

Definition new {E} (o : Options) : outcome E CacheInner :=
  _ ← assert_ (0 <? max_resident o);
  let pages := 1%nat in
  Ok (mkCacheInner o {[pages := end_ pages]} ∅ 2%nat pages 0 0 0 0 pages pages 0 0 pages).

Definition end_of (s : CacheInner) : res ptr := g ← deref s (pages s); Ok (prev g).

Section inner.
Context {P : BuildProfile}.

(** ** Counts and the list *)

Definition update_page_count (s : CacheInner) (k : PageCountKind) (u : PageCountUpdate) : res CacheInner :=
  let upd := match u with Inc => fun n => add_u64 n 1 | Dec => fun n => sub_u64 n 1 end in
  let '(h, r, n) := (hot_page_count s, resident_cold_page_count s, non_resident_page_count s) in
  match k with
  | KHot => h ← upd h; Ok (set_counts h r n s)
  | KCold false => n ← upd n; Ok (set_counts h r n s)
  | KCold true => r ← upd r; Ok (set_counts h r n s)
  end.

Definition transit_page_count (s : CacheInner) (from to : PageCountKind) : res CacheInner :=
  s ← update_page_count s from Dec; update_page_count s to Inc.

Definition add_page_to_list (s : CacheInner) (page : ptr) : res CacheInner :=
  e ← end_of s;
  eg ← deref s e;
  _ ← debug_assert (negb (page =? e)%nat);
  s ← (if (pages s =? e)%nat then modify (set_pages page s) e (set_next page)
       else modify s (prev eg) (set_next page));
  eg ← deref s e;
  s ← modify s page (set_prev (prev eg));
  s ← modify s e (set_prev page);
  modify s page (set_next e).

Definition remove_page_from_list (s : CacheInner) (page : ptr) : res CacheInner :=
  e ← end_of s;
  _ ← debug_assert (negb (page =? e)%nat);
  g ← deref s page;
  let nx := next g in
  let moved p := if (p =? page)%nat then nx else p in
  let s := set_pages (moved (pages s)) s in
  let s := set_hands (moved (hand_hot s)) (moved (hand_cold s)) (moved (hand_test s)) s in
  s ← modify s (prev g) (set_next nx);
  g ← deref s page;
  modify s (next g) (set_prev (prev g)).

(** [add_page]; the page is at a new address. *)
Definition add_page (s : CacheInner) (g : Page_) (k : PageCountKind) : res (ptr * CacheInner) :=
  let page := fresh s in
  let s := mkCacheInner (options s) (<[page := g]> (heap s)) (page_map s) (S page) (pages s)
    (hot_page_count s) (resident_cold_page_count s) (non_resident_page_count s) (io_page_count s)
    (hand_hot s) (hand_cold s) (hand_cold_cost s) (max_hand_cold_cost s) (hand_test s) in
  s ← add_page_to_list s page;
  s ← update_page_count s k Inc;
  sc ← unwrap (scope g);
  Ok (page, set_page_map (<[(sc, id g) := page]> (page_map s)) s).

(** [remove_page]; the page is dropped. *)
Definition remove_page (s : CacheInner) (page : ptr) (k : PageCountKind) : res CacheInner :=
  s ← remove_page_from_list s page;
  s ← update_page_count s k Dec;
  g ← deref s page;
  sc ← unwrap (scope g);
  let s := set_page_map (delete (sc, id g) (page_map s)) s in
  _ ← drop_page g;
  Ok (set_heap (delete page (heap s)) s).

(** ** The hands *)

(** One round of the loop of [run_hand_test]; whether it ends. *)
Definition hand_test_step (s : CacheInner) : res (bool * CacheInner) :=
  let page := hand_test s in
  g ← deref s page;
  let s := set_hands (hand_hot s) (hand_cold s) (next g) s in
  match status g with
  | Cold | Test =>
      s ← modify s page (set_status Cold);
      if is_resident g then Ok (false, s)
      else s ← remove_page s page (KCold false); Ok (true, s)
  | _ => Ok (false, s)
  end.

Fixpoint hand_test_loop (fuel : nat) (stop : ptr) (s : CacheInner) : res CacheInner :=
  match fuel with
  | O => OutOfFuel
  | S fuel =>
      '(break, s) ← hand_test_step s;
      if break || (hand_test s =? stop)%nat then Ok s else hand_test_loop fuel stop s
  end.

Definition run_hand_test (fuel : nat) (s : CacheInner) : res CacheInner := hand_test_loop fuel (hand_test s) s.

Definition handle_hot (s : CacheInner) (page : ptr) : res (bool * CacheInner) :=
  g ← deref s page;
  _ ← debug_assert (bool_decide (status g = Hot));
  if page_lock.is_locked (lock g) then Ok (false, s)
  else if refd g then s ← modify s page (set_refd false); Ok (false, s)
  else
    _ ← debug_assert (is_resident g);
    s ← modify s page (set_status Test);
    s ← update_page_count s KHot Dec;
    s ← update_page_count s (KCold true) Inc;
    Ok (true, s).

(** [Stop]. *)
Definition track (stop : option ptr) (v : ptr) : option ptr := match stop with None => Some v | Some _ => stop end.
Definition check (stop : option ptr) (v : ptr) : bool := bool_decide (stop <> Some v).

(** One round of the first loop of [run_hand_hot]; whether the method returns. *)
Definition hand_hot_step (s : CacheInner) (stop : option ptr) : res (bool * option ptr * CacheInner) :=
  let page := hand_hot s in
  g ← deref s page;
  let s := set_hands (next g) (hand_cold s) (hand_test s) s in
  match status g with
  | Hot => '(ret, s) ← handle_hot s page; Ok (ret, stop, s)
  | Cold | Test =>
      s ← modify s page (set_status Cold);
      if is_resident g then Ok (false, track stop page, s)
      else s ← remove_page s page (KCold false); Ok (false, stop, s)
  | ProtectedTest | End_ => Ok (false, track stop page, s)
  end.

Fixpoint hand_hot_loop (fuel : nat) (stop : option ptr) (s : CacheInner) : res (bool * CacheInner) :=
  if check stop (hand_hot s) then
    match fuel with
    | O => OutOfFuel
    | S fuel =>
        '(ret, stop, s) ← hand_hot_step s stop;
        if ret : bool then Ok (true, s) else hand_hot_loop fuel stop s
    end
  else Ok (false, s).

(** The second loop. *)
Fixpoint hand_hot_forced (fuel : nat) (s : CacheInner) : res CacheInner :=
  match fuel with
  | O => OutOfFuel
  | S fuel =>
      let page := hand_hot s in
      g ← deref s page;
      let s := set_hands (next g) (hand_cold s) (hand_test s) s in
      '(done, s) ← (if bool_decide (status g = Hot) then handle_hot s page else Ok (false, s));
      if done : bool then Ok s else hand_hot_forced fuel s
  end.

Definition run_hand_hot (fuel : nat) (s : CacheInner) (cold_page_required : bool) : res CacheInner :=
  '(ret, s) ← hand_hot_loop fuel None s;
  if ret : bool then Ok s
  else
    s ← (if cold_page_required && (resident_cold_page_count s =? 0) && (0 <? hot_page_count s)
         then hand_hot_forced fuel s else Ok s);
    _ ← debug_assert (negb cold_page_required || (0 <? resident_cold_page_count s));
    Ok s.

(** The page under the cold hand was used: it is spared. *)
Definition spare_page (fuel : nat) (s : CacheInner) (page : ptr) (st : Status) : res CacheInner :=
  s ← (if bool_decide (st = Test) then
         s ← modify s page (set_status Hot);
         s ← update_page_count s (KCold true) Dec;
         s ← update_page_count s KHot Inc;
         run_hand_hot fuel s true
       else Ok s);
  s ← remove_page_from_list s page;
  add_page_to_list s page.

(** The page under the cold hand gives its buffer away; it is locked. *)
Definition evict_page (fuel : nat) (s : CacheInner) (page : ptr) : res (DonorPage * Page * CacheInner) :=
  g ← deref s page;
  s ← modify s page (set_data None);
  d ← unwrap (data g);
  sc ← unwrap (scope g);
  s ← (if bool_decide (status g = Test) then
         s ← update_page_count s (KCold true) Dec;
         s ← update_page_count s (KCold false) Inc;
         _ ← debug_assert (non_resident_page_count s <=? max_non_resident (options s) + 1);
         if max_non_resident (options s) <? non_resident_page_count s then
           s ← run_hand_test fuel s;
           _ ← debug_assert (non_resident_page_count s =? max_non_resident (options s));
           Ok s
         else Ok s
       else remove_page s page (KCold true));
  Ok (mkDonorPage (id g) sc, d, s).

(** One round of the loop of [run_hand_cold]. *)
Definition hand_cold_step (fuel : nat) (s : CacheInner) : res (option (DonorPage * Page) * CacheInner) :=
  cost ← add_u64 (hand_cold_cost s) 1;
  let s := set_costs cost (max_hand_cold_cost s) s in
  let page := hand_cold s in
  g ← deref s page;
  let s := set_hands (hand_hot s) (next g) (hand_test s) s in
  if bool_decide (status g = Cold \/ status g = Test) && is_resident g then
    '(used, s) ← (if page_lock.is_locked (lock g) then Ok (true, s)
                  else if refd g then s ← modify s page (set_refd false); Ok (true, s)
                  else
                    let '(locked, w) := page_lock.lock_exclusive (lock g) in
                    s ← modify s page (set_lock w); Ok (negb locked, s));
    if used : bool then s ← spare_page fuel s page (status g); Ok (None, s)
    else '(donor, d, s) ← evict_page fuel s page; Ok (Some (donor, d), s)
  else Ok (None, s).

Fixpoint hand_cold_loop (fuel n : nat) (s : CacheInner) : res (DonorPage * Page * CacheInner) :=
  match n with
  | O => OutOfFuel
  | S n =>
      '(o, s) ← hand_cold_step fuel s;
      match o with
      | Some (donor, d) => Ok (donor, d, s)
      | None => hand_cold_loop fuel n s
      end
  end.

Definition run_hand_cold (fuel : nat) (s : CacheInner) : res (DonorPage * Page * CacheInner) :=
  s ← (if resident_cold_page_count s =? 0 then run_hand_hot fuel s true else Ok s);
  _ ← debug_assert (0 <? resident_cold_page_count s);
  hand_cold_loop fuel fuel s.

(** ** Buffers *)

(** [None]: all pages are being loaded, try again. *)
Definition acquire_page_data (fuel : nat) (s : CacheInner) : res (option (option DonorPage * Page) * CacheInner) :=
  _ ← debug_assert (resident_page_count s <=? max_resident (options s));
  _ ← debug_assert (io_page_count s <=? resident_page_count s);
  if resident_page_count s <? max_resident (options s) then
    d ← page.new (page_len (options s)) (page_align (options s));
    Ok (Some (None, d), s)
  else if resident_page_count s =? io_page_count s then Ok (None, s)
  else
    '(donor, d, s) ← run_hand_cold fuel s;
    _ ← debug_assert (resident_page_count s <? max_resident (options s));
    Ok (Some (Some donor, d), set_costs (hand_cold_cost s) (Z.max (max_hand_cold_cost s) (hand_cold_cost s)) s).

Definition replace_page_data (fuel : nat) (s : CacheInner) (page : ptr) (d : Page) : res (ptr * CacheInner) :=
  g ← deref s page;
  _ ← debug_assert (bool_decide (page_lock.lock_state (lock g) = page_lock.Exclusive));
  _ ← debug_assert (bool_decide (status g = ProtectedTest));
  s ← remove_page_from_list s page;
  s ← update_page_count s (KCold false) Dec;
  s ← modify s page (set_status Hot);
  _ ← debug_assert (negb (is_resident g));
  s ← modify s page (set_data (Some d));
  s ← run_hand_hot fuel s false;
  s ← add_page_to_list s page;
  s ← update_page_count s KHot Inc;
  Ok (page, s).

Definition add_page_data (s : CacheInner) (scope : nat) (id : Z) (d : Page) : res (ptr * CacheInner) :=
  add_page s (internal.new scope id d) (KCold true).

(** [Drop for CacheInner]: the pages are dropped in the order of the list. *)
Fixpoint drop_list (fuel : nat) (s : CacheInner) (page e : ptr) : res CacheInner :=
  if (page =? e)%nat then Ok s
  else match fuel with
  | O => OutOfFuel
  | S fuel =>
      g ← deref s page;
      _ ← drop_page g;
      drop_list fuel (set_heap (delete page (heap s)) s) (next g) e
  end.

Definition drop_inner (fuel : nat) (s : CacheInner) : res CacheInner :=
  e ← end_of s;
  s ← drop_list fuel s (pages s) e;
  g ← deref s e;
  _ ← drop_page g;
  Ok (set_heap (delete e (heap s)) s).

End inner.
End cache_inner.

(** What the cache asks of a file ([trait Scope]): to fill a buffer with a page,
    and to take a page.  [D] is the state of all files. *)
Class Scope := {
  D : Type;
  scope_read : D -> nat -> Z -> list Z -> option (list Z * D);
  scope_write : D -> nat -> Z -> list Z -> option D
}.

Module cache.
Import page internal cache_inner.

Record Cache := mkCache {
  inner : CacheInner; hit_count : Z; miss_count : Z; read_count : Z; write_count : Z }.

Definition new {E} (o : Options) : outcome E Cache := i ← cache_inner.new o; Ok (mkCache i 0 0 0 0).

Definition set_inner (i : CacheInner) (c : Cache) := mkCache i (hit_count c) (miss_count c) (read_count c) (write_count c).
(** [fetch_add(1)]. *)
Definition hit (c : Cache) := mkCache (inner c) (u64 (hit_count c + 1)) (miss_count c) (read_count c) (write_count c).
Definition miss (c : Cache) := mkCache (inner c) (hit_count c) (u64 (miss_count c + 1)) (read_count c) (write_count c).
Definition count_read (c : Cache) := mkCache (inner c) (hit_count c) (miss_count c) (u64 (read_count c + 1)) (write_count c).

Section cache.
Context {P : BuildProfile} {Sc : Scope}.

(** [Page_::lock_shared_data]: whether the page is now shared. *)
Definition lock_shared_data (s : CacheInner) (p : ptr) : res (bool * CacheInner) :=
  g ← deref s p;
  let '(r, w) := page_lock.lock_shared (lock g) in
  s ← modify s p (set_lock w);
  r ← r;
  if r : bool then
    _ ← debug_assert (is_resident g);
    _ ← debug_assert (bool_decide (page_lock.lock_state w = page_lock.Shared));
    Ok (true, s)
  else Ok (false, s).

(** [Drop for PageRef]. *)
Definition release (s : CacheInner) (p : ptr) : res CacheInner :=
  g ← deref s p;
  let '(r, w) := page_lock.unlock_shared (lock g) in
  s ← modify s p (set_lock w);
  _ ← r; Ok s.

(** [PageRef::read]. *)
Definition page_bytes (s : CacheInner) (p : ptr) : res (list Z) :=
  g ← deref s p; d ← unwrap (data g); Ok (bytes d).

(** [PageRef::write] and an assignment through the guard, which marks the page
    dirty. *)
Definition page_write (s : CacheInner) (p : ptr) (f : list Z -> list Z) : res CacheInner :=
  g ← deref s p; d ← unwrap (data g); modify s p (set_data (Some (mkPage true (f (bytes d))))).

(** [Cache::read] and [Cache::write] on a buffer; the error is [false]. *)
Definition read (c : Cache) (d : D) (scope : nat) (id : Z) (page : Page) : option (Page * D) * Cache :=
  (match scope_read d scope id (bytes page) with
   | Some (b, d) => Some (mkPage false b, d)
   | None => None
   end, count_read c).

Definition write (c : Cache) (d : D) (scope : nat) (id : Z) (page : Page) : option (bool * Page * D) * Cache :=
  if is_dirty page then
    (match scope_write d scope id (bytes page) with
     | Some d => Some (true, set_dirty page false, d)
     | None => None
     end, count_read c)
  else (Some (false, page, d), c).

(** ** Faults *)

(** What a thread has when it leaves the mutex: the page, a page somebody else
    is loading, a page to load into a buffer (of the donor), or nothing. *)
Inductive fault := Got (p : ptr) | Wait (p : ptr) | Load (donor : option DonorPage) (p : ptr) | Retry.

(** A buffer is taken, given to the page (a new one if [page] is [None]), and its
    transfer begins. *)
Definition load_page (fuel : nat) (s : CacheInner) (scope : nat) (id : Z) (page : option ptr) : res (fault * CacheInner) :=
  '(o, s) ← acquire_page_data fuel s;
  match o with
  | None => Ok (Retry, s)
  | Some (donor, d) =>
      '(p, s) ← (match page with
                 | Some p => replace_page_data fuel s p d
                 | None => add_page_data s scope id d
                 end);
      g ← deref s p;
      i ← begin (io g);
      s ← modify s p (set_io i);
      n ← add_u64 (io_page_count s) 1;
      Ok (Load donor p, set_io_count n (set_costs 0 (max_hand_cold_cost s) s))
  end.

(** The body of the loop in [Cache::page], under the mutex. *)
Definition enter_locked (fuel : nat) (s : CacheInner) (scope : nat) (id : Z) : res (fault * CacheInner) :=
  match page_map s !! (scope, id) with
  | None => load_page fuel s scope id None
  | Some p =>
      g ← deref s p;
      if is_running (io g) then
        i ← register_waiter (io g); s ← modify s p (set_io i); Ok (Wait p, s)
      else
        '(shared, s) ← lock_shared_data s p;
        if shared : bool then Ok (Got p, s)
        else
          _ ← debug_assert (negb (is_resident g));
          _ ← debug_assert (bool_decide (status g = Test \/ status g = ProtectedTest));
          s ← modify s p (set_status ProtectedTest);
          load_page fuel s scope id (Some p)
  end.

(** The part of [Cache::page] before the mutex is taken. *)
Definition enter_fast (c : Cache) (scope : nat) (id : Z) : res (option ptr * Cache) :=
  match page_map (inner c) !! (scope, id) with
  | None => Ok (None, miss c)
  | Some p =>
      '(shared, s) ← lock_shared_data (inner c) p;
      if shared : bool then s ← modify s p (set_refd true); Ok (Some p, hit (set_inner s c))
      else Ok (None, miss (set_inner s c))
  end.

(** The transfer, outside the mutex: the donor's page is written if it is dirty,
    and the buffer is filled.  The error says which of the two failed. *)
Definition transfer (c : Cache) (d : D) (scope : nat) (id : Z) (donor : option DonorPage) (p : ptr)
    : res ((option IoError) * Cache * D) :=
  g ← deref (inner c) p;
  buf ← unwrap (data g);
  let '(w, c) := match donor with
    | Some dn => write c d (donor_scope dn) (donor_id dn) buf
    | None => (Some (false, buf, d), c)
    end in
  match w with
  | None => Ok (Some Write, c, d)
  | Some (_, buf, d) =>
      let '(r, c) := read c d scope id buf in
      match r with
      | None => s ← modify (inner c) p (set_data (Some buf)); Ok (Some Read, set_inner s c, d)
      | Some (buf, d) => s ← modify (inner c) p (set_data (Some buf)); Ok (None, set_inner s c, d)
      end
  end.

(** The end of a transfer, under the mutex again. *)
Definition finish_load (s : CacheInner) (p : ptr) (r : option IoError) : res CacheInner :=
  g ← deref s p;
  g ← finish_io g r;
  let s := set_heap (<[p := g]> (heap s)) s in
  n ← sub_u64 (io_page_count s) 1;
  let s := set_io_count n s in
  match r with
  | None => Ok s
  | Some _ =>
      _ ← unwrap (data g);
      s ← modify s p (set_data None);
      '(from, s) ← (match status g with
                    | Hot => s ← modify s p (set_status Cold); Ok (KHot, s)
                    | Test => Ok (KCold true, s)
                    | _ => Panic
                    end);
      transit_page_count s from (KCold false)
  end.

(** What a thread that waited finds; a failed write names the donor, which only
    the loading thread has. *)
Definition wait_finish (s : CacheInner) (p : ptr) : res (option IoError) :=
  g ← deref s p;
  r ← unwrap (result (io g));
  match r with
  | Some Write => Panic
  | r => Ok r
  end.

(** [data_ref]. *)
Definition data_ref (s : CacheInner) (p : ptr) : res ptr :=
  g ← deref s p;
  _ ← debug_assert (is_resident g);
  _ ← debug_assert (bool_decide (page_lock.lock_state (lock g) = page_lock.Shared));
  Ok p.

(** ** Operations *)

(** [Cache::page] when no other thread runs: the page, or the error. *)
Fixpoint page_loop (fuel n : nat) (c : Cache) (d : D) (scope : nat) (id : Z) : res ((ptr + IoError) * Cache * D) :=
  match n with
  | O => OutOfFuel
  | S n =>
      '(f, s) ← enter_locked fuel (inner c) scope id;
      let c := set_inner s c in
      match f with
      | Got p => Ok (inl p, c, d)
      | Wait _ => OutOfFuel
      | Retry => page_loop fuel n c d scope id
      | Load donor p =>
          '(r, c, d) ← transfer c d scope id donor p;
          s ← finish_load (inner c) p r;
          let c := set_inner s c in
          match r with
          | Some e => Ok (inr e, c, d)
          | None => p ← data_ref s p; Ok (inl p, c, d)
          end
      end
  end.

Definition page (fuel : nat) (c : Cache) (d : D) (scope : nat) (id : Z) : res ((ptr + IoError) * Cache * D) :=
  '(o, c) ← enter_fast c scope id;
  match o with
  | Some p => Ok (inl p, c, d)
  | None => page_loop fuel fuel c d scope id
  end.

(** [find_dirty_pages]: the pages of a scope, in the order [ids] its map is read,
    that can be shared and are dirty stay shared. *)
Fixpoint find_dirty_pages (s : CacheInner) (scope : nat) (ids : list Z) : res (list (Z * ptr) * CacheInner) :=
  match ids with
  | [] => Ok ([], s)
  | i :: ids =>
      match page_map s !! (scope, i) with
      | None => find_dirty_pages s scope ids
      | Some p =>
          '(shared, s) ← lock_shared_data s p;
          g ← deref s p;
          let is_dirty := match data g with Some b => dirty b | None => false end in
          if shared : bool then
            if is_dirty then '(l, s) ← find_dirty_pages s scope ids; Ok ((id g, p) :: l, s)
            else s ← release s p; find_dirty_pages s scope ids
          else find_dirty_pages s scope ids
      end
  end.

Fixpoint release_all (s : CacheInner) (l : list (Z * ptr)) : res CacheInner :=
  match l with
  | [] => Ok s
  | (_, p) :: l => s ← release s p; release_all s l
  end.

(** The loop of [flush]; an error drops the pages that are left. *)
Fixpoint flush_loop (c : Cache) (d : D) (scope : nat) (l : list (Z * ptr)) (count : Z) : res (option Z * Cache * D) :=
  match l with
  | [] => Ok (Some count, c, d)
  | (i, p) :: l' =>
      g ← deref (inner c) p;
      buf ← unwrap (data g);
      let '(w, c) := write c d scope i buf in
      match w with
      | None => s ← release_all (inner c) l; Ok (None, set_inner s c, d)
      | Some (written, buf, d) =>
          s ← modify (inner c) p (set_data (Some buf));
          s ← release s p;
          count ← (if written then add_u64 count 1 else Ok count);
          flush_loop (set_inner s c) d scope l' count
      end
  end.

Definition flush (c : Cache) (d : D) (scope : nat) (ids : list Z) : res (option Z * Cache * D) :=
  '(l, s) ← find_dirty_pages (inner c) scope ids;
  flush_loop (set_inner s c) d scope l 0.

Fixpoint discard_loop (s : CacheInner) (l : list (Z * ptr)) : res CacheInner :=
  match l with
  | [] => Ok s
  | (_, p) :: l =>
      g ← deref s p;
      buf ← unwrap (data g);
      s ← modify s p (set_data (Some (set_dirty buf false)));
      s ← release s p;
      discard_loop s l
  end.

Definition discard (c : Cache) (scope : nat) (ids : list Z) : res Cache :=
  '(l, s) ← find_dirty_pages (inner c) scope ids;
  s ← discard_loop s l; Ok (set_inner s c).

End cache.
End cache.
