(* ===== verification/PageClock.v ===== *)
(** * The clock of the page cache: the list

    The clock is a circular list of pages through one end page.  [ring h c] says
    that the pages [c] are linked in this order, both ways, in the heap [h]; a
    ring can be started at any page, so that the position of a hand is just the
    way the ring is written.  The two list operations of the cache are proved
    against it: they relink, and change nothing else. *)
From S2P Require Import Prelude PageLock PageCache.

Module clock_list.
Import page internal cache_inner.

Definition nxt (h : gmap ptr Page_) (p : ptr) : option ptr := next <$> h !! p.
Definition prv (h : gmap ptr Page_) (p : ptr) : option ptr := prev <$> h !! p.

(** Every page of the list is linked with the one after it. *)
Fixpoint chain (h : gmap ptr Page_) (l : list ptr) : Prop :=
  match l with
  | x :: l' =>
      match l' with
      | y :: _ => nxt h x = Some y /\ prv h y = Some x /\ chain h l'
      | [] => True
      end
  | [] => True
  end.

Definition ring (h : gmap ptr Page_) (c : list ptr) : Prop :=
  match c with [] => False | x :: r => NoDup c /\ chain h (x :: r ++ [x]) end.

(** A page without its links. *)
Definition strip (g : Page_) : Page_ := set_prev 0%nat (set_next 0%nat g).

(** ** Chains *)

Lemma chain_cons h x y l : chain h (x :: y :: l) <-> nxt h x = Some y /\ prv h y = Some x /\ chain h (y :: l).
Proof. done. Qed.

Lemma chain_app h a x b : chain h (a ++ x :: b) <-> chain h (a ++ [x]) /\ chain h (x :: b).
Proof.
  induction a as [|y a IH]; [cbn; tauto|]. destruct a as [|z a].
  - cbn [app]. rewrite !chain_cons. cbn [chain]. tauto.
  - cbn [app] in *. rewrite !chain_cons, IH. tauto.
Qed.

Lemma chain_ext h h' l :
  (forall a x y b, l = a ++ x :: y :: b -> nxt h' x = nxt h x /\ prv h' y = prv h y) -> chain h l -> chain h' l.
Proof.
  induction l as [|x l IH]; [done|]. destruct l as [|y l]; [done|]. intros Hl. rewrite !chain_cons. intros (H1 & H2 & H3).
  destruct (Hl [] x y l eq_refl) as [-> ->]. split_and!; [done|done|]. apply IH; [|done].
  intros a u v b E. apply (Hl (x :: a) u v b). by rewrite E.
Qed.

(** ** Rings *)

Lemma ring_nodup h c : ring h c -> NoDup c.
Proof. destruct c; [done|]. by intros [H _]. Qed.

Lemma ring_rotate1 h x r : ring h (x :: r) -> ring h (r ++ [x]).
Proof.
  destruct r as [|y r]; [done|]. intros [Hnd Hc]. split; [by rewrite <- (Permutation_cons_append (y :: r))|].
  cbn [app] in *. rewrite chain_cons in Hc. destruct Hc as (H1 & H2 & H3).
  rewrite <- app_assoc. cbn [app]. apply (chain_app h (y :: r)). split; [done|]. by rewrite chain_cons.
Qed.

Lemma ring_rotate h a b : ring h (a ++ b) -> ring h (b ++ a).
Proof.
  revert b. induction a as [|x a IH]; intros b; [by rewrite app_nil_r|]. cbn [app]. intros H%ring_rotate1.
  rewrite <- app_assoc in H. apply IH in H. by rewrite <- app_assoc in H.
Qed.

Lemma ring_single h x : ring h [x] <-> nxt h x = Some x /\ prv h x = Some x.
Proof. unfold ring. cbn. split; [tauto|]. intros [H1 H2]. split_and!; try done. apply NoDup_singleton. Qed.

Lemma ring_two h x y r :
  ring h (x :: y :: r) <-> NoDup (x :: y :: r) /\ nxt h x = Some y /\ prv h y = Some x /\ chain h (y :: r ++ [x]).
Proof. unfold ring. cbn [app]. by rewrite chain_cons. Qed.

(** The page after the first, and the page before it. *)
Definition second (x : ptr) (r : list ptr) : ptr := default x (head r).
Definition before (x : ptr) (r : list ptr) : ptr := default x (last r).

Lemma ring_next h x r : ring h (x :: r) -> nxt h x = Some (second x r).
Proof. destruct r as [|y r]; [by intros [? ?]%ring_single|]. by intros (_ & H & _)%ring_two. Qed.

Lemma ring_prev h x r : ring h (x :: r) -> prv h x = Some (before x r).
Proof.
  unfold before. destruct r as [|y r _] using rev_ind; [by intros [? ?]%ring_single|]. rewrite last_snoc. cbn [default].
  intros H. apply (ring_rotate h (x :: r) [y]) in H. cbn [app] in H. apply ring_two in H as (_ & _ & H & _). exact H.
Qed.

Lemma ring_ext h h' c : (forall p, p ∈ c -> nxt h' p = nxt h p /\ prv h' p = prv h p) -> ring h c -> ring h' c.
Proof.
  intros He. destruct c as [|x r]; [done|]. intros [Hnd Hc]. split; [done|]. apply (chain_ext h); [|done].
  intros a u v b E. assert (forall p, p ∈ x :: r ++ [x] -> p ∈ x :: r) as Hin.
  { intros p. rewrite !elem_of_cons, elem_of_app, list_elem_of_singleton. tauto. }
  split; apply He, Hin; rewrite E; apply elem_of_app; right; [by left|by right; left].
Qed.

Lemma ring_lookup h c p : ring h c -> p ∈ c -> is_Some (h !! p).
Proof.
  intros Hr (a & b & ->)%list_elem_of_split. apply ring_rotate in Hr. apply ring_next in Hr.
  unfold nxt in Hr. destruct (h !! p); [by eexists|done].
Qed.

Lemma last_before x r : last (x :: r) = Some (before x r).
Proof. unfold before. by rewrite last_cons; destruct (last r). Qed.

Lemma before_in x r : before x r ∈ x :: r.
Proof. apply last_Some_elem_of. apply last_before. Qed.

(** Relinking the ends of a list of distinct pages leaves it linked. *)
Lemma chain_open h h' y r :
  NoDup (y :: r) -> chain h (y :: r) ->
  (forall p, p ∈ y :: r -> p <> before y r -> nxt h' p = nxt h p) ->
  (forall p, p ∈ y :: r -> p <> y -> prv h' p = prv h p) -> chain h' (y :: r).
Proof.
  intros Hnd Hc Hn Hp. apply (chain_ext h); [|done]. intros a u v b E. pose proof (last_before y r) as Hl.
  rewrite E in Hnd, Hl, Hn, Hp. split; [apply Hn|apply Hp].
  - apply elem_of_app. right. by left.
  - intros ->. rewrite last_app, last_cons_cons in Hl. assert (last (v :: b) = Some (before y r)) as Hl'.
    { destruct (last (v :: b)) eqn:E'; [done|]. by apply last_None in E'. }
    apply last_Some_elem_of in Hl'. apply NoDup_app in Hnd as (_ & _ & Hnd). by apply NoDup_cons in Hnd as [Hnd _].
  - apply elem_of_app. right. by right; left.
  - intros ->. destruct a as [|w a]; injection E as -> E; apply NoDup_cons in Hnd as [Hnd _]; apply Hnd.
    + by left.
    + apply elem_of_app. right. by right; left.
Qed.

Lemma ring_chain h y r : ring h (y :: r) <-> NoDup (y :: r) /\ chain h (y :: r) /\ nxt h (before y r) = Some y /\ prv h y = Some (before y r).
Proof.
  unfold ring. destruct r as [|z r _] using rev_ind; [cbn; tauto|]. unfold before. rewrite last_snoc. cbn [default from_option].
  rewrite <- app_assoc. change (y :: r ++ [z] ++ [y]) with ((y :: r) ++ z :: [y]). rewrite chain_app, chain_cons.
  change (y :: r ++ [z]) with ((y :: r) ++ [z]). cbn [chain Datatypes.id]. tauto.
Qed.

(** Taking the first page out, and putting one before it. *)
Lemma ring_remove h h' x y r :
  ring h (x :: y :: r) ->
  nxt h' (before y r) = Some y -> prv h' y = Some (before y r) ->
  (forall p, p ∈ y :: r -> p <> before y r -> nxt h' p = nxt h p) ->
  (forall p, p ∈ y :: r -> p <> y -> prv h' p = prv h p) -> ring h' (y :: r).
Proof.
  intros (Hnd & Hc & _)%ring_chain Hn Hp Hon Hop. apply NoDup_cons in Hnd as [Hx Hnd]. apply chain_cons in Hc as (_ & _ & Hc).
  apply ring_chain. split_and!; try done. by apply (chain_open h).
Qed.

Lemma ring_insert h h' x y r :
  ring h (y :: r) -> x ∉ y :: r ->
  nxt h' x = Some y -> prv h' x = Some (before y r) -> nxt h' (before y r) = Some x -> prv h' y = Some x ->
  (forall p, p ∈ y :: r -> p <> before y r -> nxt h' p = nxt h p) ->
  (forall p, p ∈ y :: r -> p <> y -> prv h' p = prv h p) -> ring h' (x :: y :: r).
Proof.
  intros (Hnd & Hc & _)%ring_chain Hx H1 H2 H3 H4 Hon Hop. apply ring_chain.
  assert (before x (y :: r) = before y r) as -> by (unfold before; by rewrite last_before).
  split_and!; [by apply NoDup_cons|apply chain_cons; split_and!; try done; by apply (chain_open h)|done|done].
Qed.

(** ** Assignments to the links *)

(** Nothing but links differs. *)
Definition relinked (h h' : gmap ptr Page_) : Prop := forall p, strip <$> h' !! p = strip <$> h !! p.

Lemma relinked_trans h1 h2 h3 : relinked h1 h2 -> relinked h2 h3 -> relinked h1 h3.
Proof. intros H1 H2 p. by rewrite H2. Qed.

Lemma relinked_set h p g g' : h !! p = Some g -> strip g' = strip g -> relinked h (<[p := g']> h).
Proof.
  intros Hp Hs q. destruct (decide (p = q)) as [<-|]; [rewrite lookup_insert_eq, Hp; cbn; by rewrite Hs|by rewrite lookup_insert_ne].
Qed.

Lemma relinked_lookup h h' p g : relinked h h' -> h !! p = Some g -> exists g', h' !! p = Some g' /\ strip g' = strip g.
Proof.
  intros Hr Hp. specialize (Hr p). rewrite Hp in Hr. destruct (h' !! p) as [g'|]; [|done]. exists g'. split; [done|]. cbn in Hr. congruence.
Qed.

Lemma relinked_sym h h' : relinked h h' -> relinked h' h.
Proof. intros H p. by rewrite H. Qed.

Lemma nxt_set_next h p g v q : nxt (<[p := set_next v g]> h) q = if decide (q = p) then Some v else nxt h q.
Proof. unfold nxt. case_decide; subst; [by rewrite lookup_insert_eq|by rewrite lookup_insert_ne]. Qed.
Lemma prv_set_prev h p g v q : prv (<[p := set_prev v g]> h) q = if decide (q = p) then Some v else prv h q.
Proof. unfold prv. case_decide; subst; [by rewrite lookup_insert_eq|by rewrite lookup_insert_ne]. Qed.
Lemma nxt_set h p g g' q : h !! p = Some g -> next g' = next g -> nxt (<[p := g']> h) q = nxt h q.
Proof.
  intros Hp Hg. unfold nxt. destruct (decide (p = q)) as [<-|]; [rewrite lookup_insert_eq, Hp; cbn; by rewrite Hg|by rewrite lookup_insert_ne].
Qed.
Lemma prv_set h p g g' q : h !! p = Some g -> prev g' = prev g -> prv (<[p := g']> h) q = prv h q.
Proof.
  intros Hp Hg. unfold prv. destruct (decide (p = q)) as [<-|]; [rewrite lookup_insert_eq, Hp; cbn; by rewrite Hg|by rewrite lookup_insert_ne].
Qed.

Lemma nxt_lookup h p v : nxt h p = Some v -> exists g, h !! p = Some g /\ next g = v.
Proof. unfold nxt. destruct (h !! p) as [g|]; [|done]. intros [= <-]. by exists g. Qed.
Lemma prv_lookup h p v : prv h p = Some v -> exists g, h !! p = Some g /\ prev g = v.
Proof. unfold prv. destruct (h !! p) as [g|]; [|done]. intros [= <-]. by exists g. Qed.

Lemma deref_page_ok s p g : heap s !! p = Some g -> deref s p = Ok g.
Proof. unfold deref. by intros ->. Qed.
Lemma modify_ok s p g f : heap s !! p = Some g -> modify s p f = Ok (set_heap (<[p := f g]> (heap s)) s).
Proof. intros H. unfold modify. by rewrite (deref_page_ok _ _ _ H). Qed.

(** The page after a page of the ring. *)
Lemma ring_after h c e q : ring h c -> e ∈ c -> nxt h e = Some q -> q ∈ c /\ prv h q = Some e.
Proof.
  intros Hr (a & b & ->)%list_elem_of_split Hq. apply ring_rotate in Hr. cbn [app] in Hr.
  pose proof (ring_next _ _ _ Hr) as Hn. rewrite Hq in Hn. injection Hn as ->. split.
  - assert (second e (b ++ a) ∈ e :: b ++ a) as Hin by (unfold second; destruct (b ++ a); [by left|right; by left]).
    rewrite elem_of_app, elem_of_cons. rewrite elem_of_cons, elem_of_app in Hin. tauto.
  - destruct (b ++ a) as [|y r]; [by apply ring_single in Hr as [_ ?]|]. by apply ring_two in Hr as (_ & _ & ? & _).
Qed.

Section list.
Context {P : BuildProfile}.

Lemma debug_assert_true {E} b : b = true -> debug_assert (E := E) b = Ok tt.
Proof. intros ->. unfold debug_assert. by rewrite andb_false_r. Qed.

Lemma end_of_ok s c e : ring (heap s) c -> e ∈ c -> nxt (heap s) e = Some (pages s) -> end_of s = Ok e.
Proof.
  intros Hr He Hp. destruct (ring_after _ _ _ _ Hr He Hp) as [_ Hq]. apply prv_lookup in Hq as (g & Hg & <-).
  unfold end_of. by rewrite (deref_page_ok _ _ _ Hg).
Qed.

(** A pointer to the page taken out goes to the next. *)
Definition moved (x y p : ptr) : ptr := if (p =? x)%nat then y else p.

Lemma remove_from_list_ok s e x y r :
  ring (heap s) (x :: y :: r) -> e ∈ y :: r -> nxt (heap s) e = Some (pages s) ->
  exists h, let s' := set_heap h (set_hands (moved x y (hand_hot s)) (moved x y (hand_cold s)) (moved x y (hand_test s))
      (set_pages (moved x y (pages s)) s)) in
    remove_page_from_list s x = Ok s' /\ ring h (y :: r) /\ nxt h e = Some (moved x y (pages s)) /\ relinked (heap s) h /\
    (forall p, p ∉ x :: y :: r -> h !! p = heap s !! p).
Proof.
  intros Hr He Hp. pose proof (ring_nodup _ _ Hr) as Hnd. apply NoDup_cons in Hnd as [Hx Hnd].
  assert (x <> e) as Hne by (by intros ->).
  pose proof (ring_next _ _ _ Hr) as Hnx. pose proof (ring_prev _ _ _ Hr) as Hpx. cbn [second head default from_option] in Hnx.
  assert (before x (y :: r) = before y r) as Hb by (unfold before; by rewrite last_before). rewrite Hb in Hpx. clear Hb.
  pose proof (before_in y r) as Hz. set (z := before y r) in *. assert (x <> z) as Hxz by (by intros ->).
  assert (x <> y) as Hxy by (intros ->; apply Hx; by left).
  assert (nxt (heap s) z = Some x) as Hzx.
  { pose proof Hr as (_ & _ & Hzx & _)%ring_chain. unfold before in Hzx. by rewrite last_before in Hzx. }
  destruct (nxt_lookup _ _ _ Hnx) as (g & Hg & Hgn). destruct (prv_lookup _ _ _ Hpx) as (g' & Hg' & Hgp).
  rewrite Hg in Hg'. injection Hg' as <-.
  destruct (ring_lookup _ _ z Hr) as [gz Hgz]; [by right|]. destruct (ring_lookup _ _ y Hr) as [gy0 Hgy0]; [by right; left|].
  set (h1 := <[z := set_next y gz]> (heap s)). assert (exists gy, h1 !! y = Some gy) as [gy Hgy].
  { destruct (decide (z = y)) as [->|]; [eexists; apply lookup_insert_eq|]. exists gy0. unfold h1. by rewrite lookup_insert_ne. }
  exists (<[y := set_prev z gy]> h1). cbv zeta. split_and!.
  - unfold remove_page_from_list. rewrite (end_of_ok s (x :: y :: r) e Hr ltac:(by right) Hp). run. rewrite debug_assert_true by (by apply negb_true_iff, Nat.eqb_neq). run.
    rewrite (deref_page_ok _ _ _ Hg). run. rewrite Hgn, Hgp. erewrite modify_ok by exact Hgz. run.
    rewrite (deref_page_ok _ x g) by (cbn [heap set_heap]; by rewrite lookup_insert_ne). run. rewrite Hgn, Hgp.
    erewrite modify_ok by exact Hgy. done.
  - apply (ring_remove (heap s) _ x); [done|..].
    + rewrite (nxt_set h1 y gy) by done. unfold h1. rewrite nxt_set_next. by rewrite decide_True.
    + by rewrite prv_set_prev, decide_True.
    + intros p _ Hpz. rewrite (nxt_set h1 y gy) by done. unfold h1. rewrite nxt_set_next. by rewrite decide_False.
    + intros p _ Hpy. rewrite prv_set_prev, decide_False by done. by apply (prv_set _ _ gz).
  - rewrite (nxt_set h1 y gy) by done. unfold h1, moved. rewrite nxt_set_next. case_decide as Hez.
    + rewrite Hez, Hzx in Hp. injection Hp as <-. by rewrite Nat.eqb_refl.
    + destruct (Nat.eqb_spec (pages s) x) as [Hpx'|]; [|done]. exfalso. apply Hez.
      destruct (ring_after _ _ e _ Hr ltac:(by right) Hp) as [_ Hq]. rewrite Hpx', Hpx in Hq. by injection Hq.
  - apply (relinked_trans _ h1); [by apply (relinked_set _ _ gz)|by apply (relinked_set _ _ gy)].
  - intros p Hpr. unfold h1. rewrite !lookup_insert_ne; [done|intros <-; apply Hpr; by right|intros <-; apply Hpr; by right; left].
Qed.

Lemma add_to_list_ok s e x r gx :
  ring (heap s) (e :: r) -> x ∉ e :: r -> nxt (heap s) e = Some (pages s) -> heap s !! x = Some gx ->
  exists h q, add_page_to_list s x = Ok (set_heap h (set_pages q s)) /\
    ring h (x :: e :: r) /\ nxt h e = Some q /\ relinked (heap s) h /\
    (forall p, p ∉ x :: e :: r -> h !! p = heap s !! p).
Proof.
  intros Hr Hx Hp Hgx. pose proof (before_in e r) as Hz. pose proof (ring_prev _ _ _ Hr) as Hpe. set (z := before e r) in *.
  assert (x <> e) as Hxe by (intros ->; apply Hx; by left). assert (x <> z) as Hxz by (by intros ->).
  destruct (prv_lookup _ _ _ Hpe) as (eg & Heg & Hegp). destruct (ring_lookup _ _ z Hr Hz) as [gz Hgz].
  (* the page before the end gets the new page as its next; it is the end itself in an empty list *)
  set (h1 := <[z := set_next x gz]> (heap s)).
  assert (h1 !! x = Some gx) as Hx1 by (unfold h1; by rewrite lookup_insert_ne).
  set (h2 := <[x := set_prev z gx]> h1).
  assert (exists ge, h2 !! e = Some ge) as [ge Hge].
  { unfold h2, h1. rewrite lookup_insert_ne by done. destruct (decide (z = e)) as [->|]; [rewrite lookup_insert_eq; by eexists|rewrite lookup_insert_ne by done; by eexists]. }
  set (h3 := <[e := set_prev x ge]> h2). assert (h3 !! x = Some (set_prev z gx)) as Hx3.
  { unfold h3, h2. rewrite lookup_insert_ne by done. apply lookup_insert_eq. }
  set (h4 := <[x := set_next e (set_prev z gx)]> h3).
  assert (forall p, nxt h4 p = if decide (p = x) then Some e else if decide (p = z) then Some x else nxt (heap s) p) as Hnxt.
  { intros p. unfold h4. rewrite nxt_set_next. case_decide; [done|]. unfold h3. rewrite (nxt_set h2 e ge) by done.
    unfold h2. rewrite (nxt_set h1 x gx) by done. unfold h1. by rewrite nxt_set_next. }
  assert (forall p, prv h4 p = if decide (p = e) then Some x else if decide (p = x) then Some z else prv (heap s) p) as Hprv.
  { intros p. unfold h4. rewrite (prv_set h3 x (set_prev z gx)) by done. unfold h3. rewrite prv_set_prev. case_decide; [done|].
    unfold h2. rewrite prv_set_prev. case_decide; [done|]. unfold h1. by apply (prv_set _ _ gz). }
  assert (exists q, nxt h4 e = Some q /\ add_page_to_list s x = Ok (set_heap h4 (set_pages q s))) as (q & Hq & Hadd).
  { unfold add_page_to_list. rewrite (end_of_ok s (e :: r) e Hr ltac:(by left) Hp). run. rewrite (deref_page_ok _ _ _ Heg). run.
    rewrite debug_assert_true by (by apply negb_true_iff, Nat.eqb_neq). run. rewrite Hegp.
    assert (prev <$> h1 !! e = Some z) as Hz1 by (change (prv h1 e = Some z); unfold h1; rewrite (prv_set _ _ gz) by done; done).
    destruct (h1 !! e) as [ge1|] eqn:Hge1; [|done]. injection Hz1 as Hz1.
    pose proof Hr as (_ & _ & Hze & _)%ring_chain. fold z in Hze.
    destruct (Nat.eqb_spec (pages s) e) as [Hpe'|Hpe'].
    - assert (z = e) as Hez.
      { destruct (ring_after _ _ e _ Hr ltac:(by left) Hp) as [_ Hq]. rewrite Hpe', Hpe in Hq. by injection Hq. }
      exists x. split; [rewrite Hnxt; by rewrite decide_False, decide_True by done|].
      assert (modify (set_pages x s) e (set_next x) = Ok (set_heap h1 (set_pages x s))) as ->.
      { erewrite modify_ok by (cbn; by rewrite <- Hez). cbn. by rewrite <- Hez at 1. }
      run. rewrite (deref_page_ok _ e ge1) by done. run. rewrite Hz1.
      erewrite modify_ok by exact Hx1. run. erewrite modify_ok by exact Hge. run. erewrite modify_ok by exact Hx3. done.
    - assert (z <> e) as Hez by (intros E; rewrite E, Hp in Hze; congruence).
      exists (pages s). split; [rewrite Hnxt; by rewrite !decide_False by done|].
      rewrite (modify_ok _ _ _ _ Hgz). run. rewrite (deref_page_ok _ e ge1) by done. run. rewrite Hz1.
      erewrite modify_ok by exact Hx1. run. erewrite modify_ok by exact Hge. run. erewrite modify_ok by exact Hx3. done. }
  exists h4, q. split; [done|]. split_and!; [|done| |].
  - apply (ring_insert (heap s)); [done|done|..]; rewrite ?Hnxt, ?Hprv; try (intros p Hin; rewrite ?Hnxt, ?Hprv; intros Hne);
      repeat case_decide; subst; done.
  - repeat (eapply relinked_trans; [|eapply relinked_set; [eassumption|done]]). done.
  - intros p Hpr. rewrite not_elem_of_cons in Hpr. destruct Hpr as [Hpx Hpr]. assert (p <> e) by (intros ->; apply Hpr; by left).
    assert (p <> z) by (by intros ->). unfold h4, h3, h2, h1. by rewrite !lookup_insert_ne.
Qed.

End list.
End clock_list.
