(* ===== verification/PageHands.v ===== *)
(** * The clock of the page cache: the hands

    [inv s e c X] is the invariant of the clock: the pages [c] form a ring
    through the end page [e], the three counters count the pages of each kind,
    the hands are on the ring, and the page map names exactly the pages of the
    ring and of [X] (a page that is out of the list while it is replaced).

    The hot and the test hand keep the invariant and what the cache holds
    ([calm]): they only change the status and the reference bit of pages and drop
    pages that have no data.  The cold hand gives away the buffer of one page.
    All hands stop when no resident page is locked. *)
From S2P Require Import Prelude PageLock PageCache PageClock.

Module clock_inv.
Import page internal cache_inner clock_list.

(** ** Counting pages *)

Definition b2z (b : bool) : Z := if b then 1 else 0.
Definition holds (f : Page_ -> bool) (h : gmap ptr Page_) (p : ptr) : bool := from_option f false (h !! p).
Definition tally (f : Page_ -> bool) (h : gmap ptr Page_) (c : list ptr) : Z := Z.of_nat (length (List.filter (holds f h) c)).

Definition is_hot (g : Page_) : bool := bool_decide (status g = Hot).
Definition is_cold (g : Page_) : bool := bool_decide (status g = Cold \/ status g = Test) && is_resident g.
Definition is_ghost (g : Page_) : bool := negb (bool_decide (status g = End_)) && negb (is_resident g).

Lemma tally_cons f h x c : tally f h (x :: c) = b2z (holds f h x) + tally f h c.
Proof. unfold tally, b2z. cbn [List.filter]. destruct (holds f h x); cbn [length]; lia. Qed.

Lemma tally_app f h c c' : tally f h (c ++ c') = tally f h c + tally f h c'.
Proof. unfold tally. rewrite List.filter_app, length_app. lia. Qed.

Lemma tally_perm f h c c' : c ≡ₚ c' -> tally f h c = tally f h c'.
Proof. induction 1; rewrite ?tally_cons; lia. Qed.

#[global] Instance tally_proper f h : Proper ((≡ₚ) ==> (=)) (tally f h).
Proof. intros c c'. apply tally_perm. Qed.

Lemma tally_ext f h h' c : (forall p, p ∈ c -> holds f h' p = holds f h p) -> tally f h' c = tally f h c.
Proof.
  induction c as [|x c IH]; intros H; [done|]. rewrite !tally_cons, (H x) by (by left). rewrite IH; [done|]. intros p Hp. apply H. by right.
Qed.

Lemma holds_set f h p g q : holds f (<[p := g]> h) q = if decide (q = p) then f g else holds f h q.
Proof. unfold holds. case_decide; subst; [by rewrite lookup_insert_eq|by rewrite lookup_insert_ne]. Qed.

Lemma holds_lookup f h p g : h !! p = Some g -> holds f h p = f g.
Proof. unfold holds. by intros ->. Qed.

Lemma tally_set f h c p g g' :
  NoDup c -> p ∈ c -> h !! p = Some g -> tally f (<[p := g']> h) c = tally f h c - b2z (f g) + b2z (f g').
Proof.
  intros Hnd (a & b & ->)%list_elem_of_split Hp. rewrite !tally_app, !tally_cons, holds_set, decide_True, (holds_lookup _ _ _ _ Hp) by done.
  rewrite NoDup_app, NoDup_cons in Hnd. destruct Hnd as (_ & Ha & Hb & _).
  rewrite !(tally_ext f h (<[p := g']> h)); [lia|..]; intros q Hq; rewrite holds_set, decide_False; try done.
  - by intros ->.
  - intros ->. apply (Ha p Hq). by left.
Qed.

Lemma tally_elem f h c p g : p ∈ c -> h !! p = Some g -> b2z (f g) <= tally f h c.
Proof.
  intros (a & b & ->)%list_elem_of_split Hp. rewrite !tally_app, !tally_cons, (holds_lookup _ _ _ _ Hp). unfold tally. lia.
Qed.

Lemma tally_exists f h c : 0 < tally f h c -> exists p g, p ∈ c /\ h !! p = Some g /\ f g = true.
Proof.
  induction c as [|x c IH]; [done|]. rewrite tally_cons. destruct (holds f h x) eqn:E.
  - intros _. unfold holds in E. destruct (h !! x) as [g|] eqn:Hg; [|done]. exists x, g. split; [by left|done].
  - intros H. destruct IH as (p & g & Hp & Hg); [cbn in H; lia|]. exists p, g. split; [by right|done].
Qed.

Lemma tally_range f h c : 0 <= tally f h c <= Z.of_nat (length c).
Proof. unfold tally. pose proof (List.filter_length_le (holds f h) c). lia. Qed.

Lemma tally_relinked f h h' c : (forall g g', strip g = strip g' -> f g = f g') -> relinked h h' -> tally f h' c = tally f h c.
Proof.
  intros Hf Hr. apply tally_ext. intros p _. specialize (Hr p). unfold holds.
  destruct (h' !! p) as [g'|], (h !! p) as [g|]; cbn in *; try done. apply Hf. congruence.
Qed.

(** ** The invariant *)

Definition key (g : Page_) : option (nat * Z) := (fun sc => (sc, id g)) <$> scope g.

Definition page_ok (g : Page_) : Prop :=
  is_Some (scope g) /\
  match status g with
  | Hot => is_resident g = true
  | Cold | Test => True
  | ProtectedTest => is_resident g = false
  | End_ => False
  end /\
  (is_resident g = false -> page_lock.MIN_EXCLUSIVE <= lock g).

Record inv (s : CacheInner) (e : ptr) (c X : list ptr) : Prop := {
  inv_ring : ring (heap s) c;
  inv_end : e ∈ c;
  inv_pages : nxt (heap s) e = Some (pages s);
  inv_end_page : exists g, heap s !! e = Some g /\ status g = End_ /\ data g = None;
  inv_ok p g : p ∈ c -> p <> e -> heap s !! p = Some g -> page_ok g;
  inv_hot : hot_page_count s = tally is_hot (heap s) c;
  inv_cold : resident_cold_page_count s = tally is_cold (heap s) c;
  inv_ghost : non_resident_page_count s = tally is_ghost (heap s) c;
  inv_size : Z.of_nat (length c) < 2 ^ 32;
  inv_hand_hot : hand_hot s ∈ c;
  inv_hand_cold : hand_cold s ∈ c;
  inv_hand_test : hand_test s ∈ c;
  inv_map p g : (p ∈ c /\ p <> e) \/ p ∈ X -> heap s !! p = Some g -> exists k, key g = Some k /\ page_map s !! k = Some p;
  inv_page k p : page_map s !! k = Some p -> ((p ∈ c /\ p <> e) \/ p ∈ X) /\ exists g, heap s !! p = Some g /\ key g = Some k;
  inv_fresh p : is_Some (heap s !! p) -> (p < fresh s)%nat;
  inv_out p : p ∈ X -> p ∉ c /\ is_Some (heap s !! p)
}.

(** A ring can be started anywhere. *)
Lemma inv_perm s e c c' X : c ≡ₚ c' -> ring (heap s) c' -> inv s e c X -> inv s e c' X.
Proof.
  intros Hp Hr []. split; try rewrite <- Hp; try done;
    [intros p g; rewrite <- Hp; eauto|rewrite <- (tally_perm _ _ _ _ Hp); done..| | |].
  - intros p g. rewrite <- Hp. eauto.
  - intros k p. rewrite <- Hp. eauto.
  - intros p. rewrite <- Hp. eauto.
Qed.

Lemma inv_rotate s e a b X : inv s e (a ++ b) X -> inv s e (b ++ a) X.
Proof. intros H. apply (inv_perm s e (a ++ b)); [apply Permutation_app_comm|by apply ring_rotate, (inv_ring _ _ _ _ H)|done]. Qed.

Lemma inv_split s e c X p : inv s e c X -> p ∈ c -> exists r, inv s e (p :: r) X /\ c ≡ₚ p :: r.
Proof.
  intros H (a & b & ->)%list_elem_of_split. exists (b ++ a). split; [by apply (inv_rotate s e a (p :: b))|].
  rewrite Permutation_app_comm. done.
Qed.

Lemma inv_lookup s e c X p : inv s e c X -> p ∈ c -> exists g, heap s !! p = Some g.
Proof. intros H Hp. apply (ring_lookup _ _ p (inv_ring _ _ _ _ H) Hp). Qed.

Lemma inv_nodup s e c X : inv s e c X -> NoDup c.
Proof. intros H. apply (ring_nodup _ _ (inv_ring _ _ _ _ H)). Qed.

Lemma strip_fields g g' : strip g = strip g' ->
  scope g = scope g' /\ id g = id g' /\ io g = io g' /\ status g = status g' /\ data g = data g' /\ lock g = lock g' /\ refd g = refd g'.
Proof. destruct g, g'. cbn. intros H. injection H. intros. by subst. Qed.

Lemma strip_ok g g' : strip g = strip g' -> page_ok g -> page_ok g'.
Proof. intros (H1 & _ & _ & H4 & H5 & H6 & _)%strip_fields. unfold page_ok, is_resident. by rewrite H1, H4, H5, H6. Qed.

Lemma strip_key g g' : strip g = strip g' -> key g = key g'.
Proof. intros (H1 & H2 & _)%strip_fields. unfold key. by rewrite H1, H2. Qed.

Lemma strip_kinds h h' c : relinked h h' ->
  tally is_hot h' c = tally is_hot h c /\ tally is_cold h' c = tally is_cold h c /\ tally is_ghost h' c = tally is_ghost h c.
Proof.
  intros Hr. split_and!; apply tally_relinked; try done; intros g g' (_ & _ & _ & H4 & H5 & _)%strip_fields;
    unfold is_hot, is_cold, is_ghost, is_resident; by rewrite ?H4, ?H5.
Qed.

(** What kind a page is. *)
Lemma kinds g : page_ok g ->
  b2z (is_hot g) + b2z (is_cold g) = b2z (is_resident g) /\ b2z (is_ghost g) = 1 - b2z (is_resident g).
Proof.
  intros (_ & Hs & _). unfold is_hot, is_cold, is_ghost.
  destruct (status g) eqn:E; try done; repeat (rewrite bool_decide_true by auto || rewrite bool_decide_false by naive_solver);
    destruct (is_resident g); done.
Qed.

Ltac fields := cbn [options heap page_map fresh pages hot_page_count resident_cold_page_count non_resident_page_count
  io_page_count hand_hot hand_cold hand_cold_cost max_hand_cold_cost hand_test
  set_heap set_page_map set_pages set_counts set_io_count set_hands set_costs] in *.

(** Changing the list. *)
Lemma inv_relink s e c X c' X' h q ha hb hd nh nc ng :
  inv s e c X -> ring h c' -> e ∈ c' -> relinked (heap s) h -> nxt h e = Some q ->
  (forall p, (p ∈ c /\ p <> e) \/ p ∈ X <-> (p ∈ c' /\ p <> e) \/ p ∈ X') ->
  (forall p g, p ∈ c' -> p <> e -> heap s !! p = Some g -> page_ok g) ->
  nh = tally is_hot (heap s) c' -> nc = tally is_cold (heap s) c' -> ng = tally is_ghost (heap s) c' ->
  Z.of_nat (length c') < 2 ^ 32 -> ha ∈ c' -> hb ∈ c' -> hd ∈ c' ->
  (forall p, p ∈ X' -> p ∉ c' /\ is_Some (heap s !! p)) ->
  inv (set_counts nh nc ng (set_heap h (set_hands ha hb hd (set_pages q s)))) e c' X'.
Proof.
  intros Hi Hr He Hrel Hq Hmem Hok Hh Hc Hg Hlen Ha Hb Hd Hout. pose proof (strip_kinds _ _ c' Hrel) as (H1 & H2 & H3).
  pose proof (relinked_sym _ _ Hrel) as Hrel'.
  split; fields; try done; try congruence.
  - destruct (inv_end_page _ _ _ _ Hi) as (g & Hg1 & Hg2 & Hg3). destruct (relinked_lookup _ _ _ _ Hrel Hg1) as (g' & Hg' & Hs).
    exists g'. apply strip_fields in Hs as (_ & _ & _ & -> & -> & _). done.
  - intros p g Hp Hpe Hpg. destruct (relinked_lookup _ _ _ _ Hrel' Hpg) as (g' & Hg' & Hs). eapply strip_ok; [exact Hs|eauto].
  - intros p g Hp Hpg. destruct (relinked_lookup _ _ _ _ Hrel' Hpg) as (g' & Hg' & Hs). rewrite <- (strip_key _ _ Hs).
    apply (inv_map _ _ _ _ Hi); [by apply Hmem|done].
  - intros k p Hk. destruct (inv_page _ _ _ _ Hi k p Hk) as (Hp & g & Hpg & Hkg). split; [by apply Hmem|].
    destruct (relinked_lookup _ _ _ _ Hrel Hpg) as (g' & Hg' & Hs). exists g'. by rewrite (strip_key _ _ Hs).
  - intros p [g Hpg]. destruct (relinked_lookup _ _ _ _ Hrel' Hpg) as (g' & Hg' & _). apply (inv_fresh _ _ _ _ Hi). by eexists.
  - intros p Hp. destruct (Hout p Hp) as [? [g Hpg]]. split; [done|].
    destruct (relinked_lookup _ _ _ _ Hrel Hpg) as (g' & Hg' & _). by eexists.
Qed.

(** Changing a page of the ring, apart from its links. *)
Lemma inv_update s e c X p g g' nh nc ng :
  inv s e c X -> p ∈ c -> p <> e -> heap s !! p = Some g ->
  prev g' = prev g -> next g' = next g -> key g' = key g -> page_ok g' ->
  nh = hot_page_count s - b2z (is_hot g) + b2z (is_hot g') ->
  nc = resident_cold_page_count s - b2z (is_cold g) + b2z (is_cold g') ->
  ng = non_resident_page_count s - b2z (is_ghost g) + b2z (is_ghost g') ->
  inv (set_counts nh nc ng (set_heap (<[p := g']> (heap s)) s)) e c X.
Proof.
  intros Hi Hp Hpe Hg Hprev Hnext Hkey Hok Hh Hc Hn. pose proof (inv_nodup _ _ _ _ Hi) as Hnd.
  pose proof (inv_hot _ _ _ _ Hi). pose proof (inv_cold _ _ _ _ Hi). pose proof (inv_ghost _ _ _ _ Hi).
  split; fields; try apply Hi.
  - apply (ring_ext (heap s)); [|apply Hi]. intros q _. by rewrite (nxt_set _ _ g), (prv_set _ _ g).
  - rewrite (nxt_set _ _ g) by done. apply Hi.
  - destruct (inv_end_page _ _ _ _ Hi) as (ge & He & Hs). exists ge. by rewrite lookup_insert_ne.
  - intros q gq Hq Hqe. destruct (decide (p = q)) as [<-|]; [rewrite lookup_insert_eq; by intros [= <-]|rewrite lookup_insert_ne by done].
    by apply (inv_ok _ _ _ _ Hi).
  - rewrite (tally_set _ _ _ _ g) by done. lia.
  - rewrite (tally_set _ _ _ _ g) by done. lia.
  - rewrite (tally_set _ _ _ _ g) by done. lia.
  - intros q gq Hq. destruct (decide (p = q)) as [<-|]; [rewrite lookup_insert_eq; intros [= <-]; rewrite Hkey; eauto using inv_map|].
    rewrite lookup_insert_ne by done. by apply (inv_map _ _ _ _ Hi).
  - intros k q Hk. destruct (inv_page _ _ _ _ Hi k q Hk) as (Hq & gq & Hgq & Hkq). split; [done|].
    destruct (decide (p = q)) as [<-|]; [exists g'; rewrite lookup_insert_eq; split; [done|]; congruence|exists gq; by rewrite lookup_insert_ne].
  - intros q Hq. apply (inv_fresh _ _ _ _ Hi). destruct (decide (p = q)) as [<-|]; [by eexists|by rewrite lookup_insert_ne in Hq].
  - intros q Hq. destruct (inv_out _ _ _ _ Hi q Hq) as [? Hs]. split; [done|].
    destruct (decide (p = q)) as [<-|]; [rewrite lookup_insert_eq; by eexists|by rewrite lookup_insert_ne].
Qed.

(** Changing a page that is out of the list. *)
Lemma inv_update_out s e c X p g g' :
  inv s e c X -> p ∈ X -> heap s !! p = Some g -> key g' = key g -> inv (set_heap (<[p := g']> (heap s)) s) e c X.
Proof.
  intros Hi Hp Hg Hkey. destruct (inv_out _ _ _ _ Hi p Hp) as [Hpc _].
  assert (forall q, q ∈ c -> <[p := g']> (heap s) !! q = heap s !! q) as Hc by (intros q Hq; rewrite lookup_insert_ne; [done|by intros ->]).
  pose proof (inv_end _ _ _ _ Hi) as He.
  assert (forall f, tally f (<[p := g']> (heap s)) c = tally f (heap s) c) as Ht.
  { intros f. apply tally_ext. intros q Hq. unfold holds. by rewrite Hc. }
  split; fields; rewrite ?Ht; try apply Hi.
  - apply (ring_ext (heap s)); [|apply Hi]. intros q Hq. unfold nxt, prv. by rewrite Hc.
  - unfold nxt. rewrite Hc by done. apply (inv_pages _ _ _ _ Hi).
  - rewrite Hc by done. apply (inv_end_page _ _ _ _ Hi).
  - intros q gq Hq. rewrite Hc by done. by apply (inv_ok _ _ _ _ Hi).
  - intros q gq Hq. destruct (decide (p = q)) as [<-|]; [rewrite lookup_insert_eq; intros [= <-]; rewrite Hkey; eauto using inv_map|].
    rewrite lookup_insert_ne by done. by apply (inv_map _ _ _ _ Hi).
  - intros k q Hk. destruct (inv_page _ _ _ _ Hi k q Hk) as (Hq & gq & Hgq & Hkq). split; [done|].
    destruct (decide (p = q)) as [<-|]; [exists g'; rewrite lookup_insert_eq; split; [done|]; congruence|exists gq; by rewrite lookup_insert_ne].
  - intros q Hq. apply (inv_fresh _ _ _ _ Hi). destruct (decide (p = q)) as [<-|]; [by eexists|by rewrite lookup_insert_ne in Hq].
  - intros q Hq. destruct (inv_out _ _ _ _ Hi q Hq) as [? Hs]. split; [done|].
    destruct (decide (p = q)) as [<-|]; [rewrite lookup_insert_eq; by eexists|by rewrite lookup_insert_ne].
Qed.

Lemma inv_hands s e c X ha hb hd : inv s e c X -> ha ∈ c -> hb ∈ c -> hd ∈ c -> inv (set_hands ha hb hd s) e c X.
Proof. intros Hi. split; fields; try apply Hi; done. Qed.

Lemma inv_costs s e c X x y : inv s e c X -> inv (set_costs x y s) e c X.
Proof. intros Hi. split; fields; apply Hi. Qed.

Lemma inv_io_count s e c X n : inv s e c X -> inv (set_io_count n s) e c X.
Proof. intros Hi. split; fields; apply Hi. Qed.

(** ** What the hands change *)

(** The page the cache holds for a key. *)
Definition cached (s : CacheInner) (k : nat * Z) : option Page := p ← page_map s !! k; g ← heap s !! p; data g.

(** Pages leave the list or lose their data, and are locked then; a page that
    is being faulted in is left alone, and so is everything out of the list. *)
Record mild (s : CacheInner) (c : list ptr) (s' : CacheInner) (c' : list ptr) : Prop := {
  mild_options : options s' = options s;
  mild_io : io_page_count s' = io_page_count s;
  mild_fresh : fresh s' = fresh s;
  mild_sub p : p ∈ c' -> p ∈ c;
  mild_out p : p ∉ c -> heap s' !! p = heap s !! p;
  mild_prot p g : p ∈ c -> heap s !! p = Some g -> status g = ProtectedTest -> p ∈ c' /\ is_Some (heap s' !! p);
  mild_page p g' : p ∈ c' -> heap s' !! p = Some g' -> exists g, heap s !! p = Some g /\
    key g' = key g /\ io g' = io g /\ (status g = ProtectedTest -> status g' = ProtectedTest) /\ (refd g' = true -> refd g = true) /\
    (data g' = data g /\ lock g' = lock g \/ data g' = None /\ is_Some (data g) /\ lock g' = page_lock.MIN_EXCLUSIVE)
}.

(** A page that lost its data in its test period, not after it. *)
Definition tidy (g : Page_) : Prop := data g = None -> status g = Test \/ status g = ProtectedTest \/ status g = End_.

Lemma resident_tidy g : is_resident g = true -> tidy g.
Proof. unfold is_resident, tidy. by destruct (data g). Qed.

(** And what the cache holds is not changed; [n] is the cost of the cold hand. *)
Record calm (n : Z) (s : CacheInner) (c : list ptr) (s' : CacheInner) (c' : list ptr) : Prop := {
  calm_mild : mild s c s' c';
  calm_cost : hand_cold_cost s' = hand_cold_cost s + n;
  calm_data p g' : p ∈ c' -> heap s' !! p = Some g' -> exists g, heap s !! p = Some g /\
    data g' = data g /\ lock g' = lock g /\ (tidy g -> tidy g');
  calm_cached k : cached s' k = cached s k;
  calm_resident : resident_page_count s' = resident_page_count s;
  calm_ghosts : non_resident_page_count s' <= non_resident_page_count s
}.

Lemma mild_trans s1 c1 s2 c2 s3 c3 : mild s1 c1 s2 c2 -> mild s2 c2 s3 c3 -> mild s1 c1 s3 c3.
Proof.
  intros H1 H2. split.
  - by rewrite (mild_options _ _ _ _ H2), (mild_options _ _ _ _ H1).
  - by rewrite (mild_io _ _ _ _ H2), (mild_io _ _ _ _ H1).
  - by rewrite (mild_fresh _ _ _ _ H2), (mild_fresh _ _ _ _ H1).
  - intros p Hp. by apply (mild_sub _ _ _ _ H1), (mild_sub _ _ _ _ H2).
  - intros p Hp. rewrite (mild_out _ _ _ _ H2); [by apply (mild_out _ _ _ _ H1)|]. intros Hp'. by apply Hp, (mild_sub _ _ _ _ H1).
  - intros p g Hp Hg Hs. pose proof (mild_prot _ _ _ _ H1 p g Hp Hg Hs) as Hp2.
    destruct Hp2 as [Hp2 [g2 Hg2]]. destruct (mild_page _ _ _ _ H1 p g2 Hp2 Hg2) as (g' & Hg' & _ & _ & Hs' & _).
    rewrite Hg in Hg'. injection Hg' as <-. eapply (mild_prot _ _ _ _ H2); eauto.
  - intros p g3 Hp Hg3. destruct (mild_page _ _ _ _ H2 p g3 Hp Hg3) as (g2 & Hg2 & K2 & I2 & S2 & R2 & D2).
    destruct (mild_page _ _ _ _ H1 p g2 (mild_sub _ _ _ _ H2 p Hp) Hg2) as (g1 & Hg1 & K1 & I1 & S1 & R1 & D1).
    exists g1. split_and!; try congruence; try tauto.
    destruct D2 as [[D2 L2]|(D2 & Hs & L2)], D1 as [[D1 L1]|(D1 & Hs' & L1)].
    + left. split; congruence.
    + right. split_and!; congruence || done.
    + right. rewrite D1 in Hs. done.
    + rewrite D1 in Hs. by destruct Hs.
Qed.

Lemma mild_refl s c : (forall p, p ∈ c -> is_Some (heap s !! p)) -> mild s c s c.
Proof. intros H. split; try done. intros p g Hp Hg. exists g. split_and!; try done. by left. Qed.

Lemma calm_trans n m s1 c1 s2 c2 s3 c3 : calm n s1 c1 s2 c2 -> calm m s2 c2 s3 c3 -> calm (n + m) s1 c1 s3 c3.
Proof.
  intros H1 H2. split.
  - eapply mild_trans; [exact (calm_mild _ _ _ _ _ H1)|exact (calm_mild _ _ _ _ _ H2)].
  - rewrite (calm_cost _ _ _ _ _ H2), (calm_cost _ _ _ _ _ H1). lia.
  - intros p g3 Hp Hg3. destruct (calm_data _ _ _ _ _ H2 p g3 Hp Hg3) as (g2 & Hg2 & D2 & L2 & T2).
    destruct (calm_data _ _ _ _ _ H1 p g2 (mild_sub _ _ _ _ (calm_mild _ _ _ _ _ H2) p Hp) Hg2) as (g1 & Hg1 & D1 & L1 & T1).
    exists g1. split_and!; try congruence. auto.
  - intros k. by rewrite (calm_cached _ _ _ _ _ H2), (calm_cached _ _ _ _ _ H1).
  - by rewrite (calm_resident _ _ _ _ _ H2), (calm_resident _ _ _ _ _ H1).
  - pose proof (calm_ghosts _ _ _ _ _ H1). pose proof (calm_ghosts _ _ _ _ _ H2). lia.
Qed.

Lemma calm_trans0 s1 c1 s2 c2 s3 c3 : calm 0 s1 c1 s2 c2 -> calm 0 s2 c2 s3 c3 -> calm 0 s1 c1 s3 c3.
Proof. exact (calm_trans 0 0 s1 c1 s2 c2 s3 c3). Qed.

(** Steps that only move hands and count. *)
Lemma calm_same n s s' e c c' X :
  inv s e c X -> (forall p, p ∈ c <-> p ∈ c') -> relinked (heap s) (heap s') -> (forall p, p ∉ c -> heap s' !! p = heap s !! p) ->
  options s' = options s -> io_page_count s' = io_page_count s ->
  fresh s' = fresh s -> page_map s' = page_map s -> hot_page_count s' = hot_page_count s ->
  resident_cold_page_count s' = resident_cold_page_count s -> non_resident_page_count s' = non_resident_page_count s ->
  hand_cold_cost s' = hand_cold_cost s + n -> calm n s c s' c'.
Proof.
  intros Hi Hc Hh Hout Ho Hio Hf Hm H1 H2 H3 Hcost. pose proof (relinked_sym _ _ Hh) as Hh'. split; [split|..]; try done.
  - intros p. by rewrite Hc.
  - intros p g Hp Hg _. split; [by apply Hc|]. destruct (relinked_lookup _ _ _ _ Hh Hg) as (g' & -> & _). by eexists.
  - intros p g' Hp Hg'. destruct (relinked_lookup _ _ _ _ Hh' Hg') as (g & Hg & Hs). exists g. split; [done|].
    pose proof (strip_key _ _ Hs). apply strip_fields in Hs as (_ & _ & E3 & E4 & E5 & E6 & E7). split_and!; try congruence. by left.
  - intros p g' Hp Hg'. destruct (relinked_lookup _ _ _ _ Hh' Hg') as (g & Hg & Hs). exists g. split; [done|].
    apply strip_fields in Hs as (_ & _ & _ & E4 & E5 & E6 & _). unfold tidy. by rewrite E4, E5.
  - intros k. unfold cached. rewrite Hm. destruct (page_map s !! k) as [p|]; [|done]. cbn. destruct (heap s !! p) as [g|] eqn:Hg.
    + destruct (relinked_lookup _ _ _ _ Hh Hg) as (g' & -> & Hs). by apply strip_fields in Hs as (_ & _ & _ & _ & ? & _).
    + specialize (Hh p). rewrite Hg in Hh. by destruct (heap s' !! p).
  - unfold resident_page_count. congruence.
  - lia.
Qed.

(** The status or the reference bit of one page is changed. *)
Lemma touch_ok s e c X p g g' nh nc :
  inv s e c X -> p ∈ c -> p <> e -> heap s !! p = Some g ->
  prev g' = prev g -> next g' = next g -> key g' = key g -> io g' = io g -> data g' = data g -> lock g' = lock g ->
  (refd g' = true -> refd g = true) -> status g <> ProtectedTest -> status g' <> ProtectedTest -> page_ok g' -> tidy g' ->
  nh = hot_page_count s - b2z (is_hot g) + b2z (is_hot g') ->
  nc = resident_cold_page_count s - b2z (is_cold g) + b2z (is_cold g') ->
  let s' := set_counts nh nc (non_resident_page_count s) (set_heap (<[p := g']> (heap s)) s) in
  inv s' e c X /\ calm 0 s c s' c.
Proof.
  intros Hi Hp Hpe Hg Hprev Hnext Hkey Hio Hdata Hlock Hrefd Hst Hst' Hok Htidy Hh Hc s'.
  pose proof (inv_ok _ _ _ _ Hi p g Hp Hpe Hg) as Hok0.
  destruct (kinds g Hok0) as [Hk1 Hk2], (kinds g' Hok) as [Hk1' Hk2'].
  assert (is_resident g' = is_resident g) as Hr by (unfold is_resident; by rewrite Hdata). rewrite Hr in Hk1', Hk2'.
  split; [apply (inv_update s e c X p g g'); try done; lia|]. split; [split|..]; unfold s'; fields; try done; try lia.
  - intros q Hq. rewrite lookup_insert_ne; [done|by intros ->].
  - intros q gq Hq Hgq _. split; [done|]. destruct (decide (p = q)) as [<-|]; [rewrite lookup_insert_eq; by eexists|].
    rewrite lookup_insert_ne by done. by eexists.
  - intros q gq Hq. destruct (decide (p = q)) as [<-|].
    + rewrite lookup_insert_eq. intros [= <-]. exists g. split_and!; try done. by left.
    + rewrite lookup_insert_ne by done. intros Hgq. exists gq. split_and!; try done. by left.
  - intros q gq Hq. destruct (decide (p = q)) as [<-|]; [rewrite lookup_insert_eq; intros [= <-]; by exists g|].
    rewrite lookup_insert_ne by done. intros Hgq. by exists gq.
  - intros k. unfold cached. fields. destruct (page_map s !! k) as [q|]; [|done]. cbn.
    destruct (decide (p = q)) as [<-|]; [by rewrite lookup_insert_eq, Hg|by rewrite lookup_insert_ne].
  - unfold resident_page_count. fields. lia.
Qed.

Section ops.
Context {P : BuildProfile}.

Lemma inc_ok n : 0 <= n < 2 ^ 32 -> add_u64 (E := memory_fault) n 1 = Ok (n + 1).
Proof. intros. apply add_u64_ok. unfold is_u64, U64. lia. Qed.
Lemma dec_ok n : 0 < n < 2 ^ 32 -> sub_u64 (E := memory_fault) n 1 = Ok (n - 1).
Proof. intros. apply sub_u64_ok; unfold U64; lia. Qed.

(** A hand on the removed page goes to the next one. *)
Lemma moved_in x y r p : p ∈ x :: y :: r -> moved x y p ∈ y :: r.
Proof. unfold moved. rewrite elem_of_cons. destruct (Nat.eqb_spec p x); [intros _; by left|]. by intros [?|?]. Qed.

Lemma end_page_scope s e c X x g : inv s e c X -> x ∈ c -> x <> e -> heap s !! x = Some g -> exists k, key g = Some k /\ page_map s !! k = Some x.
Proof. intros Hi Hx Hxe Hg. apply (inv_map _ _ _ _ Hi); [by left|done]. Qed.

(** A page that is out of the list is dropped. *)
Lemma inv_delete s e c X x g k :
  inv s e c (x :: X) -> x ∉ X -> heap s !! x = Some g -> key g = Some k ->
  inv (set_heap (delete x (heap s)) (set_page_map (delete k (page_map s)) s)) e c X.
Proof.
  intros Hi Hx Hg Hk. destruct (inv_out _ _ _ _ Hi x ltac:(by left)) as [Hxc _].
  assert (forall q, q ∈ c -> delete x (heap s) !! q = heap s !! q) as Hc by (intros q Hq; rewrite lookup_delete_ne; [done|by intros ->]).
  pose proof (inv_end _ _ _ _ Hi) as He.
  assert (forall f, tally f (delete x (heap s)) c = tally f (heap s) c) as Ht.
  { intros f. apply tally_ext. intros q Hq. unfold holds. by rewrite Hc. }
  split; fields; rewrite ?Ht; try apply Hi.
  - apply (ring_ext (heap s)); [|apply Hi]. intros q Hq. unfold nxt, prv. by rewrite Hc.
  - unfold nxt. rewrite Hc by done. apply (inv_pages _ _ _ _ Hi).
  - rewrite Hc by done. apply (inv_end_page _ _ _ _ Hi).
  - intros q gq Hq. rewrite Hc by done. by apply (inv_ok _ _ _ _ Hi).
  - intros q gq Hq Hgq. assert (q <> x) as Hqx by (destruct Hq as [[? _]|?]; by intros ->). rewrite lookup_delete_ne in Hgq by done.
    destruct (inv_map _ _ _ _ Hi q gq) as (k' & Hk' & Hm); [destruct Hq; [by left|right; by right]|done|].
    exists k'. split; [done|]. rewrite lookup_delete_ne; [done|]. intros <-.
    destruct (inv_map _ _ _ _ Hi x g) as (k'' & Hk'' & Hm'); [right; by left|done|]. congruence.
  - intros k' q Hq. apply lookup_delete_Some in Hq as [Hkk Hq]. destruct (inv_page _ _ _ _ Hi k' q Hq) as (Hin & gq & Hgq & Hkq).
    assert (q <> x) as Hqx by (intros ->; congruence). split.
    + destruct Hin as [?|Hin]; [by left|]. apply elem_of_cons in Hin as [?|?]; [done|by right].
    + exists gq. by rewrite lookup_delete_ne.
  - intros q [gq Hq]. apply lookup_delete_Some in Hq as [_ Hq]. apply (inv_fresh _ _ _ _ Hi). by eexists.
  - intros q Hq. destruct (inv_out _ _ _ _ Hi q ltac:(by right)) as [? Hs]. split; [done|]. rewrite lookup_delete_ne; [done|by intros ->].
Qed.

Lemma calm_removed s s' x r h g k :
  heap s !! x = Some g -> is_resident g = false -> status g <> ProtectedTest -> page_map s !! k = Some x -> x ∉ r ->
  relinked (heap s) h -> (forall p, p ∉ x :: r -> h !! p = heap s !! p) ->
  heap s' = delete x h -> page_map s' = delete k (page_map s) -> options s' = options s -> io_page_count s' = io_page_count s ->
  fresh s' = fresh s -> hot_page_count s' = hot_page_count s -> resident_cold_page_count s' = resident_cold_page_count s ->
  non_resident_page_count s' <= non_resident_page_count s -> hand_cold_cost s' = hand_cold_cost s ->
  calm 0 s (x :: r) s' r.
Proof.
  intros Hg Hres Hst Hk Hx Hrel Hout Hh Hm Ho Hio Hf H1 H2 H3 Hc. pose proof (relinked_sym _ _ Hrel) as Hrel'.
  assert (forall p g', heap s' !! p = Some g' -> exists g0, heap s !! p = Some g0 /\ strip g' = strip g0) as Hback.
  { intros p g' Hp. rewrite Hh in Hp. apply lookup_delete_Some in Hp as [_ Hp].
    destruct (relinked_lookup _ _ _ _ Hrel' Hp) as (g0 & Hg0 & Hs). by exists g0. }
  split; [split|..]; try done; try lia.
  - intros p. by right.
  - intros p Hp. rewrite Hh, lookup_delete_ne; [by apply Hout|]. intros ->. apply Hp. by left.
  - intros p gp Hp Hgp Hs. assert (p <> x) as Hpx by congruence. split; [by apply elem_of_cons in Hp as [?|?]|].
    destruct (relinked_lookup _ _ _ _ Hrel Hgp) as (g' & Hg' & _). exists g'. by rewrite Hh, lookup_delete_ne.
  - intros p g' Hp Hg'. destruct (Hback p g' Hg') as (g0 & Hg0 & Hs). exists g0. split; [done|]. pose proof (strip_key _ _ Hs).
    apply strip_fields in Hs as (_ & _ & E3 & E4 & E5 & E6 & E7). split_and!; try congruence. by left.
  - intros p g' Hp Hg'. destruct (Hback p g' Hg') as (g0 & Hg0 & Hs). exists g0. split; [done|].
    apply strip_fields in Hs as (_ & _ & _ & E4 & E5 & E6 & _). unfold tidy. by rewrite E4, E5.
  - intros k'. unfold cached. rewrite Hm, Hh. destruct (decide (k = k')) as [<-|].
    + rewrite lookup_delete_eq, Hk. cbn. rewrite Hg. cbn. unfold is_resident in Hres. by destruct (data g).
    + rewrite lookup_delete_ne by done. destruct (page_map s !! k') as [p|] eqn:Hp; [|done]. cbn.
      destruct (decide (p = x)) as [->|Hpx].
      { rewrite lookup_delete_eq, Hg. cbn. unfold is_resident in Hres. by destruct (data g). }
      rewrite lookup_delete_ne by done. destruct (heap s !! p) as [gp|] eqn:Hgp.
      * destruct (relinked_lookup _ _ _ _ Hrel Hgp) as (g' & -> & Hs). by apply strip_fields in Hs as (_ & _ & _ & _ & ? & _).
      * specialize (Hrel p). rewrite Hgp in Hrel. by destruct (h !! p).
  - unfold resident_page_count. lia.
Qed.

(** A page without data is taken out of the list. *)
Lemma take_out_ok s e x y r X g kind nh nc ng :
  inv (set_counts nh nc ng s) e (x :: y :: r) X -> x <> e -> heap s !! x = Some g -> is_resident g = false ->
  (forall s1, hot_page_count s1 = hot_page_count s -> resident_cold_page_count s1 = resident_cold_page_count s ->
     non_resident_page_count s1 = non_resident_page_count s -> update_page_count s1 kind Dec = Ok (set_counts nh nc (ng - 1) s1)) ->
  exists h, let s1 := set_heap h (set_hands (moved x y (hand_hot s)) (moved x y (hand_cold s)) (moved x y (hand_test s))
      (set_pages (moved x y (pages s)) s)) in
    remove_page_from_list s x = Ok s1 /\ update_page_count s1 kind Dec = Ok (set_counts nh nc (ng - 1) s1) /\
    inv (set_counts nh nc (ng - 1) s1) e (y :: r) (x :: X) /\ x ∉ X /\ x ∉ y :: r /\
    relinked (heap s) h /\ (forall p, p ∉ x :: y :: r -> h !! p = heap s !! p).
Proof.
  intros Hi Hxe Hg Hres Hupd. set (s0 := set_counts nh nc ng s) in *.
  pose proof (inv_ring _ _ _ _ Hi) as Hr. pose proof (ring_nodup _ _ Hr) as Hnd. apply NoDup_cons in Hnd as [Hx Hnd].
  assert (e ∈ y :: r) as He by (pose proof (inv_end _ _ _ _ Hi) as H; apply elem_of_cons in H as [->|]; done).
  pose proof (inv_ok _ _ _ _ Hi x g ltac:(by left) Hxe Hg) as Hok. destruct (kinds g Hok) as [Hk1 Hk2]. rewrite Hres in Hk1, Hk2.
  destruct (remove_from_list_ok s e x y r Hr He (inv_pages _ _ _ _ Hi)) as (h & Hrem & Hring & Hnxt & Hrel & Hout).
  exists h. cbv zeta. split; [done|]. split; [by apply Hupd|].
  assert (x ∉ X) as HxX by (intros Hin; destruct (inv_out _ _ _ _ Hi x Hin) as [Hn _]; apply Hn; by left).
  split_and!; try done.
  pose proof (inv_hot _ _ _ _ Hi) as T1. pose proof (inv_cold _ _ _ _ Hi) as T2. pose proof (inv_ghost _ _ _ _ Hi) as T3.
  unfold s0 in T1, T2, T3. fields. rewrite tally_cons, (holds_lookup _ _ x g Hg) in T1. rewrite tally_cons, (holds_lookup _ _ x g Hg) in T2.
  rewrite tally_cons, (holds_lookup _ _ x g Hg) in T3.
  assert (0 <= b2z (is_hot g) /\ 0 <= b2z (is_cold g)) as [? ?] by (split; [destruct (is_hot g)|destruct (is_cold g)]; done).
  apply (inv_relink s0 e (x :: y :: r) X (y :: r) (x :: X)); change (heap s0) with (heap s); try done; try (cbn in Hk1, Hk2; lia).
  - intros p. rewrite !(elem_of_cons _ _ x). split; [intros [[[->|?] ?]|?]; auto|]. intros [[? ?]|[->|?]]; auto.
  - intros p gp Hp. apply (inv_ok _ _ _ _ Hi). by right.
  - pose proof (inv_size _ _ _ _ Hi) as Hlen. cbn [length] in *. lia.
  - apply moved_in, (inv_hand_hot _ _ _ _ Hi).
  - apply moved_in, (inv_hand_cold _ _ _ _ Hi).
  - apply moved_in, (inv_hand_test _ _ _ _ Hi).
  - intros p Hp. apply elem_of_cons in Hp as [->|Hp]; [split; [done|by eexists]|].
    destruct (inv_out _ _ _ _ Hi p Hp) as [Hn ?]. split; [|done]. intros ?. apply Hn. by right.
Qed.

(** [remove_page] of a page without data. *)
Lemma remove_page_ok s e x y r X g kind nh nc ng :
  inv (set_counts nh nc ng s) e (x :: y :: r) X -> x <> e -> heap s !! x = Some g -> is_resident g = false -> status g <> ProtectedTest ->
  (forall s1, hot_page_count s1 = hot_page_count s -> resident_cold_page_count s1 = resident_cold_page_count s ->
     non_resident_page_count s1 = non_resident_page_count s -> update_page_count s1 kind Dec = Ok (set_counts nh nc (ng - 1) s1)) ->
  exists s', remove_page s x kind = Ok s' /\ inv s' e (y :: r) X /\ calm 0 (set_counts nh nc ng s) (x :: y :: r) s' (y :: r) /\
    hand_hot s' = moved x y (hand_hot s) /\ hand_cold s' = moved x y (hand_cold s) /\ hand_test s' = moved x y (hand_test s) /\
    non_resident_page_count s' = ng - 1.
Proof.
  intros Hi Hxe Hg Hres Hst Hupd. set (s0 := set_counts nh nc ng s) in *.
  pose proof (inv_ok _ _ _ _ Hi x g ltac:(by left) Hxe Hg) as Hok.
  destruct (inv_map _ _ _ _ Hi x g ltac:(left; split; [by left|done]) Hg) as (k & Hk & Hmap).
  destruct (take_out_ok s e x y r X g kind nh nc ng Hi Hxe Hg Hres Hupd) as (h & Hrem & Hdec & Hi1 & HxX & Hx & Hrel & Hout).
  destruct (relinked_lookup _ _ _ _ Hrel Hg) as (g' & Hg' & Hs). pose proof (strip_key _ _ Hs) as Hkey.
  apply strip_fields in Hs as (Hsc & Hid & _ & _ & Hdata & Hlock & _).
  unfold remove_page. rewrite Hrem. run. rewrite Hdec. run. rewrite (deref_page_ok _ x g') by done. run.
  assert (exists sc, scope g' = Some sc /\ k = (sc, id g')) as (sc & Hsc' & ->).
  { rewrite <- Hkey in Hk. unfold key in Hk. destruct (scope g'); [|done]. cbn in Hk. eexists. split; [done|]. congruence. }
  rewrite Hsc'. run. unfold drop_page. rewrite Hdata. unfold is_resident in Hres. destruct (data g) eqn:Ed; [done|].
  assert ((page_lock.ensure_exclusive (lock g')).1 = true) as ->.
  { rewrite Hlock. destruct Hok as (_ & _ & Hl). unfold is_resident in Hl. rewrite Ed in Hl. specialize (Hl eq_refl).
    unfold page_lock.ensure_exclusive, page_lock.lock_exclusive0, page_lock.cas. cbn [fst]. by rewrite lock_facts.lock_state_exclusive. }
  run. eexists. split; [reflexivity|]. fields. split_and!; try done.
  - apply (inv_delete _ e (y :: r) X x g' (sc, id g') Hi1 HxX Hg'). congruence.
  - apply (calm_removed s0 _ x (y :: r) h g (sc, id g')); unfold s0; fields; try done; try lia. unfold is_resident. by rewrite Ed.
Qed.

(** ** Pages in use *)

(** No page with data is locked. *)
Definition free (s : CacheInner) (c : list ptr) : Prop :=
  forall p g, p ∈ c -> heap s !! p = Some g -> is_resident g = true -> lock g = page_lock.UNLOCKED.

(** The pages whose reference bit is set. *)
Definition refs (s : CacheInner) (c : list ptr) : Z := tally refd (heap s) c.

Lemma mild_free s c s' c' : mild s c s' c' -> free s c -> free s' c'.
Proof.
  intros Hm Hf p g' Hp Hg' Hr. destruct (mild_page _ _ _ _ Hm p g' Hp Hg') as (g & Hg & _ & _ & _ & _ & [[Hd Hl]|(Hd & _)]).
  - rewrite Hl. apply (Hf p g); [by apply (mild_sub _ _ _ _ Hm)|done|]. unfold is_resident in *. by rewrite <- Hd.
  - unfold is_resident in Hr. by rewrite Hd in Hr.
Qed.

Lemma tally_sub f h h' c c' :
  NoDup c' -> (forall p, p ∈ c' -> p ∈ c) -> (forall p, p ∈ c' -> holds f h' p = true -> holds f h p = true) ->
  tally f h' c' <= tally f h c.
Proof.
  intros Hnd Hsub Hh. unfold tally. apply inj_le, NoDup_incl_length.
  - apply List.NoDup_filter. by apply NoDup_ListNoDup.
  - intros p. rewrite !List.filter_In, <- !list_elem_of_In. intros [H1 H2]. auto.
Qed.

Lemma mild_refs s c s' c' : NoDup c' -> mild s c s' c' -> refs s' c' <= refs s c.
Proof.
  intros Hnd Hm. apply tally_sub; [done|apply (mild_sub _ _ _ _ Hm)|]. intros p Hp. unfold holds.
  destruct (heap s' !! p) as [g'|] eqn:Hg'; [|done]. cbn. intros Hr.
  destruct (mild_page _ _ _ _ Hm p g' Hp Hg') as (g & -> & _ & _ & _ & Hrefd & _). cbn. by apply Hrefd.
Qed.

Lemma calm_refl s e c c' X : inv s e c X -> (forall p, p ∈ c <-> p ∈ c') -> calm 0 s c s c'.
Proof. intros Hi Hc. eapply calm_same; try done. lia. Qed.

Lemma mild_perm s c c1 s' c' : (forall p, p ∈ c <-> p ∈ c1) -> mild s c s' c' -> mild s c1 s' c'.
Proof.
  intros Hc H. split; try apply H.
  - intros p Hp. by apply Hc, (mild_sub _ _ _ _ H).
  - intros p Hp. apply (mild_out _ _ _ _ H). by rewrite Hc.
  - intros p g Hp. apply (mild_prot _ _ _ _ H). by rewrite Hc.
Qed.

Lemma calm_perm n s c c1 s' c' : (forall p, p ∈ c <-> p ∈ c1) -> calm n s c s' c' -> calm n s c1 s' c'.
Proof. intros Hc H. split; try apply H. eapply mild_perm; [done|apply H]. Qed.

(** Moving a hand. *)
Lemma hands_ok s e c X ha hb hd : inv s e c X -> ha ∈ c -> hb ∈ c -> hd ∈ c ->
  inv (set_hands ha hb hd s) e c X /\ calm 0 s c (set_hands ha hb hd s) c.
Proof. intros Hi Ha Hb Hd. split; [by apply inv_hands|]. eapply calm_same; fields; try done. lia. Qed.

(** ** The hot hand *)

Lemma resident_bounds s e c X : inv s e c X ->
  0 <= hot_page_count s < 2 ^ 32 /\ 0 <= resident_cold_page_count s < 2 ^ 32 /\ 0 <= non_resident_page_count s < 2 ^ 32.
Proof.
  intros Hi. rewrite (inv_hot _ _ _ _ Hi), (inv_cold _ _ _ _ Hi), (inv_ghost _ _ _ _ Hi). pose proof (inv_size _ _ _ _ Hi).
  pose proof (tally_range is_hot (heap s) c). pose proof (tally_range is_cold (heap s) c). pose proof (tally_range is_ghost (heap s) c). lia.
Qed.

Lemma handle_hot_ok s e c X p g :
  inv s e c X -> p ∈ c -> p <> e -> heap s !! p = Some g -> status g = Hot -> free s c ->
  exists b s', handle_hot s p = Ok (b, s') /\ inv s' e c X /\ calm 0 s c s' c /\
    hand_hot s' = hand_hot s /\ (forall q, q <> p -> heap s' !! q = heap s !! q) /\
    if b : bool then 0 < resident_cold_page_count s'
    else refs s' c = refs s c - 1 /\ exists g', heap s' !! p = Some g' /\ status g' = Hot.
Proof.
  intros Hi Hp Hpe Hg Hst Hf. pose proof (inv_ok _ _ _ _ Hi p g Hp Hpe Hg) as Hok. pose proof Hok as (Hsc & Hres & Hl). rewrite Hst in Hres.
  unfold handle_hot. rewrite (deref_page_ok _ _ _ Hg). run. rewrite (debug_assert_true (bool_decide _)) by (by apply bool_decide_eq_true). run.
  rewrite (Hf p g Hp Hg Hres). change (page_lock.is_locked page_lock.UNLOCKED) with false.
  assert (is_hot g = true /\ is_cold g = false) as [K1 K2] by (unfold is_hot, is_cold; by rewrite Hst).
  destruct (refd g) eqn:Hr.
  - rewrite (modify_ok _ _ _ _ Hg). run. eexists _, _. split; [reflexivity|].
    destruct (touch_ok s e c X p g (set_refd false g) (hot_page_count s) (resident_cold_page_count s)) as [Hi' Hc']; try done; try congruence; [cbn; by rewrite Hst|by apply resident_tidy|..].
    { change (is_hot (set_refd false g)) with (is_hot g). lia. } { change (is_cold (set_refd false g)) with (is_cold g). lia. }
    split; [exact Hi'|]. split; [exact Hc'|]. split_and!; try done; [intros q Hq; fields; by rewrite lookup_insert_ne|..].
    + unfold refs. fields. rewrite (tally_set _ _ _ _ g) by (done || by apply (inv_nodup _ _ _ _ Hi)). rewrite Hr. cbn. lia.
    + eexists. fields. rewrite lookup_insert_eq. done.
  - rewrite debug_assert_true by done. run. rewrite (modify_ok _ _ _ _ Hg). run.
    destruct (resident_bounds _ _ _ _ Hi) as (B1 & B2 & B3).
    pose proof (tally_elem is_hot _ _ _ _ Hp Hg) as Hpos. rewrite <- (inv_hot _ _ _ _ Hi), K1 in Hpos. cbn in Hpos.
    unfold update_page_count. fields. rewrite dec_ok by lia. run. fields. rewrite inc_ok by lia. run.
    eexists _, _. split; [reflexivity|].
    destruct (touch_ok s e c X p g (set_status Test g) (hot_page_count s - 1) (resident_cold_page_count s + 1)) as [Hi' Hc']; try done; try congruence.
    { by apply resident_tidy. }
    { rewrite K1. change (is_hot (set_status Test g)) with false. cbn. lia. }
    { rewrite K2. unfold is_cold. cbn [status set_status]. rewrite bool_decide_true by auto.
      change (is_resident (set_status Test g)) with (is_resident g). rewrite Hres. cbn. lia. }
    split; [exact Hi'|]. split; [exact Hc'|]. split_and!; try done; [intros q Hq; fields; by rewrite lookup_insert_ne|]. fields. lia.
Qed.

Lemma second_in x r : second x r ∈ x :: r.
Proof. destruct r; [by left|right; by left]. Qed.

(** The hand on page [x] of the ring moves on. *)
Lemma move_hot s e x r X :
  inv s e (x :: r) X -> hand_hot s = x -> exists g, heap s !! x = Some g /\
    let s' := set_hands (next g) (hand_cold s) (hand_test s) s in
    next g = second x r /\ inv s' e (x :: r) X /\ calm 0 s (x :: r) s' (x :: r).
Proof.
  intros Hi Hx. destruct (nxt_lookup _ _ _ (ring_next _ _ _ (inv_ring _ _ _ _ Hi))) as (g & Hg & Hn). exists g.
  split; [done|]. cbv zeta. split; [done|]. rewrite Hn. apply hands_ok; [done|apply second_in|apply Hi|apply Hi].
Qed.

Lemma not_end s e c X p g : inv s e c X -> heap s !! p = Some g -> status g <> End_ -> p <> e.
Proof. intros Hi Hg Hs ->. destruct (inv_end_page _ _ _ _ Hi) as (ge & Hge & Hse & _). congruence. Qed.

(** A visited page that is cold: its test period ends. *)
Lemma end_test_ok s e c X p g :
  inv s e c X -> p ∈ c -> heap s !! p = Some g -> status g = Cold \/ status g = Test ->
  p <> e /\ let s' := set_heap (<[p := set_status Cold g]> (heap s)) s in
  modify s p (set_status Cold) = Ok s' /\ inv s' e c X /\ (is_resident g = true -> calm 0 s c s' c).
Proof.
  intros Hi Hp Hg Hst. assert (p <> e) as Hpe by (apply (not_end s e _ _ _ _ Hi Hg); destruct Hst; congruence).
  split; [done|]. cbv zeta. split; [by apply modify_ok|].
  pose proof (inv_ok _ _ _ _ Hi p g Hp Hpe Hg) as (Hsc & _ & Hl).
  assert (is_hot g = false /\ is_cold g = is_resident g) as [K1 K2].
  { unfold is_hot, is_cold. rewrite (bool_decide_true (_ \/ _)) by done. by destruct Hst as [-> | ->]. }
  assert (is_hot (set_status Cold g) = false) as K1' by done.
  assert (is_cold (set_status Cold g) = is_resident g /\ is_ghost (set_status Cold g) = is_ghost g) as [K2' K3'].
  { unfold is_cold, is_ghost. cbn [status set_status]. rewrite (bool_decide_true (_ \/ _)) by auto. split; [done|].
    destruct Hst as [-> | ->]; done. }
  split.
  - apply (inv_update s e c X p g (set_status Cold g) (hot_page_count s) (resident_cold_page_count s) (non_resident_page_count s)); try done;
      rewrite ?K1, ?K2, ?K1', ?K2', ?K3'; lia.
  - intros Hres. destruct (touch_ok s e c X p g (set_status Cold g) (hot_page_count s) (resident_cold_page_count s)) as [_ Hc']; try done.
    + by destruct Hst as [-> | ->].
    + by apply resident_tidy.
    + rewrite K1, K1'. lia.
    + rewrite K2, K2'. lia.
Qed.

(** A change of a page that is dropped afterwards does not count. *)
Lemma calm_before n s c s' c' x g g2 :
  calm n (set_heap (<[x := g2]> (heap s)) s) c s' c' -> x ∈ c -> x ∉ c' -> heap s !! x = Some g -> data g2 = data g ->
  status g <> ProtectedTest -> calm n s c s' c'.
Proof.
  intros Hc Hx Hx' Hg Hd Hst. pose proof (calm_mild _ _ _ _ _ Hc) as Hm.
  assert (forall p, p <> x -> heap (set_heap (<[x := g2]> (heap s)) s) !! p = heap s !! p) as Hp by (intros p Hpx; fields; by rewrite lookup_insert_ne).
  split; try apply Hc; [split; try apply Hm|..].
  - intros p Hpc. rewrite (mild_out _ _ _ _ Hm p Hpc). apply Hp. by intros ->.
  - intros p gp Hpc Hgp Hsp. apply (mild_prot _ _ _ _ Hm p gp Hpc); [|done]. rewrite Hp; [done|]. congruence.
  - intros p g' Hpc Hg'. rewrite <- Hp by (by intros ->). by apply (mild_page _ _ _ _ Hm).
  - intros p g' Hpc Hg'. rewrite <- Hp by (by intros ->). by apply (calm_data _ _ _ _ _ Hc).
  - intros k. rewrite (calm_cached _ _ _ _ _ Hc). unfold cached. fields. destruct (page_map s !! k) as [p|]; [|done]. cbn.
    destruct (decide (x = p)) as [<-|]; [by rewrite lookup_insert_eq, Hg|by rewrite lookup_insert_ne].
Qed.

(** A visited page that is cold and has no data: it is removed. *)
Lemma remove_ghost_ok s e x y r X g :
  inv s e (x :: y :: r) X -> heap s !! x = Some g -> is_resident g = false -> status g = Cold \/ status g = Test ->
  exists s', (s ← modify s x (set_status Cold); remove_page s x (KCold false)) = Ok s' /\ inv s' e (y :: r) X /\ calm 0 s (x :: y :: r) s' (y :: r) /\
    hand_hot s' = moved x y (hand_hot s) /\ hand_cold s' = moved x y (hand_cold s) /\ hand_test s' = moved x y (hand_test s) /\
    non_resident_page_count s' = non_resident_page_count s - 1.
Proof.
  intros Hi Hg Hres Hst. destruct (end_test_ok s e (x :: y :: r) X x g Hi ltac:(by left) Hg Hst) as (Hxe & Hmod & Hi1 & _). rewrite Hmod. run.
  set (s1 := set_heap _ s) in *. destruct (resident_bounds _ _ _ _ Hi1) as (B1 & B2 & B3).
  assert (heap s1 !! x = Some (set_status Cold g)) as Hg1 by (unfold s1; fields; apply lookup_insert_eq).
  pose proof (remove_page_ok s1 e x y r X (set_status Cold g) (KCold false) (hot_page_count s) (resident_cold_page_count s) (non_resident_page_count s)) as H.
  assert (set_counts (hot_page_count s) (resident_cold_page_count s) (non_resident_page_count s) s1 = s1) as Hs by done.
  rewrite Hs in H. destruct H as (s2 & Hrem & Hi2 & Hc2 & Hh); try done.
  - intros s2 H1 H2 H3. unfold update_page_count. cbv zeta. rewrite H1, H2, H3.
    pose proof (tally_elem is_ghost _ (x :: y :: r) x _ ltac:(by left) Hg1) as Hpos. rewrite <- (inv_ghost _ _ _ _ Hi1) in Hpos.
    pose proof (inv_ok _ _ _ _ Hi1 x _ ltac:(by left) Hxe Hg1) as Hok. destruct (kinds _ Hok) as [_ Hk].
    change (is_resident (set_status Cold g)) with (is_resident g) in Hk. rewrite Hres in Hk. cbn [b2z] in Hk. rewrite dec_ok by lia. done.
  - exists s2. split_and!; try apply Hh; try done. eapply (calm_before _ _ _ _ _ x g); [exact Hc2|by left| |done|done|destruct Hst; congruence].
    pose proof (inv_nodup _ _ _ _ Hi) as Hnd. by apply NoDup_cons in Hnd as [? _].
Qed.

(** One visit of the hot hand. *)
Lemma hand_hot_step_ok s e x r X stop :
  inv s e (x :: r) X -> hand_hot s = x -> free s (x :: r) ->
  exists ret stop' s', hand_hot_step s stop = Ok (ret, stop', s') /\
   ((ret = true /\ inv s' e (x :: r) X /\ calm 0 s (x :: r) s' (x :: r) /\ 0 < resident_cold_page_count s') \/
    (ret = false /\ inv s' e (x :: r) X /\ calm 0 s (x :: r) s' (x :: r) /\ hand_hot s' = second x r /\
       (x <> e /\ stop' = stop \/ stop' = track stop x)) \/
    (ret = false /\ exists y r', r = y :: r' /\ stop' = stop /\ inv s' e r X /\ calm 0 s (x :: r) s' r /\ hand_hot s' = y)).
Proof.
  intros Hi Hx Hf. destruct (move_hot s e x r X Hi Hx) as (g & Hg & Hn & Hi1 & Hc1). rewrite Hn in *.
  set (s1 := set_hands (second x r) (hand_cold s) (hand_test s) s) in *.
  pose proof (mild_free _ _ _ _ (calm_mild _ _ _ _ _ Hc1) Hf) as Hf1.
  unfold hand_hot_step. rewrite Hx, (deref_page_ok _ _ _ Hg). run. rewrite Hn. fold s1.
  assert (status g = Cold \/ status g = Test -> exists ret stop' s',
    (s ← modify s1 x (set_status Cold); if is_resident g then Ok (false, track stop x, s) else s ← remove_page s x (KCold false); Ok (false, stop, s))
      = Ok (ret, stop', s') /\ ((ret = false /\ inv s' e (x :: r) X /\ calm 0 s (x :: r) s' (x :: r) /\ hand_hot s' = second x r /\ stop' = track stop x) \/
        (ret = false /\ exists y r', r = y :: r' /\ stop' = stop /\ inv s' e r X /\ calm 0 s (x :: r) s' r /\ hand_hot s' = y))) as Hcold.
  { intros Hst. destruct (end_test_ok s1 e (x :: r) X x g Hi1 ltac:(by left) Hg Hst) as (Hxe & Hmod & Hi2 & Hc2). rewrite Hmod. run.
    destruct (is_resident g) eqn:Hres.
    - eexists _, _, _. split; [reflexivity|]. left. split_and!; try done. eapply calm_trans0; [done|auto].
    - destruct r as [|y r]; [by pose proof (inv_end _ _ _ _ Hi) as ?%list_elem_of_singleton|].
      destruct (remove_ghost_ok s1 e x y r X g Hi1 Hg Hres Hst) as (s3 & Hrem & Hi3 & Hc3 & Hh & _). rewrite Hmod, bind_Ok in Hrem. rewrite Hrem. run.
      eexists _, _, _. split; [reflexivity|]. right. split; [done|]. exists y, r. split_and!; try done.
      + by eapply calm_trans0.
      + rewrite Hh. unfold s1, moved. fields. cbn. by destruct (Nat.eqb_spec y x). }
  destruct (status g) eqn:Hst.
  - assert (x <> e) as Hxe by (apply (not_end s e _ _ _ _ Hi Hg); congruence).
    destruct (handle_hot_ok s1 e (x :: r) X x g Hi1 ltac:(by left) Hxe Hg Hst Hf1) as (b & s2 & Hh & Hi2 & Hc2 & Hha & _ & Hb). rewrite Hh. run.
    eexists _, _, _. split; [reflexivity|]. pose proof (calm_trans0 _ _ _ _ _ _ Hc1 Hc2). destruct b; [left; done|]. right. left. split_and!; try done. by left.
  - destruct (Hcold ltac:(by left)) as (ret & stop' & s' & -> & H). exists ret, stop', s'. split; [done|]. destruct H as [(? & ? & ? & ? & ?)|?]; right; [left|by right].
    split_and!; try done. by right.
  - destruct (Hcold ltac:(by right)) as (ret & stop' & s' & -> & H). exists ret, stop', s'. split; [done|]. destruct H as [(? & ? & ? & ? & ?)|?]; right; [left|by right].
    split_and!; try done. by right.
  - eexists _, _, _. split; [reflexivity|]. right. left. split_and!; try done. by right.
  - eexists _, _, _. split; [reflexivity|]. right. left. split_and!; try done. by right.
Qed.

Lemma check_self p : check (Some p) p = false.
Proof. unfold check. apply bool_decide_false. by intros []. Qed.
Lemma check_other p q : p <> q -> check (Some p) q = true.
Proof. intros H. unfold check. apply bool_decide_true. by intros [= ?]. Qed.

Lemma rotate_in (x : ptr) l p : p ∈ x :: l <-> p ∈ l ++ [x].
Proof. rewrite elem_of_app, elem_of_cons, list_elem_of_singleton. tauto. Qed.

(** The first loop, once a page [t] to stop at is known. *)
Lemma hand_hot_loop_stop e X t : forall a b s fuel,
  inv s e (a ++ t :: b) X -> hand_hot s = default t (head a) -> free s (a ++ t :: b) -> (length a <= fuel)%nat ->
  exists ret s' c', hand_hot_loop fuel (Some t) s = Ok (ret, s') /\ inv s' e c' X /\ calm 0 s (a ++ t :: b) s' c' /\
    (ret = true -> 0 < resident_cold_page_count s').
Proof.
  induction a as [|x a IH]; intros b s fuel Hi Hh Hf Hfuel.
  - exists false, s, (t :: b). split_and!; [|done|by eapply calm_refl|done]. destruct fuel; cbn [hand_hot_loop]; by rewrite Hh, check_self.
  - destruct fuel as [|fuel]; [cbn in Hfuel; lia|]. cbn [app head default from_option] in *.
    pose proof (inv_nodup _ _ _ _ Hi) as Hnd. assert (t <> x) as Htx.
    { intros ->. apply NoDup_cons in Hnd as [Hnd _]. apply Hnd, elem_of_app. right. by left. }
    cbn [hand_hot_loop]. rewrite Hh, check_other by done.
    destruct (hand_hot_step_ok s e x (a ++ t :: b) X (Some t) Hi Hh Hf) as (ret & stop & s1 & -> & H). run.
    assert (second x (a ++ t :: b) = default t (head a)) as Hsec by (by destruct a).
    destruct H as [(-> & Hi1 & Hc1 & Hpos)|[(-> & Hi1 & Hc1 & Hh1 & Hstop)|(-> & y & r & Hr & -> & Hi1 & Hc1 & Hh1)]].
    + exists true, s1, (x :: a ++ t :: b). done.
    + assert (stop = Some t) as -> by (destruct Hstop as [[_ ->]| ->]; done).
      apply (inv_rotate s1 e [x] (a ++ t :: b)) in Hi1. rewrite <- app_assoc in Hi1. cbn [app] in Hi1.
      assert (forall p, p ∈ x :: a ++ t :: b <-> p ∈ a ++ t :: b ++ [x]) as Hp.
      { intros p. rewrite rotate_in. by rewrite <- app_assoc. }
      destruct (IH (b ++ [x]) s1 fuel) as (ret & s2 & c2 & -> & Hi2 & Hc2 & Hret); [done|congruence| |cbn in Hfuel; lia|].
      { intros p g Hin. apply (mild_free _ _ _ _ (calm_mild _ _ _ _ _ Hc1) Hf). by apply Hp. }
      exists ret, s2, c2. split_and!; try done. eapply calm_trans0; [exact Hc1|]. eapply calm_perm; [|exact Hc2]. intros p. by rewrite Hp.
    + destruct (IH b s1 fuel) as (ret & s2 & c2 & -> & Hi2 & Hc2 & Hret); [done| | |cbn in Hfuel; lia|].
      { rewrite Hh1, <- Hsec. unfold second. by rewrite Hr. }
      { by apply (mild_free _ _ _ _ (calm_mild _ _ _ _ _ Hc1)). }
      exists ret, s2, c2. split_and!; try done. by eapply calm_trans0.
Qed.

(** The first loop. *)
Lemma hand_hot_loop_ok e X : forall a b s fuel,
  inv s e (a ++ e :: b) X -> hand_hot s = default e (head a) -> free s (a ++ e :: b) -> (2 * length a + length b + 2 <= fuel)%nat ->
  exists ret s' c', hand_hot_loop fuel None s = Ok (ret, s') /\ inv s' e c' X /\ calm 0 s (a ++ e :: b) s' c' /\
    (ret = true -> 0 < resident_cold_page_count s').
Proof.
  induction a as [|x a IH]; intros b s fuel Hi Hh Hf Hfuel; (destruct fuel as [|fuel]; [lia|]); cbn [hand_hot_loop].
  - cbn [app head default from_option] in *. change (check None (hand_hot s)) with true. cbn iota.
    destruct (hand_hot_step_ok s e e b X None Hi Hh Hf) as (ret & stop & s1 & -> & H). run.
    destruct H as [(-> & Hi1 & Hc1 & Hpos)|[(-> & Hi1 & Hc1 & Hh1 & [[? _]| ->])|(-> & y & r & -> & -> & Hi1 & Hc1 & Hh1)]].
    + exists true, s1, (e :: b). done.
    + done.
    + apply (inv_rotate s1 e [e] b) in Hi1.
      destruct (hand_hot_loop_stop e X e b [] s1 fuel) as (ret & s2 & c2 & Hl & Hi2 & Hc2 & Hret); [done|by rewrite Hh1| |cbn in Hfuel; lia|].
      { intros p g Hin. apply (mild_free _ _ _ _ (calm_mild _ _ _ _ _ Hc1) Hf). by apply rotate_in. }
      exists ret, s2, c2. split_and!; try done. eapply calm_trans0; [exact Hc1|]. eapply calm_perm; [|exact Hc2].
      intros p. by rewrite (rotate_in e b).
    + pose proof (inv_nodup _ _ _ _ Hi) as Hnd. pose proof (inv_end _ _ _ _ Hi1). apply NoDup_cons in Hnd as [? _]. done.
  - change (check None (hand_hot s)) with true. cbn iota. cbn [app head default from_option] in *.
    destruct (hand_hot_step_ok s e x (a ++ e :: b) X None Hi Hh Hf) as (ret & stop & s1 & -> & H). run.
    assert (second x (a ++ e :: b) = default e (head a)) as Hsec by (by destruct a).
    assert (forall p, p ∈ x :: a ++ e :: b <-> p ∈ a ++ e :: b ++ [x]) as Hp.
    { intros p. rewrite rotate_in. by rewrite <- app_assoc. }
    destruct H as [(-> & Hi1 & Hc1 & Hpos)|[(-> & Hi1 & Hc1 & Hh1 & Hstop)|(-> & y & r & Hr & -> & Hi1 & Hc1 & Hh1)]].
    + exists true, s1, (x :: a ++ e :: b). done.
    + apply (inv_rotate s1 e [x] (a ++ e :: b)) in Hi1. rewrite <- app_assoc in Hi1. cbn [app] in Hi1.
      pose proof (mild_free _ _ _ _ (calm_mild _ _ _ _ _ Hc1) Hf) as Hf1.
      assert (free s1 (a ++ e :: b ++ [x])) as Hf2 by (intros p g Hin; apply Hf1; by apply Hp).
      assert (exists ret s' c', hand_hot_loop fuel stop s1 = Ok (ret, s') /\ inv s' e c' X /\ calm 0 s1 (a ++ e :: b ++ [x]) s' c' /\
        (ret = true -> 0 < resident_cold_page_count s')) as (ret & s2 & c2 & -> & Hi2 & Hc2 & Hret).
      { destruct Hstop as [[_ ->]| ->].
        - apply IH; [done|congruence|done|]. rewrite length_app. cbn [length] in *. lia.
        - cbn [track]. pose proof (hand_hot_loop_stop e X x (a ++ e :: b) [] s1 fuel) as H. rewrite <- app_assoc in H. cbn [app] in H.
          apply H; [done|rewrite Hh1, Hsec; by destruct a|done|]. rewrite length_app. cbn [length] in *. lia. }
      exists ret, s2, c2. split_and!; try done. eapply calm_trans0; [exact Hc1|]. eapply calm_perm; [|exact Hc2]. intros p. by rewrite Hp.
    + destruct (IH b s1 fuel) as (ret & s2 & c2 & -> & Hi2 & Hc2 & Hret); [done| | |cbn in Hfuel; lia|].
      { rewrite Hh1, <- Hsec. unfold second. by rewrite Hr. }
      { by apply (mild_free _ _ _ _ (calm_mild _ _ _ _ _ Hc1)). }
      exists ret, s2, c2. split_and!; try done. by eapply calm_trans0.
Qed.

(** One visit of the second loop. *)
Lemma forced_step_ok s e x r X :
  inv s e (x :: r) X -> hand_hot s = x -> free s (x :: r) ->
  exists g b s', deref s x = Ok g /\
    (let s := set_hands (next g) (hand_cold s) (hand_test s) s in
     if bool_decide (status g = Hot) then handle_hot s x else Ok (false, s)) = Ok (b, s') /\
    inv s' e (x :: r) X /\ calm 0 s (x :: r) s' (x :: r) /\ hand_hot s' = second x r /\
    (b = true -> 0 < resident_cold_page_count s') /\
    (b = false -> (forall q, q <> x -> heap s' !! q = heap s !! q) /\ refs s' (x :: r) <= refs s (x :: r) /\
       (holds is_hot (heap s) x = true -> holds is_hot (heap s') x = true /\ refs s' (x :: r) = refs s (x :: r) - 1)).
Proof.
  intros Hi Hx Hf. destruct (move_hot s e x r X Hi Hx) as (g & Hg & Hn & Hi1 & Hc1). cbv zeta.
  set (s1 := set_hands (next g) (hand_cold s) (hand_test s) s) in *. exists g. fold s1.
  pose proof (mild_free _ _ _ _ (calm_mild _ _ _ _ _ Hc1) Hf) as Hf1. case_bool_decide as Hst.
  - assert (x <> e) as Hxe by (apply (not_end s e _ _ _ _ Hi Hg); congruence).
    destruct (handle_hot_ok s1 e (x :: r) X x g Hi1 ltac:(by left) Hxe Hg Hst Hf1) as (b & s2 & Hh & Hi2 & Hc2 & Hha & Hq & Hb).
    exists b, s2. rewrite (deref_page_ok _ _ _ Hg), Hh. split_and!; try done; [by eapply calm_trans0|rewrite Hha; exact Hn| |]; (destruct b; [done|]); try done.
    intros _. destruct Hb as (Hr & g' & Hg' & Hs'). change (refs s1 (x :: r)) with (refs s (x :: r)) in Hr. split_and!; [done|lia|].
    intros _. split; [|done]. unfold holds. rewrite Hg'. by apply bool_decide_eq_true.
  - exists false, s1. rewrite (deref_page_ok _ _ _ Hg). split_and!; try done. intros _. split_and!; [done|done|].
    unfold holds. rewrite Hg. cbn. intros H%bool_decide_eq_true. done.
Qed.

(** The second loop ends when there is a hot page. *)
Lemma hand_hot_forced_ok e X : forall fuel a x b s,
  let c := a ++ x :: b in
  inv s e c X -> hand_hot s = default x (head a) -> free s c -> holds is_hot (heap s) x = true ->
  refs s c * Z.of_nat (length c) + Z.of_nat (length a) < Z.of_nat fuel ->
  exists s' c', hand_hot_forced fuel s = Ok s' /\ inv s' e c' X /\ calm 0 s c s' c' /\ 0 < resident_cold_page_count s'.
Proof.
  induction fuel as [|fuel IH]; intros a x b s c Hi Hh Hf Hx Hfuel.
  { pose proof (tally_range refd (heap s) c). unfold refs in Hfuel. nia. }
  cbn [hand_hot_forced]. destruct a as [|y a]; unfold c in *; clear c; cbn [app head default from_option] in *.
  - destruct (forced_step_ok s e x b X Hi Hh Hf) as (g & t & s1 & Hg & Hstep & Hi1 & Hc1 & Hh1 & Ht & Hff). rewrite Hh, Hg. run. cbv zeta in Hstep. rewrite Hstep. run.
    destruct t; [exists s1, (x :: b); by auto|]. destruct (Hff eq_refl) as (_ & _ & Hr). destruct (Hr Hx) as [Hx1 Hr1].
    apply (inv_rotate s1 e [x] b) in Hi1. assert (x :: b ≡ₚ b ++ [x]) as Hperm by apply Permutation_cons_append.
    destruct (IH b x [] s1) as (s2 & c2 & Hl & Hi2 & Hc2 & Hpos); try done.
    + intros p q Hin. apply (mild_free _ _ _ _ (calm_mild _ _ _ _ _ Hc1) Hf). by apply rotate_in.
    + unfold refs in *. rewrite <- (tally_perm _ _ _ _ Hperm), Hr1, <- Hperm. cbn [length] in *. nia.
    + exists s2, c2. split_and!; try done. eapply calm_trans0; [exact Hc1|]. eapply calm_perm; [|exact Hc2]. intros p. by rewrite rotate_in.
  - change (hand_hot s = y) in Hh. destruct (forced_step_ok s e y (a ++ x :: b) X Hi Hh Hf) as (g & t & s1 & Hg & Hstep & Hi1 & Hc1 & Hh1 & Ht & Hff). rewrite Hh, Hg. run. cbv zeta in Hstep. rewrite Hstep. run.
    destruct t; [exists s1, (y :: a ++ x :: b); by auto|]. destruct (Hff eq_refl) as (Hq & Hr & _).
    assert (x <> y) as Hxy. { intros ->. pose proof (inv_nodup _ _ _ _ Hi) as [Hnd _]%NoDup_cons. apply Hnd, elem_of_app. right. by left. }
    apply (inv_rotate s1 e [y] (a ++ x :: b)) in Hi1. assert (y :: a ++ x :: b ≡ₚ (a ++ x :: b) ++ [y]) as Hperm by apply Permutation_cons_append.
    rewrite <- app_assoc in Hi1, Hperm. cbn [app] in Hi1, Hperm.
    destruct (IH a x (b ++ [y]) s1) as (s2 & c2 & Hl & Hi2 & Hc2 & Hpos); try done.
    + rewrite Hh1. by destruct a.
    + intros p q Hin. apply (mild_free _ _ _ _ (calm_mild _ _ _ _ _ Hc1) Hf). by rewrite Hperm.
    + unfold holds. by rewrite Hq.
    + unfold refs in *. rewrite <- (tally_perm _ _ _ _ Hperm), <- Hperm. cbn [length] in *. nia.
    + exists s2, c2. split_and!; try done. eapply calm_trans0; [exact Hc1|]. eapply calm_perm; [|exact Hc2]. intros p. by rewrite Hperm.
Qed.

(** A bound on the fuel the hands need on a ring. *)
Definition enough (s : CacheInner) (c : list ptr) (fuel : nat) : Prop :=
  (refs s c + 2) * Z.of_nat (length c) + 2 <= Z.of_nat fuel.

Lemma hand_split s e c X p : inv s e c X -> p ∈ c -> forall q, q ∈ c -> exists a b, inv s e (a ++ q :: b) X /\ p = default q (head a) /\ c ≡ₚ a ++ q :: b.
Proof.
  intros Hi Hp q Hq. destruct (inv_split _ _ _ _ p Hi Hp) as (r & Hr & Hperm). rewrite Hperm in Hq.
  apply elem_of_cons in Hq as [->|(a & b & ->)%list_elem_of_split].
  - exists [], r. done.
  - exists (p :: a), b. done.
Qed.

Lemma sub_length (c c' : list ptr) : NoDup c' -> (forall p, p ∈ c' -> p ∈ c) -> (length c' <= length c)%nat.
Proof. intros Hnd Hs. apply NoDup_incl_length; [by apply NoDup_ListNoDup|]. intros p. rewrite <- !list_elem_of_In. apply Hs. Qed.

Lemma calm_enough n s c s' c' fuel : NoDup c' -> calm n s c s' c' -> enough s c fuel -> enough s' c' fuel.
Proof.
  intros Hnd Hc. unfold enough. pose proof (mild_refs _ _ _ _ Hnd (calm_mild _ _ _ _ _ Hc)) as Hr.
  pose proof (sub_length c c' Hnd (mild_sub _ _ _ _ (calm_mild _ _ _ _ _ Hc))). pose proof (tally_range refd (heap s') c'). unfold refs in *. nia.
Qed.

(** [run_hand_hot] ends, and leaves a cold page if one is asked for. *)
Lemma run_hand_hot_ok s e c X fuel required :
  inv s e c X -> free s c -> enough s c fuel -> (required = true -> 0 < resident_page_count s) ->
  exists s' c', run_hand_hot fuel s required = Ok s' /\ inv s' e c' X /\ calm 0 s c s' c' /\
    (required = true -> 0 < resident_cold_page_count s').
Proof.
  intros Hi Hf He Hreq. pose proof (tally_range refd (heap s) c) as Hrr. unfold enough, refs in He.
  destruct (hand_split s e c X (hand_hot s) Hi (inv_hand_hot _ _ _ _ Hi) e (inv_end _ _ _ _ Hi)) as (a & b & Hi0 & Hh & Hperm).
  destruct (hand_hot_loop_ok e X a b s fuel) as (ret & s1 & c1 & Hl & Hi1 & Hc1 & Hret); [done|done| | |].
  { intros p g. rewrite <- Hperm. apply Hf. }
  { apply Permutation_length in Hperm. rewrite length_app in Hperm. cbn [length] in Hperm. nia. }
  apply (calm_perm _ _ _ c) in Hc1; [|intros p; by rewrite Hperm]. unfold run_hand_hot. rewrite Hl. run.
  destruct ret; [exists s1, c1; by auto|]. pose proof (mild_free _ _ _ _ (calm_mild _ _ _ _ _ Hc1) Hf) as Hf1.
  pose proof (inv_nodup _ _ _ _ Hi1) as Hnd1. pose proof (calm_enough _ _ _ _ _ _ Hnd1 Hc1 He) as He1.
  destruct (resident_bounds _ _ _ _ Hi1) as (B1 & B2 & _).
  assert (exists s2 c2, (if required && (resident_cold_page_count s1 =? 0) && (0 <? hot_page_count s1) then hand_hot_forced fuel s1 else Ok s1) = Ok s2 /\
    inv s2 e c2 X /\ calm 0 s1 c1 s2 c2 /\ (required = true -> 0 < resident_cold_page_count s2)) as (s2 & c2 & -> & Hi2 & Hc2 & Hpos).
  { destruct (required && _ && _) eqn:E.
    - rewrite !andb_true_iff, Z.ltb_lt in E. destruct E as [_ Hhot]. rewrite (inv_hot _ _ _ _ Hi1) in Hhot.
      apply tally_exists in Hhot as (x & g & Hx & Hg & Hgh).
      destruct (hand_split s1 e c1 X (hand_hot s1) Hi1 (inv_hand_hot _ _ _ _ Hi1) x Hx) as (a1 & b1 & Hi1' & Hh1 & Hperm1).
      destruct (hand_hot_forced_ok e X fuel a1 x b1 s1) as (s2 & c2 & -> & Hi2 & Hc2 & Hpos); try done.
      + intros p q. rewrite <- Hperm1. apply Hf1.
      + by rewrite (holds_lookup _ _ _ _ Hg).
      + unfold refs. rewrite <- (tally_perm _ _ _ _ Hperm1), <- Hperm1. unfold enough, refs in He1.
        assert (length a1 <= length c1)%nat by (rewrite Hperm1, length_app; lia). pose proof (tally_range refd (heap s1) c1). nia.
      + exists s2, c2. split_and!; try done. eapply calm_perm; [|exact Hc2]. intros p. by rewrite Hperm1.
    - exists s1, c1. split_and!; try done; [by eapply calm_refl|]. intros ->. cbn [andb] in E. specialize (Hreq eq_refl).
      rewrite <- (calm_resident _ _ _ _ _ Hc1) in Hreq. unfold resident_page_count in Hreq.
      apply andb_false_iff in E as [E|E]; [apply Z.eqb_neq in E|apply Z.ltb_ge in E]; lia. }
  run. rewrite debug_assert_true; [run; exists s2, c2; split_and!; try done; by eapply calm_trans0|].
  destruct required; [|done]. cbn [negb orb]. apply Z.ltb_lt. by apply Hpos.
Qed.

End ops.
End clock_inv.
