(* ===== verification/PageReplace.v ===== *)
(** * The clock of the page cache: replacing a page

    The test hand drops a page that has no data; the cold hand takes the buffer
    of a page that was not used.  The lemmas follow the path of a fault: getting
    a buffer, and giving it to a page that is new or comes back. *)
From S2P Require Import Prelude PageLock PageCache PageClock PageHands.

Module clock_replace.
Import page internal cache_inner clock_list clock_inv.

Section replace.
Context {P : BuildProfile}.

(** ** The test hand *)

(** The pages the test hand drops. *)
Definition is_old (g : Page_) : bool := bool_decide (status g = Cold \/ status g = Test) && negb (is_resident g).

Lemma hand_test_step_ok s e x r X :
  inv s e (x :: r) X -> hand_test s = x ->
  exists b s', hand_test_step s = Ok (b, s') /\
   ((b = true /\ inv s' e r X /\ calm 0 s (x :: r) s' r /\ non_resident_page_count s' = non_resident_page_count s - 1) \/
    (b = false /\ inv s' e (x :: r) X /\ calm 0 s (x :: r) s' (x :: r) /\ hand_test s' = second x r /\
       (forall q, q <> x -> heap s' !! q = heap s !! q) /\ holds is_old (heap s) x = false /\
       non_resident_page_count s' = non_resident_page_count s)).
Proof.
  intros Hi Hx. destruct (nxt_lookup _ _ _ (ring_next _ _ _ (inv_ring _ _ _ _ Hi))) as (g & Hg & Hn).
  destruct (hands_ok s e (x :: r) X (hand_hot s) (hand_cold s) (second x r) Hi) as [Hi1 Hc1]; [apply Hi|apply Hi|apply second_in|].
  set (s1 := set_hands (hand_hot s) (hand_cold s) (second x r) s) in *.
  unfold hand_test_step. rewrite Hx, (deref_page_ok _ _ _ Hg). run. rewrite Hn. fold s1.
  assert (status g = Cold \/ status g = Test -> exists b s',
    (s ← modify s1 x (set_status Cold); if is_resident g then Ok (false, s) else s ← remove_page s x (KCold false); Ok (true, s)) = Ok (b, s') /\
    ((b = true /\ inv s' e r X /\ calm 0 s (x :: r) s' r /\ non_resident_page_count s' = non_resident_page_count s - 1) \/
     (b = false /\ inv s' e (x :: r) X /\ calm 0 s (x :: r) s' (x :: r) /\ hand_test s' = second x r /\
       (forall q, q <> x -> heap s' !! q = heap s !! q) /\ holds is_old (heap s) x = false /\
       non_resident_page_count s' = non_resident_page_count s))) as Hcold.
  { intros Hst. destruct (end_test_ok s1 e (x :: r) X x g Hi1 ltac:(by left) Hg Hst) as (Hxe & Hmod & Hi2 & Hc2). rewrite Hmod. run.
    destruct (is_resident g) eqn:Hres.
    - eexists _, _. split; [reflexivity|]. right. split_and!; try done; [eapply calm_trans0; [done|auto]|..].
      + intros q Hq. fields. by rewrite lookup_insert_ne.
      + rewrite (holds_lookup _ _ _ _ Hg). unfold is_old. by rewrite Hres, andb_false_r.
    - destruct r as [|y r]; [by pose proof (inv_end _ _ _ _ Hi) as ?%list_elem_of_singleton|].
      destruct (remove_ghost_ok s1 e x y r X g Hi1 Hg Hres Hst) as (s3 & Hrem & Hi3 & Hc3 & _ & _ & _ & Hn3). rewrite Hmod, bind_Ok in Hrem. rewrite Hrem. run.
      eexists _, _. split; [reflexivity|]. left. split_and!; try done. by eapply calm_trans0. }
  assert (status g <> Cold -> status g <> Test -> holds is_old (heap s) x = false) as Hno.
  { intros H1 H2. rewrite (holds_lookup _ _ _ _ Hg). unfold is_old. by rewrite bool_decide_false by (by intros [?|?]). }
  destruct (status g) eqn:Hst; [|by apply Hcold; auto|by apply Hcold; auto|..];
    (eexists _, _; split; [reflexivity|]; right; split_and!; try done; by apply Hno).
Qed.

Lemma hand_test_loop_ok e X : forall a x v s fuel,
  inv s e (x :: a ++ v) X -> hand_test s = x -> (length a < fuel)%nat ->
  exists s' c', hand_test_loop fuel (default x (head v)) s = Ok s' /\ inv s' e c' X /\ calm 0 s (x :: a ++ v) s' c' /\
    (0 < tally is_old (heap s) (x :: a) -> non_resident_page_count s' = non_resident_page_count s - 1).
Proof.
  induction a as [|y a IH]; intros x v s fuel Hi Hx Hfuel; (destruct fuel as [|fuel]; [cbn in Hfuel; lia|]); cbn [hand_test_loop].
  - cbn [app] in *. destruct (hand_test_step_ok s e x v X Hi Hx) as (b & s1 & -> & H). run.
    destruct H as [(-> & Hi1 & Hc1 & Hn)|(-> & Hi1 & Hc1 & Hh1 & Hq & Hold & Hn)].
    + exists s1, v. done.
    + rewrite Hh1. change (second x v) with (default x (head v)). rewrite Nat.eqb_refl. cbn [orb]. exists s1, (x :: v). split_and!; try done.
      rewrite tally_cons, Hold. intros Ht. done.
  - cbn [app] in *. destruct (hand_test_step_ok s e x (y :: a ++ v) X Hi Hx) as (b & s1 & -> & H). run.
    destruct H as [(-> & Hi1 & Hc1 & Hn)|(-> & Hi1 & Hc1 & Hh1 & Hq & Hold & Hn)].
    + exists s1, (y :: a ++ v). done.
    + rewrite Hh1. change (second x (y :: a ++ v)) with y. pose proof (inv_nodup _ _ _ _ Hi) as Hnd.
      assert (y <> default x (head v)) as Hne.
      { apply NoDup_cons in Hnd as [Hnx Hnd]. apply NoDup_cons in Hnd as [Hny _]. destruct v as [|z v]; cbn.
        - intros ->. apply Hnx. by left.
        - intros ->. apply Hny, elem_of_app. right. by left. }
      rewrite (proj2 (Nat.eqb_neq _ _) Hne). cbn [orb]. apply (inv_rotate s1 e [x] (y :: a ++ v)) in Hi1. cbn [app] in Hi1. rewrite <- app_assoc in Hi1.
      destruct (IH y (v ++ [x]) s1 fuel Hi1 Hh1) as (s2 & c2 & Hl & Hi2 & Hc2 & Hn2); [cbn in Hfuel; lia|].
      exists s2, c2. split_and!; [|done| |].
      * rewrite <- Hl. f_equal. by destruct v.
      * eapply calm_trans0; [exact Hc1|]. eapply calm_perm; [|exact Hc2]. intros p. rewrite (rotate_in x). cbn [app]. by rewrite <- app_assoc.
      * rewrite tally_cons, Hold. intros Ht. rewrite Hn2, Hn; [done|]. rewrite (tally_ext _ (heap s)); [cbn in Ht; lia|].
        intros p Hp. unfold holds. rewrite Hq; [done|]. intros ->. apply NoDup_cons in Hnd as [Hnx _]. apply Hnx.
        rewrite app_comm_cons. apply elem_of_app. by left.
Qed.

(** [run_hand_test] ends, and drops a page if one can be dropped. *)
Lemma run_hand_test_ok s e c X fuel :
  inv s e c X -> (length c <= fuel)%nat ->
  exists s' c', run_hand_test fuel s = Ok s' /\ inv s' e c' X /\ calm 0 s c s' c' /\
    (0 < tally is_old (heap s) c -> non_resident_page_count s' = non_resident_page_count s - 1).
Proof.
  intros Hi Hf. destruct (inv_split s e c X (hand_test s) Hi (inv_hand_test _ _ _ _ Hi)) as (r & Hi' & Hperm).
  destruct (hand_test_loop_ok e X r (hand_test s) [] s fuel) as (s' & c' & Hl & Hi2 & Hc2 & Hn); [by rewrite app_nil_r|done| |].
  { apply Permutation_length in Hperm. cbn in Hperm. lia. }
  exists s', c'. split_and!; try done; [|by rewrite Hperm]. rewrite app_nil_r in Hc2. eapply calm_perm; [|exact Hc2]. intros p. by rewrite Hperm.
Qed.

(** ** The cold hand *)

Lemma move_to_tail s e x r X :
  inv s e (x :: r) X -> x <> e ->
  exists s1 s' c', remove_page_from_list s x = Ok s1 /\ add_page_to_list s1 x = Ok s' /\ inv s' e c' X /\ calm 0 s (x :: r) s' c' /\
    resident_cold_page_count s' = resident_cold_page_count s.
Proof.
  intros Hi Hxe. destruct r as [|y r]; [by pose proof (inv_end _ _ _ _ Hi) as ?%list_elem_of_singleton|].
  pose proof (inv_ring _ _ _ _ Hi) as Hr. pose proof (ring_nodup _ _ Hr) as Hnd. apply NoDup_cons in Hnd as [Hx Hnd].
  assert (e ∈ y :: r) as He by (pose proof (inv_end _ _ _ _ Hi) as H; apply elem_of_cons in H as [->|]; done).
  destruct (remove_from_list_ok s e x y r Hr He (inv_pages _ _ _ _ Hi)) as (h & Hrem & Hring & Hnxt & Hrel & Hout).
  destruct (inv_lookup _ _ _ _ x Hi ltac:(by left)) as [g Hg]. destruct (relinked_lookup _ _ _ _ Hrel Hg) as (g' & Hg' & _).
  apply list_elem_of_split in He as (a & b & Hab). rewrite Hab in Hring. apply ring_rotate in Hring. cbn [app] in Hring.
  assert (y :: r ≡ₚ e :: b ++ a) as Hperm by (rewrite Hab; apply (Permutation_app_comm a (e :: b))).
  set (s1 := set_heap h (set_hands (moved x y (hand_hot s)) (moved x y (hand_cold s)) (moved x y (hand_test s)) (set_pages (moved x y (pages s)) s))) in *.
  destruct (add_to_list_ok s1 e x (b ++ a) g' Hring) as (h' & q & Hadd & Hring' & Hnxt' & Hrel' & Hout'); [by rewrite <- Hperm|done|done|].
  exists s1, (set_heap h' (set_pages q s1)), (x :: e :: b ++ a). split; [done|]. split; [done|].
  assert (relinked (heap s) h') as Hrel2 by (by eapply relinked_trans).
  assert (x :: y :: r ≡ₚ x :: e :: b ++ a) as Hperm' by (by rewrite Hperm).
  assert (forall p, p ∈ x :: y :: r -> moved x y p ∈ x :: e :: b ++ a) as Hmv.
  { intros p Hp. right. rewrite <- Hperm. by apply moved_in. }
  split_and!; [| |done].
  - apply (inv_relink s e (x :: y :: r) X (x :: e :: b ++ a) X h' q _ _ _ (hot_page_count s) (resident_cold_page_count s) (non_resident_page_count s));
      try done; try (rewrite <- Hperm'; apply Hi); try (apply Hmv; apply Hi).
    + intros p. by rewrite Hperm'.
    + intros p gp. rewrite <- Hperm'. apply (inv_ok _ _ _ _ Hi).
    + intros p. rewrite <- Hperm'. apply (inv_out _ _ _ _ Hi).
  - apply (calm_same 0 s _ e _ _ X); try done; [intros p; by rewrite Hperm'| |cbn; lia].
    intros p Hp. change (h' !! p = heap s !! p). rewrite Hout' by (by rewrite <- Hperm'). by apply Hout.
Qed.

(** A page with data stays. *)
Lemma calm_stays n s s' e c c' X x g :
  inv s e c X -> inv s' e c' X -> calm n s c s' c' -> x ∈ c -> heap s !! x = Some g -> is_resident g = true -> x <> e -> x ∈ c'.
Proof.
  intros Hi Hi' Hc Hx Hg Hres Hxe. destruct (inv_map _ _ _ _ Hi x g ltac:(by left) Hg) as (k & Hk & Hm).
  pose proof (calm_cached _ _ _ _ _ Hc k) as Hck. unfold cached in Hck. rewrite Hm in Hck. cbn in Hck. rewrite Hg in Hck. cbn in Hck.
  unfold is_resident in Hres. destruct (data g) as [d|]; [|done]. destruct (page_map s' !! k) as [p|] eqn:Hp; [|done].
  destruct (inv_page _ _ _ _ Hi' k p Hp) as (Hin & g' & Hg' & Hk').
  destruct Hin as [[Hin _]|Hin].
  - destruct (mild_page _ _ _ _ (calm_mild _ _ _ _ _ Hc) p g' Hin Hg') as (g0 & Hg0 & Hk0 & _).
    pose proof (mild_sub _ _ _ _ (calm_mild _ _ _ _ _ Hc) p Hin) as Hpc. assert (p <> e) as Hpe.
    { intros ->. destruct (inv_end_page _ _ _ _ Hi') as (ge & Hge & Hse & _). destruct (inv_page _ _ _ _ Hi' k e Hp) as ([[_ ?]|Hbad] & _); [done|].
      destruct (inv_out _ _ _ _ Hi' e Hbad) as [Hbad' _]. by apply Hbad', (inv_end _ _ _ _ Hi'). }
    destruct (inv_map _ _ _ _ Hi p g0 ltac:(by left) Hg0) as (k0 & Hk0' & Hm0). congruence.
  - destruct (inv_out _ _ _ _ Hi p Hin) as [Hpc _]. rewrite (mild_out _ _ _ _ (calm_mild _ _ _ _ _ Hc) p Hpc) in Hg'.
    destruct (inv_map _ _ _ _ Hi p g' ltac:(by right) Hg') as (k0 & Hk0' & Hm0). congruence.
Qed.

Lemma cold_elem s e c X x g : inv s e c X -> x ∈ c -> heap s !! x = Some g -> is_cold g = true -> 0 < resident_cold_page_count s.
Proof. intros Hi Hx Hg Hc. rewrite (inv_cold _ _ _ _ Hi). pose proof (tally_elem is_cold _ _ _ _ Hx Hg) as H. rewrite Hc in H. cbn in H. lia. Qed.

Lemma spare_page_ok s e c X x g fuel :
  inv s e c X -> x ∈ c -> heap s !! x = Some g -> is_cold g = true -> free s c -> enough s c fuel ->
  exists s' c', spare_page fuel s x (status g) = Ok s' /\ inv s' e c' X /\ calm 0 s c s' c' /\ 0 < resident_cold_page_count s'.
Proof.
  intros Hi Hx Hg Hcold Hf He. pose proof Hcold as Hst. unfold is_cold in Hst. apply andb_true_iff in Hst as [Hst%bool_decide_eq_true Hres].
  assert (x <> e) as Hxe by (apply (not_end s e _ _ _ _ Hi Hg); destruct Hst; congruence).
  pose proof (cold_elem _ _ _ _ _ _ Hi Hx Hg Hcold) as Hpos. destruct (resident_bounds _ _ _ _ Hi) as (B1 & B2 & B3).
  assert (exists s1 c1, (if bool_decide (status g = Test) then
         s ← modify s x (set_status Hot); s ← update_page_count s (KCold true) Dec; s ← update_page_count s KHot Inc; run_hand_hot fuel s true
       else Ok s) = Ok s1 /\ inv s1 e c1 X /\ calm 0 s c s1 c1 /\ 0 < resident_cold_page_count s1) as (s1 & c1 & Hs1 & Hi1 & Hc1 & Hpos1).
  { case_bool_decide as Ht; [|exists s, c; split_and!; try done; by eapply calm_refl].
    rewrite (modify_ok _ _ _ _ Hg). run. unfold update_page_count. fields. rewrite dec_ok by lia. run. fields. rewrite inc_ok by lia. run.
    destruct (touch_ok s e c X x g (set_status Hot g) (hot_page_count s + 1) (resident_cold_page_count s - 1)) as [Hi1 Hc1]; try done; try congruence.
    - pose proof (inv_ok _ _ _ _ Hi x g Hx Hxe Hg) as (Hsc & _ & Hl). done.
    - by apply resident_tidy.
    - assert (is_hot g = false) as -> by (unfold is_hot; by rewrite Ht). change (is_hot (set_status Hot g)) with true. cbn. lia.
    - rewrite Hcold. change (is_cold (set_status Hot g)) with false. cbn. lia.
    - match type of Hi1 with inv ?x _ _ _ => set (s1 := x) in * end.
      destruct (run_hand_hot_ok s1 e c X fuel true Hi1) as (s2 & c2 & Hr & Hi2 & Hc2 & Hp2).
      + by apply (mild_free _ _ _ _ (calm_mild _ _ _ _ _ Hc1)).
      + eapply calm_enough; [by apply (inv_nodup _ _ _ _ Hi)|exact Hc1|done].
      + intros _. rewrite (calm_resident _ _ _ _ _ Hc1). unfold resident_page_count. lia.
      + exists s2, c2. split_and!; [exact Hr|done|by eapply calm_trans0|by apply Hp2]. }
  unfold spare_page. rewrite Hs1. run.
  pose proof (calm_stays _ _ _ _ _ _ _ _ _ Hi Hi1 Hc1 Hx Hg Hres Hxe) as Hx1.
  destruct (inv_split _ _ _ _ x Hi1 Hx1) as (r & Hir & Hperm).
  destruct (move_to_tail s1 e x r X Hir Hxe) as (s2 & s3 & c3 & Hrem & Hadd & Hi3 & Hc3 & Hn3). rewrite Hrem. run. rewrite Hadd.
  exists s3, c3. split_and!; try done.
  - eapply calm_trans0; [exact Hc1|]. eapply calm_perm; [|exact Hc3]. intros p. by rewrite Hperm.
  - by rewrite Hn3.
Qed.

(** No page that stays loses its tidiness. *)
Definition keeps_tidy (s s' : CacheInner) (c' : list ptr) : Prop :=
  forall p g', p ∈ c' -> heap s' !! p = Some g' -> exists g, heap s !! p = Some g /\ (tidy g -> tidy g').

Lemma calm_tidy n s c s' c' : calm n s c s' c' -> keeps_tidy s s' c'.
Proof. intros H p g' Hp Hg'. destruct (calm_data _ _ _ _ _ H p g' Hp Hg') as (g & Hg & _ & _ & Ht). by exists g. Qed.

Lemma keeps_tidy_trans s1 s2 c2 s3 c3 : keeps_tidy s1 s2 c2 -> keeps_tidy s2 s3 c3 -> (forall p, p ∈ c3 -> p ∈ c2) -> keeps_tidy s1 s3 c3.
Proof.
  intros H1 H2 Hs p g3 Hp Hg3. destruct (H2 p g3 Hp Hg3) as (g2 & Hg2 & T2). destruct (H1 p g2 (Hs p Hp) Hg2) as (g1 & Hg1 & T1). exists g1. auto.
Qed.

(** The page of key [k] gave its content [d] away. *)
Record evicted (s : CacheInner) (c : list ptr) (s' : CacheInner) (c' : list ptr) (k : nat * Z) (d : Page) : Prop := {
  ev_mild : mild s c s' c';
  ev_held : cached s k = Some d;
  ev_gone : cached s' k = None;
  ev_other k' : k' <> k -> cached s' k' = cached s k';
  ev_resident : resident_page_count s' = resident_page_count s - 1
}.

Lemma evicted_calm s c s1 c1 s2 c2 k d : evicted s c s1 c1 k d -> calm 0 s1 c1 s2 c2 -> evicted s c s2 c2 k d.
Proof.
  intros [] Hc. split; try done.
  - eapply mild_trans; [done|apply Hc].
  - by rewrite (calm_cached _ _ _ _ _ Hc).
  - intros k' Hk'. rewrite (calm_cached _ _ _ _ _ Hc). auto.
  - by rewrite (calm_resident _ _ _ _ _ Hc).
Qed.

Lemma calm_evicted n s c s1 c1 s2 c2 k d : calm n s c s1 c1 -> evicted s1 c1 s2 c2 k d -> evicted s c s2 c2 k d.
Proof.
  intros Hc []. split; try done.
  - eapply mild_trans; [apply Hc|done].
  - by rewrite <- (calm_cached _ _ _ _ _ Hc).
  - intros k' Hk'. rewrite <- (calm_cached _ _ _ _ _ Hc). auto.
  - by rewrite <- (calm_resident _ _ _ _ _ Hc).
Qed.

(** Taking the data of a page. *)
Lemma take_data_ok s e c X x g k d :
  inv s e c X -> x ∈ c -> x <> e -> heap s !! x = Some g -> is_cold g = true -> data g = Some d -> key g = Some k -> refd g = false ->
  let g' := set_data None (set_lock page_lock.MIN_EXCLUSIVE g) in
  let s' := set_counts (hot_page_count s) (resident_cold_page_count s - 1) (non_resident_page_count s + 1) (set_heap (<[x := g']> (heap s)) s) in
  inv s' e c X /\ evicted s c s' c k d /\ 0 < tally is_old (heap s') c.
Proof.
  intros Hi Hx Hxe Hg Hcold Hd Hk Href g' s'.
  pose proof (inv_ok _ _ _ _ Hi x g Hx Hxe Hg) as Hok. pose proof Hok as (Hsc & Hst0 & _).
  pose proof Hcold as Hst. unfold is_cold in Hst. apply andb_true_iff in Hst as [Hst%bool_decide_eq_true Hres].
  destruct (kinds g Hok) as [Hk1 Hk2]. rewrite Hres in Hk1, Hk2. cbn [b2z] in Hk1, Hk2.
  assert (page_ok g') as Hok'.
  { split; [done|]. split; [|intros _; cbn; lia]. cbn [status set_data set_lock g']. by destruct Hst as [-> | ->]. }
  assert (is_hot g' = is_hot g) as Hh' by done. destruct (kinds g' Hok') as [Hk1' Hk2'].
  assert (is_resident g' = false) as Hr' by done. rewrite Hr' in Hk1', Hk2'. rewrite Hh' in Hk1'. cbn [b2z] in Hk1', Hk2'.
  destruct (inv_map _ _ _ _ Hi x g ltac:(by left) Hg) as (k0 & Hk0 & Hm). rewrite Hk in Hk0. injection Hk0 as <-.
  assert (inv s' e c X) as Hi'.
  { apply (inv_update s e c X x g g'); try done; clearbody g'; rewrite ?Hh'; lia. }
  split; [done|]. split; [|].
  - split; unfold s'; fields.
    + split; fields; try done.
      * intros p Hp. rewrite lookup_insert_ne; [done|by intros ->].
      * intros p gp Hp Hgp _. split; [done|]. destruct (decide (x = p)) as [<-|]; [rewrite lookup_insert_eq; by eexists|rewrite lookup_insert_ne by done; by eexists].
      * intros p gp Hp. destruct (decide (x = p)) as [<-|].
        -- rewrite lookup_insert_eq. intros [= <-]. exists g. split_and!; try done. right. split_and!; done.
        -- rewrite lookup_insert_ne by done. intros Hgp. exists gp. split_and!; try done. by left.
    + unfold cached. rewrite Hm. cbn. by rewrite Hg.
    + unfold cached. fields. rewrite Hm. cbn. by rewrite lookup_insert_eq.
    + intros k' Hk'. unfold cached. fields. destruct (page_map s !! k') as [p|] eqn:Hp; [|done]. cbn. rewrite lookup_insert_ne; [done|].
      intros <-. destruct (inv_page _ _ _ _ Hi k' x Hp) as (_ & gx & Hgx & Hkx). congruence.
    + unfold resident_page_count. fields. lia.
  - unfold s'. fields. pose proof (tally_elem is_old (<[x := g']> (heap s)) c x g' Hx (lookup_insert_eq _ _ _)) as Ht.
    assert (is_old g' = true) as Hold by (unfold is_old; by rewrite bool_decide_true). rewrite Hold in Ht. cbn in Ht. lia.
Qed.

(** [evict_page] of a page that has just been locked. *)
Lemma evict_page_ok s e c X x g k d fuel :
  inv s e c X -> x ∈ c -> heap s !! x = Some g -> is_cold g = true -> data g = Some d -> key g = Some k -> refd g = false ->
  non_resident_page_count s <= max_non_resident (options s) -> (length c <= fuel)%nat ->
  let sl := set_heap (<[x := set_lock page_lock.MIN_EXCLUSIVE g]> (heap s)) s in
  exists s' c', evict_page fuel sl x = Ok (mkDonorPage k.2 k.1, d, s') /\ inv s' e c' X /\ evicted s c s' c' k d /\
    keeps_tidy s s' c' /\ non_resident_page_count s' <= max_non_resident (options s).
Proof.
  intros Hi Hx Hg Hcold Hd Hk Href Hnr Hfuel sl.
  pose proof Hcold as Hst. unfold is_cold in Hst. apply andb_true_iff in Hst as [Hst%bool_decide_eq_true Hres].
  assert (x <> e) as Hxe by (apply (not_end s e _ _ _ _ Hi Hg); destruct Hst; congruence).
  destruct (take_data_ok s e c X x g k d Hi Hx Hxe Hg Hcold Hd Hk Href) as (Hi1 & Hev & Hold).
  match type of Hi1 with inv ?x _ _ _ => set (s1 := x) in * end. set (g' := set_data None (set_lock page_lock.MIN_EXCLUSIVE g)) in *.
  pose proof (cold_elem _ _ _ _ _ _ Hi Hx Hg Hcold) as Hpos. destruct (resident_bounds _ _ _ _ Hi) as (B1 & B2 & B3).
  assert (exists sc, scope g = Some sc /\ k = (sc, id g)) as (sc & Hsc & ->).
  { unfold key in Hk. destruct (scope g); [|done]. cbn in Hk. eexists. split; [done|]. congruence. }
  unfold evict_page. rewrite (deref_page_ok sl x _ (lookup_insert_eq _ _ _)). run.
  rewrite (modify_ok sl x _ _ (lookup_insert_eq _ _ _)). run. change (data (set_lock page_lock.MIN_EXCLUSIVE g)) with (data g). rewrite Hd. run.
  change (scope (set_lock page_lock.MIN_EXCLUSIVE g)) with (scope g). rewrite Hsc. run. change (id (set_lock page_lock.MIN_EXCLUSIVE g)) with (id g).
  set (s0 := set_heap _ sl). assert (s0 = set_heap (<[x := g']> (heap s)) s) as Hs0 by (unfold s0, sl; fields; by rewrite insert_insert_eq).
  rewrite Hs0. clear s0 Hs0. change (status (set_lock page_lock.MIN_EXCLUSIVE g)) with (status g).
  case_bool_decide as Ht.
  - unfold update_page_count. fields. rewrite dec_ok by lia. run. fields. rewrite inc_ok by lia. run.
    match goal with |- context [run_hand_test fuel ?t] => change t with s1 end.
    assert (keeps_tidy s s1 c) as Ht1.
    { intros p gp Hp. unfold s1. fields. destruct (decide (x = p)) as [<-|]; [rewrite lookup_insert_eq; intros [= <-]; exists g; split; [done|]; intros _ _; by left|].
      rewrite lookup_insert_ne by done. intros Hgp. by exists gp. }
    rewrite debug_assert_true by (apply Z.leb_le; unfold s1; fields; lia). run.
    change (max_non_resident (options s1)) with (max_non_resident (options s)). change (non_resident_page_count s1) with (non_resident_page_count s + 1).
    destruct (Z.ltb_spec (max_non_resident (options s)) (non_resident_page_count s + 1)).
    + destruct (run_hand_test_ok s1 e c X fuel Hi1 Hfuel) as (s2 & c2 & -> & Hi2 & Hc2 & Hn). run.
      specialize (Hn Hold). change (non_resident_page_count s1) with (non_resident_page_count s + 1) in Hn.
      rewrite (mild_options _ _ _ _ (calm_mild _ _ _ _ _ Hc2)). change (options s1) with (options s).
      rewrite debug_assert_true by (apply Z.eqb_eq; lia). run. exists s2, c2. split_and!; try done; [by eapply evicted_calm| |lia].
      eapply keeps_tidy_trans; [exact Ht1|by eapply calm_tidy|apply (mild_sub _ _ _ _ (calm_mild _ _ _ _ _ Hc2))].
    + exists s1, c. split_and!; try done.
  - assert (status g = Cold) as Hc by (by destruct Hst).
    destruct (inv_split _ _ _ _ x Hi1 Hx) as (r & Hir & Hperm). destruct r as [|y r]; [by pose proof (inv_end _ _ _ _ Hir) as ?%list_elem_of_singleton|].
    destruct (remove_page_ok (set_heap (<[x := g']> (heap s)) s) e x y r X g' (KCold true) (hot_page_count s) (resident_cold_page_count s - 1)
      (non_resident_page_count s + 1) Hir Hxe (lookup_insert_eq _ _ _)) as (s2 & Hrem & Hi2 & Hc2 & _ & _ & _ & Hn2); [done|by cbn; rewrite Hc| |].
    { intros s2 H1 H2 H3. unfold update_page_count. cbv zeta. rewrite H1, H2, H3. fields. rewrite dec_ok by lia. run. do 2 f_equal. lia. }
    rewrite Hrem. run. exists s2, (y :: r). split_and!; try done; [| |lia].
    + eapply evicted_calm; [exact Hev|]. eapply calm_perm; [|exact Hc2]. intros p. by rewrite Hperm.
    + intros p gp Hp Hgp. destruct (calm_tidy _ _ _ _ _ Hc2 p gp Hp Hgp) as (g1 & Hg1 & T1). fields.
      pose proof (inv_nodup _ _ _ _ Hir) as [Hxr _]%NoDup_cons. rewrite lookup_insert_ne in Hg1 by (by intros ->). by exists g1.
Qed.

(** One visit of the cold hand. *)
Lemma hand_cold_step_ok s e x r X fuel :
  inv s e (x :: r) X -> hand_cold s = x -> free s (x :: r) -> enough s (x :: r) fuel -> 0 < resident_cold_page_count s ->
  0 <= hand_cold_cost s < 2 ^ 63 -> non_resident_page_count s <= max_non_resident (options s) ->
  exists o s' c', hand_cold_step fuel s = Ok (o, s') /\ inv s' e c' X /\
    match o with
    | Some (donor, d) => evicted s (x :: r) s' c' (donor_scope donor, donor_id donor) d /\ keeps_tidy s s' c' /\ non_resident_page_count s' <= max_non_resident (options s)
    | None => calm 1 s (x :: r) s' c' /\ 0 < resident_cold_page_count s' /\
        (holds is_cold (heap s) x = false /\ c' = x :: r /\ hand_cold s' = second x r /\ heap s' = heap s \/ refs s' c' < refs s (x :: r))
    end.
Proof.
  intros Hi Hx Hf He Hpos Hcost Hnr. destruct (nxt_lookup _ _ _ (ring_next _ _ _ (inv_ring _ _ _ _ Hi))) as (g & Hg & Hn).
  set (s1 := set_hands (hand_hot s) (second x r) (hand_test s) (set_costs (hand_cold_cost s + 1) (max_hand_cold_cost s) s)).
  assert (inv s1 e (x :: r) X) as Hi1 by (apply inv_hands; [by apply inv_costs|apply Hi|apply second_in|apply Hi]).
  assert (calm 1 s (x :: r) s1 (x :: r)) as Hc1 by (apply (calm_same 1 s s1 e _ _ X); done).
  unfold hand_cold_step. rewrite add_u64_ok by (unfold is_u64, U64; lia). run. fields.
  change (deref _ (hand_cold s)) with (deref s (hand_cold s)). rewrite Hx, (deref_page_ok _ _ _ Hg). run. rewrite Hn.
  match goal with |- context [modify ?t x (set_refd false)] => change t with s1 end.
  change (bool_decide (status g = Cold \/ status g = Test) && is_resident g) with (is_cold g). destruct (is_cold g) eqn:Hcold; cycle 1.
  { exists None, s1, (x :: r). split_and!; try done. left. split_and!; try done. by rewrite (holds_lookup _ _ _ _ Hg). }
  pose proof Hcold as Hst. unfold is_cold in Hst. apply andb_true_iff in Hst as [Hst%bool_decide_eq_true Hres].
  assert (x <> e) as Hxe by (apply (not_end s e _ _ _ _ Hi Hg); destruct Hst; congruence).
  pose proof (mild_free _ _ _ _ (calm_mild _ _ _ _ _ Hc1) Hf) as Hf1. pose proof (inv_nodup _ _ _ _ Hi) as Hnd.
  rewrite (Hf x g ltac:(by left) Hg Hres). change (page_lock.is_locked page_lock.UNLOCKED) with false. cbn iota.
  destruct (refd g) eqn:Hrefd.
  - rewrite (modify_ok s1 _ _ _ Hg). run.
    destruct (touch_ok s1 e (x :: r) X x g (set_refd false g) (hot_page_count s1) (resident_cold_page_count s1)) as [Hi2 Hc2]; try done; [by left|..].
    { cbn. by destruct Hst as [-> | ->]. } { cbn. by destruct Hst as [-> | ->]. } { by apply (inv_ok _ _ _ _ Hi1 x g ltac:(by left) Hxe). } { by apply resident_tidy. }
    { change (is_hot (set_refd false g)) with (is_hot g). lia. } { change (is_cold (set_refd false g)) with (is_cold g). lia. }
    match type of Hi2 with inv ?t _ _ _ => set (s2 := t) in * end. change (set_heap _ s1) with s2.
    destruct (spare_page_ok s2 e (x :: r) X x (set_refd false g) fuel Hi2) as (s3 & c3 & Hsp & Hi3 & Hc3 & Hpos3); try done.
    { by left. } { unfold s2. fields. apply lookup_insert_eq. } { by apply (mild_free _ _ _ _ (calm_mild _ _ _ _ _ Hc2)). }
    { eapply calm_enough; [done|exact Hc2|]. eapply calm_enough; [done|exact Hc1|done]. }
    change (status (set_refd false g)) with (status g) in Hsp. rewrite Hsp. run. exists None, s3, c3. split_and!; try done.
    + apply (calm_trans 1 0 s _ s1 (x :: r)); [done|]. by eapply calm_trans0.
    + right. pose proof (mild_refs _ _ _ _ (inv_nodup _ _ _ _ Hi3) (calm_mild _ _ _ _ _ Hc3)) as Hle.
      assert (refs s2 (x :: r) = refs s (x :: r) - 1) as Hr2; [|lia]. unfold refs, s2. fields.
      change (heap s1) with (heap s). rewrite (tally_set _ _ _ _ g) by (done || by left). rewrite Hrefd. cbn. lia.
  - change (page_lock.lock_exclusive page_lock.UNLOCKED) with (true, page_lock.MIN_EXCLUSIVE). cbv iota. rewrite (modify_ok s1 _ _ _ Hg). run.
    pose proof Hres as Hd. unfold is_resident in Hd. destruct (data g) as [d|] eqn:Ed; [|done].
    destruct (inv_map _ _ _ _ Hi x g ltac:(left; split; [by left|done]) Hg) as (k & Hk & _).
    destruct (evict_page_ok s1 e (x :: r) X x g k d fuel Hi1) as (s2 & c2 & Hev & Hi2 & Hevd & Ht2 & Hn2); try done; [by left| |].
    { unfold enough in He. pose proof (tally_range refd (heap s) (x :: r)). unfold refs in He. nia. }
    rewrite Hev. run. exists (Some (mkDonorPage k.2 k.1, d)), s2, c2. split_and!; try done. cbn [donor_scope donor_id].
    rewrite <- surjective_pairing. by eapply calm_evicted.
Qed.

(** The cold hand finds a page when there is a cold one. *)
Lemma hand_cold_loop_ok e X fuel : forall n a x b s,
  let c := a ++ x :: b in
  inv s e c X -> hand_cold s = default x (head a) -> free s c -> enough s c fuel -> holds is_cold (heap s) x = true ->
  0 <= hand_cold_cost s -> hand_cold_cost s + Z.of_nat n < 2 ^ 63 -> non_resident_page_count s <= max_non_resident (options s) ->
  refs s c * Z.of_nat (length c) + Z.of_nat (length a) < Z.of_nat n ->
  exists donor d s' c', hand_cold_loop fuel n s = Ok (donor, d, s') /\ inv s' e c' X /\
    evicted s c s' c' (donor_scope donor, donor_id donor) d /\ keeps_tidy s s' c' /\ non_resident_page_count s' <= max_non_resident (options s).
Proof.
  induction n as [|n IH]; intros a x b s c Hi Hh Hf He Hx Hc0 Hcost Hnr Hfuel.
  { pose proof (tally_range refd (heap s) c). unfold refs in Hfuel. nia. }
  cbn [hand_cold_loop].
  assert (exists y r, inv s e (y :: r) X /\ hand_cold s = y /\ c ≡ₚ y :: r /\ (a = [] /\ y = x /\ r = b \/ exists a', a = y :: a' /\ r = a' ++ x :: b)) as (y & r & Hiy & Hy & Hperm & Hcase).
  { destruct a as [|y a']; [exists x, b|exists y, (a' ++ x :: b)]; split_and!; try done; [by left|right; by exists a']. }
  assert (free s (y :: r)) as Hfy by (intros p g; rewrite <- Hperm; apply Hf).
  assert (enough s (y :: r) fuel) as Hey by (unfold enough, refs in *; by rewrite <- Hperm).
  assert (0 < resident_cold_page_count s) as Hpos.
  { unfold holds in Hx. destruct (heap s !! x) as [g|] eqn:Hg; [|done]. eapply (cold_elem s e c X x g); try done. apply elem_of_app. right. by left. }
  destruct (hand_cold_step_ok s e y r X fuel Hiy Hy Hfy Hey Hpos ltac:(lia) Hnr) as (o & s1 & c1 & -> & Hi1 & Ho). run.
  destruct o as [[donor d]|].
  - destruct Ho as (Hev & Ht & Hn). exists donor, d, s1, c1. split_and!; try done. destruct Hev as [Hm Hev1 Hev2 Hev3 Hev4]. split; try done.
    eapply mild_perm; [|exact Hm]. intros p. by rewrite Hperm.
  - destruct Ho as (Hc1 & Hpos1 & Hcase1). apply (calm_perm _ _ _ c) in Hc1; [|intros p; by rewrite Hperm].
    pose proof (inv_nodup _ _ _ _ Hi1) as Hnd1. pose proof (mild_free _ _ _ _ (calm_mild _ _ _ _ _ Hc1) Hf) as Hf1.
    pose proof (calm_enough _ _ _ _ _ _ Hnd1 Hc1 He) as He1. pose proof (calm_cost _ _ _ _ _ Hc1) as Hcost1. pose proof (calm_ghosts _ _ _ _ _ Hc1) as Hgh.
    pose proof (mild_options _ _ _ _ (calm_mild _ _ _ _ _ Hc1)) as Hopt.
    pose proof (mild_refs _ _ _ _ Hnd1 (calm_mild _ _ _ _ _ Hc1)) as Hrefs. pose proof (sub_length c c1 Hnd1 (mild_sub _ _ _ _ (calm_mild _ _ _ _ _ Hc1))) as Hlen.
    pose proof (tally_range refd (heap s) c) as Hrange. pose proof (tally_range refd (heap s1) c1) as Hrange1. fold (refs s c) (refs s1 c1) in *.
    assert (exists a1 x1 b1, inv s1 e (a1 ++ x1 :: b1) X /\ hand_cold s1 = default x1 (head a1) /\ c1 ≡ₚ a1 ++ x1 :: b1 /\ holds is_cold (heap s1) x1 = true /\
      refs s1 c1 * Z.of_nat (length c1) + Z.of_nat (length a1) < Z.of_nat n) as (a1 & x1 & b1 & Hi2 & Hh2 & Hp2 & Hx2 & Hm2).
    { destruct Hcase1 as [(Hno & -> & Hh1 & Hheap)|Hless].
      - destruct Hcase as [(-> & -> & ->)|(a' & -> & ->)]; [congruence|]. exists a', x, (b ++ [y]).
        apply (inv_rotate s1 e [y] (a' ++ x :: b)) in Hi1. rewrite <- app_assoc in Hi1. split_and!; [done|rewrite Hh1; by destruct a'| |by rewrite Hheap|].
        + rewrite (Permutation_cons_append (a' ++ x :: b) y). by rewrite <- app_assoc.
        + unfold c in *. cbn [length app] in *. nia.
      - assert (refs s (y :: r) = refs s c) as Hry by (unfold refs; by rewrite Hperm). rewrite Hry in Hless.
        rewrite (inv_cold _ _ _ _ Hi1) in Hpos1. apply tally_exists in Hpos1 as (x1 & g1 & Hx1 & Hg1 & Hcold1).
        destruct (hand_split s1 e c1 X (hand_cold s1) Hi1 (inv_hand_cold _ _ _ _ Hi1) x1 Hx1) as (a1 & b1 & Hi2 & Hh2 & Hp2).
        exists a1, x1, b1. split_and!; try done; [by rewrite (holds_lookup _ _ _ _ Hg1)|]. pose proof (Permutation_length Hp2) as Hl2. rewrite length_app in Hl2. cbn [length] in Hl2.
        assert (refs s1 c1 * Z.of_nat (length c1) <= (refs s c - 1) * Z.of_nat (length c)) by nia. lia. }
    destruct (IH a1 x1 b1 s1) as (donor & d & s2 & c2 & Hl & Hi3 & Hev & Ht3 & Hn3); try done; try (rewrite ?Hopt; lia).
    { intros p g. rewrite <- Hp2. apply Hf1. } { unfold enough, refs in *. by rewrite <- Hp2. } { unfold refs in *. by rewrite <- Hp2. }
    exists donor, d, s2, c2. split_and!; try done; [| |by rewrite <- Hopt].
    2:{ eapply keeps_tidy_trans; [by eapply calm_tidy|done|]. intros p Hp. rewrite Hp2. by apply (mild_sub _ _ _ _ (ev_mild _ _ _ _ _ _ Hev)). }
    eapply calm_evicted; [exact Hc1|]. destruct Hev as [Hm Hev1 Hev2 Hev3 Hev4]. split; try done. eapply mild_perm; [|exact Hm]. intros p. by rewrite Hp2.
Qed.

(** A bound on the visits of the cold hand. *)
Definition visits (c : list ptr) : Z := (Z.of_nat (length c) + 2) * Z.of_nat (length c) + 2.

Lemma visits_enough s c fuel : visits c <= Z.of_nat fuel -> enough s c fuel.
Proof. unfold visits, enough, refs. pose proof (tally_range refd (heap s) c). nia. Qed.

(** [run_hand_cold] returns a buffer. *)
Lemma run_hand_cold_ok s e c X fuel :
  inv s e c X -> free s c -> visits c <= Z.of_nat fuel -> Z.of_nat fuel < 2 ^ 62 -> 0 < resident_page_count s ->
  hand_cold_cost s = 0 -> non_resident_page_count s <= max_non_resident (options s) ->
  exists donor d s' c', run_hand_cold fuel s = Ok (donor, d, s') /\ inv s' e c' X /\
    evicted s c s' c' (donor_scope donor, donor_id donor) d /\ keeps_tidy s s' c' /\ non_resident_page_count s' <= max_non_resident (options s).
Proof.
  intros Hi Hf Hv Hfuel Hres Hcost Hnr. pose proof (visits_enough s c fuel Hv) as He.
  assert (exists s1 c1, (if resident_cold_page_count s =? 0 then run_hand_hot fuel s true else Ok s) = Ok s1 /\ inv s1 e c1 X /\ calm 0 s c s1 c1 /\
    0 < resident_cold_page_count s1) as (s1 & c1 & Hs1 & Hi1 & Hc1 & Hpos).
  { destruct (Z.eqb_spec (resident_cold_page_count s) 0) as [H0|H0].
    - destruct (run_hand_hot_ok s e c X fuel true Hi Hf He) as (s1 & c1 & Hr & Hi1 & Hc1 & Hpos); [done|]. exists s1, c1. auto.
    - exists s, c. split_and!; try done; [by eapply calm_refl|]. destruct (resident_bounds _ _ _ _ Hi) as (_ & B2 & _). lia. }
  unfold run_hand_cold. rewrite Hs1. run. rewrite debug_assert_true by (by apply Z.ltb_lt). run.
  rewrite (inv_cold _ _ _ _ Hi1) in Hpos. apply tally_exists in Hpos as (x & g & Hx & Hg & Hcold).
  destruct (hand_split s1 e c1 X (hand_cold s1) Hi1 (inv_hand_cold _ _ _ _ Hi1) x Hx) as (a & b & Hi2 & Hh & Hperm).
  pose proof (inv_nodup _ _ _ _ Hi1) as Hnd1. pose proof (sub_length c c1 Hnd1 (mild_sub _ _ _ _ (calm_mild _ _ _ _ _ Hc1))) as Hlen.
  pose proof (calm_enough _ _ _ _ _ _ Hnd1 Hc1 He) as He1. pose proof (mild_options _ _ _ _ (calm_mild _ _ _ _ _ Hc1)) as Hopt.
  pose proof (calm_cost _ _ _ _ _ Hc1) as Hcost1. pose proof (calm_ghosts _ _ _ _ _ Hc1) as Hgh.
  destruct (hand_cold_loop_ok e X fuel fuel a x b s1) as (donor & d & s2 & c2 & Hl & Hi3 & Hev & Ht3 & Hn3); try done; try (rewrite ?Hopt; lia).
  { intros p q. rewrite <- Hperm. by apply (mild_free _ _ _ _ (calm_mild _ _ _ _ _ Hc1)). } { unfold enough, refs in *. by rewrite <- Hperm. }
  { by rewrite (holds_lookup _ _ _ _ Hg). }
  { unfold enough, refs in *. rewrite <- Hperm. pose proof (tally_range refd (heap s1) c1). pose proof (Permutation_length Hperm) as Hl2. rewrite length_app in Hl2. nia. }
  exists donor, d, s2, c2. split_and!; try done; [| |by rewrite <- Hopt].
  2:{ eapply keeps_tidy_trans; [by eapply calm_tidy|done|]. intros p Hp. rewrite Hperm. by apply (mild_sub _ _ _ _ (ev_mild _ _ _ _ _ _ Hev)). }
  eapply calm_evicted; [exact Hc1|]. destruct Hev as [Hm Hev1 Hev2 Hev3 Hev4]. split; try done. eapply mild_perm; [|exact Hm]. intros p. by rewrite Hperm.
Qed.

(** ** A cache no one is using *)

(** A page that is neither locked nor loading; [n] bounds the failed attempts to
    lock a page that has no data. *)
Definition at_rest (n : Z) (g : Page_) : Prop :=
  tidy g /\ waiters (io g) = 0 /\
  match data g with
  | Some _ => lock g = page_lock.UNLOCKED
  | None => page_lock.MIN_EXCLUSIVE <= lock g <= page_lock.MIN_EXCLUSIVE + n
  end.

Definition settled (n : Z) (s : CacheInner) (c : list ptr) : Prop :=
  forall p g, p ∈ c -> heap s !! p = Some g -> at_rest n g.

(** All pages but one. *)
Definition settled_but (n : Z) (s : CacheInner) (c : list ptr) (x : ptr) : Prop :=
  forall p g, p ∈ c -> p <> x -> heap s !! p = Some g -> at_rest n g.

Lemma settled_free n s c : settled n s c -> free s c.
Proof. intros H p g Hp Hg Hr. destruct (H p g Hp Hg) as (_ & _ & Hl). unfold is_resident in Hr. by destruct (data g). Qed.

Lemma mild_settled n s c s' c' : 0 <= n -> mild s c s' c' -> keeps_tidy s s' c' -> settled n s c -> settled n s' c'.
Proof.
  intros Hn Hm Ht Hs p g' Hp Hg'. destruct (Ht p g' Hp Hg') as (g0 & Hg0 & Htp). destruct (mild_page _ _ _ _ Hm p g' Hp Hg') as (g & Hg & _ & Hio & _ & _ & Hd).
  rewrite Hg in Hg0. injection Hg0 as <-. destruct (Hs p g (mild_sub _ _ _ _ Hm p Hp) Hg) as (Htg & Hw & Hl).
  unfold at_rest. rewrite Hio. split; [by apply Htp|]. split; [done|].
  destruct Hd as [[-> ->]|(-> & _ & ->)]; [done|lia].
Qed.

Lemma settled_weaken n m s c : n <= m -> settled n s c -> settled m s c.
Proof. intros Hn Hs p g Hp Hg. destruct (Hs p g Hp Hg) as (Ht & Hw & Hl). split_and!; [done|done|]. destruct (data g); [done|lia]. Qed.

(** ** Buffers *)

Record sane (o : Options) : Prop := {
  sane_resident : 0 < max_resident o;
  sane_ghosts : 0 <= max_non_resident o;
  sane_size : max_resident o + max_non_resident o < 2 ^ 30;
  sane_layout : exists b, page.new (E := memory_fault) (page_len o) (page_align o) = Ok b
}.

Lemma acquire_ok s e c X n fuel :
  inv s e c X -> 0 <= n -> settled n s c -> sane (options s) -> io_page_count s = 0 -> hand_cold_cost s = 0 ->
  resident_page_count s <= max_resident (options s) -> non_resident_page_count s <= max_non_resident (options s) ->
  visits c <= Z.of_nat fuel -> Z.of_nat fuel < 2 ^ 62 ->
  exists donor d s' c', acquire_page_data fuel s = Ok (Some (donor, d), s') /\ inv s' e c' X /\ mild s c s' c' /\ keeps_tidy s s' c' /\
    resident_page_count s' < max_resident (options s) /\ non_resident_page_count s' <= max_non_resident (options s) /\
    match donor with
    | None => (forall k, cached s' k = cached s k) /\ page.new (E := memory_fault) (page_len (options s)) (page_align (options s)) = Ok d
    | Some dn => evicted s c s' c' (donor_scope dn, donor_id dn) d
    end.
Proof.
  intros Hi Hn Hs [Hmax Hgh _ [b Hlay]] Hio Hcost Hres Hnr Hv Hfuel. unfold acquire_page_data. destruct (resident_bounds _ _ _ _ Hi) as (B1 & B2 & B3).
  rewrite (debug_assert_true (resident_page_count s <=? _)) by (by apply Z.leb_le). run.
  rewrite (debug_assert_true (io_page_count s <=? _)) by (apply Z.leb_le; unfold resident_page_count; lia). run.
  destruct (Z.ltb_spec (resident_page_count s) (max_resident (options s))).
  - rewrite Hlay. run. exists None, b, s, c. split_and!; try done.
    + apply mild_refl. intros p Hp. destruct (inv_lookup _ _ _ _ p Hi Hp) as [g Hg]. by eexists.
    + intros p g Hp Hg. by exists g.
  - rewrite (proj2 (Z.eqb_neq (resident_page_count s) _)) by lia.
    destruct (run_hand_cold_ok s e c X fuel Hi (settled_free _ _ _ Hs) Hv Hfuel ltac:(lia) Hcost Hnr) as (donor & d & s1 & c1 & -> & Hi1 & Hev & Ht1 & Hn1). run.
    pose proof (ev_resident _ _ _ _ _ _ Hev) as Hr1. pose proof (ev_mild _ _ _ _ _ _ Hev) as Hm1.
    rewrite (mild_options _ _ _ _ Hm1). rewrite debug_assert_true by (apply Z.ltb_lt; lia). run.
    eexists (Some donor), d, _, c1. split; [reflexivity|]. set (s2 := set_costs _ _ s1).
    assert (calm (hand_cold_cost s2 - hand_cold_cost s1) s1 c1 s2 c1) as Hc2 by (apply (calm_same _ s1 s2 e c1 c1 X); try done; lia).
    split_and!; [by apply inv_costs|eapply mild_trans; [done|apply Hc2]|done|unfold s2, resident_page_count in *; fields; lia|done|].
    destruct Hev as [Hm Hev1 Hev2 Hev3 Hev4]. split; try done. eapply mild_trans; [done|apply Hc2].
Qed.

(** ** Pages that come in *)

(** The counter of a page with data. *)
Definition counter (g : Page_) : PageCountKind := if is_hot g then KHot else KCold true.

(** A page that is out of the list is put into it; [m] is the page map. *)
Lemma put_in_ok s m e c x X g :
  inv (set_page_map m s) e c (x :: X) -> x ∉ X -> heap s !! x = Some g -> page_ok g -> is_resident g = true -> Z.of_nat (length c) + 1 < 2 ^ 32 ->
  exists h q nh nc c', let s1 := set_heap h (set_pages q s) in let s2 := set_counts nh nc (non_resident_page_count s) s1 in
    add_page_to_list s x = Ok s1 /\ update_page_count s1 (counter g) Inc = Ok s2 /\ inv (set_page_map m s2) e c' X /\
    c' ≡ₚ x :: c /\ relinked (heap s) h /\ (forall p, p ∉ x :: c -> h !! p = heap s !! p) /\ nh + nc = resident_page_count s + 1.
Proof.
  intros Hi HxX Hg Hok Hres Hlen. destruct (inv_out _ _ _ _ Hi x ltac:(by left)) as [Hx _].
  destruct (inv_split _ _ _ _ e Hi (inv_end _ _ _ _ Hi)) as (r & Hir & Hperm).
  destruct (add_to_list_ok s e x r g (inv_ring _ _ _ _ Hir)) as (h & q & Hadd & Hring & Hnxt & Hrel & Hout); [by rewrite <- Hperm|apply (inv_pages _ _ _ _ Hi)|done|].
  destruct (kinds g Hok) as [Hk1 Hk2]. rewrite Hres in Hk1, Hk2. cbn [b2z] in Hk1, Hk2.
  destruct (resident_bounds _ _ _ _ Hi) as (B1 & B2 & B3). fields.
  exists h, q, (hot_page_count s + b2z (is_hot g)), (resident_cold_page_count s + b2z (is_cold g)), (x :: e :: r). cbv zeta.
  assert (x :: e :: r ≡ₚ x :: c) as Hp2 by (by rewrite Hperm). split_and!; [done| | |done|done| |unfold resident_page_count; lia].
  - unfold counter, update_page_count. fields. destruct (is_hot g); cbn [b2z] in *.
    + rewrite inc_ok by lia. run. replace (resident_cold_page_count s + b2z (is_cold g)) with (resident_cold_page_count s) by lia. done.
    + rewrite inc_ok by lia. run. replace (resident_cold_page_count s + b2z (is_cold g)) with (resident_cold_page_count s + 1) by lia.
      by rewrite Z.add_0_r.
  - pose proof (inv_hot _ _ _ _ Hi) as T1. pose proof (inv_cold _ _ _ _ Hi) as T2. pose proof (inv_ghost _ _ _ _ Hi) as T3. fields.
    assert (forall f, tally f (heap s) (x :: e :: r) = b2z (f g) + tally f (heap s) c) as Ht.
    { intros f. by rewrite Hp2, tally_cons, (holds_lookup _ _ _ _ Hg). }
    assert (forall p, p ∈ x :: e :: r <-> p = x \/ p ∈ c) as Hin by (intros p; by rewrite Hp2, elem_of_cons).
    apply (inv_relink (set_page_map m s) e c (x :: X) (x :: e :: r) X); fields; rewrite ?Ht; try done; try lia; try (apply Hin; right; apply Hi).
    + intros p. rewrite Hin, elem_of_cons. assert (x <> e) by (intros ->; by apply Hx, (inv_end _ _ _ _ Hi)).
      split; [intros [[? ?]|[->|?]]; auto|]. intros [[[->|?] ?]|?]; auto.
    + intros p gp Hp Hpe Hgp. apply Hin in Hp as [->|Hp]; [congruence|by apply (inv_ok _ _ _ _ Hi p)].
    + apply Permutation_length in Hp2. rewrite Hp2. cbn [length]. lia.
    + intros p Hp. destruct (inv_out _ _ _ _ Hi p ltac:(by right)) as [Hn Hs]. split; [|done]. intros [->|?]%Hin; done.
  - intros p Hp. apply Hout. by rewrite Hp2.
Qed.

(** A new page, not in the list yet. *)
Lemma alloc_ok s e c g k :
  inv s e c [] -> key g = Some k -> page_map s !! k = None ->
  let s1 := mkCacheInner (options s) (<[fresh s := g]> (heap s)) (<[k := fresh s]> (page_map s)) (S (fresh s)) (pages s)
    (hot_page_count s) (resident_cold_page_count s) (non_resident_page_count s) (io_page_count s)
    (hand_hot s) (hand_cold s) (hand_cold_cost s) (max_hand_cold_cost s) (hand_test s) in
  inv s1 e c [fresh s].
Proof.
  intros Hi Hk Hnone s1. assert (heap s !! fresh s = None) as Hf.
  { destruct (heap s !! fresh s) eqn:E; [|done]. pose proof (inv_fresh _ _ _ _ Hi (fresh s) (mk_is_Some _ _ E)). lia. }
  assert (forall p, p ∈ c -> p <> fresh s) as Hne.
  { intros p Hp ->. destruct (inv_lookup _ _ _ _ _ Hi Hp) as [? ?]. congruence. }
  assert (forall p, p ∈ c -> heap s1 !! p = heap s !! p) as Hsame by (intros p Hp; unfold s1; fields; rewrite lookup_insert_ne; [done|by apply not_eq_sym, Hne]).
  assert (forall f, tally f (heap s1) c = tally f (heap s) c) as Ht by (intros f; apply tally_ext; intros p Hp; unfold holds; by rewrite Hsame).
  pose proof (inv_end _ _ _ _ Hi) as He. split; rewrite ?Ht; try apply Hi.
  - apply (ring_ext (heap s)); [|apply Hi]. intros p Hp. unfold nxt, prv. by rewrite Hsame.
  - unfold nxt. rewrite Hsame by done. apply (inv_pages _ _ _ _ Hi).
  - rewrite Hsame by done. apply (inv_end_page _ _ _ _ Hi).
  - intros p gp Hp. rewrite Hsame by done. by apply (inv_ok _ _ _ _ Hi).
  - intros p gp [[Hp Hpe]|Hp]; unfold s1; fields.
    + intros Hgp. rewrite lookup_insert_ne in Hgp by (by apply not_eq_sym, Hne). destruct (inv_map _ _ _ _ Hi p gp ltac:(by left) Hgp) as (k' & Hk' & Hm).
      exists k'. split; [done|]. rewrite lookup_insert_ne; [done|]. congruence.
    + apply list_elem_of_singleton in Hp as ->. rewrite lookup_insert_eq. intros [= <-]. exists k. by rewrite lookup_insert_eq.
  - intros k' p. unfold s1. fields. destruct (decide (k = k')) as [<-|Hkk].
    + rewrite lookup_insert_eq. intros [= <-]. split; [right; by left|]. exists g. by rewrite lookup_insert_eq.
    + rewrite lookup_insert_ne by done. intros Hm. destruct (inv_page _ _ _ _ Hi k' p Hm) as ([[Hp Hpe]|Hp] & gp & Hgp & Hkp); [|by apply elem_of_nil in Hp].
      split; [by left|]. exists gp. rewrite lookup_insert_ne by (by apply not_eq_sym, Hne). done.
  - intros p. unfold s1. fields. intros Hp. destruct (decide (fresh s = p)) as [<-|]; [lia|]. rewrite lookup_insert_ne in Hp by done.
    pose proof (inv_fresh _ _ _ _ Hi p Hp). lia.
  - intros p Hp. apply list_elem_of_singleton in Hp as ->. split; [by intros ?%Hne|]. unfold s1. fields. rewrite lookup_insert_eq. by eexists.
Qed.

(** Page [x] of key [k] got the buffer [d]; nobody else can use it yet. *)
Record brought_in (n : Z) (s s' : CacheInner) (e : ptr) (c' : list ptr) (x : ptr) (k : nat * Z) (d : Page) : Prop := {
  bi_in : x ∈ c' /\ x <> e;
  bi_page : exists g, heap s' !! x = Some g /\ key g = Some k /\ data g = Some d /\ waiters (io g) = 0 /\
    page_lock.MIN_EXCLUSIVE <= lock g /\ (status g = Hot \/ status g = Test);
  bi_rest : settled_but n s' c' x;
  bi_cached : cached s' k = Some d;
  bi_other k' : k' <> k -> cached s' k' = cached s k';
  bi_resident : resident_page_count s' = resident_page_count s + 1;
  bi_ghosts : non_resident_page_count s' <= non_resident_page_count s;
  bi_options : options s' = options s;
  bi_io : io_page_count s' = io_page_count s
}.

Lemma cached_relinked s s' k : relinked (heap s) (heap s') -> page_map s' = page_map s -> cached s' k = cached s k.
Proof.
  intros Hr Hm. unfold cached. rewrite Hm. destruct (page_map s !! k) as [p|]; [|done]. cbn. destruct (heap s !! p) as [g|] eqn:Hg.
  - destruct (relinked_lookup _ _ _ _ Hr Hg) as (g' & -> & Hs). by apply strip_fields in Hs as (_ & _ & _ & _ & ? & _).
  - specialize (Hr p). rewrite Hg in Hr. by destruct (heap s' !! p).
Qed.

Lemma settled_relinked n s s' c c' x :
  relinked (heap s) (heap s') -> (forall p, p ∈ c' -> p <> x -> p ∈ c) -> settled n s c -> settled_but n s' c' x.
Proof.
  intros Hr Hc Hs p g' Hp Hpx Hg'. destruct (relinked_lookup _ _ _ _ (relinked_sym _ _ Hr) Hg') as (g & Hg & Hst).
  apply strip_fields in Hst as (_ & _ & H3 & H4 & H5 & H6 & _). unfold at_rest, tidy. rewrite <- H3, <- H4, <- H5, <- H6. apply (Hs p); auto.
Qed.

(** [add_page_data]. *)
Lemma add_page_data_ok s e c n sc i d :
  inv s e c [] -> settled n s c -> page_map s !! (sc, i) = None -> Z.of_nat (length c) + 1 < 2 ^ 32 ->
  exists x s' c', add_page_data s sc i d = Ok (x, s') /\ inv s' e c' [] /\ brought_in n s s' e c' x (sc, i) d.
Proof.
  intros Hi Hs Hnone Hlen. set (g := internal.new sc i d). set (x := fresh s).
  pose proof (alloc_ok s e c g (sc, i) Hi eq_refl Hnone) as Hi1. cbv zeta in Hi1. fold x in Hi1.
  set (s0 := mkCacheInner (options s) (<[x := g]> (heap s)) (page_map s) (S x) (pages s)
    (hot_page_count s) (resident_cold_page_count s) (non_resident_page_count s) (io_page_count s)
    (hand_hot s) (hand_cold s) (hand_cold_cost s) (max_hand_cold_cost s) (hand_test s)).
  destruct (put_in_ok s0 (<[(sc, i) := x]> (page_map s)) e c x [] g Hi1) as (h & q & nh & nc & c' & Hadd & Hupd & Hi2 & Hperm & Hrel & Hout & Hsum).
  { apply not_elem_of_nil. } { apply lookup_insert_eq. } { split_and!; [by eexists|done|done]. } { done. } { done. }
  unfold add_page_data, add_page. fold g x s0. rewrite Hadd. run. change (counter g) with (KCold true) in Hupd. rewrite Hupd. run. change (scope g) with (Some sc). run.
  eexists x, _, c'. split; [reflexivity|]. split; [exact Hi2|].
  destruct (inv_out _ _ _ _ Hi1 x ltac:(by left)) as [Hx _].
  destruct (relinked_lookup _ _ x g Hrel (lookup_insert_eq _ _ _)) as (g' & Hg' & Hst). pose proof (strip_key _ _ Hst) as Hkey.
  apply strip_fields in Hst as (_ & _ & H3 & H4 & H5 & H6 & _).
  split; fields; try done; try lia.
  - rewrite Hperm. split; [by left|]. intros ->. by apply Hx, (inv_end _ _ _ _ Hi).
  - exists g'. rewrite H3, H4, H5, H6, Hkey. split_and!; try done. by right.
  - apply (settled_relinked n s0 _ c); [done| |].
    + intros p. rewrite Hperm, elem_of_cons. by intros [?|?].
    + intros p gp Hp Hgp. unfold s0 in Hgp. fields. rewrite lookup_insert_ne in Hgp by (by intros ->). by apply (Hs p).
  - unfold cached. fields. rewrite lookup_insert_eq. cbn. rewrite Hg'. exact H5.
  - intros k' Hk'. assert (cached s0 k' = cached s k') as <-.
    { unfold cached, s0. fields. destruct (page_map s !! k') as [p|] eqn:Hp; [|done]. cbn.
      destruct (inv_page _ _ _ _ Hi k' p Hp) as ([[Hpc _]|Hp'] & _); [|by apply elem_of_nil in Hp']. rewrite lookup_insert_ne; [done|by intros ->]. }
    unfold cached at 1. fields. rewrite lookup_insert_ne by done. rewrite <- (cached_relinked s0 (set_heap h s0) k'); done.
Qed.

(** The page of a fault leaves the list and gets its buffer. *)
Lemma refill_ok s e c n x g k d :
  inv s e c [] -> settled n s c -> x ∈ c -> heap s !! x = Some g -> status g = ProtectedTest -> key g = Some k ->
  exists s1 s2 gx c', let s3 := set_heap (<[x := set_data (Some d) (set_status Hot gx)]> (heap s2)) s2 in
    remove_page_from_list s x = Ok s1 /\ update_page_count s1 (KCold false) Dec = Ok s2 /\ heap s2 !! x = Some gx /\ strip gx = strip g /\
    inv s3 e c' [x] /\ c ≡ₚ x :: c' /\ x ∉ c' /\ settled n s3 c' /\ cached s3 k = Some d /\ (forall k', k' <> k -> cached s3 k' = cached s k') /\
    resident_page_count s3 = resident_page_count s /\ non_resident_page_count s3 = non_resident_page_count s - 1 /\
    options s3 = options s /\ io_page_count s3 = io_page_count s.
Proof.
  intros Hi Hs Hx Hg Hst Hk. assert (x <> e) as Hxe by (apply (not_end s e _ _ _ _ Hi Hg); congruence).
  pose proof (inv_ok _ _ _ _ Hi x g Hx Hxe Hg) as Hok. pose proof Hok as (_ & Hres & _). rewrite Hst in Hres.
  destruct (kinds g Hok) as [_ Hk2]. rewrite Hres in Hk2. cbn [b2z] in Hk2.
  pose proof (tally_elem is_ghost _ _ _ _ Hx Hg) as Hpos. rewrite <- (inv_ghost _ _ _ _ Hi) in Hpos. destruct (resident_bounds _ _ _ _ Hi) as (B1 & B2 & B3).
  destruct (inv_split _ _ _ _ x Hi Hx) as (r & Hir & Hperm). destruct r as [|y r]; [by pose proof (inv_end _ _ _ _ Hir) as ?%list_elem_of_singleton|].
  assert (set_counts (hot_page_count s) (resident_cold_page_count s) (non_resident_page_count s) s = s) as Heq by (by destruct s).
  destruct (take_out_ok s e x y r [] g (KCold false) (hot_page_count s) (resident_cold_page_count s) (non_resident_page_count s)) as (h & Hrem & Hdec & Hi2 & _ & Hxr & Hrel & Hout); try done; [by rewrite Heq| |].
  { intros s1 H1 H2 H3. unfold update_page_count. cbv zeta. rewrite H1, H2, H3. rewrite dec_ok by lia. done. }
  match type of Hdec with _ = Ok ?t => set (s2 := t) in * end.
  destruct (relinked_lookup _ _ _ _ Hrel Hg) as (gx & Hgx & Hstrip). pose proof (strip_key _ _ Hstrip) as Hkx.
  destruct (inv_map _ _ _ _ Hi x g ltac:(by left) Hg) as (k0 & Hk0 & Hm). rewrite Hk in Hk0. injection Hk0 as <-.
  eexists _, s2, gx, (y :: r). cbv zeta. split; [exact Hrem|]. split; [exact Hdec|]. split; [done|]. split; [done|].
  set (s3 := set_heap _ s2). split_and!; try done.
  - apply (inv_update_out s2 e (y :: r) [x] x gx); [done|by left|done|done].
  - intros p gp Hp Hgp. unfold s3 in Hgp. fields. rewrite lookup_insert_ne in Hgp by (by intros ->).
    refine (settled_relinked n s s2 c (x :: y :: r) x Hrel _ Hs p gp _ _ Hgp); [intros q; by rewrite Hperm|by right|by intros ->].
  - unfold cached, s3. fields. change (page_map s2) with (page_map s). rewrite Hm. cbn. by rewrite lookup_insert_eq.
  - intros k' Hk'. rewrite <- (cached_relinked s s2 k') by done. unfold cached, s3. fields. destruct (page_map s2 !! k') as [p|] eqn:Hp; [|done]. cbn.
    rewrite lookup_insert_ne; [done|]. intros <-. change (page_map s2) with (page_map s) in Hp.
    destruct (inv_page _ _ _ _ Hi k' x Hp) as (_ & g0 & Hg0 & Hk0). congruence.
Qed.

(** [replace_page_data]. *)
Lemma replace_page_data_ok s e c n x g k d fuel :
  inv s e c [] -> 0 <= n -> settled n s c -> x ∈ c -> heap s !! x = Some g -> status g = ProtectedTest -> key g = Some k ->
  visits c <= Z.of_nat fuel ->
  exists s' c', replace_page_data fuel s x d = Ok (x, s') /\ inv s' e c' [] /\ brought_in n s s' e c' x k d.
Proof.
  intros Hi Hn Hs Hx Hg Hst Hk Hv. assert (x <> e) as Hxe by (apply (not_end s e _ _ _ _ Hi Hg); congruence).
  pose proof (inv_ok _ _ _ _ Hi x g Hx Hxe Hg) as (Hsc & Hres & Hlk). rewrite Hst in Hres. specialize (Hlk Hres).
  destruct (refill_ok s e c n x g k d Hi Hs Hx Hg Hst Hk) as (s1 & s2 & gx & c2 & Hrem & Hdec & Hgx & Hstrip & Hi3 & Hperm & Hxc & Hs3 & Hck & Hco & Hr3 & Hn3 & Ho3 & Hio3).
  set (s3 := set_heap _ s2) in *. set (g3 := set_data (Some d) (set_status Hot gx)) in *. pose proof (strip_key _ _ Hstrip) as Hkx.
  assert (heap s3 !! x = Some g3) as Hg3 by (unfold s3; fields; apply lookup_insert_eq).
  unfold replace_page_data. rewrite (deref_page_ok _ _ _ Hg). run.
  rewrite (debug_assert_true (bool_decide (_ = page_lock.Exclusive))) by (apply bool_decide_eq_true; by apply lock_facts.lock_state_exclusive). run.
  rewrite (debug_assert_true (bool_decide (status g = _))) by (by apply bool_decide_eq_true). run. rewrite Hrem. run. rewrite Hdec. run.
  rewrite (modify_ok _ _ _ _ Hgx). run. rewrite (debug_assert_true (negb _)) by (by rewrite Hres). run.
  rewrite (modify_ok _ x _ _ (lookup_insert_eq _ _ _)). run.
  match goal with |- context [run_hand_hot fuel ?t false] => assert (t = s3) as -> by (unfold s3; fields; by rewrite insert_insert_eq) end.
  assert (visits c2 <= Z.of_nat fuel) as Hv2.
  { unfold visits in *. pose proof (Permutation_length Hperm) as Hl. cbn in Hl. nia. }
  destruct (run_hand_hot_ok s3 e c2 [x] fuel false Hi3) as (s4 & c4 & Hrun & Hi4 & Hc4 & _); [by eapply settled_free|by apply visits_enough|done|].
  rewrite Hrun. run. assert (heap s4 !! x = Some g3) as Hg4 by (by rewrite (mild_out _ _ _ _ (calm_mild _ _ _ _ _ Hc4))).
  assert (set_page_map (page_map s4) s4 = s4) as Heq by (by destruct s4).
  assert (page_ok g3) as Hok3.
  { apply strip_fields in Hstrip as (Hsc' & _). split_and!; [|done|done]. cbn. by rewrite Hsc'. }
  destruct (put_in_ok s4 (page_map s4) e c4 x [] g3) as (h & q & nh & nc & c5 & Hadd & Hupd & Hi5 & Hp5 & Hrel & Hout & Hsum); try done; [by rewrite Heq|apply not_elem_of_nil| |].
  { pose proof (sub_length c2 c4 (inv_nodup _ _ _ _ Hi4) (mild_sub _ _ _ _ (calm_mild _ _ _ _ _ Hc4))).
    pose proof (Permutation_length Hperm) as Hl. pose proof (inv_size _ _ _ _ Hi). cbn in Hl. lia. }
  rewrite Hadd. run. change (counter g3) with KHot in Hupd. rewrite Hupd. run. eexists _, c5. split; [reflexivity|]. split; [exact Hi5|].
  destruct (relinked_lookup _ _ x g3 Hrel Hg4) as (g' & Hg' & Hst'). pose proof (strip_key _ _ Hst') as Hkey.
  apply strip_fields in Hst' as (_ & _ & H3 & H4 & H5 & H6 & _). destruct (inv_out _ _ _ _ Hi4 x ltac:(by left)) as [Hx4 _].
  pose proof (Hs x g Hx Hg) as (_ & Hw & _). apply strip_fields in Hstrip as (_ & _ & I3 & _ & _ & I6 & _).
  pose proof (calm_resident _ _ _ _ _ Hc4). pose proof (calm_ghosts _ _ _ _ _ Hc4).
  split; fields; try done; try lia.
  - rewrite Hp5. split; [by left|done].
  - exists g'. rewrite H3, H4, H5, H6, Hkey. unfold g3. cbn [data status lock io set_data set_status]. rewrite I3, I6.
    split_and!; try done; [|by left]. change (key gx = Some k). congruence.
  - apply (settled_relinked n s4 _ c4); [done| |].
    + intros p. rewrite Hp5, elem_of_cons. by intros [?|?].
    + eapply mild_settled; [done|apply Hc4|by eapply calm_tidy|done].
  - rewrite (cached_relinked s4) by done. by rewrite (calm_cached _ _ _ _ _ Hc4).
  - intros k' Hk'. rewrite (cached_relinked s4) by done. rewrite (calm_cached _ _ _ _ _ Hc4). by apply Hco.
  - unfold resident_page_count at 1. fields. lia.
  - rewrite (mild_options _ _ _ _ (calm_mild _ _ _ _ _ Hc4)). done.
  - rewrite (mild_io _ _ _ _ (calm_mild _ _ _ _ _ Hc4)). done.
Qed.

End replace.
End clock_replace.
