(* ===== verification/PageCacheFacts.v ===== *)
(** * What the page cache promises

    To its user the cache is a plain array of pages: [cache_transparent] proves
    that every sequence of reads, writes and flushes, through the real clock and
    its hands, answers what the array answers, whatever is evicted on the way, and
    [flush_writes_back] that a flush makes the files agree with it.  The contract
    of a file is [ScopeLaws]; [view] is the part of a page that is in the file.

    [clock_wellformed] is the invariant behind it: after any operations the list,
    the page maps and the counters describe the same pages. *)
From S2P Require Import Prelude PageLock PageCache PageClock PageHands PageReplace.

(** What the cache relies on.  [content] is what the files have of a page, [view] the
    part of a buffer that belongs to the file; a [buffer] has the length of a
    page.  A page whose bytes have not reached the file yet need not be [readable]:
    reading it may do anything, and writing another page may change it. *)
Class ScopeLaws (Sc : Scope) := {
  View : Type;
  Meta : Type;
  meta : D -> Meta;
  view : D -> nat * Z -> list Z -> View;
  content : D -> nat * Z -> View;
  buffer : list Z -> Prop;
  readable : View -> Prop;
  meta_view d d' k b : meta d' = meta d -> view d' k b = view d k b;
  view_readable d k b : buffer b -> readable (view d k b);
  read_content d sc i buf b d' : buffer buf -> readable (content d (sc, i)) -> scope_read d sc i buf = Some (b, d') ->
    buffer b /\ view d (sc, i) b = content d (sc, i) /\ (forall k, content d' k = content d k) /\ meta d' = meta d;
  write_content d sc i b d' : buffer b -> scope_write d sc i b = Some d' ->
    content d' (sc, i) = view d (sc, i) b /\ meta d' = meta d;
  write_other d sc i b d' k : buffer b -> scope_write d sc i b = Some d' -> k <> (sc, i) -> readable (content d k) -> content d' k = content d k
}.

Module cache_spec.
Import page internal cache_inner cache.

(** The user's operations: look at a page, change a page through its guard, flush
    a scope whose page map is read in some order. *)
Inductive op := OpRead (k : nat * Z) | OpWrite (k : nat * Z) (f : list Z -> list Z) | OpFlush (scope : nat) (ids : list Z).

Section run.
Context {P : BuildProfile} {Sc : Scope} (fuel : nat).

(** Take a page, use it, drop the reference; the bytes that were there. *)
Definition access (c : Cache) (d : D) (k : nat * Z) (f : option (list Z -> list Z)) : res (option (list Z) * Cache * D) :=
  '(r, c, d) ← page fuel c d k.1 k.2;
  match r with
  | inr _ => Ok (None, c, d)
  | inl p =>
      b ← page_bytes (inner c) p;
      s ← (match f with Some f => page_write (inner c) p f | None => Ok (inner c) end);
      s ← release s p;
      Ok (Some b, set_inner s c, d)
  end.

Definition run_op (c : Cache) (d : D) (o : op) : res (option (list Z) * Cache * D) :=
  match o with
  | OpRead k => access c d k None
  | OpWrite k f => access c d k (Some f)
  | OpFlush scope ids => '(r, c, d) ← flush c d scope ids; Ok (match r with Some _ => Some [] | None => None end, c, d)
  end.

Fixpoint run_ops (c : Cache) (d : D) (os : list op) : res (list (option (list Z)) * Cache * D) :=
  match os with
  | [] => Ok ([], c, d)
  | o :: os =>
      '(b, c, d) ← run_op c d o;
      '(bs, c, d) ← run_ops c d os;
      Ok (b :: bs, c, d)
  end.

End run.

(** An array of pages. *)
Section array.
Context {Sc : Scope} {SL : ScopeLaws Sc} (d : D).

Definition store : Type := nat * Z -> View.

Definition set (st : store) (k : nat * Z) (v : View) : store := fun k' => if decide (k' = k) then v else st k'.

(** What an operation answers and how it changes the array: the bytes a page
    shows agree with the array where the file has bytes. *)
Definition spec_op (st : store) (o : op) (b : option (list Z)) (st' : store) : Prop :=
  match o with
  | OpRead k => exists bs, b = Some bs /\ view d k bs = st k /\ forall k', st' k' = st k'
  | OpWrite k f => exists bs, b = Some bs /\ view d k bs = st k /\ forall k', st' k' = set st k (view d k (f bs)) k'
  | OpFlush _ _ => b = Some [] /\ forall k', st' k' = st k'
  end.

Inductive spec_ops : store -> list op -> list (option (list Z)) -> store -> Prop :=
| spec_nil st : spec_ops st [] [] st
| spec_cons st o b st1 os bs st2 : spec_op st o b st1 -> spec_ops st1 os bs st2 -> spec_ops st (o :: os) (b :: bs) st2.

End array.
End cache_spec.

Module cache_facts.
Import page internal cache_inner clock_list clock_inv clock_replace cache cache_spec.

Section facts.
Context {P : BuildProfile}.

(** ** Pages in use *)

(** Nobody loads a page; the pages [L] are shared by one user, the others are at
    rest. *)
Definition use_ok (n : Z) (used : bool) (g : Page_) : Prop :=
  if used then is_resident g = true /\ lock g = 1 /\ waiters (io g) = 0 else at_rest n g.

Record state_ok (n : Z) (s : CacheInner) (e : ptr) (c L : list ptr) : Prop := {
  so_inv : inv s e c [];
  so_use p g : p ∈ c -> heap s !! p = Some g -> use_ok n (bool_decide (p ∈ L)) g;
  so_sane : sane (options s);
  so_io : io_page_count s = 0;
  so_cost : hand_cold_cost s = 0;
  so_resident : resident_page_count s <= max_resident (options s);
  so_ghosts : non_resident_page_count s <= max_non_resident (options s)
}.

Lemma so_settled n s e c : state_ok n s e c [] -> settled n s c.
Proof. intros H p g Hp Hg. exact (so_use _ _ _ _ _ H p g Hp Hg). Qed.

Lemma state_weaken n m s e c L : n <= m -> state_ok n s e c L -> state_ok m s e c L.
Proof.
  intros Hn Hs. split; try apply Hs. intros p g Hp Hg. pose proof (so_use _ _ _ _ _ Hs p g Hp Hg) as Hu. destruct (bool_decide (p ∈ L)); [done|].
  destruct Hu as (Ht & Hw & Hl). split_and!; [done|done|]. destruct (data g); [done|lia].
Qed.

(** Every page but the end has one kind. *)
Lemma tally_total s e c X : inv s e c X -> Z.of_nat (length c) = 1 + resident_page_count s + non_resident_page_count s.
Proof.
  intros Hi. destruct (inv_split _ _ _ _ e Hi (inv_end _ _ _ _ Hi)) as (r & Hir & Hperm). pose proof (inv_nodup _ _ _ _ Hir) as Hnd.
  apply NoDup_cons in Hnd as [He _]. unfold resident_page_count. rewrite (inv_hot _ _ _ _ Hir), (inv_cold _ _ _ _ Hir), (inv_ghost _ _ _ _ Hir).
  rewrite (Permutation_length Hperm), !tally_cons. destruct (inv_end_page _ _ _ _ Hi) as (ge & Hge & Hse & Hde).
  assert (is_hot ge = false /\ is_cold ge = false /\ is_ghost ge = false) as (K1 & K2 & K3).
  { unfold is_hot, is_cold, is_ghost, is_resident. by rewrite Hse, Hde, andb_false_r. }
  rewrite !(holds_lookup _ _ _ _ Hge), K1, K2, K3. cbn [b2z length]. assert (forall p, p ∈ r -> p ∈ e :: r /\ p <> e) as Hr.
  { intros p Hp. split; [by right|]. by intros ->. }
  pose proof (inv_ok _ _ _ _ Hir) as Hok. assert (forall p, p ∈ r -> exists g, heap s !! p = Some g /\ page_ok g) as Hpg.
  { intros p Hp. destruct (Hr p Hp) as [H1 H2]. destruct (inv_lookup _ _ _ _ p Hir H1) as [g Hg]. exists g. eauto. }
  clear -Hpg. induction r as [|x r IH]; [done|]. rewrite !tally_cons. destruct (Hpg x ltac:(by left)) as (g & Hg & Hok). rewrite !(holds_lookup _ _ _ _ Hg).
  destruct (kinds g Hok) as [H1 H2]. specialize (IH ltac:(intros p Hp; apply Hpg; by right)). cbn [length] in *. lia.
Qed.

(** The fuel a fault needs. *)
Definition fault_fuel (o : Options) : nat := Z.to_nat ((max_resident o + max_non_resident o + 3) * (max_resident o + max_non_resident o + 1) + 2).

Lemma fault_fuel_ok s e c X fuel :
  inv s e c X -> sane (options s) -> resident_page_count s <= max_resident (options s) -> non_resident_page_count s <= max_non_resident (options s) ->
  (fault_fuel (options s) <= fuel)%nat -> visits c <= Z.of_nat fuel.
Proof.
  intros Hi [H1 H2 H3 _] Hr Hg Hf. pose proof (tally_total _ _ _ _ Hi) as Ht. destruct (resident_bounds _ _ _ _ Hi) as (B1 & B2 & B3).
  set (m := max_resident (options s) + max_non_resident (options s)) in *. assert (Z.of_nat (length c) <= m + 1) as Hl by (unfold m; lia).
  unfold visits, fault_fuel in *. fold m in Hf. assert ((Z.of_nat (length c) + 2) * Z.of_nat (length c) <= (m + 3) * (m + 1)) by (apply Z.mul_le_mono_nonneg; lia).
  lia.
Qed.

(** ** Changing one page *)

Lemma update_page_ok s e c X p g g' :
  inv s e c X -> p ∈ c -> p <> e -> heap s !! p = Some g ->
  prev g' = prev g -> next g' = next g -> key g' = key g -> status g' = status g -> is_resident g' = is_resident g -> page_ok g' ->
  inv (set_heap (<[p := g']> (heap s)) s) e c X.
Proof.
  intros Hi Hp Hpe Hg H1 H2 H3 H4 H5 H6.
  apply (inv_update s e c X p g g' (hot_page_count s) (resident_cold_page_count s) (non_resident_page_count s)); try done;
    unfold is_hot, is_cold, is_ghost; rewrite H4, ?H5; lia.
Qed.

Lemma state_update n m s e c L L' p g g' :
  state_ok n s e c L -> p ∈ c -> p <> e -> heap s !! p = Some g ->
  prev g' = prev g -> next g' = next g -> key g' = key g -> status g' = status g -> is_resident g' = is_resident g -> page_ok g' ->
  use_ok m (bool_decide (p ∈ L')) g' -> n <= m -> (forall q, q <> p -> q ∈ L' <-> q ∈ L) ->
  state_ok m (set_heap (<[p := g']> (heap s)) s) e c L'.
Proof.
  intros Hs Hp Hpe Hg H1 H2 H3 H4 H5 H6 Huse Hn HL. split; try apply Hs; [by apply (update_page_ok s e c [] p g g'); [apply Hs|..]|].
  intros q gq Hq Hgq. fields. destruct (decide (p = q)) as [<-|Hpq]; [rewrite lookup_insert_eq in Hgq; by injection Hgq as <-|].
  rewrite lookup_insert_ne in Hgq by done. pose proof (so_use _ _ _ _ _ Hs q gq Hq Hgq) as Hu.
  rewrite (bool_decide_ext _ _ (HL q (not_eq_sym Hpq))). destruct (bool_decide (q ∈ L)); [done|].
  destruct Hu as (Ht & Hw & Hl). split_and!; [done|done|]. destruct (data gq); [done|lia].
Qed.

Lemma cached_set s e c X p g g' k :
  inv s e c X -> p ∈ c -> p <> e -> heap s !! p = Some g -> key g = Some k ->
  let s' := set_heap (<[p := g']> (heap s)) s in
  page_map s !! k = Some p /\ cached s k = data g /\ cached s' k = data g' /\ forall k', k' <> k -> cached s' k' = cached s k'.
Proof.
  intros Hi Hp Hpe Hg Hk s'. destruct (inv_map _ _ _ _ Hi p g ltac:(by left) Hg) as (k0 & Hk0 & Hm). rewrite Hk in Hk0. injection Hk0 as <-.
  split; [done|]. unfold cached, s'. fields. rewrite Hm. cbn. rewrite Hg, lookup_insert_eq. split_and!; [done|done|].
  intros k' Hk'. destruct (page_map s !! k') as [q|] eqn:Hq; [|done]. cbn. rewrite lookup_insert_ne; [done|]. intros <-.
  destruct (inv_page _ _ _ _ Hi k' p Hq) as (_ & g0 & Hg0 & Hk0). congruence.
Qed.

(** Looking a page up. *)
Lemma lookup_page n s e c L k p : state_ok n s e c L -> page_map s !! k = Some p -> exists g, p ∈ c /\ p <> e /\ heap s !! p = Some g /\ key g = Some k.
Proof.
  intros Hs Hm. destruct (inv_page _ _ _ _ (so_inv _ _ _ _ _ Hs) k p Hm) as ([[Hp Hpe]|Hp] & g & Hg & Hk); [|by apply elem_of_nil in Hp]. by exists g.
Qed.

(** [lock_shared_data] on a page at rest. *)
Lemma share_ok n s e c L p g :
  state_ok n s e c L -> p ∈ c -> p <> e -> p ∉ L -> heap s !! p = Some g -> 0 <= n < 2 ^ 62 ->
  let w := if is_resident g then 1 else lock g + 1 in
  let s' := set_heap (<[p := set_lock w g]> (heap s)) s in
  lock_shared_data s p = Ok (is_resident g, s') /\ state_ok (n + 1) s' e c (if is_resident g then p :: L else L).
Proof.
  intros Hs Hp Hpe HpL Hg Hn w s'. pose proof (so_use _ _ _ _ _ Hs p g Hp Hg) as Hu. rewrite bool_decide_false in Hu by done. destruct Hu as (Ht & Hw & Hl).
  pose proof (inv_ok _ _ _ _ (so_inv _ _ _ _ _ Hs) p g Hp Hpe Hg) as Hok. pose proof lock_facts.constants as (Hmin & _).
  unfold lock_shared_data. rewrite (deref_page_ok _ _ _ Hg). run. destruct (data g) as [pd|] eqn:Ed.
  - assert (is_resident g = true) as Hr by (unfold is_resident; by rewrite Ed). unfold s', w. rewrite Hr, Hl.
    change (page_lock.lock_shared (E := memory_fault) page_lock.UNLOCKED) with (Ok (E := memory_fault) true, 1). cbv iota. rewrite (modify_ok _ _ _ _ Hg). run.
    rewrite (debug_assert_true true) by done. run. rewrite debug_assert_true by done. run. split; [done|].
    apply (state_update n _ s e c L (p :: L) p g); try done; try lia.
    + destruct Hok as (H1 & H2 & H3). split_and!; [done|done|]. cbn. unfold is_resident. cbn. by rewrite Ed.
    + rewrite bool_decide_true by (by left). done.
    + intros q Hq. rewrite elem_of_cons. split; [by intros [?|?]|by right].
  - assert (is_resident g = false) as Hr by (unfold is_resident; by rewrite Ed). unfold s', w. rewrite Hr.
    rewrite lock_facts.failed_attempt by (unfold page_lock.MAX_EXCLUSIVE, page_lock.USIZE; lia). rewrite (modify_ok _ _ _ _ Hg). run. split; [done|].
    apply (state_update n _ s e c L L p g); try done; try lia.
    + destruct Hok as (H1 & H2 & H3). split_and!; [done|done|]. intros _. cbn. lia.
    + rewrite bool_decide_false by done. split_and!; [done|done|]. cbn [data set_lock lock]. rewrite Ed. lia.
Qed.

(** [Drop for PageRef]. *)
Lemma release_ok n s e c L p g :
  state_ok n s e c (p :: L) -> p ∉ L -> p ∈ c -> p <> e -> heap s !! p = Some g ->
  let s' := set_heap (<[p := set_lock 0 g]> (heap s)) s in
  release s p = Ok s' /\ state_ok n s' e c L.
Proof.
  intros Hs HpL Hp Hpe Hg s'. pose proof (so_use _ _ _ _ _ Hs p g Hp Hg) as Hu. rewrite bool_decide_true in Hu by (by left). destruct Hu as (Hr & Hl & Hw).
  pose proof (inv_ok _ _ _ _ (so_inv _ _ _ _ _ Hs) p g Hp Hpe Hg) as (H1 & H2 & H3).
  unfold release. rewrite (deref_page_ok _ _ _ Hg). run. rewrite Hl.
  assert (page_lock.unlock_shared (E := memory_fault) 1 = (Ok tt, 0)) as -> by (unfold page_lock.unlock_shared; by destruct overflow_checks).
  rewrite (modify_ok _ _ _ _ Hg). run. split; [done|].
  apply (state_update n _ s e c (p :: L) L p g); try done.
  - split_and!; [done|done|]. change (is_resident (set_lock 0 g)) with (is_resident g). by rewrite Hr.
  - rewrite bool_decide_false by done. split_and!; [by apply resident_tidy|done|]. cbn [data set_lock lock]. unfold is_resident in Hr. by destruct (data g).
  - intros q Hq. rewrite elem_of_cons. split; [by right|by intros [?|?]].
Qed.

(** A page in use gets another content. *)
Lemma set_page_data_ok n s e c L p g pd :
  state_ok n s e c L -> p ∈ L -> p ∈ c -> p <> e -> heap s !! p = Some g ->
  state_ok n (set_heap (<[p := set_data (Some pd) g]> (heap s)) s) e c L.
Proof.
  intros Hs HpL Hp Hpe Hg. pose proof (so_use _ _ _ _ _ Hs p g Hp Hg) as Hu. rewrite bool_decide_true in Hu by done. destruct Hu as (Hr & Hl & Hw).
  pose proof (inv_ok _ _ _ _ (so_inv _ _ _ _ _ Hs) p g Hp Hpe Hg) as (H1 & H2 & H3).
  apply (state_update n n s e c L L p g); try done.
  - split_and!; [done| |done]. cbn [status set_data]. by destruct (status g); try congruence.
  - by rewrite bool_decide_true.
Qed.

(** ** A fault *)

(** What a new buffer holds. *)
Definition blank_bytes (s : CacheInner) : list Z := replicate (Z.to_nat (page_len (options s))) 0.

Lemma new_blank s d : page.new (E := memory_fault) (page_len (options s)) (page_align (options s)) = Ok d -> d = mkPage false (blank_bytes s).
Proof. unfold page.new, aligned_buf. case_match; [|done]. intros Hn. by injection Hn as <-. Qed.

(** The page [p] of key [k] is being loaded into the buffer [d] of the donor. *)
Record loading (n : Z) (s s' : CacheInner) (e : ptr) (c' : list ptr) (donor : option DonorPage) (p : ptr) (k : nat * Z) (d : Page) : Prop := {
  ld_inv : inv s' e c' [];
  ld_in : p ∈ c' /\ p <> e;
  ld_page : exists g, heap s' !! p = Some g /\ key g = Some k /\ data g = Some d /\ waiters (io g) = 1 /\
    page_lock.MIN_EXCLUSIVE <= lock g /\ (status g = Hot \/ status g = Test);
  ld_rest : settled_but n s' c' p;
  ld_options : options s' = options s;
  ld_sane : sane (options s');
  ld_io : io_page_count s' = 1;
  ld_cost : hand_cold_cost s' = 0;
  ld_resident : resident_page_count s' <= max_resident (options s');
  ld_ghosts : non_resident_page_count s' <= max_non_resident (options s');
  ld_cached : cached s' k = Some d;
  ld_other : match donor with
    | None => d = mkPage false (blank_bytes s) /\ forall k', k' <> k -> cached s' k' = cached s k'
    | Some dn => let kd := (donor_scope dn, donor_id dn) in
        kd <> k /\ cached s kd = Some d /\ cached s' kd = None /\ forall k', k' <> k -> k' <> kd -> cached s' k' = cached s k'
    end
}.

(** A page that faults: it is new, or it is marked and has no data. *)
Definition faulting (s : CacheInner) (c : list ptr) (page : option ptr) (k : nat * Z) : Prop :=
  match page with
  | None => page_map s !! k = None
  | Some p => p ∈ c /\ exists g, heap s !! p = Some g /\ status g = ProtectedTest /\ key g = Some k
  end.

Lemma mild_faulting s c s' c' page k e :
  inv s e c [] -> inv s' e c' [] -> mild s c s' c' -> faulting s c page k -> faulting s' c' page k.
Proof.
  intros Hi Hi' Hm. destruct page as [p|]; cbn.
  - intros (Hp & g & Hg & Hst & Hk). destruct (mild_prot _ _ _ _ Hm p g Hp Hg Hst) as [Hp' [g' Hg']]. split; [done|].
    destruct (mild_page _ _ _ _ Hm p g' Hp' Hg') as (g0 & Hg0 & Hk' & _ & Hst' & _). exists g'. assert (g0 = g) as -> by congruence.
    split_and!; [done|by apply Hst'|congruence].
  - intros Hnone. destruct (page_map s' !! k) as [p|] eqn:Hp; [|done]. exfalso.
    destruct (inv_page _ _ _ _ Hi' k p Hp) as ([[Hpc Hpe]|Hpc] & g' & Hg' & Hk'); [|by apply elem_of_nil in Hpc].
    destruct (mild_page _ _ _ _ Hm p g' Hpc Hg') as (g & Hg & Hkg & _).
    destruct (inv_map _ _ _ _ Hi p g ltac:(left; split; [by apply (mild_sub _ _ _ _ Hm)|done]) Hg) as (k0 & Hk0 & Hm0). congruence.
Qed.

(** The buffer goes to the page that faulted. *)
Lemma bring_in_ok n s e c fuel page sc i d :
  inv s e c [] -> 0 <= n -> settled n s c -> faulting s c page (sc, i) -> visits c <= Z.of_nat fuel -> Z.of_nat (length c) + 1 < 2 ^ 32 ->
  exists p s' c', (match page with Some p => replace_page_data fuel s p d | None => add_page_data s sc i d end) = Ok (p, s') /\
    inv s' e c' [] /\ brought_in n s s' e c' p (sc, i) d.
Proof.
  intros Hi Hn Hs Hf Hv Hl. destruct page as [p|]; cbn in Hf.
  - destruct Hf as (Hp & g & Hg & Hst & Hk). destruct (replace_page_data_ok s e c n p g (sc, i) d fuel) as (s' & c' & Hr & Hi' & Hb); try done. by exists p, s', c'.
  - destruct (add_page_data_ok s e c n sc i d) as (p & s' & c' & Hr & Hi' & Hb); try done. by exists p, s', c'.
Qed.

Lemma load_page_ok n s e c fuel page sc i :
  inv s e c [] -> 0 <= n -> settled n s c -> sane (options s) -> io_page_count s = 0 -> hand_cold_cost s = 0 ->
  resident_page_count s <= max_resident (options s) -> non_resident_page_count s <= max_non_resident (options s) ->
  faulting s c page (sc, i) -> cached s (sc, i) = None -> (fault_fuel (options s) <= fuel)%nat -> Z.of_nat fuel < 2 ^ 62 ->
  exists donor p s' c' d, load_page fuel s sc i page = Ok (Load donor p, s') /\ loading n s s' e c' donor p (sc, i) d.
Proof.
  intros Hi Hn Hs Hsane Hio Hcost Hres Hgh Hf Hnone Hfuel Hmax. pose proof (fault_fuel_ok _ _ _ _ _ Hi Hsane Hres Hgh Hfuel) as Hv.
  destruct (acquire_ok s e c [] n fuel) as (donor & d & s1 & c1 & Hacq & Hi1 & Hm1 & Ht1 & Hr1 & Hg1 & Hd); try done.
  pose proof (mild_settled _ _ _ _ _ Hn Hm1 Ht1 Hs) as Hs1. pose proof (mild_faulting _ _ _ _ _ _ _ Hi Hi1 Hm1 Hf) as Hf1.
  pose proof (sub_length c c1 (inv_nodup _ _ _ _ Hi1) (mild_sub _ _ _ _ Hm1)) as Hlen. pose proof (mild_options _ _ _ _ Hm1) as Hopt.
  pose proof (tally_total _ _ _ _ Hi) as Htot. pose proof (sane_size _ Hsane).
  destruct (bring_in_ok n s1 e c1 fuel page sc i d) as (p & s2 & c2 & Hbring & Hi2 & Hb); try done; [unfold visits in *; nia|lia|].
  unfold load_page. rewrite Hacq. run. rewrite Hbring. run. destruct (bi_page _ _ _ _ _ _ _ _ Hb) as (g & Hg & Hk & Hdata & Hw & Hl & Hst).
  destruct (bi_in _ _ _ _ _ _ _ _ Hb) as [Hp Hpe].
  rewrite (deref_page_ok _ _ _ Hg). run. unfold begin. rewrite Hw. change (0 =? 0) with true. cbv iota. run. rewrite (modify_ok _ _ _ _ Hg). run. fields.
  rewrite (bi_io _ _ _ _ _ _ _ _ Hb), (mild_io _ _ _ _ Hm1), Hio. rewrite add_u64_ok by (unfold is_u64, U64; lia). run.
  eexists donor, p, _, c2, d. split; [reflexivity|]. set (g' := set_io _ g). set (s3 := set_heap (<[p := g']> (heap s2)) s2).
  match goal with |- loading _ _ ?t _ _ _ _ _ _ => set (s4 := t) end.
  assert (inv s3 e c2 []) as Hi3.
  { pose proof (inv_ok _ _ _ _ Hi2 p g Hp Hpe Hg) as Hok. apply (update_page_ok s2 e c2 [] p g g'); done. }
  destruct (cached_set s2 e c2 [] p g g' (sc, i) Hi2 Hp Hpe Hg Hk) as (_ & _ & Hck & Hco). fold s3 in Hck, Hco.
  assert (forall k, cached s4 k = cached s3 k) as Hc4 by done. pose proof (bi_other _ _ _ _ _ _ _ _ Hb) as Hbo.
  pose proof (bi_options _ _ _ _ _ _ _ _ Hb) as Hopt2. pose proof (bi_resident _ _ _ _ _ _ _ _ Hb) as Hr2. pose proof (bi_ghosts _ _ _ _ _ _ _ _ Hb) as Hg2.
  split; try done.
  - exact (inv_io_count _ _ _ _ 1 (inv_costs _ _ _ _ 0 (max_hand_cold_cost s3) Hi3)).
  - exists g'. split; [apply lookup_insert_eq|]. done.
  - intros q gq Hq Hqp Hgq. change (heap s4) with (<[p := g']> (heap s2)) in Hgq. rewrite lookup_insert_ne in Hgq by done. by apply (bi_rest _ _ _ _ _ _ _ _ Hb q).
  - change (options s4) with (options s2). congruence.
  - change (options s4) with (options s2). by rewrite Hopt2, Hopt.
  - change (resident_page_count s4) with (resident_page_count s2). change (options s4) with (options s2). rewrite Hopt2, Hopt, Hr2. lia.
  - change (non_resident_page_count s4) with (non_resident_page_count s2). change (options s4) with (options s2). rewrite Hopt2, Hopt. lia.
  - rewrite Hc4, Hck. done.
  - destruct donor as [dn|].
    + destruct Hd as [_ Hheld Hgone Hoth _]. assert ((donor_scope dn, donor_id dn) <> (sc, i)) as Hne by congruence. split_and!; try done.
      * rewrite Hc4, Hco, Hbo by done. done.
      * intros k' H1 H2. rewrite Hc4, Hco, Hbo by done. by apply Hoth.
    + destruct Hd as [Hsame Hnew]. split; [by apply new_blank|]. intros k' Hk'. rewrite Hc4, Hco, Hbo by done. apply Hsame.
Qed.

Lemma cached_page n s e c L p g k : state_ok n s e c L -> p ∈ c -> p <> e -> heap s !! p = Some g -> key g = Some k -> cached s k = data g.
Proof.
  intros Hs Hp Hpe Hg Hk. by destruct (cached_set s e c [] p g g k (so_inv _ _ _ _ _ Hs) Hp Hpe Hg Hk) as (_ & ? & _).
Qed.

(** Under the mutex, for a page that is not held. *)
Lemma enter_locked_ok n s e c fuel sc i :
  state_ok n s e c [] -> 0 <= n < 2 ^ 62 -> cached s (sc, i) = None -> (fault_fuel (options s) <= fuel)%nat -> Z.of_nat fuel < 2 ^ 62 ->
  exists donor p s1 s' c' d, enter_locked fuel s sc i = Ok (Load donor p, s') /\ loading (n + 1) s1 s' e c' donor p (sc, i) d /\
    options s1 = options s /\ forall k, cached s1 k = cached s k.
Proof.
  intros Hs Hn Hnone Hfuel Hmax. unfold enter_locked. destruct (page_map s !! (sc, i)) as [p|] eqn:Hm; cycle 1.
  { destruct (load_page_ok (n + 1) s e c fuel None sc i) as (donor & p & s' & c' & d & Hl & Hld); try apply Hs; try done; [lia| |].
    - eapply settled_weaken; [|by apply (so_settled n s e c)]. lia.
    - by exists donor, p, s, s', c', d. }
  destruct (lookup_page _ _ _ _ _ _ _ Hs Hm) as (g & Hp & Hpe & Hg & Hk). pose proof (cached_page _ _ _ _ _ _ _ _ Hs Hp Hpe Hg Hk) as Hd. rewrite Hnone in Hd.
  assert (is_resident g = false) as Hr by (unfold is_resident; by rewrite <- Hd). destruct (so_use _ _ _ _ _ Hs p g Hp Hg) as (Htidy & Hw & Hlk). rewrite <- Hd in Hlk.
  rewrite (deref_page_ok _ _ _ Hg). run. unfold is_running. rewrite Hw. change (0 <? 0) with false. cbv iota.
  destruct (share_ok n s e c [] p g Hs Hp Hpe ltac:(apply not_elem_of_nil) Hg Hn) as [Hsh Hs1]. rewrite Hr in Hsh, Hs1. rewrite Hsh. run.
  rewrite Hr. rewrite (debug_assert_true (negb false)) by done. run.
  pose proof (inv_ok _ _ _ _ (so_inv _ _ _ _ _ Hs) p g Hp Hpe Hg) as (Hsc & Hst & _).
  assert (status g = Test \/ status g = ProtectedTest) as Hst'.
  { destruct (Htidy (eq_sym Hd)) as [?|[?|E]]; auto. by rewrite E in Hst. }
  rewrite debug_assert_true by (by apply bool_decide_eq_true). run. set (g1 := set_lock (lock g + 1) g) in *. set (s1 := set_heap (<[p := g1]> (heap s)) s) in *.
  assert (heap s1 !! p = Some g1) as Hg1 by (unfold s1; fields; apply lookup_insert_eq). rewrite (modify_ok _ _ _ _ Hg1). run.
  set (g2 := set_status ProtectedTest g1). set (s2 := set_heap (<[p := g2]> (heap s1)) s1).
  assert (inv s2 e c []) as Hi2.
  { pose proof (inv_ok _ _ _ _ (so_inv _ _ _ _ _ Hs1) p g1 Hp Hpe Hg1) as (_ & _ & Hl1).
    apply (inv_update s1 e c [] p g1 g2 (hot_page_count s1) (resident_cold_page_count s1) (non_resident_page_count s1)); try done; [by apply Hs1| | |].
    - assert (is_hot g1 = false) as -> by (unfold is_hot; cbn [status set_lock g1]; by destruct Hst' as [-> | ->]). change (is_hot g2) with false. lia.
    - assert (is_cold g1 = false) as -> by (unfold is_cold; change (is_resident g1) with (is_resident g); by rewrite Hr, andb_false_r). change (is_cold g2) with false. lia.
    - assert (is_ghost g1 = true) as -> by (unfold is_ghost; change (is_resident g1) with (is_resident g); rewrite Hr; cbn [status set_lock g1]; by destruct Hst' as [-> | ->]).
      assert (is_ghost g2 = true) as -> by (unfold is_ghost; change (is_resident g2) with (is_resident g); by rewrite Hr). lia. }
  assert (forall k, cached s2 k = cached s k) as Hck.
  { intros k. destruct (cached_set s e c [] p g g1 (sc, i) (so_inv _ _ _ _ _ Hs) Hp Hpe Hg Hk) as (_ & A1 & A2 & A3).
    destruct (cached_set s1 e c [] p g1 g2 (sc, i) (so_inv _ _ _ _ _ Hs1) Hp Hpe Hg1 Hk) as (_ & B1 & B2 & B3). fold s1 in A2, A3. fold s2 in B2, B3.
    destruct (decide (k = (sc, i))) as [->|Hne]; [by rewrite B2, A1|by rewrite B3, A3]. }
  destruct (load_page_ok (n + 1) s2 e c fuel (Some p) sc i) as (donor & q & s' & c' & d & Hl & Hld); try apply Hs; try done; [lia| | |by rewrite Hck|].
  - intros q gq Hq Hgq. unfold s2 in Hgq. fields. destruct (decide (p = q)) as [<-|Hpq].
    + rewrite lookup_insert_eq in Hgq. injection Hgq as <-. destruct (so_use _ _ _ _ _ Hs1 p g1 Hp Hg1) as (_ & Hw1 & Hl1). split_and!; [|done|done].
      intros _. by right; left.
    + rewrite lookup_insert_ne in Hgq by done. by apply (so_settled _ _ _ _ Hs1 q).
  - split; [done|]. exists g2. split; [unfold s2; fields; apply lookup_insert_eq|]. done.
  - by exists donor, q, s2, s', c', d.
Qed.

(** The end of a load: the page is shared by the thread that loaded it. *)
Lemma finish_load_ok n s s' e c' donor p k d g d' :
  loading n s s' e c' donor p k d -> heap s' !! p = Some g ->
  let s1 := set_heap (<[p := set_data (Some d') g]> (heap s')) s' in
  exists s2, finish_load s1 p None = Ok s2 /\ state_ok n s2 e c' [p] /\ data_ref s2 p = Ok p /\
    (exists g2, heap s2 !! p = Some g2 /\ data g2 = Some d' /\ key g2 = Some k) /\
    cached s2 k = Some d' /\ (forall k', k' <> k -> cached s2 k' = cached s' k') /\ options s2 = options s'.
Proof.
  intros [Hi [Hp Hpe] (g0 & Hg0 & Hk & Hd & Hw & Hl & Hst) Hrest _ Hsane Hio Hcost Hres Hgh Hck _] Hg s1. rewrite Hg in Hg0. injection Hg0 as <-.
  pose proof (inv_ok _ _ _ _ Hi p g Hp Hpe Hg) as (Hsc & Hok & _). unfold finish_load, s1. rewrite (deref_page_ok _ p _ (lookup_insert_eq _ _ _)). run.
  unfold finish_io. cbn [lock io set_data]. rewrite Hw.
  assert (page_lock.exclusive_to_shared (E := memory_fault) (lock g) 1 = (Ok tt, 1)) as ->.
  { unfold page_lock.exclusive_to_shared. rewrite lock_facts.lock_state_exclusive by done. by rewrite andb_false_r. }
  run. fields. rewrite Hio, sub_u64_ok by (unfold U64; lia). run. change (1 - 1) with 0. rewrite insert_insert_eq.
  set (g2 := set_io _ _). eexists. split; [reflexivity|].
  assert (inv (set_heap (<[p := g2]> (heap s')) s') e c' []) as Hi2.
  { apply (update_page_ok s' e c' [] p g g2); try done; [unfold is_resident; cbn; by rewrite Hd|]. split_and!; [done| |done].
    cbn [status g2 set_io set_lock set_data]. by destruct Hst as [-> | ->]. }
  destruct (cached_set s' e c' [] p g g2 k Hi Hp Hpe Hg Hk) as (_ & _ & C1 & C2).
  match goal with |- state_ok _ ?t _ _ _ /\ _ => set (s2 := t) end. assert (heap s2 !! p = Some g2) as Hg2 by apply lookup_insert_eq.
  split_and!; try done.
  - split; try done; [by apply inv_io_count|]. intros q gq Hq Hgq. destruct (decide (q = p)) as [->|Hqp].
    + rewrite Hg2 in Hgq. injection Hgq as <-. rewrite bool_decide_true by (by left). done.
    + rewrite bool_decide_false by (by intros ?%list_elem_of_singleton). apply (Hrest q); try done. change (heap s2) with (<[p := g2]> (heap s')) in Hgq.
      by rewrite lookup_insert_ne in Hgq.
  - unfold data_ref. rewrite (deref_page_ok _ _ _ Hg2). run. rewrite (debug_assert_true (is_resident g2)) by done. run. by rewrite debug_assert_true.
  - by exists g2.
Qed.

Context {Sc : Scope} {SL : ScopeLaws Sc}.

(** ** The array the cache stands for *)

Definition logical (s : CacheInner) (d : D) : store :=
  fun k => match cached s k with Some p => view d k (bytes p) | None => content d k end.

(** A clean page shows what the file has, buffers have the right length, and the
    pages that are not held can be read. *)
Record coherent (s : CacheInner) (d : D) : Prop := {
  coh_clean k p : cached s k = Some p -> dirty p = false -> view d k (bytes p) = content d k;
  coh_buffer k p : cached s k = Some p -> buffer (bytes p);
  coh_readable k : cached s k = None -> readable (content d k);
  coh_blank : buffer (blank_bytes s)
}.

(** The files never fail. *)
Definition reliable : Prop :=
  (forall d sc i b, buffer b -> readable (content d (sc, i)) -> is_Some (scope_read d sc i b)) /\
  (forall d sc i b, buffer b -> is_Some (scope_write d sc i b)).

(** The cache does not change which part of a page is in the file. *)
Definition same_view (d d' : D) : Prop := meta d' = meta d.

Lemma same_view_trans d1 d2 d3 : same_view d1 d2 -> same_view d2 d3 -> same_view d1 d3.
Proof. unfold same_view. congruence. Qed.

Lemma same_cached s s' d : (forall k, cached s' k = cached s k) -> options s' = options s ->
  (forall k, logical s' d k = logical s d k) /\ (coherent s d -> coherent s' d).
Proof.
  intros H Ho. split; [intros k; unfold logical; by rewrite H|]. intros [H1 H2 H3 H4]. split; [intros k p|intros k p|intros k|unfold blank_bytes; by rewrite Ho]; rewrite H; eauto.
Qed.

Lemma logical_readable s d k : coherent s d -> readable (logical s d k).
Proof.
  intros Hc. unfold logical. destruct (cached s k) eqn:E; [|by apply (coh_readable s)]. by eapply view_readable, coh_buffer.
Qed.

(** Writing a buffer back makes the file agree with it. *)
Lemma write_ok C d sc i buf : reliable -> buffer (bytes buf) ->
  exists w buf' d' C', write C d sc i buf = (Some (w, buf', d'), C') /\ inner C' = inner C /\ bytes buf' = bytes buf /\ dirty buf' = false /\
    same_view d d' /\ (forall k, k <> (sc, i) -> readable (content d k) -> content d' k = content d k) /\
    content d' (sc, i) = (if dirty buf then view d (sc, i) (bytes buf) else content d (sc, i)).
Proof.
  intros [_ Hw] Hbuf. unfold write, is_dirty. destruct (dirty buf) eqn:Hd.
  - destruct (Hw d sc i (bytes buf) Hbuf) as [d' Hd']. rewrite Hd'. eexists _, _, _, _. split; [reflexivity|].
    destruct (write_content d sc i (bytes buf) d' Hbuf Hd') as [Hc Hv]. split_and!; try done.
    intros k Hk Hr. by apply (write_other d sc i (bytes buf)).
  - eexists _, _, _, _. split; [reflexivity|]. done.
Qed.

(** The pages a load leaves alone. *)
Lemma loading_back n s s' e c' donor p k buf k' q :
  loading n s s' e c' donor p k buf -> k' <> k -> cached s' k' = Some q -> cached s k' = Some q.
Proof.
  intros Hld Hkk Hq. pose proof (ld_other _ _ _ _ _ _ _ _ _ Hld) as Ho. destruct donor as [dn|].
  - destruct Ho as (_ & _ & Hgone & Hoth). rewrite <- Hoth; [done|done|]. congruence.
  - destruct Ho as [_ Hoth]. by rewrite <- Hoth.
Qed.

(** The donor's page is written: the file takes over what the cache gives up. *)
Lemma write_donor n s C d e c' donor p k buf :
  reliable -> coherent s d -> loading n s (inner C) e c' donor p k buf -> cached s k = None ->
  exists wr buf1 d1 C1, match donor with Some dn => write C d (donor_scope dn) (donor_id dn) buf | None => (Some (false, buf, d), C) end = (Some (wr, buf1, d1), C1) /\
    inner C1 = inner C /\ buffer (bytes buf1) /\ same_view d d1 /\ content d1 k = content d k /\
    forall k', k' <> k -> (cached (inner C) k' = None -> content d1 k' = logical s d k') /\
      (forall q, cached (inner C) k' = Some q -> dirty q = false -> content d1 k' = content d k').
Proof.
  intros Hrel Hcoh Hld Hnone. pose proof (ld_other _ _ _ _ _ _ _ _ _ Hld) as Ho. pose proof (coh_readable _ _ Hcoh k Hnone) as Hrk. destruct donor as [dn|].
  - destruct Ho as (Hne & Hheld & Hgone & Hoth). set (kd := (donor_scope dn, donor_id dn)) in *.
    destruct (write_ok C d (donor_scope dn) (donor_id dn) buf Hrel (coh_buffer _ _ Hcoh kd buf Hheld)) as (wr & buf1 & d1 & C1 & -> & HC1 & Hb1 & _ & Hsv & Hsame & Hkd).
    fold kd in Hsame, Hkd. exists wr, buf1, d1, C1. split_and!; try done; [rewrite Hb1; by apply (coh_buffer s d Hcoh kd)|by apply Hsame|].
    intros k' Hk'. split.
    + intros Hnk. destruct (decide (k' = kd)) as [->|Hkk].
      * rewrite Hkd. unfold logical. rewrite Hheld. destruct (dirty buf) eqn:Edirty; [done|]. symmetry. by apply Hcoh.
      * rewrite Hoth in Hnk by done. unfold logical. rewrite Hnk. apply Hsame; [done|]. by apply Hcoh.
    + intros q Hq Hdq. assert (k' <> kd) as Hkk by congruence. apply Hsame; [done|]. pose proof (loading_back _ _ _ _ _ _ _ _ _ _ _ Hld Hk' Hq) as Hqs.
      rewrite <- (coh_clean _ _ Hcoh k' q Hqs Hdq). by eapply view_readable, coh_buffer.
  - destruct Ho as [-> Hoth]. eexists _, _, d, C. split; [reflexivity|]. split_and!; try done; [apply Hcoh|]. intros k' Hk'. split; [|done].
    intros Hnk. rewrite Hoth in Hnk by done. unfold logical. by rewrite Hnk.
Qed.

(** The transfer of a fault: every page of the array keeps its content. *)
Lemma transfer_ok n s C d e c' donor p k buf :
  reliable -> coherent s d -> loading n s (inner C) e c' donor p k buf -> cached s k = None ->
  exists g buf' C' d', transfer C d k.1 k.2 donor p = Ok (None, C', d') /\ heap (inner C) !! p = Some g /\
    inner C' = set_heap (<[p := set_data (Some buf') g]> (heap (inner C))) (inner C) /\ same_view d d' /\
    forall s2, cached s2 k = Some buf' -> (forall k', k' <> k -> cached s2 k' = cached (inner C) k') -> options s2 = options s ->
      (forall k', logical s2 d' k' = logical s d k') /\ coherent s2 d'.
Proof.
  intros Hrel Hcoh Hld Hnone. destruct (ld_page _ _ _ _ _ _ _ _ _ Hld) as (g & Hg & Hk & Hd & _). exists g.
  unfold transfer. rewrite (deref_page_ok _ _ _ Hg). run. rewrite Hd. run.
  destruct (write_donor n s C d e c' donor p k buf Hrel Hcoh Hld Hnone) as (wr & buf1 & d1 & C1 & Hw & HC1 & Hb1 & Hsv1 & Hc1 & Hd1). rewrite Hw. unfold read.
  assert (readable (content d1 (k.1, k.2))) as Hrk by (rewrite <- surjective_pairing, Hc1; by apply Hcoh).
  destruct (proj1 Hrel d1 k.1 k.2 (bytes buf1) Hb1 Hrk) as [[b d2] Hread]. rewrite Hread.
  destruct (read_content d1 _ _ _ _ _ Hb1 Hrk Hread) as (Hb & Hv & Hsame2 & Hsv2). rewrite <- surjective_pairing in Hv.
  assert (inner (count_read C1) = inner C) as HC2 by done. rewrite HC2, (modify_ok _ _ _ _ Hg). run.
  exists (mkPage false b). eexists _, d2. split; [reflexivity|]. split_and!; try done; [by eapply same_view_trans|].
  intros s2 Hs2 Hoth2 Ho2. assert (forall k', cached s2 k' = if decide (k' = k) then Some (mkPage false b) else cached (inner C) k') as Hcs.
  { intros k'. case_decide; [by subst|by apply Hoth2]. }
  split; [|split].
  - intros k'. unfold logical at 1. rewrite Hcs. case_decide as Hkk.
    + subst k'. unfold logical. rewrite Hnone. cbn. by rewrite (meta_view _ _ _ _ Hsv2), Hv.
    + rewrite Hsame2. destruct (cached (inner C) k') as [q|] eqn:Hq; [|by apply Hd1].
      unfold logical. rewrite (loading_back _ _ _ _ _ _ _ _ _ _ _ Hld Hkk Hq). by rewrite (meta_view _ _ _ _ (same_view_trans _ _ _ Hsv1 Hsv2)).
  - intros k' q. rewrite Hcs, (meta_view _ _ _ _ Hsv2), Hsame2. case_decide as Hkk; [subst k'; by intros [= <-] _|]. intros Hq Hdirty.
    rewrite (proj2 (Hd1 k' Hkk) q Hq Hdirty), (meta_view _ _ _ _ Hsv1). apply Hcoh; [by eapply loading_back|done].
  - intros k' q. rewrite Hcs. case_decide as Hkk; [by intros [= <-]|]. intros Hq. eapply (coh_buffer _ _ Hcoh k'). by eapply loading_back.
  - intros k'. rewrite Hcs. case_decide as Hkk; [done|]. intros Hq. rewrite Hsame2, (proj1 (Hd1 k' Hkk) Hq). by apply logical_readable.
  - unfold blank_bytes. rewrite Ho2. apply Hcoh.
Qed.

(** A user has the page [p] of key [k]; the array is [st]. *)
Record got (n : Z) (st : store) (o : Options) (d0 : D) (C : Cache) (d : D) (e : ptr) (c : list ptr) (p : ptr) (k : nat * Z) : Prop := {
  got_state : state_ok n (inner C) e c [p];
  got_in : p ∈ c /\ p <> e;
  got_page : exists g pd, heap (inner C) !! p = Some g /\ key g = Some k /\ data g = Some pd /\ view d0 k (bytes pd) = st k;
  got_view : same_view d0 d;
  got_same k' : logical (inner C) d k' = st k';
  got_coherent : coherent (inner C) d;
  got_options : options (inner C) = o
}.

(** A fault. *)
Lemma page_loop_ok n C d e c fuel m k :
  reliable -> coherent (inner C) d -> state_ok n (inner C) e c [] -> 0 <= n < 2 ^ 62 -> cached (inner C) k = None ->
  (fault_fuel (options (inner C)) <= fuel)%nat -> Z.of_nat fuel < 2 ^ 62 ->
  exists p C' d' c', page_loop fuel (S m) C d k.1 k.2 = Ok (inl p, C', d') /\ got (n + 1) (logical (inner C) d) (options (inner C)) d C' d' e c' p k.
Proof.
  intros Hrel Hcoh Hs Hn Hnone Hfuel Hmax. rewrite (surjective_pairing k) in Hnone.
  destruct (enter_locked_ok n (inner C) e c fuel k.1 k.2 Hs Hn Hnone Hfuel Hmax) as (donor & p & s1 & s2 & c2 & buf & Hent & Hld & Ho1 & Hck).
  rewrite <- surjective_pairing in Hnone, Hld. cbn [page_loop]. rewrite Hent. run.
  destruct (same_cached (inner C) s1 d Hck Ho1) as [Hlog1 Hcoh1].
  destruct (transfer_ok (n + 1) s1 (set_inner s2 C) d e c2 donor p k buf Hrel (Hcoh1 Hcoh) Hld ltac:(by rewrite Hck)) as (g & buf' & C3 & d3 & Ht & Hg & HC3 & Hsv & Hpost).
  rewrite Ht. run. destruct (finish_load_ok (n + 1) s1 s2 e c2 donor p k buf g buf' Hld Hg) as (s4 & Hfin & Hs4 & Href & (g4 & Hg4 & Hd4 & Hk4) & Hc4 & Ho4 & Hopt4).
  rewrite HC3. change (inner (set_inner s2 C)) with s2. rewrite Hfin. run. rewrite Href. run.
  exists p, (set_inner s4 C3), d3, c2. split; [done|]. assert (options s4 = options s1) as Hopt by (by rewrite Hopt4, (ld_options _ _ _ _ _ _ _ _ _ Hld)).
  destruct (Hpost s4 Hc4 Ho4 Hopt) as [Hlog4 Hcoh4]. split; [done|apply Hld| |done|intros k'|done|].
  - exists g4, buf'. split_and!; try done. rewrite <- Hlog1, <- Hlog4. unfold logical. by rewrite Hc4, (meta_view _ _ _ _ Hsv).
  - change (inner (set_inner s4 C3)) with s4. by rewrite Hlog4.
  - change (inner (set_inner s4 C3)) with s4. by rewrite Hopt, Ho1.
Qed.

(** [Cache::page] returns the page of the array. *)
Lemma page_returns n C d e c fuel k :
  reliable -> coherent (inner C) d -> state_ok n (inner C) e c [] -> 0 <= n < 2 ^ 61 ->
  (fault_fuel (options (inner C)) <= fuel)%nat -> Z.of_nat fuel < 2 ^ 62 ->
  exists p C' d' c', page fuel C d k.1 k.2 = Ok (inl p, C', d') /\ got (n + 2) (logical (inner C) d) (options (inner C)) d C' d' e c' p k.
Proof.
  intros Hrel Hcoh Hs Hn Hfuel Hmax. assert (exists m, fuel = S m) as [m Em].
  { destruct fuel; [unfold fault_fuel in Hfuel; destruct (so_sane _ _ _ _ _ Hs); lia|by eexists]. }
  assert (forall m' C1, options (inner C1) = options (inner C) -> (forall k', cached (inner C1) k' = cached (inner C) k') -> state_ok (n + 1) (inner C1) e c [] ->
    cached (inner C) k = None ->
    exists p C' d' c', page_loop fuel (S m') C1 d k.1 k.2 = Ok (inl p, C', d') /\ got (n + 2) (logical (inner C) d) (options (inner C)) d C' d' e c' p k) as Hmiss.
  { intros m' C1 Ho Hck Hs1 Hnone. destruct (same_cached (inner C) (inner C1) d Hck Ho) as [Hlog Hcoh1].
    destruct (page_loop_ok (n + 1) C1 d e c fuel m' k) as (p & C' & d' & c' & Hp & [G1 G2 G3 Gv G4 G5 G6]); try done; [by apply Hcoh1|lia|by rewrite Hck|by rewrite Ho|].
    exists p, C', d', c'. split; [done|]. replace (n + 2) with (n + 1 + 1) by lia. split; try done; [|intros k'; by rewrite G4|congruence].
    destruct G3 as (g & pd & ? & ? & ? & Hv). exists g, pd. by rewrite <- Hlog. }
  unfold page, enter_fast. rewrite <- surjective_pairing. destruct (page_map (inner C) !! k) as [p|] eqn:Hm; cycle 1.
  { run. rewrite (f_equal (fun x => page_loop fuel x (miss C) d k.1 k.2) Em). apply Hmiss; try done; [|unfold cached; by rewrite Hm].
    eapply state_weaken; [|exact Hs]. lia. }
  destruct (lookup_page _ _ _ _ _ _ _ Hs Hm) as (g & Hp & Hpe & Hg & Hk). pose proof (cached_page _ _ _ _ _ _ _ _ Hs Hp Hpe Hg Hk) as Hd.
  destruct (share_ok n (inner C) e c [] p g Hs Hp Hpe ltac:(apply not_elem_of_nil) Hg ltac:(lia)) as [Hsh Hs1]. rewrite Hsh. run.
  match type of Hs1 with state_ok _ ?t _ _ _ => set (s1 := t) in * end. set (w := if is_resident g then 1 else lock g + 1) in *.
  destruct (cached_set (inner C) e c [] p g (set_lock w g) k (so_inv _ _ _ _ _ Hs) Hp Hpe Hg Hk) as (_ & _ & C1 & C2). fold s1 in C1, C2.
  assert (forall k', cached s1 k' = cached (inner C) k') as Hck1.
  { intros k'. destruct (decide (k' = k)) as [->|]; [by rewrite C1, Hd|by apply C2]. }
  destruct (is_resident g) eqn:Hr; cycle 1.
  { run. rewrite (f_equal (fun x => page_loop fuel x (miss (set_inner s1 C)) d k.1 k.2) Em). apply Hmiss; try done.
    rewrite Hd. unfold is_resident in Hr. by destruct (data g). }
  assert (heap s1 !! p = Some (set_lock w g)) as Hg1 by apply lookup_insert_eq. rewrite (modify_ok _ _ _ _ Hg1). run.
  set (g2 := set_refd true (set_lock w g)). set (s2 := set_heap _ s1).
  destruct (cached_set s1 e c [] p (set_lock w g) g2 k (so_inv _ _ _ _ _ Hs1) Hp Hpe Hg1 Hk) as (_ & _ & D1 & D2). fold s2 in D1, D2.
  assert (forall k', cached s2 k' = cached (inner C) k') as Hck2.
  { intros k'. destruct (decide (k' = k)) as [->|]; [by rewrite D1, Hd|by rewrite D2, Hck1]. }
  destruct (same_cached (inner C) s2 d Hck2 eq_refl) as [Hlog Hcoh2]. pose proof (inv_ok _ _ _ _ (so_inv _ _ _ _ _ Hs1) p _ Hp Hpe Hg1) as Hok1.
  eexists p, _, d, c. split; [reflexivity|]. split; try done.
  - apply (state_update (n + 1) (n + 2) s1 e c [p] [p] p (set_lock w g) g2); try done; [|lia].
    pose proof (so_use _ _ _ _ _ Hs1 p _ Hp Hg1) as Hu. rewrite bool_decide_true in Hu |- * by (by left). exact Hu.
  - unfold is_resident in Hr. destruct (data g) as [pd|] eqn:Epd; [|done]. exists g2, pd. split_and!; try done; [apply lookup_insert_eq|].
    unfold logical. by rewrite Hd.
  - by apply Hcoh2.
Qed.

(** ** The operations of a user *)

(** The state between two operations. *)
Record ready (n : Z) (C : Cache) (d : D) : Prop := {
  rd_state : exists e c, state_ok n (inner C) e c [];
  rd_coherent : coherent (inner C) d
}.

Lemma set_page_ok n s e c L p g pd pd' k d :
  state_ok n s e c L -> p ∈ L -> p ∈ c -> p <> e -> heap s !! p = Some g -> key g = Some k -> data g = Some pd ->
  let s' := set_heap (<[p := set_data (Some pd') g]> (heap s)) s in
  state_ok n s' e c L /\ cached s' k = Some pd' /\ (forall k', k' <> k -> cached s' k' = cached s k') /\
  (forall k', logical s' d k' = set (logical s d) k (view d k (bytes pd')) k').
Proof.
  intros Hs HL Hp Hpe Hg Hk Hd s'. destruct (cached_set s e c [] p g (set_data (Some pd') g) k (so_inv _ _ _ _ _ Hs) Hp Hpe Hg Hk) as (_ & _ & C1 & C2).
  fold s' in C1, C2. split_and!; [by apply set_page_data_ok|done|done|]. intros k'. unfold set, logical. case_decide as E; [subst; by rewrite C1|by rewrite C2].
Qed.

(** Replacing a page by one that is dirty or agrees with the file, which may have
    been written. *)
Lemma set_coherent s s' d d' k pd :
  coherent s d -> same_view d d' -> (forall k', k' <> k -> readable (content d k') -> content d' k' = content d k') ->
  cached s' k = Some pd -> (forall k', k' <> k -> cached s' k' = cached s k') -> options s' = options s ->
  buffer (bytes pd) -> (dirty pd = false -> view d k (bytes pd) = content d' k) ->
  coherent s' d' /\ forall k', k' <> k -> logical s' d' k' = logical s d k'.
Proof.
  intros Hcoh Hsv Hc Hk Hoth Ho Hb Hd. assert (forall k' q, k' <> k -> cached s k' = Some q -> dirty q = false -> content d' k' = view d k' (bytes q)) as Hclean.
  { intros k' q Hne Hq Hdq. pose proof (coh_clean _ _ Hcoh k' q Hq Hdq) as E. rewrite E. apply Hc; [done|]. rewrite <- E. by eapply view_readable, coh_buffer. }
  split; [split|].
  - intros k' q. rewrite (meta_view _ _ _ _ Hsv). destruct (decide (k' = k)) as [->|Hne]; [rewrite Hk; by intros [= <-]|rewrite Hoth by done]. intros Hq Hdq. by rewrite (Hclean k' q).
  - intros k' q. destruct (decide (k' = k)) as [->|Hne]; [rewrite Hk; by intros [= <-]|rewrite Hoth by done; apply Hcoh].
  - intros k'. destruct (decide (k' = k)) as [->|Hne]; [by rewrite Hk|rewrite Hoth by done]. intros Hn. pose proof (coh_readable _ _ Hcoh k' Hn) as Hr. by rewrite Hc.
  - unfold blank_bytes. rewrite Ho. apply Hcoh.
  - intros k' Hne. unfold logical. rewrite Hoth by done. destruct (cached s k') as [q|] eqn:Hq; [by rewrite (meta_view _ _ _ _ Hsv)|]. apply Hc; [done|]. by apply Hcoh.
Qed.

Lemma release_same n s e c L p g k :
  state_ok n s e c (p :: L) -> p ∉ L -> p ∈ c -> p <> e -> heap s !! p = Some g -> key g = Some k ->
  exists s', release s p = Ok s' /\ state_ok n s' e c L /\ (forall k', cached s' k' = cached s k') /\ page_map s' = page_map s /\ options s' = options s /\
    (forall q, q <> p -> heap s' !! q = heap s !! q).
Proof.
  intros Hs HpL Hp Hpe Hg Hk. destruct (release_ok n s e c L p g Hs HpL Hp Hpe Hg) as [Hr Hs']. eexists. split; [exact Hr|].
  destruct (cached_set s e c [] p g (set_lock 0 g) k (so_inv _ _ _ _ _ Hs) Hp Hpe Hg Hk) as (_ & C0 & C1 & C2). split_and!; try done.
  - intros k'. destruct (decide (k' = k)) as [->|]; [by rewrite C1|by apply C2].
  - intros q Hq. fields. by rewrite lookup_insert_ne.
Qed.

(** A user's change keeps the length of the page. *)
Definition keeps_buffer (f : list Z -> list Z) : Prop := forall b, buffer b -> buffer (f b).

Lemma access_ok n C d k f fuel :
  reliable -> ready n C d -> (forall g, f = Some g -> keeps_buffer g) -> 0 <= n < 2 ^ 61 -> (fault_fuel (options (inner C)) <= fuel)%nat -> Z.of_nat fuel < 2 ^ 62 ->
  exists b C' d', access fuel C d k f = Ok (Some b, C', d') /\ ready (n + 2) C' d' /\ options (inner C') = options (inner C) /\ same_view d d' /\
    buffer b /\ view d k b = logical (inner C) d k /\ (forall g, f = Some g -> cached (inner C') k = Some (mkPage true (g b))) /\
    (forall k', logical (inner C') d' k' = match f with Some f => set (logical (inner C) d) k (view d k (f b)) k' | None => logical (inner C) d k' end).
Proof.
  intros Hrel [(e & c & Hs) Hcoh] Hf Hn Hfuel Hmax.
  destruct (page_returns n C d e c fuel k Hrel Hcoh Hs Hn Hfuel Hmax) as (p & C1 & d1 & c1 & Hpage & [G1 [G2 G2'] (g & pd & Hg & Hk & Hd & Hv) Gv G4 G5 G6]).
  unfold access. rewrite Hpage. run. unfold page_bytes. rewrite (deref_page_ok _ _ _ Hg). run. rewrite Hd. run.
  assert (buffer (bytes pd)) as Hbuf by (eapply (coh_buffer _ _ G5 k); by rewrite (cached_page _ _ _ _ _ _ _ _ G1 G2 G2' Hg Hk)).
  assert (exists s2 g2 pd2, (match f with Some f => page_write (inner C1) p f | None => Ok (inner C1) end) = Ok s2 /\ state_ok (n + 2) s2 e c1 [p] /\
    heap s2 !! p = Some g2 /\ key g2 = Some k /\ data g2 = Some pd2 /\ options s2 = options (inner C1) /\ coherent s2 d1 /\ (forall g, f = Some g -> cached s2 k = Some (mkPage true (g (bytes pd)))) /\
    (forall k', logical s2 d1 k' = match f with Some f => set (logical (inner C) d) k (view d k (f (bytes pd))) k' | None => logical (inner C) d k' end))
    as (s2 & g2 & pd2 & Hw & Hs2 & Hg2 & Hk2 & Hd2 & Ho2 & Hc2 & Hck2 & Hl2).
  { destruct f as [f|]; [|exists (inner C1), g, pd; by split_and!]. unfold page_write. rewrite (deref_page_ok _ _ _ Hg). run. rewrite Hd. run. rewrite (modify_ok _ _ _ _ Hg).
    destruct (set_page_ok (n + 2) (inner C1) e c1 [p] p g pd (mkPage true (f (bytes pd))) k d1 G1 ltac:(by left) G2 G2' Hg Hk Hd) as (S1 & S2 & S3 & S4).
    eexists _, _, _. split; [reflexivity|]. split; [exact S1|]. split; [apply lookup_insert_eq|]. split_and!; try done.
    - apply (set_coherent (inner C1) _ d1 d1 k (mkPage true (f (bytes pd)))); try done. by apply (Hf f).
    - by intros ? [= <-].
    - intros k'. rewrite S4. unfold set. case_decide; [by rewrite (meta_view _ _ _ _ Gv)|apply G4]. }
  rewrite Hw. run. destruct (release_same (n + 2) s2 e c1 [] p g2 k Hs2 ltac:(apply not_elem_of_nil) G2 G2' Hg2 Hk2) as (s3 & Hr & Hs3 & Hck3 & _ & Ho3 & _).
  rewrite Hr. run. destruct (same_cached s2 s3 d1 Hck3 Ho3) as [Hlog3 Hcoh3].
  exists (bytes pd), (set_inner s3 C1), d1. split; [done|]. change (inner (set_inner s3 C1)) with s3. split_and!; [|congruence|done|done|done|intros g0 Hg0; rewrite Hck3; by apply Hck2|intros k'; by rewrite Hlog3, Hl2].
  split; [by exists e, c1|]. by apply Hcoh3.
Qed.

Lemma state_perm n s e c L L' : (forall p, p ∈ L <-> p ∈ L') -> state_ok n s e c L -> state_ok n s e c L'.
Proof. intros HL Hs. split; try apply Hs. intros p g Hp Hg. rewrite <- (bool_decide_ext _ _ (HL p)). by apply (so_use _ _ _ _ _ Hs). Qed.

(** ** Flushing *)

(** The pages found are dirty pages of the scope, each once, and now in use. *)
Record found (s s' : CacheInner) (sc : nat) (L : list ptr) (l : list (Z * ptr)) : Prop := {
  fd_map : page_map s' = page_map s;
  fd_cached k : cached s' k = cached s k;
  fd_options : options s' = options s;
  fd_nodup : NoDup l.*2;
  fd_page i p : (i, p) ∈ l -> page_map s !! (sc, i) = Some p /\ p ∉ L
}.

Lemma find_dirty_ok e c sc : forall ids n s L,
  NoDup ids -> state_ok n s e c L -> (forall i p, i ∈ ids -> page_map s !! (sc, i) = Some p -> p ∉ L) -> 0 <= n -> n + Z.of_nat (length ids) < 2 ^ 62 ->
  exists l s', find_dirty_pages s sc ids = Ok (l, s') /\ state_ok (n + Z.of_nat (length ids)) s' e c (l.*2 ++ L) /\ found s s' sc L l /\
    (forall i p, (i, p) ∈ l -> i ∈ ids) /\
    (forall i pd, i ∈ ids -> cached s (sc, i) = Some pd -> dirty pd = true -> exists p, (i, p) ∈ l).
Proof.
  induction ids as [|i ids IH]; intros n s L Hnd Hs HL Hn Hb.
  { exists [], s. split; [done|]. cbn [length]. rewrite Z.add_0_r. split; [done|]. split; [split; try done; [apply NoDup_nil_2|by intros ? ? ?%elem_of_nil]|].
    split; [by intros ? ? ?%elem_of_nil|by intros ? ? ?%elem_of_nil]. }
  apply NoDup_cons in Hnd as [Hi Hnd]. cbn [length find_dirty_pages] in *.
  (* the pages that are passed over *)
  assert (forall t, state_ok (n + 1) t e c L -> page_map t = page_map s -> (forall k, cached t k = cached s k) -> options t = options s ->
    (forall pd, cached s (sc, i) = Some pd -> dirty pd = false) ->
    exists l s', find_dirty_pages t sc ids = Ok (l, s') /\ state_ok (n + Z.of_nat (S (length ids))) s' e c (l.*2 ++ L) /\ found s s' sc L l /\
    (forall i' p, (i', p) ∈ l -> i' ∈ i :: ids) /\
    (forall i' pd, i' ∈ i :: ids -> cached s (sc, i') = Some pd -> dirty pd = true -> exists p, (i', p) ∈ l)) as Hskip.
  { intros t Ht Hm Hck Ho Hclean. destruct (IH (n + 1) t L) as (l & s' & Hl & Hs' & [F1 F2 F3 F4 F5] & Hin & Hd); try done; try lia.
    { intros i' p Hi'. rewrite Hm. apply HL. by right. }
    exists l, s'. split; [done|]. split; [eapply state_weaken; [|exact Hs']; lia|]. split; [|split].
    - split; [congruence|intros k; by rewrite F2|congruence|done|]. intros i' p Hip. rewrite <- Hm. by apply F5.
    - intros i' p Hip. right. by apply (Hin i' p).
    - intros i' pd Hi' Hpd Hdirty. apply elem_of_cons in Hi' as [->|Hi']; [|apply (Hd i' pd); [done|by rewrite Hck|done]].
      rewrite (Hclean pd Hpd) in Hdirty. done. }
  destruct (page_map s !! (sc, i)) as [p|] eqn:Hm; cycle 1.
  { apply Hskip; try done; [eapply state_weaken; [|exact Hs]; lia|]. intros pd. unfold cached. by rewrite Hm. }
  destruct (lookup_page _ _ _ _ _ _ _ Hs Hm) as (g & Hp & Hpe & Hg & Hk). pose proof (cached_page _ _ _ _ _ _ _ _ Hs Hp Hpe Hg Hk) as Hd.
  pose proof (HL i p ltac:(by left) Hm) as HpL.
  destruct (share_ok n s e c L p g Hs Hp Hpe HpL Hg ltac:(lia)) as [Hsh Hs1]. rewrite Hsh. run.
  match type of Hs1 with state_ok _ ?t _ _ _ => set (s1 := t) in * end. set (w := if is_resident g then 1 else lock g + 1) in *.
  destruct (cached_set s e c [] p g (set_lock w g) (sc, i) (so_inv _ _ _ _ _ Hs) Hp Hpe Hg Hk) as (_ & _ & C1 & C2). fold s1 in C1, C2.
  assert (forall k', cached s1 k' = cached s k') as Hck1.
  { intros k'. destruct (decide (k' = (sc, i))) as [->|]; [by rewrite C1, Hd|by apply C2]. }
  assert (heap s1 !! p = Some (set_lock w g)) as Hg1 by apply lookup_insert_eq. rewrite (deref_page_ok _ _ _ Hg1). run. cbn [data set_lock].
  unfold is_resident in Hs1. unfold is_resident at 1. destruct (data g) as [pd|] eqn:Epd; cbv iota; cycle 1.
  { apply Hskip; try done. intros pd. by rewrite Hd. }
  destruct (dirty pd) eqn:Edirty; cycle 1.
  { destruct (release_same (n + 1) s1 e c L p _ (sc, i) Hs1 HpL Hp Hpe Hg1 Hk) as (s2 & Hr & Hs2 & Hck2 & Hm2 & Ho2 & _). rewrite Hr. run.
    apply Hskip; try done; [intros k; by rewrite Hck2|]. intros pd'. rewrite Hd. by intros [= <-]. }
  destruct (IH (n + 1) s1 (p :: L)) as (l & s' & Hl & Hs' & [F1 F2 F3 F4 F5] & Hin & Hdl); try done; try lia.
  { intros i' q Hi' Hq. rewrite not_elem_of_cons. split; [|by apply (HL i' q); [by right|]]. intros ->.
    destruct (lookup_page _ _ _ _ _ (sc, i') p Hs Hq) as (g' & _ & _ & Hg' & Hk'). assert (i' = i) by congruence. by subst. }
  rewrite Hl. run. assert (id g = i) as Hid by (unfold key in Hk; destruct (scope g); [|done]; cbn in Hk; congruence). cbn [id set_lock]. rewrite Hid.
  exists ((i, p) :: l), s'. split; [done|]. split; [|split; [|split]].
  - eapply state_perm; [|eapply state_weaken; [|exact Hs']; lia]. intros q. rewrite fmap_cons. cbn [snd]. rewrite !elem_of_app, !elem_of_cons. tauto.
  - split; [done|intros k; by rewrite F2|done| |].
    + rewrite fmap_cons. apply NoDup_cons. split; [|done]. intros Hin'. apply list_elem_of_fmap in Hin' as ([i' q] & E & Hiq). cbn in E. subst q.
      destruct (F5 i' p Hiq) as [_ Hn']. apply Hn'. by left.
    + intros i' q Hiq. apply elem_of_cons in Hiq as [[= -> ->]|Hiq]; [done|]. destruct (F5 i' q Hiq) as [H1 H2]. split; [done|]. intros ?. apply H2. by right.
  - intros i' q Hiq. apply elem_of_cons in Hiq as [[= -> ->]|Hiq]; [by left|]. right. by apply (Hin i' q).
  - intros i' pd' Hi' Hpd' Hdirty'. apply elem_of_cons in Hi' as [->|Hi']; [exists p; by left|].
    destruct (Hdl i' pd') as [q Hq]; [done|by rewrite Hck1|done|]. exists q. by right.
Qed.

Definition clean (s : CacheInner) (k : nat * Z) : Prop := forall pd, cached s k = Some pd -> dirty pd = false.

(** One page of a flush. *)
Lemma flush_page_ok n C d e c sc i p L :
  reliable -> coherent (inner C) d -> state_ok n (inner C) e c (p :: L) -> p ∉ L -> page_map (inner C) !! (sc, i) = Some p ->
  exists g pd w pd' d' C1 s2, deref (inner C) p = Ok g /\ data g = Some pd /\ write C d sc i pd = (Some (w, pd', d'), C1) /\
    (s ← modify (inner C1) p (set_data (Some pd')); release s p) = Ok s2 /\
    state_ok n s2 e c L /\ coherent s2 d' /\ same_view d d' /\ (forall k, logical s2 d' k = logical (inner C) d k) /\
    page_map s2 = page_map (inner C) /\ options s2 = options (inner C) /\ clean s2 (sc, i) /\ (forall k, clean (inner C) k -> clean s2 k).
Proof.
  intros Hrel Hcoh Hs HpL Hm. destruct (lookup_page _ _ _ _ _ _ _ Hs Hm) as (g & Hp & Hpe & Hg & Hk).
  pose proof (cached_page _ _ _ _ _ _ _ _ Hs Hp Hpe Hg Hk) as Hd.
  pose proof (so_use _ _ _ _ _ Hs p g Hp Hg) as Hu. rewrite bool_decide_true in Hu by (by left). destruct Hu as (Hr & _).
  unfold is_resident in Hr. destruct (data g) as [pd|] eqn:Epd; [|done].
  destruct (write_ok C d sc i pd Hrel) as (w & pd' & d' & C1 & Hw & HC1 & Hbytes & Hdirty & Hsv & Hoth & Hcont); [by apply (coh_buffer _ _ Hcoh (sc, i))|].
  destruct (set_page_ok n (inner C) e c (p :: L) p g pd pd' (sc, i) d' Hs ltac:(by left) Hp Hpe Hg Hk Epd) as (S1 & S2 & S3 & S4).
  set (s1 := set_heap _ (inner C)) in *. assert (heap s1 !! p = Some (set_data (Some pd') g)) as Hg1 by apply lookup_insert_eq.
  destruct (release_same n s1 e c L p _ (sc, i) S1 HpL Hp Hpe Hg1 Hk) as (s2 & Hrl & Hs2 & Hck2 & Hm2 & Ho2 & _).
  exists g, pd, w, pd', d', C1, s2. split; [by apply deref_page_ok|]. split; [done|]. split; [done|].
  split; [rewrite HC1, (modify_ok _ _ _ _ Hg); run; exact Hrl|]. split; [done|].
  assert (content d' (sc, i) = view d (sc, i) (bytes pd)) as Hc.
  { rewrite Hcont. destruct (dirty pd) eqn:E; [done|]. symmetry. by apply Hcoh. }
  destruct (set_coherent (inner C) s2 d d' (sc, i) pd') as [Hcoh2 Hlog2]; try done; [by rewrite Hck2|intros k Hne; by rewrite Hck2, S3|
    rewrite Hbytes; by apply (coh_buffer _ _ Hcoh (sc, i))|intros _; by rewrite Hbytes, Hc|]. split_and!; try done.
  - intros k. destruct (decide (k = (sc, i))) as [->|Hne]; [|by apply Hlog2]. unfold logical. by rewrite Hck2, S2, Hd, (meta_view _ _ _ _ Hsv), Hbytes.
  - intros q. rewrite Hck2, S2. by intros [= <-].
  - intros k Hclean q. rewrite Hck2. destruct (decide (k = (sc, i))) as [->|Hne]; [rewrite S2; by intros [= <-]|]. rewrite S3 by done. apply Hclean.
Qed.

Lemma flush_loop_ok e c sc : reliable -> forall l n C d count,
  coherent (inner C) d -> state_ok n (inner C) e c l.*2 -> NoDup l.*2 -> (forall i p, (i, p) ∈ l -> page_map (inner C) !! (sc, i) = Some p) ->
  0 <= count -> count + Z.of_nat (length l) < 2 ^ 62 ->
  exists cnt C' d', flush_loop C d sc l count = Ok (Some cnt, C', d') /\ state_ok n (inner C') e c [] /\ coherent (inner C') d' /\ same_view d d' /\
    (forall k, logical (inner C') d' k = logical (inner C) d k) /\ options (inner C') = options (inner C) /\
    (forall i p, (i, p) ∈ l -> clean (inner C') (sc, i)) /\ (forall k, clean (inner C) k -> clean (inner C') k).
Proof.
  intros Hrel. induction l as [|[i p] l IH]; intros n C d count Hcoh Hs Hnd Hpages Hc0 Hc.
  { exists count, C, d. split_and!; try done. by intros ? ? ?%elem_of_nil. }
  rewrite fmap_cons in Hs, Hnd. cbn [snd] in *. apply NoDup_cons in Hnd as [Hp Hnd].
  destruct (flush_page_ok n C d e c sc i p l.*2 Hrel Hcoh Hs Hp (Hpages i p ltac:(by left))) as (g & pd & w & pd' & d1 & C1 & s2 & Hg & Hpd & Hw & Hmod & Hs2 & Hcoh2 & Hsv2 & Hlog2 & Hm2 & Ho2 & Hcl & Hcl2).
  cbn [flush_loop length] in *. rewrite Hg. run. rewrite Hpd. run. rewrite Hw.
  destruct (modify (inner C1) p (set_data (Some pd'))) as [s1|?| |]; try discriminate Hmod. run. rewrite bind_Ok in Hmod. rewrite Hmod. run.
  assert (exists count', (if w then add_u64 (E := memory_fault) count 1 else Ok count) = Ok count' /\ 0 <= count' <= count + 1) as (count' & -> & Hcount).
  { destruct w; [rewrite add_u64_ok by (unfold is_u64, U64; lia)|]; eexists; (split; [done|]); lia. }
  run. destruct (IH n (set_inner s2 C1) d1 count') as (cnt & C3 & d3 & Hl & Hs3 & Hcoh3 & Hsv3 & Hlog3 & Ho3 & Hcl3 & Hcl4); try done; try lia.
  { intros i' p' Hip. change (inner (set_inner s2 C1)) with s2. rewrite Hm2. apply Hpages. by right. }
  change (inner (set_inner s2 C1)) with s2 in *. exists cnt, C3, d3. split_and!; try done.
  - by eapply same_view_trans.
  - intros k. by rewrite Hlog3, Hlog2.
  - congruence.
  - intros i' p' Hip. apply elem_of_cons in Hip as [[= -> ->]|Hip]; [by apply Hcl4|by apply (Hcl3 i' p')].
  - intros k Hk. by apply Hcl4, Hcl2.
Qed.

(** The map of a scope is read completely. *)
Definition lists_scope (s : CacheInner) (sc : nat) (ids : list Z) : Prop :=
  NoDup ids /\ forall i p, page_map s !! (sc, i) = Some p -> i ∈ ids.

Lemma flush_scope_ok n C d sc ids :
  reliable -> ready n C d -> NoDup ids -> 0 <= n -> n + Z.of_nat (length ids) < 2 ^ 61 ->
  exists cnt C' d', flush C d sc ids = Ok (Some cnt, C', d') /\ ready (n + Z.of_nat (length ids)) C' d' /\ options (inner C') = options (inner C) /\ same_view d d' /\
    (forall k, logical (inner C') d' k = logical (inner C) d k) /\
    (lists_scope (inner C) sc ids -> forall i, content d' (sc, i) = logical (inner C) d (sc, i)).
Proof.
  intros Hrel [(e & c & Hs) Hcoh] Hnd Hn Hb.
  destruct (find_dirty_ok e c sc ids n (inner C) [] Hnd Hs) as (l & s1 & Hl & Hs1 & [F1 F2 F3 F4 F5] & Hin & Hdirty); [intros; apply not_elem_of_nil|done|lia|].
  rewrite app_nil_r in Hs1. unfold flush. rewrite Hl. run. destruct (same_cached (inner C) s1 d F2 F3) as [Hlog1 Hcoh1].
  destruct (flush_loop_ok e c sc Hrel l (n + Z.of_nat (length ids)) (set_inner s1 C) d 0) as (cnt & C' & d' & Hf & Hs' & Hcoh' & Hsv' & Hlog' & Ho' & Hcl & Hcl'); try done; [by apply Hcoh1| | |].
  { intros i p Hip. change (inner (set_inner s1 C)) with s1. rewrite F1. by apply (F5 i p). }
  { pose proof (sub_length c l.*2 F4) as Hlen. rewrite length_fmap in Hlen. pose proof (inv_size _ _ _ _ (so_inv _ _ _ _ _ Hs)).
    assert (length l <= length c)%nat; [apply Hlen|lia]. intros p Hp. apply list_elem_of_fmap in Hp as ([i q] & -> & Hiq). destruct (F5 i q Hiq) as [Hm _].
    by destruct (lookup_page _ _ _ _ _ _ _ Hs Hm) as (g & Hq & _). }
  exists cnt, C', d'. change (inner (set_inner s1 C)) with s1 in *. split_and!; try done; [split; [by exists e, c|done]|congruence|intros k; by rewrite Hlog'|].
  intros [_ Hall] i. rewrite <- Hlog1, <- Hlog'. unfold logical. destruct (cached (inner C') (sc, i)) as [pd|] eqn:Hpd; [|done]. symmetry. apply (coh_clean _ _ Hcoh'); [done|].
  assert (clean (inner C') (sc, i)) as Hclean; [|by apply Hclean]. destruct (cached (inner C) (sc, i)) as [pd0|] eqn:Hpd0.
  - destruct (dirty pd0) eqn:E; [|apply Hcl'; intros q; rewrite F2, Hpd0; by intros [= <-]].
    assert (exists p, page_map (inner C) !! (sc, i) = Some p) as [p Hp].
    { unfold cached in Hpd0. destruct (page_map (inner C) !! (sc, i)) as [p|]; [by exists p|done]. }
    destruct (Hdirty i pd0 (Hall i p Hp) Hpd0 E) as [q Hq]. by apply (Hcl i q).
  - apply Hcl'. intros q. by rewrite F2, Hpd0.
Qed.

(** ** The theorems *)

(** How many failed attempts to lock a page an operation can make. *)
Definition attempts (o : op) : Z := match o with OpFlush _ ids => Z.of_nat (length ids) | _ => 2 end.
Definition total (os : list op) : Z := foldr (fun o n => attempts o + n) 0 os.
Definition op_ok (o : op) : Prop := match o with OpRead _ => True | OpWrite _ f => keeps_buffer f | OpFlush _ ids => NoDup ids end.

Lemma cache_op_ok n C d0 d o fuel :
  reliable -> ready n C d -> same_view d0 d -> op_ok o -> 0 <= n -> n + attempts o < 2 ^ 61 -> (fault_fuel (options (inner C)) <= fuel)%nat -> Z.of_nat fuel < 2 ^ 62 ->
  exists b C' d', run_op fuel C d o = Ok (b, C', d') /\ ready (n + attempts o) C' d' /\ options (inner C') = options (inner C) /\ same_view d0 d' /\
    spec_op d0 (logical (inner C) d) o b (logical (inner C') d').
Proof.
  intros Hrel Hr Hsv Ho Hn Hb Hfuel Hmax. destruct o as [k|k f|sc ids]; cbn [run_op attempts] in *.
  - destruct (access_ok n C d k None fuel Hrel Hr) as (b & C' & d' & Ha & Hr' & Hopt & Hsv' & _ & Hv & _ & Hl); [done|lia|done|done|]. exists (Some b), C', d'.
    rewrite (meta_view _ _ _ _ Hsv) in Hv. split_and!; try done; [by eapply same_view_trans|]. by exists b.
  - destruct (access_ok n C d k (Some f) fuel Hrel Hr) as (b & C' & d' & Ha & Hr' & Hopt & Hsv' & _ & Hv & _ & Hl); [by intros ? [= <-]|lia|done|done|]. exists (Some b), C', d'.
    rewrite (meta_view _ _ _ _ Hsv) in Hv. split_and!; try done; [by eapply same_view_trans|]. exists b. split_and!; try done. intros k'. by rewrite Hl, (meta_view _ _ _ _ Hsv).
  - destruct (flush_scope_ok n C d sc ids Hrel Hr Ho Hn Hb) as (cnt & C' & d' & Hf & Hr' & Hopt & Hsv' & Hl & _). rewrite Hf. run. exists (Some []), C', d'.
    split_and!; try done. by eapply same_view_trans.
Qed.

Lemma total_pos os : 0 <= total os.
Proof. induction os as [|o os IH]; [done|]. cbn [total foldr]. fold (total os). destruct o; cbn [attempts]; lia. Qed.

Lemma run_ops_ok os d0 : forall n C d fuel,
  reliable -> ready n C d -> same_view d0 d -> Forall op_ok os -> 0 <= n -> n + total os < 2 ^ 61 -> (fault_fuel (options (inner C)) <= fuel)%nat -> Z.of_nat fuel < 2 ^ 62 ->
  exists bs C' d', run_ops fuel C d os = Ok (bs, C', d') /\ ready (n + total os) C' d' /\ options (inner C') = options (inner C) /\
    spec_ops d0 (logical (inner C) d) os bs (logical (inner C') d').
Proof.
  induction os as [|o os IH]; intros n C d fuel Hrel Hr Hsv Hos Hn Hb Hfuel Hmax; cbn [total foldr run_ops] in *.
  { exists [], C, d. rewrite Z.add_0_r. split_and!; try done. constructor. }
  apply Forall_cons in Hos as [Ho Hos]. fold (total os) in *. pose proof (total_pos os) as Ht.
  assert (0 <= attempts o) by (destruct o; cbn; lia).
  destruct (cache_op_ok n C d0 d o fuel Hrel Hr Hsv Ho Hn ltac:(lia) Hfuel Hmax) as (b & C1 & d1 & -> & Hr1 & Ho1 & Hsv1 & Hsp). run.
  destruct (IH (n + attempts o) C1 d1 fuel Hrel Hr1 Hsv1 Hos ltac:(lia) ltac:(lia) ltac:(by rewrite Ho1) Hmax) as (bs & C2 & d2 & -> & Hr2 & Ho2 & Hsps). run.
  exists (b :: bs), C2, d2. rewrite Z.add_assoc. split_and!; try done; [congruence|]. econstructor; done.
Qed.

(** The files can be read, and the cache's buffers have the length of a page. *)
Definition usable (o : Options) (d : D) : Prop :=
  (forall k, readable (content d k)) /\ buffer (replicate (Z.to_nat (page_len o)) 0).

(** A new cache is ready. *)
Lemma new_ready o d : sane o -> usable o d -> exists C, new (E := memory_fault) o = Ok C /\ ready 0 C d /\ options (inner C) = o /\ (forall k, logical (inner C) d k = content d k).
Proof.
  intros Hsane [Hr Hb]. unfold new, cache_inner.new. rewrite (proj2 (Z.ltb_lt _ _)) by (apply Hsane). cbn [assert_]. run.
  eexists. split; [reflexivity|]. assert (forall p g, ({[1%nat := end_ 1%nat]} : gmap ptr Page_) !! p = Some g -> p = 1%nat /\ g = end_ 1%nat) as Hend.
  { intros p g Hp. by apply lookup_singleton_Some in Hp as [<- <-]. }
  split_and!; try done. split; [|by split]. exists 1%nat, [1%nat]. split; try done; cbn [inner]; try apply Hsane.
  - split; cbn; try done; try (by left).
    + apply ring_single. done.
    + eexists. split; [apply lookup_singleton_eq|done].
    + intros p g Hp Hpe. apply list_elem_of_singleton in Hp. done.
    + intros p g [[Hp Hpe]|Hp]; [by apply list_elem_of_singleton in Hp|by apply elem_of_nil in Hp].
    + intros p [g Hp]. destruct (Hend p g Hp) as [-> _]. lia.
    + intros p Hp. by apply elem_of_nil in Hp.
  - intros p g Hp Hg. destruct (Hend p g Hg) as [-> ->]. split_and!; [by right; right|done|]. cbn. unfold page_lock.new_exclusive. lia.
  - unfold resident_page_count. cbn. destruct Hsane. lia.
Qed.

(** C5. The cache is an array of pages: on readable files that do not fail, every
    sequence of reads, writes and flushes on a new cache returns, whatever the cache evicts
    meanwhile, and each operation answers what the array answers; the array starts
    as the content of the files. *)
Theorem cache_transparent o d os fuel :
  reliable -> sane o -> usable o d -> Forall op_ok os -> total os < 2 ^ 61 -> (fault_fuel o <= fuel)%nat -> Z.of_nat fuel < 2 ^ 62 ->
  exists C bs C' d', new (E := memory_fault) o = Ok C /\ run_ops fuel C d os = Ok (bs, C', d') /\
    (forall k, logical (inner C) d k = content d k) /\ spec_ops d (logical (inner C) d) os bs (logical (inner C') d').
Proof.
  intros Hrel Hsane Hu Hos Ht Hfuel Hmax. destruct (new_ready o d Hsane Hu) as (C & HC & Hr & Ho & Hl).
  destruct (run_ops_ok os d 0 C d fuel Hrel Hr ltac:(done) Hos ltac:(lia) ltac:(lia) ltac:(by rewrite Ho) Hmax) as (bs & C' & d' & Hrun & _ & _ & Hsp).
  by exists C, bs, C', d'.
Qed.

(** C6. After any operations the clock is well formed: its pages are linked both
    ways in one ring through the end page, the hands are on it, the page maps name
    exactly its pages, the three counters count the pages of each kind, no more
    pages are held than allowed, and no resident page is locked or being loaded. *)
Theorem clock_wellformed o d os fuel C bs C' d' :
  reliable -> sane o -> usable o d -> Forall op_ok os -> total os < 2 ^ 61 -> (fault_fuel o <= fuel)%nat -> Z.of_nat fuel < 2 ^ 62 ->
  new (E := memory_fault) o = Ok C -> run_ops fuel C d os = Ok (bs, C', d') ->
  exists e c, inv (inner C') e c [] /\ settled (total os) (inner C') c /\
    resident_page_count (inner C') <= max_resident o /\ non_resident_page_count (inner C') <= max_non_resident o /\
    Z.of_nat (length c) = 1 + resident_page_count (inner C') + non_resident_page_count (inner C').
Proof.
  intros Hrel Hsane Hu Hos Ht Hfuel Hmax HC Hrun. destruct (new_ready o d Hsane Hu) as (C1 & HC1 & Hr & Ho & _). rewrite HC in HC1. injection HC1 as <-.
  destruct (run_ops_ok os d 0 C d fuel Hrel Hr ltac:(done) Hos ltac:(lia) ltac:(lia) ltac:(by rewrite Ho) Hmax) as (bs1 & C2 & d2 & Hrun1 & [(e & c & Hs) _] & Ho2 & _).
  rewrite Hrun in Hrun1. injection Hrun1 as <- <- <-. exists e, c. rewrite Ho in Ho2. rewrite <- Ho2.
  split_and!; [apply Hs|by eapply so_settled|apply Hs|apply Hs|]. apply (tally_total _ e c []), Hs.
Qed.

(** A flush writes everything back: after any operations, flushing a scope whose
    page map is read completely succeeds, leaves the array as it was, and makes
    every page of the file agree with it. *)
Theorem flush_writes_back o d os fuel C bs C' d' sc ids :
  reliable -> sane o -> usable o d -> Forall op_ok os -> total os + Z.of_nat (length ids) < 2 ^ 61 -> (fault_fuel o <= fuel)%nat -> Z.of_nat fuel < 2 ^ 62 ->
  new (E := memory_fault) o = Ok C -> run_ops fuel C d os = Ok (bs, C', d') -> lists_scope (inner C') sc ids ->
  exists n C'' d'', flush C' d' sc ids = Ok (Some n, C'', d'') /\ (forall k, logical (inner C'') d'' k = logical (inner C') d' k) /\
    forall i, content d'' (sc, i) = logical (inner C') d' (sc, i).
Proof.
  intros Hrel Hsane Hu Hos Ht Hfuel Hmax HC Hrun Hls. destruct (new_ready o d Hsane Hu) as (C1 & HC1 & Hr & Ho & _). rewrite HC in HC1. injection HC1 as <-.
  destruct (run_ops_ok os d 0 C d fuel Hrel Hr ltac:(done) Hos ltac:(lia) ltac:(lia) ltac:(by rewrite Ho) Hmax) as (bs1 & C2 & d2 & Hrun1 & Hr2 & _).
  rewrite Hrun in Hrun1. injection Hrun1 as <- <- <-. pose proof (total_pos os).
  destruct (flush_scope_ok (0 + total os) C' d' sc ids Hrel Hr2 (proj1 Hls) ltac:(lia) ltac:(lia)) as (n & C3 & d3 & Hf & _ & _ & _ & Hl & Hall).
  exists n, C3, d3. split_and!; [done|done|by apply Hall].
Qed.

End facts.

(** ** An example: two pages fit, three are used *)
Module example.

#[local] Instance disk : Scope := {|
  D := gmap (nat * Z) (list Z);
  scope_read d sc i buf := Some (default [0] (d !! (sc, i)), d);
  scope_write d sc i b := Some (<[(sc, i) := b]> d) |}.

#[local] Instance disk_laws : ScopeLaws disk.
Proof.
  refine {| View := list Z; Meta := unit; meta _ := tt; view _ _ b := b; content d k := default [0] ((d : gmap (nat * Z) (list Z)) !! k); buffer _ := True; readable _ := True |}.
  - done.
  - done.
  - intros d sc i buf b d' _ _ H. cbn in H. by injection H as <- <-.
  - intros d sc i b d' _ H. cbn in H. injection H as <-. by rewrite lookup_insert_eq.
  - intros d sc i b d' k _ H Hk _. cbn in H. injection H as <-. by rewrite lookup_insert_ne.
Defined.

#[local] Instance checked : BuildProfile := true.

Definition blank : @D disk := (∅ : gmap (nat * Z) (list Z)).
Definition o : Options := mkOptions 2 2 1 1.
Definition script : list op :=
  [OpWrite (0%nat, 0) (fun _ => [7]); OpRead (0%nat, 1); OpWrite (0%nat, 2) (fun _ => [9]); OpRead (0%nat, 0); OpRead (0%nat, 1)].

Lemma disk_reliable : reliable.
Proof. split; intros; by eexists. Qed.

Lemma o_usable : usable o blank.
Proof. done. Qed.

Lemma o_sane : sane o.
Proof. split; [done|done|done|]. eexists. reflexivity. Qed.

Lemma script_ok : Forall op_ok script.
Proof. repeat constructor. Qed.

Lemma cache_transparent_witness :
  exists C bs C' d', new (E := memory_fault) o = Ok C /\ run_ops 100 C blank script = Ok (bs, C', d') /\
    (forall k, logical (inner C) blank k = content blank k) /\
    spec_ops blank (logical (inner C) blank) script bs (logical (inner C') d').
Proof. apply (cache_transparent o _ script 100); [apply disk_reliable|apply o_sane|apply o_usable|apply script_ok|done|apply (bool_decide_unpack _); vm_compute; exact I|done]. Defined.

Definition outcome_or {A} (a : A) (r : outcome memory_fault A) : A := match r with Ok x => x | _ => a end.
Definition start : Cache := Eval vm_compute in outcome_or (mkCache (mkCacheInner o ∅ ∅ dangling dangling 0 0 0 0 dangling dangling 0 0 dangling) 0 0 0 0) (new o).
Definition finish : list (option (list Z)) * Cache * @D disk := Eval vm_compute in outcome_or ([], start, blank) (run_ops 100 start blank script).

Lemma starts : new (E := memory_fault) o = Ok start.
Proof. vm_compute. reflexivity. Qed.

(** The write of page 0 is found again after pages 1 and 2 took its place. *)
Lemma finishes : run_ops 100 start blank script = Ok (finish.1.1, finish.1.2, finish.2) /\
  finish.1.1 = [Some [0]; Some [0]; Some [0]; Some [7]; Some [0]].
Proof. split; vm_compute; reflexivity. Qed.

Lemma finish_lists : lists_scope (inner finish.1.2) 0 [0; 1; 2].
Proof.
  split; [apply (bool_decide_unpack _); vm_compute; exact I|].
  assert (map_Forall (fun k _ => k.1 = 0%nat -> k.2 ∈ [0; 1; 2]) (page_map (inner finish.1.2))) as H by (apply (bool_decide_unpack _); vm_compute; exact I).
  intros i p Hp. exact (H (0%nat, i) p Hp eq_refl).
Qed.

Lemma clock_wellformed_witness : exists e c, inv (inner finish.1.2) e c [] /\ settled (total script) (inner finish.1.2) c /\
    resident_page_count (inner finish.1.2) <= max_resident o /\ non_resident_page_count (inner finish.1.2) <= max_non_resident o /\
    Z.of_nat (length c) = 1 + resident_page_count (inner finish.1.2) + non_resident_page_count (inner finish.1.2).
Proof.
  apply (clock_wellformed o blank script 100 start finish.1.1 finish.1.2 finish.2); [apply disk_reliable|apply o_sane|apply o_usable|apply script_ok|done|
    apply (bool_decide_unpack _); vm_compute; exact I|done|apply starts|apply finishes].
Defined.

Lemma flush_writes_back_witness : exists n C'' d'', flush finish.1.2 finish.2 0 [0; 1; 2] = Ok (Some n, C'', d'') /\
    (forall k, logical (inner C'') d'' k = logical (inner finish.1.2) finish.2 k) /\
    forall i, content d'' (0%nat, i) = logical (inner finish.1.2) finish.2 (0%nat, i).
Proof.
  apply (flush_writes_back o blank script 100 start finish.1.1 finish.1.2 finish.2 0 [0; 1; 2]); [apply disk_reliable|apply o_sane|apply o_usable|apply script_ok|done|
    apply (bool_decide_unpack _); vm_compute; exact I|done|apply starts|apply finishes|apply finish_lists].
Defined.

End example.
End cache_facts.
