(* ===== verification/PageCacheLimits.v ===== *)
(** * Where the promise of the page cache ends (tskv/src/direct_io/cache.rs)

    [PageCacheFacts] shows that one thread that drops its pages sees an array of
    pages on files that do not fail.  Each of the three conditions is needed: with
    two pages held the cold hand can run for ever although a page could be evicted
    ([pinned_pages_hang]); a second thread can read a page before its last change
    has reached the file, and a failed write loses the page that was to be written
    ([cache_loses_writes]). *)
From S2P Require Import Prelude PageLock PageCache PageClock PageHands PageReplace PageCacheFacts.

Module cache_limits.
Import page internal cache_inner cache cache_spec.

(** Files whose unwritten pages are one zero byte; [broken] files cannot be
    written. *)
#[local] Instance disk : Scope := {|
  D := gmap (nat * Z) (list Z);
  scope_read d sc i buf := Some (default [0] (d !! (sc, i)), d);
  scope_write d sc i b := Some (<[(sc, i) := b]> d) |}.

Definition broken : Scope := {|
  D := gmap (nat * Z) (list Z);
  scope_read d sc i buf := Some (default [0] (d !! (sc, i)), d);
  scope_write d sc i b := None |}.

Definition blank : gmap (nat * Z) (list Z) := ∅.

(** ** A user that holds pages *)

(** Take a page of scope 0, or drop the reference to one. *)
Inductive act := Take (i : Z) | Give (i : Z).

Section acts.
Context {P : BuildProfile} (fuel : nat).

Definition do_act (c : Cache) (d : D) (a : act) : res (Cache * D) :=
  match a with
  | Take i => '(r, c, d) ← page fuel c d 0 i; match r with inl _ => Ok (c, d) | inr _ => Panic end
  | Give i => p ← unwrap (page_map (inner c) !! (0%nat, i)); s ← release (inner c) p; Ok (set_inner s c, d)
  end.

Fixpoint do_acts (c : Cache) (d : D) (l : list act) : res (Cache * D) :=
  match l with
  | [] => Ok (c, d)
  | a :: l => '(c, d) ← do_act c d a; do_acts c d l
  end.

End acts.

Definition four_pages : Options := mkOptions 4 4 1 1.
Definition holding : list act :=
  [Take 0; Take 1; Give 1; Take 2; Give 2; Take 3; Give 3; Take 4; Give 4; Give 0; Take 2; Take 3; Take 4; Give 4].

(** ** Two threads *)

(** Page 0 is changed and page 1 is read; then one thread faults on page 2, which
    evicts page 0, and before that thread has written page 0 a second thread faults
    on page 0. *)
Definition two_pages : Options := mkOptions 2 2 1 1.
Definition both_faulted {P : BuildProfile} : res (fault * fault * Cache * D) :=
  c ← new two_pages;
  '(_, c, d) ← access 100 c blank (0%nat, 0) (Some (fun _ => [7]));
  '(_, c, d) ← access 100 c d (0%nat, 1) None;
  '(fa, s) ← enter_locked 100 (inner c) 0 2;
  '(fb, s) ← enter_locked 100 s 0 0;
  Ok (fa, fb, set_inner s c, d).

(** One thread brings its transfer to the end. *)
Definition complete {P : BuildProfile} {Sc : Scope} (c : Cache) (d : D) (i : Z) (f : fault) : res (ptr * Cache * D) :=
  match f with
  | Load donor p => '(r, c, d) ← transfer c d 0 i donor p; s ← finish_load (inner c) p r; Ok (p, set_inner s c, d)
  | _ => Panic
  end.

(** The page of the first fault, and the fault on a file that cannot be written. *)
Definition one_faulted {P : BuildProfile} : res (fault * Cache * @D broken) :=
  c ← new two_pages;
  '(_, c, d) ← access (Sc := broken) 100 c blank (0%nat, 0) (Some (fun _ => [7]));
  '(_, c, d) ← access (Sc := broken) 100 c d (0%nat, 1) None;
  '(f, s) ← enter_locked 100 (inner c) 0 2;
  Ok (f, set_inner s c, d).

(** The cache of the build without checks after [holding], and the rounds of the
    cold hand on it. *)
Module stuck.

#[local] Instance unchecked : BuildProfile := false.

Definition fallback : Cache := mkCache (mkCacheInner four_pages ∅ ∅ dangling dangling 0 0 0 0 dangling dangling 0 0 dangling) 0 0 0 0.
Definition start : Cache := Eval vm_compute in match new (E := memory_fault) four_pages with Ok c => c | _ => fallback end.
Definition c : Cache := Eval vm_compute in match do_acts 100 start blank holding with Ok (c, _) => c | _ => fallback end.

Definition round (s : CacheInner) : CacheInner := match hand_cold_step 2 s with Ok (None, s') => s' | _ => s end.
Definition after (k : nat) : CacheInner := Nat.iter k round (inner c).

Lemma round_loop fuel n s s' : hand_cold_step fuel s = Ok (None, s') -> hand_cold_loop fuel (S n) s = hand_cold_loop fuel n s'.
Proof. intros H. cbn [hand_cold_loop]. rewrite H. reflexivity. Qed.

(** A round only counts up the cost of the hand. *)
Ltac play_round :=
  unfold hand_cold_step;
  match goal with |- context [add_u64 (hand_cold_cost (set_costs ?n _ _)) 1] =>
    match goal with |- context [add_u64 ?x 1] => change (add_u64 x 1) with (Ok (E := memory_fault) (u64 (n + 1))) end; generalize (u64 (n + 1)) end;
  intros w; vm_compute; reflexivity.

(** From the seventh round on, the two held pages change places before the end
    page and only the cost of the hand grows. *)
Lemma swap_7 fuel cost m : hand_cold_step fuel (set_costs cost m (after 7)) = Ok (None, set_costs (u64 (cost + 1)) m (after 8)).
Proof. play_round. Qed.

Lemma swap_8 fuel cost m : hand_cold_step fuel (set_costs cost m (after 8)) = Ok (None, set_costs (u64 (cost + 1)) m (after 7)).
Proof. play_round. Qed.

Lemma swaps fuel n : forall cost m,
  hand_cold_loop fuel n (set_costs cost m (after 7)) = OutOfFuel /\ hand_cold_loop fuel n (set_costs cost m (after 8)) = OutOfFuel.
Proof.
  induction n as [|n IH]; intros cost m; [done|].
  rewrite (round_loop _ _ _ _ (swap_7 fuel cost m)), (round_loop _ _ _ _ (swap_8 fuel cost m)). split; apply IH.
Qed.

Lemma reaches f n k : (k <= 7)%nat -> hand_cold_loop (S (S f)) n (after (7 - k)) = OutOfFuel.
Proof.
  revert n. induction k as [|k IH]; intros n Hk.
  { apply (swaps (S (S f)) n (hand_cold_cost (after 7)) (max_hand_cold_cost (after 7))). }
  destruct n as [|n]; [done|]. rewrite (round_loop _ _ _ (after (7 - k))); [apply IH; lia|].
  do 7 (destruct k as [|k]; [vm_compute; reflexivity|]). lia.
Qed.

Lemma no_buffer fuel : acquire_page_data fuel (inner c) = OutOfFuel.
Proof.
  change (acquire_page_data fuel (inner c)) with ('(donor, d, s) ← hand_cold_loop fuel fuel (inner c);
    _ ← debug_assert (resident_page_count s <? max_resident (options s));
    Ok (Some (Some donor, d), set_costs (hand_cold_cost s) (Z.max (max_hand_cold_cost s) (hand_cold_cost s)) s)).
  destruct fuel as [|[|f]]; [reflexivity|vm_compute; reflexivity|].
  change (inner c) with (after (7 - 7)). by rewrite reaches.
Qed.

Lemma no_page fuel : page fuel c blank 0 5 = OutOfFuel.
Proof.
  destruct fuel as [|fuel]; [vm_compute; reflexivity|]. unfold page.
  change (enter_fast c 0 5) with (Ok (E := memory_fault) (@None ptr, miss c)). run. cbn [page_loop].
  change (enter_locked (S fuel) (inner (miss c)) 0 5) with (load_page (S fuel) (inner c) 0 5 None).
  unfold load_page. by rewrite no_buffer.
Qed.

End stuck.

(** C34. Held pages can stop the cache: a user who holds two of the four pages, of
    which a third is resident, free and unreferenced, makes the next fault run for
    ever.  The cold hand moves each held page behind itself and in front of the end
    page, so it meets the two in turn and never passes the end page. *)
Theorem pinned_pages_hang : let P : BuildProfile := false in
  exists c0 c d, new (E := memory_fault) four_pages = Ok c0 /\ do_acts 100 c0 blank holding = Ok (c, d) /\
    (exists p g, page_map (inner c) !! (0%nat, 0) = Some p /\ heap (inner c) !! p = Some g /\ is_resident g = true /\ lock g = page_lock.UNLOCKED /\ refd g = false) /\
    forall fuel, page fuel c d 0 5 = OutOfFuel.
Proof.
  exists stuck.start, stuck.c, blank. split_and!; [vm_compute; reflexivity|vm_compute; reflexivity| |].
  { eexists _, _. split_and!; vm_compute; reflexivity. }
  exact stuck.no_page.
Qed.

(** ** Changes that are lost *)

(** The buffer of a page. *)
Definition buffer_at (s : CacheInner) (p : ptr) : option Page := g ← heap s !! p; data g.

Section losses.
Context {P : BuildProfile} {Sc : Scope}.

Lemma buffer_insert s p g q : buffer_at (set_heap (<[p := g]> (heap s)) s) q = if decide (q = p) then data g else buffer_at s q.
Proof. unfold buffer_at. cbn. case_decide as E; [subst; by rewrite lookup_insert_eq|by rewrite lookup_insert_ne]. Qed.

Lemma deref_inv s p g : deref s p = Ok g -> heap s !! p = Some g.
Proof. unfold deref. by destruct (heap s !! p); [injection 1 as ->|]. Qed.

(** A page loses or keeps its buffer; no other page changes. *)
Lemma modify_buffer s p f s' : modify s p f = Ok s' -> exists g, heap s !! p = Some g /\
  forall q, buffer_at s' q = if decide (q = p) then data (f g) else buffer_at s q.
Proof.
  unfold modify. intros H. bind_inv H. apply deref_inv in E. injection H as <-. eexists. split; [exact E|]. intros q. apply buffer_insert.
Qed.

Lemma count_heap s k u s' : update_page_count s k u = Ok s' -> heap s' = heap s.
Proof.
  unfold update_page_count. intros H. destruct k as [|[]], u; bind_inv H; by injection H as <-.
Qed.

(** A load that is read leaves a clean page with the bytes of the file. *)
Lemma transfer_read c d sc i db p c' d' : transfer c d sc i db p = Ok (None, c', d') ->
  (exists d0 buf b, (db = None -> d0 = d) /\ scope_read d0 sc i buf = Some (b, d') /\ buffer_at (inner c') p = Some (mkPage false b)) /\
  forall q, q <> p -> buffer_at (inner c') q = buffer_at (inner c) q.
Proof.
  unfold transfer. intros H. bind_inv H. bind_inv H. destruct (match db with Some _ => _ | None => _ end) as [w c1] eqn:W.
  assert (inner c1 = inner c) as Hc1.
  { destruct db as [dn|]; [|by injection W as <- <-]. unfold write in W. destruct (is_dirty a0); by injection W as <- <-. }
  destruct w as [[[? buf] d0]|]; [|done]. unfold read in H. destruct (scope_read d0 sc i (bytes buf)) as [[rd d1]|] eqn:R; bind_inv H.
  injection H as <- <-. apply modify_buffer in E1 as (g & _ & Hb). cbn [inner set_inner]. cbn [inner count_read] in Hb. rewrite Hc1 in Hb.
  split; [|intros q Hq; rewrite Hb; by case_decide]. exists d0, (bytes buf), rd. split_and!; [|done|rewrite Hb; by case_decide].
  intros ->. cbn in W. congruence.
Qed.

(** The transfer of a dirty page begins with writing it. *)
Lemma transfer_written c d sc i k b p c' d' : buffer_at (inner c) p = Some (mkPage true b) ->
  transfer c d k.1 k.2 (Some (mkDonorPage i sc)) p = Ok (None, c', d') -> is_Some (scope_write d sc i b).
Proof.
  unfold transfer, buffer_at. intros Hb H. bind_inv H. apply deref_inv in E. rewrite E in Hb. cbn in Hb. rewrite Hb in H. cbn in H.
  unfold write in H. cbn in H. destruct (scope_write d sc i b); [by eexists|done].
Qed.

Lemma transfer_refused c d sc i k b p : buffer_at (inner c) p = Some (mkPage true b) -> scope_write d sc i b = None ->
  exists c', transfer c d k.1 k.2 (Some (mkDonorPage i sc)) p = Ok (Some Write, c', d) /\ inner c' = inner c.
Proof.
  unfold buffer_at. destruct (heap (inner c) !! p) as [g|] eqn:Hg; [|done]. cbn. intros Hb Hw. unfold transfer, deref. rewrite Hg. cbn.
  rewrite Hb. cbn. unfold write. cbn. rewrite Hw. by eexists.
Qed.

(** The end of a transfer: the buffer stays, or goes after an error. *)
Lemma finish_buffer s p r s' : finish_load s p r = Ok s' -> forall q, buffer_at s' q =
  if decide (q = p) then (match r with None => buffer_at s p | Some _ => None end) else buffer_at s q.
Proof.
  unfold finish_load. intros H. bind_inv H. apply deref_inv in E. rename a into g. bind_inv H. rename a into g1.
  assert (data g1 = data g) as Hd.
  { unfold finish_io in E0. destruct (match r with Some _ => _ | None => _ end). bind_inv E0. by injection E0 as <-. }
  bind_inv H. set (s1 := set_io_count _ _) in *. assert (forall q, buffer_at s1 q = if decide (q = p) then buffer_at s p else buffer_at s q) as Hs1.
  { intros q. change (buffer_at s1 q) with (buffer_at (set_heap (<[p := g1]> (heap s)) s) q). rewrite buffer_insert, Hd.
    unfold buffer_at at 2. by rewrite E. }
  destruct r as [e|]; [|by injection H as <-]. bind_inv H. bind_inv H. apply modify_buffer in E3 as (g2 & _ & Hs2).
  bind_inv H. destruct a2 as [from s3]. assert (forall q, buffer_at s3 q = buffer_at a1 q) as Hs3.
  { destruct (status g1); try done; [|by injection E3 as <- <-]. bind_inv E3. apply modify_buffer in E4 as (g3 & Hg3 & Hs3). injection E3 as <- <-.
    intros q. rewrite Hs3. case_decide as Eq; [|done]. subst q. unfold buffer_at. by rewrite Hg3. }
  unfold transit_page_count in H. bind_inv H. apply count_heap in E4, H. intros q. assert (buffer_at s' q = buffer_at s3 q) as -> by (unfold buffer_at; by rewrite H, E4).
  rewrite Hs3, Hs2. case_decide; [done|]. rewrite Hs1. by case_decide.
Qed.

(** C35. The last change of a page can be lost, on any files and in any state of the
    cache.  First, let a thread have evicted the changed page [i] of scope [sc] and
    left the mutex to write it and to load another page in its buffer [pa], and let
    a second thread have faulted on that page and left the mutex to load it in
    [pb].  When the transfer of the second thread comes first, it keeps as a clean
    page what the file held before the change, although the first one then writes
    the change.  Second, when the write of an evicted page fails, the transfer ends
    with an error that drops its buffer: the file does not have the change, and the
    cache has no other copy. *)
Theorem cache_loses_writes :
  (forall c d sc i b k pa db pb c1 d1 s1 c2 d2 s2,
     pa <> pb -> buffer_at (inner c) pa = Some (mkPage true b) ->
     transfer c d sc i db pb = Ok (None, c1, d1) -> finish_load (inner c1) pb None = Ok s1 ->
     transfer (set_inner s1 c1) d1 k.1 k.2 (Some (mkDonorPage i sc)) pa = Ok (None, c2, d2) ->
     finish_load (inner c2) pa None = Ok s2 ->
     is_Some (scope_write d1 sc i b) /\
     exists d0 buf old, scope_read d0 sc i buf = Some (old, d1) /\ (db = None -> d0 = d) /\
       buffer_at s2 pb = Some (mkPage false old)) /\
  (forall c d sc i b k pa,
     buffer_at (inner c) pa = Some (mkPage true b) -> scope_write d sc i b = None ->
     exists c', transfer c d k.1 k.2 (Some (mkDonorPage i sc)) pa = Ok (Some Write, c', d) /\
       forall s, finish_load (inner c') pa (Some Write) = Ok s ->
         buffer_at s pa = None /\ forall p, p <> pa -> buffer_at s p = buffer_at (inner c) p).
Proof.
  split.
  - intros c d sc i b k pa db pb c1 d1 s1 c2 d2 s2 Hne Hb T1 F1 T2 F2.
    destruct (transfer_read _ _ _ _ _ _ _ _ T1) as [(d0 & buf & old & Hd0 & Hr & Hpb) Ho1].
    destruct (transfer_read _ _ _ _ _ _ _ _ T2) as [_ Ho2]. cbn [inner set_inner] in Ho2.
    pose proof (finish_buffer _ _ _ _ F1) as Hf1. pose proof (finish_buffer _ _ _ _ F2) as Hf2. split.
    + eapply transfer_written; [|exact T2]. cbn [inner set_inner]. rewrite Hf1. rewrite decide_False by done. by rewrite Ho1.
    + exists d0, buf, old. split_and!; [done|done|]. rewrite Hf2, decide_False, Ho2, Hf1, decide_True by done. done.
  - intros c d sc i b k pa Hb Hw. destruct (transfer_refused c d sc i k b pa Hb Hw) as (c' & T & Hc'). exists c'. split; [done|].
    intros s F. rewrite Hc' in F. pose proof (finish_buffer _ _ _ _ F) as Hf. split; [rewrite Hf; by case_decide|].
    intros p Hp. rewrite Hf. by case_decide.
Qed.

End losses.

(** The interleaving of [both_faulted], step by step: the first thread has page 4
    of the heap, the second one page 2. *)
Module race.

#[local] Instance checked : BuildProfile := true.

Definition evicting : option DonorPage := Some (mkDonorPage 0 0).
Definition other : option DonorPage := Some (mkDonorPage 1 0).
Definition c0 : Cache := Eval vm_compute in match both_faulted with Ok (_, _, c, _) => c | _ => stuck.fallback end.
Definition c1 : Cache := Eval vm_compute in match transfer c0 blank 0 0 other 2%nat with Ok (_, c, _) => c | _ => stuck.fallback end.
Definition s1 : CacheInner := Eval vm_compute in match finish_load (inner c1) 2%nat None with Ok s => s | _ => inner c1 end.
Definition after : Cache * D := Eval vm_compute in
  match transfer (set_inner s1 c1) blank 0 2 evicting 4%nat with Ok (_, c, d) => (c, d) | _ => (c1, blank) end.
Definition s2 : CacheInner := Eval vm_compute in match finish_load (inner after.1) 4%nat None with Ok s => s | _ => inner c1 end.

End race.

Lemma cache_loses_writes_witness : let P : BuildProfile := true in
  both_faulted = Ok (Load race.evicting 4%nat, Load race.other 2%nat, race.c0, blank) /\
  exists old, buffer_at race.s2 2%nat = Some (mkPage false old) /\ page_map race.s2 !! (0%nat, 0) = Some 2%nat /\
    old <> [7] /\ (race.after.2 : gmap (nat * Z) (list Z)) !! (0%nat, 0) = Some [7].
Proof.
  intros P. split; [vm_compute; reflexivity|].
  destruct (proj1 (cache_loses_writes (P := P) (Sc := disk)) race.c0 blank 0%nat 0 [7] (0%nat, 2) 4%nat race.other 2%nat
    race.c1 blank race.s1 race.after.1 race.after.2 race.s2) as (_ & d0 & buf & old & _ & _ & H); [vm_compute; (reflexivity || discriminate)..|].
  exists old. split; [exact H|]. split; [vm_compute; reflexivity|]. split; [|vm_compute; reflexivity]. intros ->. vm_compute in H. discriminate H.
Defined.

(** The failed write on the broken files. *)
Theorem failed_write_observed (P : BuildProfile) : exists f c d,
  one_faulted = Ok (f, c, d) /\ exists p c' d', complete (Sc := broken) c d 2 f = Ok (p, c', d') /\ buffer_at (inner c') p = None /\
    (d' : gmap (nat * Z) (list Z)) !! (0%nat, 0) = None /\ page_map (inner c') !! (0%nat, 0) <> Some p.
Proof. destruct P; eexists _, _, _; (split; [vm_compute; reflexivity|]); eexists _, _, _; split_and!; vm_compute; (reflexivity || discriminate). Qed.

End cache_limits.
