(* ===== verification/FileScope.v ===== *)
(** * Files under the page cache (tskv/src/direct_io/file/scope.rs, file/system.rs,
      file.rs)

    A [FileScope] is an open file as the page cache sees it: it reads and writes
    whole pages of the file on disk and keeps the logical length of the file.  The
    file system opens files, one scope per inode, and a [File] reads and writes
    bytes through the pages of the cache.

    [file_scope] translates the scope over the calls of the operating system,
    which are a parameter ([Os]); [file_system] the opening and syncing of files;
    [file_stack] the byte operations of [File] over the page cache of PageCache. *)
From S2P Require Import Prelude FileIO PageLock PageCache PageCacheFacts.

(** What [pread] and [pwrite] do to a file, given the number of the call and the
    bytes of the file: the bytes read, or how many were written and the new file;
    or the kind of the error.  [os_patience] is how often in a row a call is
    repeated after an interruption before the model gives up. *)
Inductive io (A : Type) := Done (a : A) | Interrupted | Failed.
Arguments Done {A} a.
Arguments Interrupted {A}.
Arguments Failed {A}.

Class Os := {
  os_read : nat -> list Z -> nat -> nat -> io (list Z);
  os_write : nat -> list Z -> nat -> list Z -> io (nat * list Z);
  os_patience : nat
}.

Module file_scope.

Inductive io_failure := OsError.

Definition BLOCK_ALIGN : nat := 512.

(** The bytes on disk of each inode, the length each open scope keeps, and the
    number of the next call of the operating system. *)
Record FS := mkFS { disk : gmap nat (list Z); lens : gmap nat nat; calls : nat }.

Definition on_disk (d : FS) (sc : nat) : list Z := default [] (disk d !! sc).
Definition len (d : FS) (sc : nat) : nat := default 0%nat (lens d !! sc).
Definition set_len (d : FS) (sc n : nat) : FS := mkFS (disk d) (<[sc := n]> (lens d)) (calls d).
Definition set_disk (d : FS) (sc : nat) (f : list Z) : FS := mkFS (<[sc := f]> (disk d)) (lens d) (calls d).
Definition set_calls (d : FS) (t : nat) : FS := mkFS (disk d) (lens d) t.

(** A page number is a [u32] and so is the length of a page: the product does not
    overflow. *)
Definition page_pos (id page_len : nat) : nat := (id * page_len)%nat.

Definition page_span (file_len id page_len : nat) : nat * nat :=
  let pos := page_pos id page_len in
  (pos, if (pos <? file_len)%nat then Nat.min (file_len - pos) page_len else 0%nat).

Section scope.
Context {P : BuildProfile} {Sys : Os}.

(** The buffer is what has been read so far and the [rest]; [t] is the number of
    the next call. *)
Fixpoint read_all_loop (fuel t : nat) (f : list Z) (pos expected_len : nat) (got rest : list Z) (read : Z)
    : outcome io_failure (Z * list Z * nat) :=
  if (length rest =? 0)%nat || (read =? Z.of_nat expected_len) then Ok (read, got ++ rest, t)
  else match fuel with
  | O => OutOfFuel
  | S fuel =>
      match os_read t f pos (length rest) with
      | Done b =>
          if (length b =? 0)%nat then Ok (read, got ++ rest, S t)
          else
            let n := length b in
            pos ← file.checked_add pos n;
            more ← (if read + Z.of_nat n <? U64 then Ok (read + Z.of_nat n) else Panic);
            read ← add_u64 read more;
            if negb (n mod BLOCK_ALIGN =? 0)%nat then Ok (read, got ++ b ++ drop n rest, S t)
            else read_all_loop fuel (S t) f pos expected_len (got ++ b) (drop n rest) read
      | Interrupted => read_all_loop fuel (S t) f pos expected_len got rest read
      | Failed => Err OsError
      end
  end.

Definition read_all_at (fuel t : nat) (f : list Z) (pos expected_len : nat) (buf : list Z)
    : outcome io_failure (Z * list Z * nat) :=
  _ ← assert_ (expected_len <=? length buf)%nat;
  _ ← assert_ (pos mod BLOCK_ALIGN =? 0)%nat;
  _ ← assert_ (length buf mod BLOCK_ALIGN =? 0)%nat;
  read_all_loop fuel t f pos expected_len [] buf 0.

Fixpoint write_all_loop (fuel t : nat) (f : list Z) (pos : nat) (buf : list Z) : outcome io_failure (list Z * nat) :=
  if (length buf =? 0)%nat then Ok (f, t)
  else match fuel with
  | O => OutOfFuel
  | S fuel =>
      match os_write t f pos buf with
      | Done (n, f) =>
          if (n =? 0)%nat then Ok (f, S t)
          else
            _ ← assert_ (n mod BLOCK_ALIGN =? 0)%nat;
            pos ← file.checked_add pos n;
            write_all_loop fuel (S t) f pos (drop n buf)
      | Interrupted => write_all_loop fuel (S t) f pos buf
      | Failed => Err OsError
      end
  end.

Definition write_all_at (fuel t : nat) (f : list Z) (pos : nat) (buf : list Z) : outcome io_failure (list Z * nat) :=
  _ ← assert_ (pos mod BLOCK_ALIGN =? 0)%nat;
  _ ← assert_ (length buf mod BLOCK_ALIGN =? 0)%nat;
  write_all_loop fuel t f pos buf.

(** [FileScope::read] and [FileScope::write]; every round that is not interrupted
    moves at least one byte, and a round is interrupted at most [os_patience]
    times. *)
Definition rounds (buf : list Z) : nat := S (length buf) * S os_patience.

Definition read (d : FS) (sc id : nat) (buf : list Z) : outcome io_failure (list Z * FS) :=
  let '(pos, l) := page_span (len d sc) id (length buf) in
  if (0 <? l)%nat then
    '(n, b, t) ← read_all_at (rounds buf) (calls d) (on_disk d sc) pos l buf;
    let d := set_calls d t in
    if n =? Z.of_nat (length buf) then Ok (b, d)
    else
      _ ← debug_assert (n <? Z.of_nat (length buf));
      new_len ← add_u64 (Z.of_nat pos) n;
      Ok (b, set_len d sc (Z.to_nat new_len))
  else Ok (buf, d).

Definition write (d : FS) (sc id : nat) (buf : list Z) : outcome io_failure FS :=
  '(f, t) ← write_all_at (rounds buf) (calls d) (on_disk d sc) (page_pos id (length buf)) buf;
  Ok (set_calls (set_disk d sc f) t).

(** The scope of the page cache; a [PageId] is a [u32].  The file system only calls
    it with pages of the right length, where neither operation panics; a call that
    would is not told from a call that fails. *)
Definition is_page_id (i : Z) : bool := (0 <=? i) && (i <? 2 ^ 32).

Definition scope : Scope := {|
  D := FS;
  scope_read d sc i buf := if is_page_id i then match read d sc (Z.to_nat i) buf with Ok x => Some x | _ => None end else Some (buf, d);
  scope_write d sc i b := if is_page_id i then match write d sc (Z.to_nat i) b with Ok x => Some x | _ => None end else Some d
|}.

End scope.
End file_scope.

(** ** The file system *)
Module file_system.
Import file_scope.

(** [ftruncate]. *)
Definition resize (f : list Z) (n : nat) : list Z := take n f ++ replicate (n - length f) 0.

(** [open_with] on a file that exists: the scope is shared while it is alive,
    whatever the options are; a new scope has the length of the file. *)
Definition open_with (d : FS) (sc : nat) (truncate : bool) : FS :=
  let d := if truncate then set_disk d sc [] else d in
  match lens d !! sc with
  | Some _ => d
  | None => set_len d sc (length (on_disk d sc))
  end.

Definition open (d : FS) (sc : nat) : FS := open_with d sc false.
Definition create (d : FS) (sc : nat) : FS := open_with d sc true.

(** [FileScope::sync_len]. *)
Definition sync_len (d : FS) (sc : nat) : FS := set_disk d sc (resize (on_disk d sc) (len d sc)).

(** [Drop for FileScope], when no page and no handle refers to it any more. *)
Definition drop_scope (d : FS) (sc : nat) : FS :=
  let d := sync_len d sc in mkFS (disk d) (delete sc (lens d)) (calls d).

End file_system.

(** ** Bytes over the page cache *)
Module file_stack.
Import page internal cache_inner cache cache_spec file_scope file_system.

Section stack.
Context {P : BuildProfile} {Sys : Os} (fuel : nat).
#[local] Existing Instance scope.

(** [max_page_len]. *)
Definition max_page_len (c : Cache) : nat := Z.to_nat (page_len (options (inner c))).

Definition page_id_at (c : Cache) (pos : nat) : res (nat * nat) :=
  let l := max_page_len c in
  let id := (pos / l)%nat in
  if Z.of_nat id <? 2 ^ 32 then Ok (id, (pos mod l)%nat) else Panic.

(** The loop of [read_at]: the bytes read, or nothing after an error. *)
Fixpoint read_loop (m : nat) (c : Cache) (d : FS) (sc pos n : nat) (acc : list Z) : res (option (list Z) * Cache * FS) :=
  if (n =? 0)%nat then Ok (Some acc, c, d)
  else match m with
  | O => OutOfFuel
  | S m =>
      '(id, offset) ← page_id_at c pos;
      '(b, c, d) ← access fuel c d (sc, Z.of_nat id) None;
      match b with
      | None => Ok (None, c, d)
      | Some b =>
          let '(_, l) := page_span (len d sc) id (length b) in
          rest ← slice_from (take l b) offset;
          if (length rest =? 0)%nat then Ok (Some acc, c, d)
          else
            let l := Nat.min (length rest) n in
            pos ← file.checked_add pos l;
            read_loop m c d sc pos (n - l) (acc ++ take l rest)
      end
  end.

Definition read_at (c : Cache) (d : FS) (sc pos n : nat) : res (option (list Z) * Cache * FS) := read_loop n c d sc pos n [].

(** [copy_from_slice] into a page. *)
Definition copy_into (offset : nat) (chunk b : list Z) : list Z := take offset b ++ chunk ++ drop (offset + length chunk) b.

(** [Drop for PageWriteGuard]. *)
Definition drop_guard (d : FS) (sc id page_len old_len l : nat) : FS :=
  if (l =? old_len)%nat then d
  else
    let file_len := len d sc in
    let new_file_len := (page_pos id page_len + l)%nat in
    let update := if (old_len <? l)%nat then (file_len <? new_file_len)%nat else (new_file_len <? file_len)%nat in
    if update then set_len d sc new_file_len else d.

(** The loop of [write_at]; [false] after an error. *)
Fixpoint write_loop (m : nat) (c : Cache) (d : FS) (sc pos : nat) (buf : list Z) : res (bool * Cache * FS) :=
  if (length buf =? 0)%nat then Ok (true, c, d)
  else match m with
  | O => OutOfFuel
  | S m =>
      '(id, offset) ← page_id_at c pos;
      let l := Nat.min (length buf) (max_page_len c - offset) in
      '(b, c, d) ← access fuel c d (sc, Z.of_nat id) (Some (copy_into offset (take l buf)));
      match b with
      | None => Ok (false, c, d)
      | Some b =>
          let '(_, old_len) := page_span (len d sc) id (length b) in
          _ ← assert_ (offset + l <=? length b)%nat;
          let d := drop_guard d sc id (length b) old_len (offset + l) in
          pos ← file.checked_add pos l;
          write_loop m c d sc pos (drop l buf)
      end
  end.

Definition write_at (c : Cache) (d : FS) (sc pos : nat) (buf : list Z) : res (bool * Cache * FS) :=
  write_loop (length buf) c d sc pos buf.

(** The pages of a scope, in the order its map is read. *)
Definition scope_ids (s : CacheInner) (sc : nat) : list Z :=
  (fun x => x.1.2) <$> filter (fun x => x.1.1 = sc) (map_to_list (page_map s)).

(** [sync_data] and [sync_all]; asking the device to write its own cache does not
    change the file. *)
Definition sync_data (c : Cache) (d : FS) (sc : nat) : res (bool * Cache * FS) :=
  '(r, c, d) ← flush c d sc (scope_ids (inner c) sc);
  Ok (match r with Some _ => true | None => false end, c, d).

Definition sync_all (c : Cache) (d : FS) (sc : nat) : res (bool * Cache * FS) :=
  '(r, c, d) ← flush c d sc (scope_ids (inner c) sc);
  match r with
  | Some _ => Ok (true, c, sync_len d sc)
  | None => Ok (false, c, d)
  end.

(** *** [FileSystem]: the open scopes, in the order of their map, up to the first error *)

Fixpoint for_scopes (sync : Cache -> FS -> nat -> res (bool * Cache * FS)) (c : Cache) (d : FS) (scopes : list nat)
    : res (bool * Cache * FS) :=
  match scopes with
  | [] => Ok (true, c, d)
  | sc :: scopes =>
      '(ok, c, d) ← sync c d sc;
      if ok : bool then for_scopes sync c d scopes else Ok (false, c, d)
  end.

Definition sync_all_files : Cache -> FS -> list nat -> res (bool * Cache * FS) := for_scopes sync_all.
Definition sync_data_files : Cache -> FS -> list nat -> res (bool * Cache * FS) := for_scopes sync_data.

Fixpoint discard_files (c : Cache) (scopes : list nat) : res Cache :=
  match scopes with
  | [] => Ok c
  | sc :: scopes =>
      c ← discard c sc (scope_ids (inner c) sc);
      discard_files c scopes
  end.

End stack.
End file_stack.
