(* ===== verification/FileScopeFacts.v ===== *)
(** * What a file promises to the page cache, and what the stack promises

    [scope_laws] shows that a [FileScope] keeps the contract of the page cache under
    [OsLaws]: calls may be interrupted and writes may be partial.  A page can be read
    when its bytes are on disk; the other pages of a file are dirty in the cache. *)
From S2P Require Import Prelude FileIO PageLock PageCache PageClock PageHands PageReplace PageCacheFacts FileScope.

(** [pwrite]: a gap before the bytes is filled with zeros. *)
Definition splice (f : list Z) (pos : nat) (b : list Z) : list Z :=
  take pos (f ++ replicate (pos - length f) 0) ++ b ++ drop (pos + length b) f.

(** Regular files.  A call that was interrupted is carried out when it is repeated,
    after at most [os_patience] interruptions in a row.  A read is short only at the
    end of the file; a write of blocks transfers at least one of them, from the
    front. *)
Class OsLaws (Sys : Os) := {
  os_read_settles t f pos n : exists k, (k <= os_patience)%nat /\
    (forall j, (j < k)%nat -> os_read (t + j) f pos n = Interrupted) /\
    os_read (t + k) f pos n = Done (take n (drop pos f));
  os_write_settles t f pos b : b <> [] -> (length b mod file_scope.BLOCK_ALIGN = 0)%nat ->
    exists k m, (k <= os_patience)%nat /\
    (forall j, (j < k)%nat -> os_write (t + j) f pos b = Interrupted) /\
    os_write (t + k) f pos b = Done (m, splice f pos (take m b)) /\
    (0 < m <= length b)%nat /\ (m mod file_scope.BLOCK_ALIGN = 0)%nat
}.

(** Calls that do all at once. *)
Definition posix : Os := {|
  os_read _ f pos n := Done (take n (drop pos f)); os_write _ f pos b := Done (length b, splice f pos b); os_patience := 0 |}.

#[global] Instance posix_laws : OsLaws posix.
Proof.
  split.
  - intros t f pos n. exists 0%nat. split_and!; [done|lia|done].
  - intros t f pos b Hb Hl. exists 0%nat, (length b). cbn. rewrite firstn_all. destruct b; [done|]. split_and!; try done; cbn; lia.
Qed.

(** Every other call is interrupted, and a write transfers one block. *)
Definition fitful : Os := {|
  os_read t f pos n := if Nat.even t then Interrupted else Done (take n (drop pos f));
  os_write t f pos b := if Nat.even t then Interrupted
                        else let b := take file_scope.BLOCK_ALIGN b in Done (length b, splice f pos b);
  os_patience := 1 |}.

#[global] Instance fitful_laws : OsLaws fitful.
Proof.
  assert (forall t, Nat.even t = false -> Nat.even (t + 0) = false) as Hodd by (intros t; by rewrite Nat.add_0_r).
  assert (forall t, Nat.even t = true -> Nat.even (t + 1) = false) as Heven.
  { intros t H. by rewrite Nat.add_1_r, Nat.even_succ, <- Nat.negb_even, H. }
  split.
  - intros t f pos n. cbn [os_read os_patience fitful]. destruct (Nat.even t) eqn:Et.
    + exists 1%nat. split_and!; [lia| |by rewrite Heven]. intros j Hj. replace j with 0%nat by lia. by rewrite Nat.add_0_r, Et.
    + exists 0%nat. split_and!; [lia|lia|by rewrite Hodd].
  - intros t f pos b Hb Hl. cbn [os_write os_patience fitful]. assert (file_scope.BLOCK_ALIGN <= length b)%nat as Hm.
    { destruct (Nat.lt_ge_cases (length b) file_scope.BLOCK_ALIGN) as [H|]; [|done]. rewrite Nat.mod_small in Hl by done. by destruct b. }
    assert (length (take file_scope.BLOCK_ALIGN b) = file_scope.BLOCK_ALIGN) as Ht by (rewrite length_take; lia).
    rewrite Ht. destruct (Nat.even t) eqn:Et.
    + exists 1%nat, file_scope.BLOCK_ALIGN. split_and!; [lia| |by rewrite Heven|unfold file_scope.BLOCK_ALIGN; lia|done|done].
      intros j Hj. replace j with 0%nat by lia. by rewrite Nat.add_0_r, Et.
    + exists 0%nat, file_scope.BLOCK_ALIGN. split_and!; [lia|lia|by rewrite Hodd|unfold file_scope.BLOCK_ALIGN; lia|done|done].
Qed.

Module scope_facts.
Import file_scope.

(** ** Splicing *)

Lemma length_splice f pos b : length (splice f pos b) = Nat.max (length f) (pos + length b).
Proof. unfold splice. rewrite !length_app, length_take, length_app, length_replicate, length_drop. lia. Qed.

Lemma splice_lookup f pos b k : (k < length f \/ pos <= k)%nat ->
  splice f pos b !! k = if decide (pos <= k < pos + length b)%nat then b !! (k - pos)%nat else f !! k.
Proof.
  intros Hk. unfold splice. assert (length (take pos (f ++ replicate (pos - length f) 0)) = pos) as Hl.
  { rewrite length_take, length_app, length_replicate. lia. }
  destruct (decide (k < pos)%nat) as [Hlt|Hge].
  - rewrite lookup_app_l, lookup_take_lt, lookup_app_l by lia. case_decide; [lia|done].
  - rewrite lookup_app_r, Hl by lia. case_decide as Hd; [by rewrite lookup_app_l by lia|].
    rewrite lookup_app_r, lookup_drop by lia. f_equal. lia.
Qed.

(** Two lists that agree on a range have the same slice there. *)
Lemma slice_ext (l l' : list Z) a n : (forall k, (a <= k < a + n)%nat -> l !! k = l' !! k) -> take n (drop a l) = take n (drop a l').
Proof.
  intros H. apply list_eq. intros k. destruct (decide (k < n)%nat); [|by rewrite !lookup_take_ge by lia].
  rewrite !lookup_take_lt, !lookup_drop by lia. apply H. lia.
Qed.

Lemma splice_outside f pos b a n :
  (a + n <= length f)%nat -> (a + n <= pos \/ pos + length b <= a)%nat -> take n (drop a (splice f pos b)) = take n (drop a f).
Proof. intros Hf Ho. apply slice_ext. intros k Hk. rewrite splice_lookup by lia. case_decide; [lia|done]. Qed.

Lemma splice_inside f pos b n : (n <= length b)%nat -> take n (drop pos (splice f pos b)) = take n b.
Proof.
  intros Hn. apply list_eq. intros k. destruct (decide (k < n)%nat); [|by rewrite !lookup_take_ge by lia].
  rewrite !lookup_take_lt, lookup_drop, splice_lookup by lia. case_decide; [f_equal; lia|lia].
Qed.

(** Two writes that follow each other are one. *)
Lemma splice_splice f pos b m : (m <= length b)%nat ->
  splice (splice f pos (take m b)) (pos + m) (drop m b) = splice f pos b.
Proof.
  intros Hm. unfold splice at 1. rewrite length_splice, length_take, length_drop. unfold splice.
  set (pre := take pos (f ++ _)). assert (length pre = pos) as Hp by (unfold pre; rewrite length_take, length_app, length_replicate; lia).
  replace (pos + m - Nat.max (length f) (pos + Nat.min m (length b)))%nat with 0%nat by lia. cbn [replicate]. rewrite app_nil_r.
  rewrite length_take, (Nat.min_l m) by done. rewrite !app_assoc, take_app_length' by (rewrite length_app, length_take; lia).
  rewrite drop_app_ge by (rewrite length_app, length_take; lia). rewrite drop_drop, length_app, length_take, Hp.
  rewrite <- !app_assoc, (app_assoc (take m b)), take_drop. do 3 f_equal. lia.
Qed.

Lemma len_set_len d sc n sc' : len (set_len d sc n) sc' = if decide (sc' = sc) then n else len d sc'.
Proof. unfold len. cbn. case_decide as E; [subst; by rewrite lookup_insert_eq|by rewrite lookup_insert_ne]. Qed.

Lemma on_disk_set d sc f sc' : on_disk (set_disk d sc f) sc' = if decide (sc' = sc) then f else on_disk d sc'.
Proof. unfold on_disk. cbn. case_decide as E; [subst; by rewrite lookup_insert_eq|by rewrite lookup_insert_ne]. Qed.

Lemma set_len_same d sc : (0 < len d sc)%nat -> set_len d sc (len d sc) = d.
Proof.
  unfold len, set_len. destruct d as [dk ls tt]. cbn. intros H. destruct (ls !! sc) as [n|] eqn:E; cbn in *; [|lia]. by rewrite insert_id.
Qed.

Section scope.
Context {P : BuildProfile} {Sys : Os} {OL : OsLaws Sys} (pl : nat).

(** The length of a page: a multiple of the block size, below [2^32]. *)
Record page_length : Prop := { pl_pos : (0 < pl)%nat; pl_block : (pl mod BLOCK_ALIGN = 0)%nat; pl_u32 : Z.of_nat pl < 2 ^ 32 }.

Definition pos_of (i : nat) : nat := page_pos i pl.
Definition span (d : FS) (sc i : nat) : nat := (page_span (len d sc) i pl).2.

(** The valid bytes of the page are on disk. *)
Definition covered (d : FS) (sc i : nat) : bool :=
  (span d sc i =? 0)%nat || (pos_of i + pl <=? length (on_disk d sc))%nat || (length (on_disk d sc) =? len d sc)%nat.

Lemma span_spec d sc i : span d sc i = if (pos_of i <? len d sc)%nat then Nat.min (len d sc - pos_of i) pl else 0%nat.
Proof. done. Qed.

Lemma covered_spec d sc i : covered d sc i = true ->
  span d sc i = 0%nat \/ (pos_of i + pl <= length (on_disk d sc))%nat \/ length (on_disk d sc) = len d sc.
Proof. unfold covered. rewrite !orb_true_iff, Nat.leb_le, !Nat.eqb_eq. tauto. Qed.

Lemma pos_block i : page_length -> (pos_of i mod BLOCK_ALIGN = 0)%nat.
Proof. intros [_ H _]. unfold pos_of, page_pos. rewrite Nat.Div0.mul_mod, H, Nat.mul_0_r. done. Qed.

Lemma pos_u64 i : page_length -> is_page_id (Z.of_nat i) = true -> Z.of_nat (pos_of i + pl) < U64.
Proof.
  intros [_ _ H] Hi. unfold is_page_id in Hi. apply andb_true_iff in Hi as [_ Hi%Z.ltb_lt]. unfold pos_of, page_pos, U64. nia.
Qed.

Lemma checked_add_u64 {E} a b : Z.of_nat (a + b) < U64 -> file.checked_add (E := E) a b = Ok (a + b)%nat.
Proof. intros H. unfold file.checked_add. by rewrite (proj2 (Z.ltb_lt _ _)). Qed.

Lemma patience_rounds (n k : nat) : (1 <= n)%nat -> (k <= os_patience)%nat -> exists m, (n * S os_patience = k + S m)%nat /\ (Nat.pred n * S os_patience <= m)%nat.
Proof. intros Hn Hk. destruct n as [|n]; [lia|]. exists (os_patience - k + n * S os_patience)%nat. cbn [Nat.pred]. lia. Qed.

(** Interrupted calls are repeated. *)
Lemma read_repeats k : forall fuel t f pos l got rest n, length rest <> 0%nat -> n <> Z.of_nat l ->
  (forall j, (j < k)%nat -> os_read (t + j) f pos (length rest) = Interrupted) ->
  read_all_loop (k + fuel) t f pos l got rest n = read_all_loop fuel (t + k) f pos l got rest n.
Proof.
  induction k as [|k IH]; intros fuel t f pos l got rest n Hrest Hn Hint; [by rewrite Nat.add_0_r|]. cbn [Nat.add read_all_loop].
  rewrite (proj2 (Nat.eqb_neq _ _) Hrest), (proj2 (Z.eqb_neq _ _) Hn). cbn [orb].
  rewrite <- (Nat.add_0_r t) at 1. rewrite (Hint 0%nat) by lia. rewrite IH; [by replace (S t + k)%nat with (t + S k)%nat by lia|done|done|].
  intros j Hj. replace (S t + j)%nat with (t + S j)%nat by lia. apply Hint. lia.
Qed.

Lemma write_repeats k : forall fuel t f pos buf, length buf <> 0%nat ->
  (forall j, (j < k)%nat -> os_write (t + j) f pos buf = Interrupted) ->
  write_all_loop (k + fuel) t f pos buf = write_all_loop fuel (t + k) f pos buf.
Proof.
  induction k as [|k IH]; intros fuel t f pos buf Hb Hint; [by rewrite Nat.add_0_r|]. cbn [Nat.add write_all_loop].
  rewrite (proj2 (Nat.eqb_neq _ _) Hb). rewrite <- (Nat.add_0_r t) at 1. rewrite (Hint 0%nat) by lia.
  rewrite IH; [by replace (S t + k)%nat with (t + S k)%nat by lia|done|].
  intros j Hj. replace (S t + j)%nat with (t + S j)%nat by lia. apply Hint. lia.
Qed.

(** The buffer is filled as far as the file goes; a second call may be needed to see
    its end. *)
Lemma read_all_at_ok t f i l buf :
  page_length -> length buf = pl -> (0 < l <= pl)%nat -> (pos_of i < length f)%nat -> is_page_id (Z.of_nat i) = true ->
  let b := take pl (drop (pos_of i) f) in
  exists t', read_all_at (rounds buf) t f (pos_of i) l buf = Ok (Z.of_nat (length b), b ++ drop (length b) buf, t').
Proof.
  intros Hpl Hbuf Hl Hf Hi b. pose proof (pos_u64 i Hpl Hi) as Hu. assert (length b = Nat.min pl (length f - pos_of i)) as Hb.
  { unfold b. by rewrite length_take, length_drop. }
  unfold read_all_at, rounds. rewrite Hbuf, pos_block, (pl_block Hpl) by done. rewrite (proj2 (Nat.leb_le _ _)) by lia. cbn [assert_ Nat.eqb]. run.
  destruct (os_read_settles t f (pos_of i) pl) as (k & Hk & Hint & Hread). destruct (patience_rounds (S pl) k) as (m & -> & Hm); [lia|done|].
  rewrite read_repeats by (rewrite ?Hbuf; done || lia). cbn [read_all_loop]. rewrite Hbuf. destruct (Nat.eqb_spec pl 0); [lia|].
  rewrite (proj2 (Z.eqb_neq 0 _)) by lia. cbn [orb].
  rewrite Hread. fold b. destruct (Nat.eqb_spec (length b) 0); [lia|]. rewrite checked_add_u64 by lia. run.
  rewrite Z.add_0_l, (proj2 (Z.ltb_lt _ _)) by lia. run. rewrite add_u64_ok by (unfold is_u64; lia). run. rewrite Z.add_0_l. cbn [app].
  destruct (_ =? 0)%nat; cbn [negb]; [|by eexists]. cbn [Nat.pred] in Hm.
  assert (read_all_loop m (S (t + k)) f (pos_of i + length b) l b (drop (length b) buf) (Z.of_nat (length b)) =
    if (length (drop (length b) buf) =? 0)%nat || (Z.of_nat (length b) =? Z.of_nat l)
    then Ok (Z.of_nat (length b), b ++ drop (length b) buf, S (t + k))
    else read_all_loop m (S (t + k)) f (pos_of i + length b) l b (drop (length b) buf) (Z.of_nat (length b))) as ->
    by (destruct m; cbn [read_all_loop]; by destruct (_ || _)).
  destruct (_ || _) eqn:Eor; [by eexists|]. apply orb_false_iff in Eor as [Eor%Nat.eqb_neq El%Z.eqb_neq].
  destruct (os_read_settles (S (t + k)) f (pos_of i + length b) (length (drop (length b) buf))) as (k2 & Hk2 & Hint2 & Hread2).
  destruct (patience_rounds pl k2) as (m2 & Em2 & _); [lia|done|]. replace m with (k2 + S (m - k2 - 1))%nat by lia.
  rewrite read_repeats by done. cbn [read_all_loop]. rewrite (proj2 (Nat.eqb_neq _ _) Eor), (proj2 (Z.eqb_neq _ _) El). cbn [orb].
  rewrite length_drop in Eor. rewrite Hread2, (drop_ge f), take_nil by lia. by eexists.
Qed.

Lemma read_ok d sc i buf :
  page_length -> length buf = pl -> is_page_id (Z.of_nat i) = true -> covered d sc i = true ->
  exists b t, read d sc i buf = Ok (b, set_calls d t) /\ length b = pl /\ take (span d sc i) b = take (span d sc i) (drop (pos_of i) (on_disk d sc)).
Proof.
  intros Hpl Hbuf Hi Hcov. unfold read. rewrite Hbuf. change (page_span (len d sc) i pl) with (pos_of i, span d sc i). cbv iota.
  pose proof (span_spec d sc i) as Hs. destruct (Nat.ltb_spec 0 (span d sc i)) as [Hpos|Hz]; cycle 1.
  { exists buf, (calls d). split_and!; [by destruct d|done|]. by replace (span d sc i) with 0%nat by lia. }
  assert (pos_of i < len d sc)%nat as Hlen by (destruct (Nat.ltb_spec (pos_of i) (len d sc)); lia).
  destruct (covered_spec _ _ _ Hcov) as [?|Hc]; [lia|]. assert (span d sc i = Nat.min (len d sc - pos_of i) pl) as Hsp.
  { rewrite Hs. by rewrite (proj2 (Nat.ltb_lt _ _)). }
  pose proof (pl_pos Hpl). destruct (read_all_at_ok (calls d) (on_disk d sc) i (span d sc i) buf) as (t & ->); [done|done|lia|lia|done|]. run. set (b := take pl _).
  assert (length b = Nat.min pl (length (on_disk d sc) - pos_of i)) as Hb by (unfold b; by rewrite length_take, length_drop).
  exists (b ++ drop (length b) buf), t. assert (length (b ++ drop (length b) buf) = pl) as Hlb by (rewrite length_app, length_drop; lia).
  assert (take (span d sc i) (b ++ drop (length b) buf) = take (span d sc i) (drop (pos_of i) (on_disk d sc))) as Ht.
  { rewrite take_app_le by lia. unfold b. rewrite take_take. f_equal. lia. }
  destruct (Z.eqb_spec (Z.of_nat (length b)) (Z.of_nat pl)) as [E|E]; [done|].
  rewrite clock_list.debug_assert_true by (apply Z.ltb_lt; lia). run. pose proof (pos_u64 i Hpl Hi). rewrite add_u64_ok by (unfold is_u64; lia). run.
  split_and!; [|done|done]. do 2 f_equal. replace (Z.to_nat _) with (len (set_calls d t) sc) by (change (len (set_calls d t) sc) with (len d sc); lia). apply set_len_same.
  change (len (set_calls d t) sc) with (len d sc). lia.
Qed.

Lemma pwrite_loop_ok n : forall fuel t f pos buf, (length buf <= n)%nat -> (n * S os_patience <= fuel)%nat ->
  (length buf mod BLOCK_ALIGN = 0)%nat -> Z.of_nat (pos + length buf) < U64 ->
  exists t', write_all_loop fuel t f pos buf = Ok (if decide (buf = []) then f else splice f pos buf, t').
Proof.
  induction n as [|n IH]; intros fuel t f pos buf Hn Hfuel Hblock Hu; (destruct (decide (buf = [])) as [->|Hne]; [exists t; by destruct fuel|]).
  { destruct buf; [done|]. cbn in Hn. lia. }
  destruct (os_write_settles t f pos buf Hne Hblock) as (k & m & Hk & Hint & Hw & Hm & Hmb).
  destruct (patience_rounds (S n) k) as (r & Er & Hr); [lia|done|]. replace fuel with (k + S (fuel - k - 1))%nat by lia.
  assert (length buf <> 0)%nat as Hl by (by destruct buf). rewrite write_repeats by done. cbn [write_all_loop].
  rewrite (proj2 (Nat.eqb_neq _ _) Hl), Hw, (proj2 (Nat.eqb_neq m 0)), Hmb by lia. cbn [assert_ Nat.eqb]. run.
  rewrite checked_add_u64 by lia. run.
  destruct (IH (fuel - k - 1)%nat (S (t + k)) (splice f pos (take m buf)) (pos + m)%nat (drop m buf)) as (t' & ->);
    [rewrite length_drop; lia|cbn [Nat.pred] in Hr; lia| |rewrite length_drop; lia|].
  - rewrite length_drop. destruct (Nat.Div0.div_exact (length buf) BLOCK_ALIGN) as [_ H1]. destruct (Nat.Div0.div_exact m BLOCK_ALIGN) as [_ H2].
    rewrite H1, H2, <- Nat.mul_sub_distr_l, Nat.mul_comm by done. apply Nat.Div0.mod_mul.
  - exists t'. do 2 f_equal. case_decide as E; [|apply splice_splice; lia].
    assert (m = length buf) as -> by (apply (f_equal length) in E; rewrite length_drop in E; cbn in E; lia). by rewrite firstn_all.
Qed.

Lemma write_all_ok t f i buf :
  page_length -> length buf = pl -> is_page_id (Z.of_nat i) = true ->
  exists t', write_all_at (rounds buf) t f (pos_of i) buf = Ok (splice f (pos_of i) buf, t').
Proof.
  intros Hpl Hbuf Hi. pose proof (pos_u64 i Hpl Hi) as Hu. pose proof (pl_pos Hpl) as Hpos.
  unfold write_all_at, rounds. rewrite Hbuf, pos_block, (pl_block Hpl) by done. cbn [assert_ Nat.eqb]. run.
  destruct (pwrite_loop_ok pl (S pl * S os_patience) t f (pos_of i) buf) as (t' & ->); [lia|lia|rewrite Hbuf; apply Hpl|lia|].
  exists t'. case_decide as E; [|done]. subst buf. cbn in Hbuf. lia.
Qed.

(** ** The contract *)

Definition content (d : FS) (k : nat * Z) : option (list Z) :=
  if is_page_id k.2 then
    let i := Z.to_nat k.2 in
    if covered d k.1 i then Some (take (span d k.1 i) (drop (pos_of i) (on_disk d k.1))) else None
  else Some [].

Definition view (d : FS) (k : nat * Z) (b : list Z) : option (list Z) :=
  if is_page_id k.2 then Some (take (span d k.1 (Z.to_nat k.2)) b) else Some [].

Lemma page_id_nat i : is_page_id i = true -> is_page_id (Z.of_nat (Z.to_nat i)) = true.
Proof. intros H. pose proof H as H1. unfold is_page_id in H1. apply andb_true_iff in H1 as [H1%Z.leb_le _]. by rewrite Z2Nat.id. Qed.

Lemma scope_read_law d sc i buf b d' : page_length -> length buf = pl -> is_Some (content d (sc, i)) -> scope_read (Scope := scope) d sc i buf = Some (b, d') ->
  length b = pl /\ view d (sc, i) b = content d (sc, i) /\ exists t, d' = set_calls d t.
Proof.
  intros Hpl Hbuf Hr Hread. unfold content, view in *. cbn [fst snd] in *. cbn [scope scope_read] in Hread. destruct (is_page_id i) eqn:Hi; [|by injection Hread as <- <-; split_and!; [done|done|]; exists (calls d); destruct d].
  destruct (covered d sc (Z.to_nat i)) eqn:Hc; [|by destruct Hr].
  destruct (read_ok d sc (Z.to_nat i) buf Hpl Hbuf (page_id_nat i Hi) Hc) as (b1 & t & Hb1 & Hl & Ht). rewrite Hb1 in Hread. injection Hread as <- <-. rewrite Ht. split_and!; [done|done|by exists t].
Qed.

(** Writing a page extends the file at most to its end. *)
Lemma covered_splice d sc i j b : length b = pl -> i <> j -> covered d sc j = true ->
  let d' := set_disk d sc (splice (on_disk d sc) (pos_of i) b) in
  covered d' sc j = true /\ take (span d sc j) (drop (pos_of j) (on_disk d' sc)) = take (span d sc j) (drop (pos_of j) (on_disk d sc)).
Proof.
  intros Hb Hij Hc d'. assert (pos_of i + pl <= pos_of j \/ pos_of j + pl <= pos_of i)%nat as Hsep by (unfold pos_of, page_pos; nia).
  pose proof (span_spec d sc j) as Hs. assert (span d' sc j = span d sc j) as Hs' by done. assert (len d' sc = len d sc) as Hl' by done.
  assert (on_disk d' sc = splice (on_disk d sc) (pos_of i) b) as Hd' by (unfold d'; rewrite on_disk_set; by case_decide).
  unfold covered. rewrite Hs', Hl', Hd', length_splice, Hb, !orb_true_iff, Nat.leb_le, !Nat.eqb_eq.
  destruct (decide (span d sc j = 0)%nat) as [Hz|Hnz]; [rewrite Hz; by auto|]. destruct (Nat.ltb_spec (pos_of j) (len d sc)); [|lia].
  destruct (covered_spec _ _ _ Hc) as [?|Hcov]; [lia|]. split; [|apply splice_outside; lia]. destruct Hcov; [lia|]. destruct Hsep; lia.
Qed.

Lemma scope_write_law d sc i b d' : page_length -> length b = pl -> scope_write (Scope := scope) d sc i b = Some d' ->
  content d' (sc, i) = view d (sc, i) b /\ lens d' = lens d /\
  (forall k, k <> (sc, i) -> is_Some (content d k) -> content d' k = content d k).
Proof.
  intros Hpl Hb Hw. cbn [scope scope_write] in Hw. unfold content, view. destruct (is_page_id i) eqn:Hi; cbn [fst snd]; cycle 1.
  { injection Hw as <-. rewrite Hi. done. }
  unfold write in Hw. rewrite Hb in Hw. change (page_pos (Z.to_nat i) pl) with (pos_of (Z.to_nat i)) in Hw.
  destruct (write_all_ok (calls d) (on_disk d sc) _ _ Hpl Hb (page_id_nat i Hi)) as (t & Ew). rewrite Ew in Hw. cbn in Hw. injection Hw as <-. rewrite Hi.
  set (d0 := set_disk d sc _). set (d' := set_calls d0 t).
  assert (on_disk d' sc = splice (on_disk d sc) (pos_of (Z.to_nat i)) b) as Hd'.
  { change (on_disk d' sc) with (on_disk d0 sc). unfold d0. rewrite on_disk_set. by case_decide. }
  assert (span d sc (Z.to_nat i) <= pl)%nat by (rewrite span_spec; case_match; lia). split_and!; [|done|].
  - assert (covered d' sc (Z.to_nat i) = true) as ->.
    { unfold covered. rewrite Hd', length_splice, Hb, !orb_true_iff, Nat.leb_le. lia. }
    rewrite Hd'. f_equal. change (span d' sc (Z.to_nat i)) with (span d sc (Z.to_nat i)). apply splice_inside. lia.
  - intros [sc' j] Hne Hr. cbn [fst snd] in *. destruct (is_page_id j) eqn:Hj; [|done]. destruct (decide (sc' = sc)) as [->|Hsc]; cycle 1.
    { change (on_disk d' sc') with (on_disk d0 sc'). unfold covered. change (on_disk d' sc') with (on_disk d0 sc').
      unfold d0. rewrite on_disk_set. by case_decide. }
    destruct (covered d sc (Z.to_nat j)) eqn:Hc; [|by destruct Hr]. assert (Z.to_nat i <> Z.to_nat j) as Hij.
    { unfold is_page_id in *. apply andb_true_iff in Hi as [Hi%Z.leb_le _], Hj as [Hj%Z.leb_le _]. intros E. apply Hne. f_equal. lia. }
    destruct (covered_splice d sc (Z.to_nat i) (Z.to_nat j) b Hb Hij Hc) as [Hc' Ht]. fold d0 in Hc', Ht.
    change (covered d0 sc (Z.to_nat j)) with (covered d' sc (Z.to_nat j)) in Hc'. change (on_disk d0 sc) with (on_disk d' sc) in Ht. rewrite Hc'.
    change (span d' sc (Z.to_nat j)) with (span d sc (Z.to_nat j)). by rewrite Ht.
Qed.

Definition scope_laws (Hpl : page_length) : ScopeLaws scope.
Proof.
  refine (Build_ScopeLaws scope (option (list Z)) (gmap nat nat) lens view content (fun b => length b = pl) is_Some _ _ _ _ _).
  - intros d d' k b H. unfold view, span, len. by rewrite H.
  - intros d k b _. unfold view. case_match; by eexists.
  - intros d sc i buf b d' Hbuf Hr Hread. by destruct (scope_read_law d sc i buf b d' Hpl Hbuf Hr Hread) as (? & ? & t & ->).
  - intros d sc i b d' Hb Hw. by destruct (scope_write_law d sc i b d' Hpl Hb Hw) as (? & ? & ?).
  - intros d sc i b d' k Hb Hw Hk Hr. by apply (scope_write_law d sc i b d' Hpl Hb Hw).
Defined.

Lemma scope_reliable (Hpl : page_length) : cache_facts.reliable (SL := scope_laws Hpl).
Proof.
  split; cbn [scope scope_read scope_write buffer readable scope_laws PageCacheFacts.content].
  - intros d sc i b Hb Hr. destruct (is_page_id i) eqn:Hi; [|by eexists]. unfold content in Hr. cbn [fst snd] in Hr. rewrite Hi in Hr.
    destruct (covered d sc (Z.to_nat i)) eqn:Hc; [|by destruct Hr]. destruct (read_ok d sc (Z.to_nat i) b Hpl Hb (page_id_nat i Hi) Hc) as (b1 & t & -> & _). by eexists.
  - intros d sc i b Hb. destruct (is_page_id i) eqn:Hi; [|by eexists]. unfold write. rewrite Hb. change (page_pos (Z.to_nat i) pl) with (pos_of (Z.to_nat i)).
    destruct (write_all_ok (calls d) (on_disk d sc) _ _ Hpl Hb (page_id_nat i Hi)) as (t & ->). cbn. by eexists.
Qed.

End scope.
End scope_facts.
