(* ===== verification/FileStackFacts.v ===== *)
(** * The file stack is a set of byte strings

    [File] over the page cache over the files on disk: the theorems compose the
    contract of the page cache (PageCacheFacts), the contract of a file scope
    (FileScopeFacts) and the byte contract of FileIO. *)
From S2P Require Import Prelude FileIO PageLock PageCache PageClock PageHands PageReplace PageCacheFacts FileScope.
From S2P Require Import FileScopeFacts.

(** ** Operations on open files *)
Module stack_spec.
Import page internal cache file_scope file_stack.

Inductive op := Read (sc pos n : nat) | Write (sc pos : nat) (buf : list Z) | Sync (sc : nat).
Inductive reply := Bytes (b : list Z) | Done_ | Io_error.

Section run.
Context {P : BuildProfile} {Sys : Os} (fuel : nat).

Definition run_op (c : Cache) (d : FS) (o : op) : res (reply * Cache * FS) :=
  match o with
  | Read sc pos n => '(r, c, d) ← read_at fuel c d sc pos n; Ok (match r with Some b => Bytes b | None => Io_error end, c, d)
  | Write sc pos buf => '(r, c, d) ← write_at fuel c d sc pos buf; Ok (if r : bool then Done_ else Io_error, c, d)
  | Sync sc => '(r, c, d) ← sync_all c d sc; Ok (if r : bool then Done_ else Io_error, c, d)
  end.

Fixpoint run_ops (c : Cache) (d : FS) (os : list op) : res (list reply * Cache * FS) :=
  match os with
  | [] => Ok ([], c, d)
  | o :: os =>
      '(r, c, d) ← run_op c d o;
      '(rs, c, d) ← run_ops c d os;
      Ok (r :: rs, c, d)
  end.

End run.

(** The files as byte strings. *)
Notation files := (gmap nat (list Z)).

Section spec.
Context {PIO : PageIO}.

Definition spec_op (A : files) (o : op) : res (reply * files) :=
  match o with
  | Read sc pos n => data ← unwrap (A !! sc); b ← bytes_file.read_at data pos n; Ok (Bytes b, A)
  | Write sc pos buf => data ← unwrap (A !! sc); Ok (Done_, <[sc := bytes_file.write_at data pos buf]> A)
  | Sync sc => _ ← unwrap (A !! sc); Ok (Done_, A)
  end.

Fixpoint spec_ops (A : files) (os : list op) : res (list reply * files) :=
  match os with
  | [] => Ok ([], A)
  | o :: os =>
      '(r, A) ← spec_op A o;
      '(rs, A) ← spec_ops A os;
      Ok (r :: rs, A)
  end.

(** The file is open, positions have a page number, and a write starts inside the
    file or at its end. *)
Definition legal (A : files) (o : op) : Prop :=
  match o with
  | Read sc pos n => is_Some (A !! sc) /\ file_facts.addressable pos
  | Write sc pos buf => exists data, A !! sc = Some data /\ (pos <= length data)%nat /\ file_facts.addressable (pos + length buf)
  | Sync sc => is_Some (A !! sc)
  end.

Fixpoint legal_run (A : files) (os : list op) : Prop :=
  match os with
  | [] => True
  | o :: os => legal A o /\ forall r A', spec_op A o = Ok (r, A') -> legal_run A' os
  end.

(** A bound on the pages an operation touches. *)
Definition cost (o : op) : Z :=
  match o with Read _ _ n => 2 * Z.of_nat n | Write _ _ buf => 2 * Z.of_nat (length buf) | Sync _ => 2 ^ 31 end.
Definition total (os : list op) : Z := foldr (fun o n => cost o + n) 0 os.

End spec.
End stack_spec.

Module stack_facts.
Import page internal clock_inv cache cache_spec cache_facts file_scope file_system file_stack stack_spec.

Section stack.
Context {P : BuildProfile} {Sys : Os} {OL : OsLaws Sys} {PIO : PageIO} (Hpl : scope_facts.page_length FileIO.page_len).

Notation pl := FileIO.page_len.
Notation pos_of := (scope_facts.pos_of pl).
Notation span := (scope_facts.span pl).
Notation covered := (scope_facts.covered pl).

#[local] Existing Instance scope.
#[local] Instance file_laws : ScopeLaws scope := scope_facts.scope_laws pl Hpl.

(** ** Changing the length of a file *)

Lemma view_some d k b : is_Some (view d k b).
Proof. cbn. unfold scope_facts.view. case_match; by eexists. Qed.

(** A length change inside page [i]: the pages before it stay, those behind it have
    no bytes any more. *)
Definition behind (sc i : nat) (k : nat * Z) : bool := (k.1 =? sc)%nat && is_page_id k.2 && (Z.of_nat i <? k.2).

Lemma other_pages d sc i L k :
  (pos_of i <= len d sc)%nat -> (pos_of i <= L <= pos_of i + pl)%nat -> k <> (sc, Z.of_nat i) ->
  let d' := set_len d sc L in
  if behind sc i k then content d' k = Some [] /\ forall b, view d' k b = Some []
  else (forall b, view d' k b = view d k b) /\ (is_Some (content d k) -> content d' k = content d k).
Proof.
  intros Hl HL Hne d'. destruct k as [sc' j]. unfold behind. cbn [fst snd]. cbn [content view file_laws scope_facts.scope_laws].
  unfold scope_facts.content, scope_facts.view. cbn [fst snd]. destruct (is_page_id j) eqn:Hj; [|by rewrite andb_false_r].
  assert (0 <= j) as Hj0 by (unfold is_page_id in Hj; apply andb_true_iff in Hj as [?%Z.leb_le _]; done).
  destruct (decide (sc' = sc)) as [->|Hsc]; cycle 1.
  { rewrite (proj2 (Nat.eqb_neq _ _)) by done. cbn [andb]. unfold covered, span, d'. rewrite scope_facts.len_set_len. by case_decide. }
  assert (len d' sc = L) as HL' by (unfold d'; rewrite scope_facts.len_set_len; by case_decide).
  set (m := Z.to_nat j) in *. assert (m <> i) as Hm by (intros E; apply Hne; f_equal; lia).
  pose proof (scope_facts.span_spec pl d sc m) as Hs. pose proof (scope_facts.span_spec pl d' sc m) as Hs'. rewrite HL' in Hs'.
  rewrite Nat.eqb_refl. cbn [andb]. destruct (Z.ltb_spec (Z.of_nat i) j) as [Hlt|Hlt].
  - assert (span d' sc m = 0%nat) as Hz.
    { rewrite Hs'. destruct (Nat.ltb_spec (pos_of m) L); [|done]. unfold pos_of, page_pos in *. nia. }
    unfold covered. rewrite Hz. done.
  - assert (m < i)%nat as Hmi by lia.
    assert (pos_of m + pl <= pos_of i)%nat as Hp by (unfold pos_of, page_pos; nia). pose proof page_len_pos.
    rewrite (proj2 (Nat.ltb_lt _ _)) in Hs by lia. rewrite (proj2 (Nat.ltb_lt _ _)) in Hs' by lia. assert (span d' sc m = span d sc m) as Esp by lia. rewrite Esp. split; [done|].
    destruct (covered d sc m) eqn:Hc; [|by intros [? ?]]. intros _. assert (covered d' sc m = true) as ->; [|done].
    destruct (scope_facts.covered_spec _ _ _ _ Hc) as [?|Hcov]; [lia|]. unfold covered. rewrite !orb_true_iff, Nat.leb_le.
    change (on_disk d' sc) with (on_disk d sc). lia.
Qed.

Lemma set_len_ok s d sc i b L :
  coherent s d -> cached s (sc, Z.of_nat i) = Some (mkPage true b) -> is_page_id (Z.of_nat i) = true ->
  (pos_of i <= len d sc)%nat -> (pos_of i <= L <= pos_of i + pl)%nat ->
  let d' := set_len d sc L in
  coherent s d' /\ logical s d' (sc, Z.of_nat i) = Some (take (L - pos_of i) b) /\
  forall k, k <> (sc, Z.of_nat i) -> logical s d' k = if behind sc i k then Some [] else logical s d k.
Proof.
  intros Hcoh Hck Hi Hl HL d'. pose proof (fun k => other_pages d sc i L k Hl HL) as Hk. fold d' in Hk.
  split_and!; [split|..].
  - intros k q Hq Hdq. destruct (decide (k = (sc, Z.of_nat i))) as [->|Hne]; [rewrite Hck in Hq; by injection Hq as <-|].
    pose proof (coh_clean _ _ Hcoh k q Hq Hdq) as E. specialize (Hk k Hne). destruct (behind sc i k); [destruct Hk as [-> ->]; done|]. destruct Hk as [-> Hc].
    rewrite E. symmetry. apply Hc. rewrite <- E. apply view_some.
  - intros k q. apply Hcoh.
  - intros k Hn. destruct (decide (k = (sc, Z.of_nat i))) as [->|Hne]; [by rewrite Hck in Hn|]. pose proof (coh_readable _ _ Hcoh k Hn) as Hr.
    specialize (Hk k Hne). destruct (behind sc i k); [destruct Hk as [-> _]; by eexists|]. destruct Hk as [_ Hc]. by rewrite Hc.
  - apply Hcoh.
  - unfold logical. rewrite Hck. cbn [bytes view file_laws scope_facts.scope_laws]. unfold scope_facts.view. cbn [fst snd]. rewrite Hi, Nat2Z.id. f_equal. f_equal.
    rewrite scope_facts.span_spec. unfold d'. rewrite scope_facts.len_set_len. case_decide; [|done]. case_match eqn:E; [lia|]. apply Nat.ltb_ge in E. lia.
  - intros k Hne. specialize (Hk k Hne). unfold logical. pose proof (logical_readable _ _ k Hcoh) as Hr. unfold logical in Hr.
    destruct (behind sc i k); [destruct Hk as [-> Hv]; destruct (cached s k); [apply Hv|done]|]. destruct Hk as [Hv Hc]. destruct (cached s k) as [q|]; [apply Hv|by apply Hc].
Qed.

(** ** The open files *)

(** The page-level files [F] the stack stands for. *)
Record rel (fuel : nat) (n : Z) (C : Cache) (d : FS) (F : gmap nat file.File) : Prop := {
  rel_ready : ready n C d;
  rel_length : cache_inner.page_len (cache_inner.options (inner C)) = Z.of_nat pl;
  rel_fuel : (fault_fuel (cache_inner.options (inner C)) <= fuel)%nat /\ Z.of_nat fuel < 2 ^ 62;
  rel_lens : lens d = file.flen <$> F;
  rel_wf sc f : F !! sc = Some f -> file_facts.wf f;
  rel_pages sc f i : F !! sc = Some f -> is_page_id (Z.of_nat i) = true ->
    logical (inner C) d (sc, Z.of_nat i) = Some (take (span d sc i) (file.page f i))
}.

Lemma rel_same fuel n m C C' d d' F :
  rel fuel n C d F -> ready m C' d' -> cache_inner.options (inner C') = cache_inner.options (inner C) -> lens d' = lens d ->
  (forall k, logical (inner C') d' k = logical (inner C) d k) -> rel fuel m C' d' F.
Proof.
  intros [R1 R2 R3 R4 R5 R6] Hr Ho Hl Hlog. split; try (rewrite ?Ho, ?Hl; done).
  intros sc f i Hf Hi. rewrite Hlog, (R6 sc f i) by done. unfold span, len. by rewrite Hl.
Qed.

Lemma rel_weaken fuel n m C d F : n <= m -> rel fuel n C d F -> rel fuel m C d F.
Proof.
  intros Hn Hr. eapply rel_same; [exact Hr| |done|done|done]. destruct (rel_ready _ _ _ _ _ Hr) as [(e & c & Hs) Hc].
  split; [|done]. exists e, c. by eapply state_weaken.
Qed.

Lemma rel_len fuel n C d F sc f : rel fuel n C d F -> F !! sc = Some f -> len d sc = file.flen f.
Proof. intros Hr Hf. unfold len. by rewrite (rel_lens _ _ _ _ _ Hr), lookup_fmap, Hf. Qed.

Lemma rel_span fuel n C d F sc f i : rel fuel n C d F -> F !! sc = Some f -> page_span (len d sc) i pl = file.page_span f i.
Proof. intros Hr Hf. by rewrite (rel_len _ _ _ _ _ _ _ Hr Hf). Qed.

Lemma rel_page_id fuel n C d F pos : rel fuel n C d F -> page_id_at C pos = file.page_id_at pos.
Proof. intros Hr. unfold page_id_at, max_page_len. rewrite (rel_length _ _ _ _ _ Hr), Nat2Z.id. done. Qed.

Lemma page_id_range {E} pos id o : file.page_id_at (E := E) pos = Ok (id, o) -> is_page_id (Z.of_nat id) = true.
Proof. unfold file.page_id_at. case_match eqn:Hlt; [|done]. intros [= <- _]. unfold is_page_id. rewrite Hlt, andb_true_r. apply Z.leb_le. lia. Qed.

(** ** Reading *)

Lemma read_loop_ok fuel m : forall n C d F sc f pos k acc,
  rel fuel n C d F -> F !! sc = Some f -> 0 <= n -> n + 2 * Z.of_nat m < 2 ^ 61 ->
  exists C' d', rel fuel (n + 2 * Z.of_nat m) C' d' F /\
    read_loop fuel m C d sc pos k acc = (b ← file.read_loop (E := memory_fault) m f pos k acc; Ok (Some b, C', d')).
Proof.
  induction m as [|m IH]; intros n C d F sc f pos k acc Hr Hf Hn Hb; cbn [read_loop file.read_loop].
  { exists C, d. rewrite Z.add_0_r. split; [done|]. by destruct (k =? 0)%nat. }
  destruct (k =? 0)%nat; [exists C, d; split; [eapply rel_weaken; [|exact Hr]; lia|done]|].
  rewrite (rel_page_id _ _ _ _ _ pos Hr). destruct (file.page_id_at pos) as [[id o]|e| |] eqn:Hid;
    try (exists C, d; split; [eapply rel_weaken; [|exact Hr]; lia|done]). run.
  destruct (rel_fuel _ _ _ _ _ Hr) as [Hfuel Hmax].
  destruct (access_ok (SL := file_laws) n C d (sc, Z.of_nat id) None fuel (scope_facts.scope_reliable pl Hpl) (rel_ready _ _ _ _ _ Hr)) as (b & C1 & d1 & Ha & Hr1 & Ho1 & Hl1 & Hbuf & Hv & _ & Hlog); [done|lia|done|done|].
  rewrite Ha. run. change (lens d1 = lens d) in Hl1. change (length b = pl) in Hbuf. pose proof (rel_same _ _ _ _ _ _ _ _ Hr Hr1 Ho1 Hl1 Hlog) as Hrel1.
  pose proof (page_id_range _ _ _ Hid) as Hi. rewrite (rel_pages _ _ _ _ _ Hr sc f id Hf Hi) in Hv.
  cbn [view file_laws scope_facts.scope_laws] in Hv. unfold scope_facts.view in Hv. cbn [fst snd] in Hv. rewrite Hi, Nat2Z.id in Hv. injection Hv as Hv.
  assert (page_span (len d1 sc) id pl = (pos_of id, span d sc id)) as Hsp by (unfold len; rewrite Hl1; done).
  rewrite Hbuf, Hsp, <- (rel_span _ _ _ _ _ _ _ id Hr Hf). change (page_span (len d sc) id pl) with (pos_of id, span d sc id). cbv iota. rewrite Hv.
  destruct (slice_from (take (span d sc id) (file.page f id)) o) as [rest|e| |] eqn:Hrest;
    try (exists C1, d1; split; [eapply rel_weaken; [|exact Hrel1]; lia|done]). run.
  destruct (length rest =? 0)%nat; [exists C1, d1; split; [eapply rel_weaken; [|exact Hrel1]; lia|done]|].
  destruct (file.checked_add pos _) as [pos'|e| |]; try (exists C1, d1; split; [eapply rel_weaken; [|exact Hrel1]; lia|done]). run.
  destruct (IH (n + 2) C1 d1 F sc f pos' (k - Nat.min (length rest) k)%nat (acc ++ take (Nat.min (length rest) k) rest) Hrel1 Hf) as (C2 & d2 & Hr2 & Hread); [lia|lia|].
  exists C2, d2. split; [eapply rel_weaken; [|exact Hr2]; lia|done].
Qed.

(** ** Writing *)

Lemma length_copy o chunk b : (o + length chunk <= length b)%nat -> length (copy_into o chunk b) = length b.
Proof. intros H. unfold copy_into. rewrite !length_app, length_take, length_drop. lia. Qed.

(** The valid part of the page after the copy depends only on the bytes before it. *)
Lemma copied_prefix o chunk b b' m : (o <= m <= length b)%nat -> (m <= length b')%nat -> take m b = take m b' ->
  take (o + length chunk) (copy_into o chunk b) = take (o + length chunk) (copy_into o chunk b').
Proof.
  intros Ho Hb' H. assert (forall x, (o <= length x)%nat -> take (o + length chunk) (copy_into o chunk x) = take o x ++ chunk) as Hp.
  { intros x Hx. unfold copy_into. rewrite app_assoc, take_app_length'; [done|]. rewrite length_app, length_take. lia. }
  rewrite !Hp by lia. f_equal. replace o with (Nat.min o m) by lia. by rewrite <- !take_take, H.
Qed.

Lemma span_le d sc i : (span d sc i <= pl)%nat.
Proof. rewrite scope_facts.span_spec. case_match; lia. Qed.

(** Inside the file the guard changes the length whenever the page's length changes. *)
Lemma guard_updates d sc id l f : (pos_of id + l <= pos_of id + pl)%nat -> len d sc = file.flen f -> l <> span d sc id -> (pos_of id <= len d sc)%nat ->
  drop_guard d sc id pl (span d sc id) l = set_len d sc (pos_of id + l) /\ file.drop_guard f id (span d sc id) l = (pos_of id + l)%nat.
Proof.
  intros Hl Hlen Hne Hpos. unfold drop_guard, file.drop_guard. change (file.page_pos id) with (pos_of id). change (page_pos id pl) with (pos_of id).
  rewrite <- Hlen, (proj2 (Nat.eqb_neq _ _)) by done. pose proof (scope_facts.span_spec pl d sc id) as Hs.
  assert ((if (span d sc id <? l)%nat then (len d sc <? pos_of id + l)%nat else (pos_of id + l <? len d sc)%nat) = true) as ->; [|done].
  destruct (Nat.ltb_spec (pos_of id) (len d sc)), (Nat.ltb_spec (span d sc id) l); apply Nat.ltb_lt; lia.
Qed.

(** The files after one page of the file [f] was overwritten. *)
Definition write_page (f : file.File) (id o : nat) (chunk : list Z) : file.File :=
  file.mkFile (<[id := copy_into o chunk (file.page f id)]> (file.pages f))
    (file.drop_guard f id (file.page_span f id).2 (o + length chunk)).

Lemma write_page_page f id o chunk j : file.page (write_page f id o chunk) j = if decide (j = id) then copy_into o chunk (file.page f id) else file.page f j.
Proof. apply file_facts.page_insert. Qed.

Lemma span_at d sc id l : (l <= pl)%nat -> span (set_len d sc (pos_of id + l)) sc id = l.
Proof. intros Hl. rewrite scope_facts.span_spec, scope_facts.len_set_len. case_decide; [|done]. case_match eqn:E; [lia|]. apply Nat.ltb_ge in E. lia. Qed.

Lemma span_other d sc id l sc' j : (l <= pl)%nat -> (pos_of id <= len d sc)%nat -> (sc', j) <> (sc, id) ->
  span (set_len d sc (pos_of id + l)) sc' j = if decide (sc' = sc /\ (id < j)%nat) then 0%nat else span d sc' j.
Proof.
  intros Hl Hpos Hne. rewrite !scope_facts.span_spec, scope_facts.len_set_len. pose proof page_len_pos.
  destruct (decide (sc' = sc)) as [->|Hsc]; [|rewrite decide_False by tauto; done].
  assert (j <> id) as Hj by congruence. case_decide as Hd.
  - destruct Hd as [_ Hd]. destruct (Nat.ltb_spec (pos_of j) (pos_of id + l)); [|done]. unfold pos_of, page_pos in *. nia.
  - assert (pos_of j + pl <= pos_of id)%nat by (unfold pos_of, page_pos; assert (j < id)%nat by (destruct (decide (id < j)%nat); [tauto|lia]); nia).
    rewrite !(proj2 (Nat.ltb_lt _ _)) by lia. lia.
Qed.

(** What the guard leaves of the array when it is dropped. *)
Record resized (n : Z) (C1 : Cache) (d d2 : FS) (old : store) (sc id l L : nat) (b : list Z) : Prop := {
  rs_ready : ready n C1 d2;
  rs_lens : lens d2 = <[sc := L]> (lens d);
  rs_span : span d2 sc id = l;
  rs_page : logical (inner C1) d2 (sc, Z.of_nat id) = Some (take l b);
  rs_other sc' j x : is_page_id (Z.of_nat j) = true -> (sc', j) <> (sc, id) -> old (sc', Z.of_nat j) = Some (take (span d sc' j) x) ->
    logical (inner C1) d2 (sc', Z.of_nat j) = Some (take (span d2 sc' j) x)
}.

Lemma key_ne (sc' j sc id : nat) : (sc', j) <> (sc, id) -> (sc', Z.of_nat j) <> (sc, Z.of_nat id).
Proof. intros H E. apply H. injection E as -> ?. f_equal. lia. Qed.

Lemma drop_guard_ok n C1 d1 sc id l b f :
  ready n C1 d1 -> cached (inner C1) (sc, Z.of_nat id) = Some (mkPage true b) -> is_page_id (Z.of_nat id) = true ->
  lens d1 !! sc = Some (file.flen f) -> (l <= pl)%nat -> (pos_of id <= len d1 sc)%nat ->
  resized n C1 d1 (drop_guard d1 sc id pl (span d1 sc id) l) (logical (inner C1) d1) sc id l (file.drop_guard f id (span d1 sc id) l) b.
Proof.
  intros [Hst Hcoh] Hck Hi Hls Hl Hpos. assert (len d1 sc = file.flen f) as Hlen by (unfold len; by rewrite Hls). destruct (decide (l = span d1 sc id)) as [E|E].
  - assert (drop_guard d1 sc id pl (span d1 sc id) l = d1) as -> by (unfold drop_guard; by rewrite (proj2 (Nat.eqb_eq _ _))).
    assert (file.drop_guard f id (span d1 sc id) l = file.flen f) as -> by (unfold file.drop_guard; by rewrite (proj2 (Nat.eqb_eq _ _))).
    split; [done|by rewrite insert_id|done| |done]. unfold logical. rewrite Hck. cbn [bytes view file_laws scope_facts.scope_laws]. unfold scope_facts.view. cbn [fst snd].
    by rewrite Hi, Nat2Z.id, <- E.
  - destruct (guard_updates d1 sc id l f ltac:(lia) Hlen E Hpos) as [-> ->].
    destruct (set_len_ok (inner C1) d1 sc id b (pos_of id + l) Hcoh Hck Hi Hpos ltac:(lia)) as (Hc & Hp & Ho).
    split; [by split|done|by apply span_at| |].
    + rewrite Hp. do 2 f_equal. lia.
    + intros sc' j x Hj Hne Hx. rewrite Ho by (by apply key_ne). rewrite span_other by (done || lia). unfold behind. cbn [fst snd]. rewrite Hj, andb_true_r.
      case_decide as Hd.
      * destruct Hd as [-> Hd]. rewrite Nat.eqb_refl, (proj2 (Z.ltb_lt _ _)) by lia. done.
      * destruct (Nat.eqb_spec sc' sc) as [->|]; [|done]. destruct (Z.ltb_spec (Z.of_nat id) (Z.of_nat j)); [exfalso; apply Hd; split; [done|lia]|done].
Qed.

(** One page of a write. *)
Lemma write_page_ok fuel n C d F sc f id o chunk :
  rel fuel n C d F -> F !! sc = Some f -> is_page_id (Z.of_nat id) = true -> (o + length chunk <= pl)%nat -> (pos_of id + o <= file.flen f)%nat -> 0 <= n < 2 ^ 61 ->
  exists b C1 d1, access fuel C d (sc, Z.of_nat id) (Some (copy_into o chunk)) = Ok (Some b, C1, d1) /\ length b = pl /\
    page_span (len d1 sc) id pl = (pos_of id, span d1 sc id) /\
    rel fuel (n + 2) C1 (drop_guard d1 sc id pl (span d1 sc id) (o + length chunk)) (<[sc := write_page f id o chunk]> F).
Proof.
  intros Hr Hf Hi Hfit Hin Hn. destruct (rel_fuel _ _ _ _ _ Hr) as [Hfuel Hmax]. set (k := (sc, Z.of_nat id)).
  destruct (access_ok (SL := file_laws) n C d k (Some (copy_into o chunk)) fuel (scope_facts.scope_reliable pl Hpl) (rel_ready _ _ _ _ _ Hr)) as (b & C1 & d1 & Ha & Hr1 & Ho & Hl & Hb & Hv & Hck & Hlog); [|done|done|done|].
  { intros g [= <-] x Hx. change (length x = pl) in Hx. change (length (copy_into o chunk x) = pl). rewrite length_copy; lia. }
  specialize (Hck _ eq_refl). change (lens d1 = lens d) in Hl. change (length b = pl) in Hb. exists b, C1, d1. split_and!; [done|done|done|].
  pose proof (rel_len _ _ _ _ _ _ _ Hr Hf) as Hlen. assert (len d1 sc = len d sc) as Hlen1 by (unfold len; by rewrite Hl).
  assert (forall sc' j, span d1 sc' j = span d sc' j) as Hsp by (intros; unfold span, len; by rewrite Hl).
  assert (lens d1 !! sc = Some (file.flen f)) as Hls by (by rewrite Hl, (rel_lens _ _ _ _ _ Hr), lookup_fmap, Hf).
  pose proof (drop_guard_ok (n + 2) C1 d1 sc id (o + length chunk) (copy_into o chunk b) f Hr1 Hck Hi Hls Hfit ltac:(lia)) as [R1 R2 R3 R4 R5].
  set (d2 := drop_guard _ _ _ _ _ _) in *. pose proof (rel_wf _ _ _ _ _ Hr sc f Hf) as Hwf. pose proof (file_facts.length_page f id Hwf) as Hlp.
  assert (file.flen (write_page f id o chunk) = file.drop_guard f id (span d1 sc id) (o + length chunk)) as Hflen.
  { unfold write_page. cbn [file.flen]. rewrite <- (rel_span _ _ _ _ _ _ _ id Hr Hf), Hsp. done. }
  split; [done|by rewrite Ho; apply Hr|by rewrite Ho| | |].
  - by rewrite R2, fmap_insert, Hl, (rel_lens _ _ _ _ _ Hr), Hflen.
  - intros sc' g. rewrite lookup_insert_Some. intros [[<- <-]|[_ Hg]]; [|by apply (rel_wf _ _ _ _ _ Hr sc')].
    apply map_Forall_insert_2; [|done]. rewrite length_copy; lia.
  - intros sc' g j Hg Hj. apply lookup_insert_Some in Hg. destruct (decide ((sc', j) = (sc, id))) as [[= -> ->]|Hne].
    + destruct Hg as [[_ <-]|[? _]]; [|done]. rewrite R4, R3, write_page_page. case_decide; [|done]. f_equal.
      apply (copied_prefix o chunk b _ (span d sc id)); [pose proof (span_le d sc id); pose proof (scope_facts.span_spec pl d sc id); destruct (Nat.ltb_spec (pos_of id) (len d sc)); lia|rewrite Hlp; apply span_le|].
      unfold k in Hv. rewrite (rel_pages _ _ _ _ _ Hr sc f id Hf Hi) in Hv. cbn [view file_laws scope_facts.scope_laws] in Hv. unfold scope_facts.view in Hv.
      cbn [fst snd] in Hv. rewrite Hi, Nat2Z.id in Hv. by injection Hv.
    + apply R5; [done|done|]. rewrite Hlog. unfold set. rewrite decide_False by (by apply key_ne). rewrite Hsp.
      destruct Hg as [[-> <-]|[_ Hg]]; [|by apply (rel_pages _ _ _ _ _ Hr)]. rewrite write_page_page, decide_False by congruence. by apply (rel_pages _ _ _ _ _ Hr).
Qed.

(** The page-level file after a page of a write. *)
Lemma write_page_step f pos chunk :
  file_facts.wf f -> (pos <= file.flen f)%nat -> (0 < length chunk)%nat -> (pos mod pl + length chunk <= pl)%nat ->
  let f1 := write_page f (pos / pl) (pos mod pl) chunk in
  copy_at (E := memory_fault) (file.page f (pos / pl)) (pos mod pl) chunk = Ok (copy_into (pos mod pl) chunk (file.page f (pos / pl))) /\
  (pos + length chunk <= file.flen f1)%nat.
Proof.
  intros Hwf Hpos Hlen Hfit f1. destruct (file_facts.write_chunk (E := memory_fault) f pos chunk Hwf Hpos Hlen Hfit) as (dt & Hd & _ & Hc).
  pose proof (file_facts.length_page f (pos / pl) Hwf) as Hlp. rewrite copy_at_ok in Hd |- * by lia. injection Hd as <-. split; [done|].
  change (file.mkFile _ _) with f1 in Hc. rewrite <- file_facts.length_contents, Hc, file_facts.length_write_at by (by rewrite file_facts.length_contents).
  destruct (Nat.eqb_spec (length chunk) 0); [lia|]. case_match; lia.
Qed.

Lemma write_loop_ok fuel m : forall n C d F sc f pos buf,
  rel fuel n C d F -> F !! sc = Some f -> (length buf <= m)%nat -> (pos <= file.flen f)%nat -> file_facts.addressable (pos + length buf) ->
  0 <= n -> n + 2 * Z.of_nat m < 2 ^ 61 ->
  exists f' C' d', file.write_loop (E := memory_fault) m f pos buf = Ok f' /\ write_loop fuel m C d sc pos buf = Ok (true, C', d') /\
    rel fuel (n + 2 * Z.of_nat m) C' d' (<[sc := f']> F).
Proof.
  induction m as [|m IH]; intros n C d F sc f pos buf Hr Hf Hm Hpos Ha Hn Hb; cbn [write_loop file.write_loop].
  { destruct (Nat.eqb_spec (length buf) 0); [|lia]. exists f, C, d. rewrite insert_id by done. split_and!; [done|done|]. eapply rel_weaken; [|exact Hr]. lia. }
  destruct (Nat.eqb_spec (length buf) 0) as [E0|E0].
  { exists f, C, d. rewrite insert_id by done. split_and!; [done|done|]. eapply rel_weaken; [|exact Hr]. lia. }
  rewrite (rel_page_id _ _ _ _ _ pos Hr). pose proof (file_facts.page_mod pos) as Hmod. pose proof (file_facts.page_div_mod pos) as Hdm.
  assert (file.page_id_at (E := memory_fault) pos = Ok (pos / pl, pos mod pl)%nat) as Hid by (apply file_facts.page_id_at_ok; eapply file_facts.addressable_le; [|exact Ha]; lia).
  rewrite Hid. run. set (id := (pos / pl)%nat) in *. set (o := (pos mod pl)%nat) in *.
  assert (max_page_len C = pl) as Hmax by (unfold max_page_len; rewrite (rel_length _ _ _ _ _ Hr); lia). rewrite Hmax. set (l := Nat.min (length buf) (pl - o)).
  assert (length (take l buf) = l) as Hl by (rewrite length_take; lia).
  destruct (write_page_ok fuel n C d F sc f id o (take l buf) Hr Hf (page_id_range _ _ _ Hid)) as (b & C1 & d1 & Hacc & Hlb & Hsp & Hr1); [lia|unfold pos_of, page_pos; lia|lia|].
  destruct (write_page_step f pos (take l buf)) as [Hcopy Hlen]; [by apply (rel_wf _ _ _ _ _ Hr sc)|done|lia|fold o; lia|]. fold id o in Hcopy, Hlen.
  rewrite Hacc. run. rewrite Hlb, Hsp, (surjective_pairing (file.page_span f id)). rewrite (proj2 (Nat.leb_le (o + l) pl)) by lia. cbn [assert_]. run. rewrite Hcopy. run.
  rewrite file_facts.checked_add_ok by (eapply file_facts.addressable_le; [|exact Ha]; lia). run. rewrite Hl in Hr1, Hlen.
  assert (file.mkFile (<[id := copy_into o (take l buf) (file.page f id)]> (file.pages f)) (file.drop_guard f id (file.page_span f id).2 (o + l)) = write_page f id o (take l buf)) as ->
    by (unfold write_page; by rewrite Hl).
  destruct (IH (n + 2) C1 _ _ sc (write_page f id o (take l buf)) (pos + l)%nat (drop l buf) Hr1 (lookup_insert_eq _ _ _)) as (f' & C' & d' & Hfw & Hw & Hr'); try lia.
  { rewrite length_drop. lia. }
  { rewrite length_drop. by replace (pos + l + (length buf - l))%nat with (pos + length buf)%nat by lia. }
  exists f', C', d'. rewrite insert_insert_eq in Hr'. split_and!; [done|done|]. eapply rel_weaken; [|exact Hr']. lia.
Qed.

(** ** Syncing *)

Lemma scope_ids_ok n s e c sc : state_ok n s e c [] -> lists_scope s sc (scope_ids s sc) /\ (length (scope_ids s sc) <= length c)%nat.
Proof.
  intros Hs. assert (forall k p, (k, p) ∈ map_to_list (cache_inner.page_map s) -> p ∈ c /\ exists g, cache_inner.heap s !! p = Some g /\ key g = Some k) as Hin.
  { intros k p Hp. apply elem_of_map_to_list in Hp. destruct (lookup_page _ _ _ _ _ _ _ Hs Hp) as (g & ? & _ & ? & ?). by eauto. }
  unfold scope_ids. split; [split|].
  - apply NoDup_fmap_2_strong; [|apply NoDup_filter, NoDup_map_to_list]. intros [[sc1 i1] p1] [[sc2 i2] p2] [E1 H1]%list_elem_of_filter [E2 H2]%list_elem_of_filter. cbn in *.
    intros ->. subst sc1 sc2. apply elem_of_map_to_list in H1, H2. congruence.
  - intros i p Hp. apply list_elem_of_fmap. exists ((sc, i), p). split; [done|]. apply list_elem_of_filter. split; [done|]. by apply elem_of_map_to_list.
  - rewrite length_fmap. etrans; [apply length_filter|]. rewrite <- (length_fmap snd). apply sub_length.
    + apply NoDup_fmap_2_strong; [|apply NoDup_map_to_list]. intros [k1 p1] [k2 p2] H1 H2 E. cbn in E. subst p2.
      destruct (Hin k1 p1 H1) as (_ & g & Hg & Hk), (Hin k2 p1 H2) as (_ & g' & Hg' & Hk'). congruence.
    + intros p Hp. apply list_elem_of_fmap in Hp as ([k q] & -> & Hq). by apply (Hin k).
Qed.

Lemma flush_rel fuel n C d F sc : rel fuel n C d F -> 0 <= n -> n + 2 ^ 31 < 2 ^ 61 ->
  exists cnt C' d', flush C d sc (scope_ids (inner C) sc) = Ok (Some cnt, C', d') /\ rel fuel (n + 2 ^ 31) C' d' F /\
    forall i, content d' (sc, i) = logical (inner C') d' (sc, i).
Proof.
  intros Hr Hn Hb. destruct (rel_ready _ _ _ _ _ Hr) as [(e & c & Hs) Hcoh]. destruct (scope_ids_ok _ _ _ _ sc Hs) as [Hls Hlen].
  pose proof (tally_total _ _ _ _ (so_inv _ _ _ _ _ Hs)) as Ht. pose proof (clock_replace.sane_size _ (so_sane _ _ _ _ _ Hs)).
  pose proof (so_resident _ _ _ _ _ Hs). pose proof (so_ghosts _ _ _ _ _ Hs).
  destruct (flush_scope_ok (SL := file_laws) n C d sc (scope_ids (inner C) sc) (scope_facts.scope_reliable pl Hpl) (rel_ready _ _ _ _ _ Hr) (proj1 Hls)) as (cnt & C' & d' & Hf & Hr' & Ho & Hl & Hlog & Hc); [done|lia|].
  exists cnt, C', d'. split; [done|]. split; [|intros i; rewrite Hlog; by apply Hc]. eapply rel_weaken; [|by eapply rel_same]. lia.
Qed.

Lemma addressable_page p L : file_facts.addressable L -> (p < L)%nat -> is_page_id (Z.of_nat (p / pl)) = true.
Proof.
  intros Ha Hp. eapply (page_id_range (E := unit) p _ (p mod pl)%nat). apply file_facts.page_id_at_ok. eapply file_facts.addressable_le; [|exact Ha]. lia.
Qed.

(** When the files agree with the array, the disk has the bytes of the file. *)
Lemma disk_prefix fuel n C d F sc f :
  rel fuel n C d F -> F !! sc = Some f -> file_facts.addressable (file.flen f) -> (forall i, content d (sc, i) = logical (inner C) d (sc, i)) ->
  (file.flen f <= length (on_disk d sc))%nat /\ take (file.flen f) (on_disk d sc) = file_facts.contents f.
Proof.
  intros Hr Hf Ha Hc. pose proof (rel_len _ _ _ _ _ _ _ Hr Hf) as Hlen. pose proof (rel_wf _ _ _ _ _ Hr sc f Hf) as Hwf.
  assert (forall p, (p < file.flen f)%nat -> on_disk d sc !! p = Some (file_facts.byte_at f p)) as Hbyte.
  { intros p Hp. pose proof (addressable_page p _ Ha Hp) as Hi. specialize (Hc (Z.of_nat (p / pl))). rewrite (rel_pages _ _ _ _ _ Hr sc f _ Hf Hi) in Hc.
    cbn [content file_laws scope_facts.scope_laws] in Hc. unfold scope_facts.content in Hc. cbn [fst snd] in Hc. rewrite Hi, Nat2Z.id in Hc.
    destruct (covered d sc (p / pl)); [|done]. injection Hc as Hc. pose proof (file_facts.page_mod p) as Hm. pose proof (file_facts.page_div_mod p) as Hdm.
    pose proof (scope_facts.span_spec pl d sc (p / pl)) as Hs. unfold scope_facts.pos_of, page_pos in Hs, Hc. rewrite (proj2 (Nat.ltb_lt _ _)) in Hs by lia.
    assert (take (span d sc (p / pl)) (file.page f (p / pl)) !! (p mod pl)%nat = Some (file_facts.byte_at f p)) as Hb.
    { rewrite lookup_take_lt by lia. rewrite file_facts.page_byte by (done || lia). by rewrite <- Hdm. }
    rewrite <- Hc, lookup_take_lt, lookup_drop, <- Hdm in Hb by lia. done. }
  assert (file.flen f <= length (on_disk d sc))%nat as Hl.
  { destruct (file.flen f) as [|m] eqn:Em; [lia|]. apply lookup_lt_Some with (x := file_facts.byte_at f m). apply Hbyte. lia. }
  split; [done|]. apply list_eq. intros p. rewrite file_facts.contents_lookup. destruct (Nat.ltb_spec p (file.flen f)) as [Hp|Hp].
  - rewrite lookup_take_lt by lia. by apply Hbyte.
  - by rewrite lookup_take_ge by lia.
Qed.

Lemma same_content s d d' : coherent s d -> (forall k, content d' k = content d k) -> lens d' = lens d ->
  coherent s d' /\ forall k, logical s d' k = logical s d k.
Proof.
  intros [H1 H2 H3 H4] Hc Hl. assert (forall k b, view d' k b = view d k b) as Hv by (intros; by apply meta_view). split; [split|].
  - intros k q. rewrite Hv, Hc. apply H1.
  - apply H2.
  - intros k. rewrite Hc. apply H3.
  - apply H4.
  - intros k. unfold logical. case_match; [apply Hv|apply Hc].
Qed.

Lemma sync_len_content d sc : (forall i, is_Some (content d (sc, i))) -> (len d sc <= length (on_disk d sc))%nat ->
  forall k, content (sync_len d sc) k = content d k.
Proof.
  intros Hs Hl [sc' i]. cbn [content file_laws scope_facts.scope_laws]. unfold scope_facts.content. cbn [fst snd]. destruct (is_page_id i) eqn:Hi; [|done].
  set (d' := sync_len d sc). assert (forall j, on_disk d' j = if decide (j = sc) then take (len d sc) (on_disk d sc) else on_disk d j) as Hd.
  { intros j. unfold d', sync_len. rewrite scope_facts.on_disk_set. case_decide; [|done]. unfold resize. replace (_ - _)%nat with 0%nat by lia. by rewrite app_nil_r. }
  assert (forall j, len d' j = len d j) as Hlen by done. set (m := Z.to_nat i). assert (span d' sc' m = span d sc' m) as Hsp by done. rewrite Hsp.
  unfold covered. rewrite Hsp, Hlen, Hd. case_decide as E; [subst sc'|done]. specialize (Hs i). cbn [content file_laws scope_facts.scope_laws] in Hs.
  unfold scope_facts.content in Hs. cbn [fst snd] in Hs. rewrite Hi in Hs. fold m in Hs. unfold covered in Hs. destruct (_ || _ || _) in Hs |- *; [|by destruct Hs].
  rewrite length_take, (proj2 (Nat.eqb_eq _ (len d sc))), orb_true_r by lia. f_equal. apply scope_facts.slice_ext. intros k Hk.
  pose proof (scope_facts.span_spec pl d sc m) as Hspec. destruct (Nat.ltb_spec (pos_of m) (len d sc)); [|lia]. by rewrite lookup_take_lt by lia.
Qed.

Lemma sync_all_ok fuel n C d F sc f : rel fuel n C d F -> F !! sc = Some f -> file_facts.addressable (file.flen f) -> 0 <= n -> n + 2 ^ 31 < 2 ^ 61 ->
  exists C' d', sync_all C d sc = Ok (true, C', d') /\ rel fuel (n + 2 ^ 31) C' d' F /\ disk d' !! sc = Some (file_facts.contents f).
Proof.
  intros Hr Hf Ha Hn Hb. destruct (flush_rel fuel n C d F sc Hr Hn Hb) as (cnt & C' & d' & Hfl & Hr' & Hc). unfold sync_all. rewrite Hfl. run.
  destruct (disk_prefix _ _ _ _ _ _ _ Hr' Hf Ha Hc) as [Hlen Hpre]. pose proof (rel_len _ _ _ _ _ _ _ Hr' Hf) as Hl. destruct (rel_ready _ _ _ _ _ Hr') as [Hst Hcoh].
  exists C', (sync_len d' sc). split; [done|]. assert (forall k, content (sync_len d' sc) k = content d' k) as Hsame.
  { apply sync_len_content; [|by rewrite Hl]. intros i. rewrite Hc. by apply (logical_readable (SL := file_laws)). }
  destruct (same_content (inner C') d' (sync_len d' sc) Hcoh Hsame eq_refl) as [Hcoh' Hlog]. split; [by apply (rel_same _ _ _ _ _ _ _ _ Hr')|].
  unfold sync_len, set_disk. cbn [disk]. rewrite lookup_insert_eq. f_equal. unfold resize. rewrite Hl, Hpre. replace (_ - _)%nat with 0%nat by lia. apply app_nil_r.
Qed.

(** A sync of one file does not touch the others on disk. *)
Lemma write_elsewhere C d sc i buf w buf' d' C' sc' :
  cache.write C d sc i buf = (Some (w, buf', d'), C') -> sc' <> sc -> disk d' !! sc' = disk d !! sc'.
Proof.
  unfold cache.write. cbn [scope_write scope]. unfold file_scope.write.
  destruct (is_dirty buf), (is_page_id i); try destruct (write_all_at _ _ _ _ _) as [[f t]|e| |]; cbn; intros H Hne; simplify_eq; try done.
  cbn. by rewrite lookup_insert_ne.
Qed.

Lemma flush_loop_elsewhere l : forall C d sc cnt r C' d' sc',
  flush_loop C d sc l cnt = Ok (r, C', d') -> sc' <> sc -> disk d' !! sc' = disk d !! sc'.
Proof.
  induction l as [|[i p] l IH]; intros C d sc cnt r C' d' sc' H Hne; cbn [flush_loop] in H; [by simplify_eq|].
  bind_inv H. bind_inv H. destruct (cache.write _ _ _ _ _) as [[[[w b] d1]|] c1] eqn:W; [|bind_inv H; by simplify_eq].
  bind_inv H. bind_inv H. bind_inv H. rewrite (IH _ _ _ _ _ _ _ _ H Hne). by eapply write_elsewhere.
Qed.

Lemma sync_all_elsewhere C d sc r C' d' sc' : sync_all C d sc = Ok (r, C', d') -> sc' <> sc -> disk d' !! sc' = disk d !! sc'.
Proof.
  intros H Hne. unfold sync_all, flush in H. destruct (find_dirty_pages _ _ _) as [[l s]|e| |]; try done. rewrite bind_Ok in H. cbn beta iota in H.
  destruct (flush_loop _ _ _ _ _) as [[[r1 C1] d1]|e| |] eqn:E; try done.
  pose proof (flush_loop_elsewhere _ _ _ _ _ _ _ _ sc' E Hne) as Hd. cbn in H. destruct r1; simplify_eq; [|done].
  cbn. by rewrite lookup_insert_ne.
Qed.

(** ** The stack and the byte strings *)

(** The open files have the bytes [A]. *)
Definition holds (fuel : nat) (n : Z) (C : Cache) (d : FS) (A : files) : Prop :=
  exists F, rel fuel n C d F /\ A = file_facts.contents <$> F /\ map_Forall (fun _ data => file_facts.addressable (length data)) A.

Lemma holds_file fuel n C d A sc data : holds fuel n C d A -> A !! sc = Some data ->
  exists F f, rel fuel n C d F /\ A = file_facts.contents <$> F /\ F !! sc = Some f /\ data = file_facts.contents f /\ file_facts.addressable (file.flen f).
Proof.
  intros (F & Hr & -> & Ha) Hs. pose proof (Ha sc data Hs) as Had. apply lookup_fmap_Some in Hs as (f & <- & Hf). rewrite file_facts.length_contents in Had. by exists F, f.
Qed.

Lemma holds_weaken fuel n m C d A : n <= m -> holds fuel n C d A -> holds fuel m C d A.
Proof. intros Hn (F & Hr & HA & Ha). exists F. split; [by eapply rel_weaken|done]. Qed.

Lemma stack_op_ok fuel n C d A o : holds fuel n C d A -> legal A o -> 0 <= n -> n + cost o < 2 ^ 61 ->
  match spec_op A o with
  | Ok (r, A') => exists C' d', run_op fuel C d o = Ok (r, C', d') /\ holds fuel (n + cost o) C' d' A' /\
      match o with Sync sc => disk d' !! sc = A' !! sc | _ => True end
  | _ => run_op fuel C d o = Panic
  end.
Proof.
  intros Hh Hl Hn Hb. destruct o as [sc pos k|sc pos buf|sc]; cbn [spec_op run_op cost legal] in *.
  - destruct Hl as [[data Hs] Hpos]. rewrite Hs. run. destruct (holds_file _ _ _ _ _ _ _ Hh Hs) as (F & f & Hr & HA & Hf & -> & Ha).
    destruct (read_loop_ok fuel k n C d F sc f pos k [] Hr Hf Hn Hb) as (C' & d' & Hr' & Hread). unfold read_at. rewrite Hread.
    change (file.read_loop k f pos k []) with (file.read_at (E := memory_fault) f pos k).
    rewrite file_facts.read_at_spec; [|by apply (rel_wf _ _ _ _ _ Hr sc)|done|done].
    destruct (bytes_file.read_at (E := memory_fault) (file_facts.contents f) pos k) as [b|e| |] eqn:E; run; try done.
    + exists C', d'. split_and!; [done| |done]. destruct Hh as (_ & _ & _ & Had). by exists F.
    + exfalso. revert E. unfold bytes_file.read_at. repeat case_match; done.
    + exfalso. revert E. unfold bytes_file.read_at. repeat case_match; done.
  - destruct Hl as (data & Hs & Hpos & Ha'). rewrite Hs. run. destruct (holds_file _ _ _ _ _ _ _ Hh Hs) as (F & f & Hr & HA & Hf & -> & Ha).
    rewrite file_facts.length_contents in Hpos.
    destruct (write_loop_ok fuel (length buf) n C d F sc f pos buf Hr Hf (le_n _) Hpos Ha' Hn Hb) as (f' & C' & d' & Hfw & Hw & Hr').
    unfold write_at. rewrite Hw. run. exists C', d'. split_and!; [done| |done].
    destruct (file_facts.write_at_spec (E := memory_fault) f pos buf (rel_wf _ _ _ _ _ Hr sc f Hf) Hpos Ha') as (f1 & Hf1 & _ & Hc).
    unfold file.write_at in Hf1. rewrite Hfw in Hf1. injection Hf1 as <-. exists (<[sc := f']> F). split_and!; [done|by rewrite fmap_insert, Hc, HA|].
    destruct Hh as (_ & _ & _ & Had). apply map_Forall_insert_2; [|done]. rewrite <- Hc, file_facts.length_contents.
    assert (file.flen f' <= Nat.max (file.flen f) (pos + length buf))%nat as Hmax.
    { rewrite <- file_facts.length_contents, Hc, file_facts.length_write_at by (by rewrite file_facts.length_contents). rewrite file_facts.length_contents. repeat case_match; lia. }
    unfold file_facts.addressable in *. lia.
  - destruct Hl as [data Hs]. rewrite Hs. run. destruct (holds_file _ _ _ _ _ _ _ Hh Hs) as (F & f & Hr & HA & Hf & -> & Ha).
    destruct (sync_all_ok fuel n C d F sc f Hr Hf Ha Hn Hb) as (C' & d' & Hsy & Hr' & Hd). rewrite Hsy. run.
    exists C', d'. split_and!; [done|destruct Hh as (_ & _ & _ & Had); by exists F|]. by rewrite Hs.
Qed.

Lemma cost_pos o : 0 <= cost o.
Proof. destruct o; cbn [cost]; lia. Qed.

Lemma stack_total_pos os : 0 <= total os.
Proof. induction os as [|o os IH]; [done|]. cbn [total foldr]. fold (total os). pose proof (cost_pos o). lia. Qed.

Lemma stack_ops_ok fuel os : forall n C d A, holds fuel n C d A -> legal_run A os -> 0 <= n -> n + total os < 2 ^ 61 ->
  match spec_ops A os with
  | Ok (rs, A') => exists C' d', run_ops fuel C d os = Ok (rs, C', d') /\ holds fuel (n + total os) C' d' A'
  | _ => run_ops fuel C d os = Panic
  end.
Proof.
  induction os as [|o os IH]; intros n C d A Hh Hl Hn Hb; cbn [spec_ops run_ops].
  { exists C, d. split; [done|]. cbn. by rewrite Z.add_0_r. }
  cbn [total foldr] in Hb. fold (total os) in Hb. destruct Hl as [Ho Hos]. pose proof (cost_pos o). pose proof (stack_total_pos os).
  pose proof (stack_op_ok fuel n C d A o Hh Ho Hn ltac:(lia)) as H1. destruct (spec_op A o) as [[r A1]|e| |]; run; [|by rewrite H1..].
  destruct H1 as (C1 & d1 & -> & Hh1 & _). run. specialize (IH (n + cost o) C1 d1 A1 Hh1 (Hos r A1 eq_refl) ltac:(lia) ltac:(lia)).
  destruct (spec_ops A1 os) as [[rs A2]|e| |]; run; [|by rewrite IH..]. destruct IH as (C2 & d2 & -> & Hh2). run.
  exists C2, d2. split; [done|]. cbn [total foldr]. fold (total os). by rewrite Z.add_assoc.
Qed.

(** ** Opening files *)

(** The page-level file with the bytes [data]. *)
Definition file_of (data : list Z) : file.File :=
  file.mkFile (list_to_map ((fun i => (i, take pl (drop (pos_of i) data ++ replicate pl 0))) <$> seq 0 (length data))) (length data).

Lemma file_of_pages data i : file.pages (file_of data) !! i =
  if (i <? length data)%nat then Some (take pl (drop (pos_of i) data ++ replicate pl 0)) else None.
Proof.
  cbn [file.pages file_of]. set (g := fun i : nat => _). destruct (Nat.ltb_spec i (length data)) as [Hi|Hi].
  - apply elem_of_list_to_map_1.
    + rewrite <- list_fmap_compose. rewrite (list_fmap_ext _ Datatypes.id) by done. rewrite list_fmap_id. apply NoDup_seq.
    + apply list_elem_of_fmap. exists i. split; [done|]. apply elem_of_seq. lia.
  - apply not_elem_of_list_to_map_1. rewrite <- list_fmap_compose. intros (j & -> & Hj)%list_elem_of_fmap. apply elem_of_seq in Hj. cbn [fst g compose] in Hi. lia.
Qed.

Lemma file_of_wf data : file_facts.wf (file_of data).
Proof.
  intros i p Hp. rewrite file_of_pages in Hp. case_match; [|done]. injection Hp as <-. rewrite length_take, length_app, length_replicate. lia.
Qed.

Lemma file_of_page data i : (pos_of i < length data)%nat -> file.page (file_of data) i = take pl (drop (pos_of i) data ++ replicate pl 0).
Proof.
  intros Hi. pose proof page_len_pos. unfold file.page. rewrite file_of_pages. unfold scope_facts.pos_of, page_pos in Hi. by rewrite (proj2 (Nat.ltb_lt _ _)) by nia.
Qed.

Lemma file_of_contents data : file_facts.contents (file_of data) = data.
Proof.
  apply list_eq. intros p. rewrite file_facts.contents_lookup. change (file.flen (file_of data)) with (length data).
  destruct (Nat.ltb_spec p (length data)) as [Hp|Hp]; [|symmetry; apply lookup_ge_None_2; lia].
  pose proof (file_facts.page_mod p) as Hm. pose proof (file_facts.page_div_mod p) as Hdm. unfold file_facts.byte_at. rewrite file_of_page by (unfold scope_facts.pos_of, page_pos; lia).
  rewrite nth_lookup, lookup_take_lt, lookup_app_l, lookup_drop by (rewrite ?length_drop; unfold scope_facts.pos_of, page_pos; lia).
  unfold scope_facts.pos_of, page_pos. rewrite <- Hdm. by destruct (lookup_lt_is_Some_2 data p Hp) as [x ->].
Qed.

(** The files [A] are open, and nothing has been written. *)
Definition opened (d : FS) (A : files) : Prop :=
  lens d = length <$> A /\ forall sc data, A !! sc = Some data -> disk d !! sc = Some data.

(** Opening a file that exists. *)
Lemma open_opened d A sc data : opened d A -> A !! sc = None -> disk d !! sc = Some data -> opened (open d sc) (<[sc := data]> A).
Proof.
  intros [Hl Hd] Hn Hs. unfold open, open_with. rewrite Hl, lookup_fmap, Hn. cbn. unfold on_disk. rewrite Hs. split; [cbn; by rewrite fmap_insert, Hl|].
  intros sc' x. rewrite lookup_insert_Some. intros [[<- <-]|[_ Hx]]; [done|by apply Hd].
Qed.

Lemma opened_content d A sc i : opened d A -> is_page_id (Z.of_nat i) = true ->
  content d (sc, Z.of_nat i) = Some (take (span d sc i) (drop (pos_of i) (default [] (A !! sc)))).
Proof.
  intros [Hl Hd] Hi. cbn [content file_laws scope_facts.scope_laws]. unfold scope_facts.content. cbn [fst snd]. rewrite Hi, Nat2Z.id.
  assert (len d sc = length (default [] (A !! sc))) as Hlen by (unfold len; rewrite Hl, lookup_fmap; by destruct (A !! sc)).
  destruct (A !! sc) as [data|] eqn:HA; cbn [default Datatypes.id] in *.
  - assert (on_disk d sc = data) as Hod by (unfold on_disk; by rewrite (Hd _ _ HA)). unfold covered. by rewrite Hod, Hlen, Nat.eqb_refl, orb_true_r.
  - assert (span d sc i = 0%nat) as Hz by (rewrite scope_facts.span_spec, Hlen; by destruct (Nat.ltb_spec (pos_of i) (length (@nil Z))); [cbn in *; lia|]).
    unfold covered. by rewrite Hz.
Qed.

Lemma opened_holds o d A fuel :
  clock_replace.sane o -> cache_inner.page_len o = Z.of_nat pl -> opened d A -> map_Forall (fun _ data => file_facts.addressable (length data)) A ->
  (fault_fuel o <= fuel)%nat -> Z.of_nat fuel < 2 ^ 62 -> exists C, new (E := memory_fault) o = Ok C /\ holds fuel 0 C d A.
Proof.
  intros Hsane Hlen Hop Ha Hf Hm. destruct (new_ready (SL := file_laws) o d Hsane) as (C & HC & Hr & Ho & Hlog).
  { split; [|cbn; rewrite Hlen, Nat2Z.id; apply length_replicate]. intros [sc i]. destruct (is_page_id i) eqn:Hi.
    - rewrite <- (Z2Nat.id i) by (unfold is_page_id in Hi; apply andb_true_iff in Hi as [?%Z.leb_le _]; done). rewrite (opened_content d A) by (done || by apply scope_facts.page_id_nat). by eexists.
    - cbn. unfold scope_facts.content. cbn [snd]. rewrite Hi. by eexists. }
  exists C. split; [done|]. exists (file_of <$> A). split_and!; [|by rewrite <- map_fmap_compose, (map_fmap_ext _ Datatypes.id), map_fmap_id by (intros; apply file_of_contents)|done].
  split; [done|by rewrite Ho|by rewrite Ho|by rewrite <- map_fmap_compose; apply Hop| |].
  - intros sc f Hs. apply lookup_fmap_Some in Hs as (x & <- & _). apply file_of_wf.
  - intros sc f i Hs Hi. apply lookup_fmap_Some in Hs as (data & <- & HA). rewrite Hlog, (opened_content d A sc i Hop Hi), HA. f_equal. cbn [default Datatypes.id].
    destruct Hop as [Hl _]. pose proof (scope_facts.span_spec pl d sc i) as Hs. assert (len d sc = length data) as Hld by (unfold len; by rewrite Hl, lookup_fmap, HA).
    destruct (Nat.ltb_spec (pos_of i) (len d sc)) as [Hp|Hp]; [|by rewrite Hs]. rewrite file_of_page by lia. rewrite take_take, take_app_le by (rewrite length_drop; lia).
    f_equal. lia.
Qed.

(** C7. Files on the page cache on disk implement the byte contract [bytes_file] of
    FileIO, in which a write that ends inside a page cuts the file behind it: on a
    new cache, every sequence of reads, writes and syncs of open files, in which
    each write starts inside its file or at its end, answers what the contract
    answers, and panics where it does, whatever pages the cache evicts and loads.
    The calls of the operating system may be interrupted, and writes may be partial,
    but no call fails and reads are short only at the end of a file ([OsLaws]). *)
Theorem stack_refines_bytes o d A os fuel :
  clock_replace.sane o -> cache_inner.page_len o = Z.of_nat pl -> opened d A -> map_Forall (fun _ data => file_facts.addressable (length data)) A ->
  legal_run A os -> total os < 2 ^ 61 -> (fault_fuel o <= fuel)%nat -> Z.of_nat fuel < 2 ^ 62 ->
  exists C, new (E := memory_fault) o = Ok C /\
    match spec_ops A os with
    | Ok (rs, A') => exists C' d', run_ops fuel C d os = Ok (rs, C', d') /\ lens d' = length <$> A'
    | _ => run_ops fuel C d os = Panic
    end.
Proof.
  intros Hsane Hlen Hop Ha Hl Ht Hf Hm. destruct (opened_holds o d A fuel Hsane Hlen Hop Ha Hf Hm) as (C & HC & Hh). exists C. split; [done|].
  pose proof (stack_ops_ok fuel os 0 C d A Hh Hl ltac:(lia) ltac:(lia)) as Hr. destruct (spec_ops A os) as [[rs A']|e| |]; try done.
  destruct Hr as (C' & d' & Hr & (F & HF & -> & _)). exists C', d'. split; [done|]. rewrite (rel_lens _ _ _ _ _ HF), <- map_fmap_compose.
  apply map_fmap_ext. intros sc f _. symmetry. apply file_facts.length_contents.
Qed.

Lemma spec_ops_app A os os' : spec_ops A (os ++ os') = ('(rs, A) ← spec_ops A os; '(rs', A) ← spec_ops A os'; Ok (rs ++ rs', A)).
Proof.
  revert A. induction os as [|o os IH]; intros A; cbn [spec_ops app].
  - run. by destruct (spec_ops A os') as [[? ?]|e| |].
  - destruct (spec_op A o) as [[r A1]|e| |]; run; try done. rewrite IH. destruct (spec_ops A1 os) as [[rs A2]|e| |]; run; try done.
    by destruct (spec_ops A2 os') as [[? ?]|e| |].
Qed.

Lemma sync_files_ok fuel scs : forall n C d A, holds fuel n C d A -> Forall (fun sc => is_Some (A !! sc)) scs ->
  0 <= n -> n + 2 ^ 31 * Z.of_nat (length scs) < 2 ^ 61 ->
  exists C' d', sync_all_files C d scs = Ok (true, C', d') /\ holds fuel (n + 2 ^ 31 * Z.of_nat (length scs)) C' d' A /\
    (forall sc, sc ∈ scs -> disk d' !! sc = A !! sc) /\ (forall sc, sc ∉ scs -> disk d' !! sc = disk d !! sc).
Proof.
  unfold sync_all_files. induction scs as [|sc scs IH]; intros n C d A Hh Hs Hn Hb; cbn [for_scopes length] in *.
  { exists C, d. split; [done|]. split; [by rewrite Z.add_0_r|]. split; [set_solver|done]. }
  apply Forall_cons in Hs as [[data Hd] Hs]. destruct (holds_file _ _ _ _ _ _ _ Hh Hd) as (F & f & Hr & HA & Hf & -> & Ha).
  destruct (sync_all_ok fuel n C d F sc f Hr Hf Ha Hn ltac:(lia)) as (C1 & d1 & Hsy & Hr1 & Hd1). rewrite Hsy. run.
  assert (holds fuel (n + 2 ^ 31) C1 d1 A) as Hh1 by (destruct Hh as (_ & _ & _ & Had); by exists F).
  destruct (IH (n + 2 ^ 31) C1 d1 A Hh1 Hs ltac:(lia) ltac:(lia)) as (C2 & d2 & H2 & Hh2 & Hin & Hout).
  exists C2, d2. split; [done|]. split; [eapply holds_weaken; [|exact Hh2]; lia|]. split; intros sc' Hsc.
  - destruct (decide (sc' ∈ scs)) as [|Hni]; [by apply Hin|]. rewrite (Hout sc' Hni). set_unfold. destruct Hsc as [->|]; [|done].
    by rewrite Hd1, Hd.
  - rewrite Hout by set_solver. eapply sync_all_elsewhere; [exact Hsy|set_solver].
Qed.

(** C8. A sync of the file system brings its files to disk: after any operations in
    which each write starts inside its file or at its end, syncing any of the files,
    in any order, succeeds, and each of them then has on disk exactly the bytes of
    the byte contract.  The calls of the operating system are as for the previous
    theorem: interrupted, partial, but not failing. *)
Theorem sync_makes_durable o d A os scs fuel rs A' :
  clock_replace.sane o -> cache_inner.page_len o = Z.of_nat pl -> opened d A -> map_Forall (fun _ data => file_facts.addressable (length data)) A ->
  legal_run A os -> total os + 2 ^ 31 * Z.of_nat (length scs) < 2 ^ 61 -> (fault_fuel o <= fuel)%nat -> Z.of_nat fuel < 2 ^ 62 ->
  spec_ops A os = Ok (rs, A') -> Forall (fun sc => is_Some (A' !! sc)) scs ->
  exists C C1 d1 C2 d2, new (E := memory_fault) o = Ok C /\ run_ops fuel C d os = Ok (rs, C1, d1) /\
    sync_all_files C1 d1 scs = Ok (true, C2, d2) /\ forall sc, sc ∈ scs -> disk d2 !! sc = A' !! sc.
Proof.
  intros Hsane Hlen Hop Ha Hl Ht Hf Hm Hsp Hs. destruct (opened_holds o d A fuel Hsane Hlen Hop Ha Hf Hm) as (C & HC & Hh).
  pose proof (stack_ops_ok fuel os 0 C d A Hh Hl ltac:(lia) ltac:(lia)) as Hr. rewrite Hsp in Hr. destruct Hr as (C1 & d1 & Hr & Hh1).
  pose proof (stack_total_pos os). destruct (sync_files_ok fuel scs (0 + total os) C1 d1 A' Hh1 Hs) as (C2 & d2 & H2 & _ & Hd & _); [lia..|].
  by exists C, C1, d1, C2, d2.
Qed.

End stack.

(** ** An example: two files on a cache of one page *)
Module example.

#[local] Instance checked : BuildProfile := true.
#[local] Existing Instance fitful.

Definition page512 : PageIO.
Proof.
  refine {| FileIO.page_len := 512; fresh_page := fun _ => replicate 512 0 |}; [lia|by vm_compute|intros _; apply length_replicate].
Defined.
#[local] Existing Instance page512.

Lemma block_length : scope_facts.page_length FileIO.page_len.
Proof. split; [cbn; lia|reflexivity|by vm_compute]. Qed.

Definition o : cache_inner.Options := cache_inner.mkOptions 1 1 512 512.

Lemma cache_sane : clock_replace.sane o.
Proof. split; [done|done|done|]. eexists. reflexivity. Qed.

Definition d0 : FS := mkFS {[0%nat := [1; 2; 3]; 1%nat := []]} ∅ 0.
Definition d : FS := open (open d0 0) 1.
Definition A : gmap nat (list Z) := <[1%nat := []]> (<[0%nat := [1; 2; 3]]> ∅).

Lemma d_opened : opened d A.
Proof. apply open_opened; [apply open_opened; [by split|done|done]|done|done]. Qed.

Lemma A_addressable : map_Forall (fun _ data => file_facts.addressable (length data)) A.
Proof. apply map_Forall_insert_2; [by vm_compute|]. apply map_Forall_insert_2; [by vm_compute|apply map_Forall_empty]. Qed.

Definition script : list op := [Write 1 0 [7; 8]; Write 0 3 [4]; Read 1 0 2; Read 0 1 9].

(** The next operation is legal, and its result is computed. *)
Ltac next_op :=
  split; [|let r := fresh in let B := fresh in let E := fresh in intros r B E; cbn in E; injection E as <- <-].

Lemma script_legal : legal_run A script.
Proof.
  next_op; [exists []; split_and!; [done|cbn; lia|by vm_compute]|]. next_op; [exists [1; 2; 3]; split_and!; [done|cbn; lia|by vm_compute]|].
  next_op; [split; [by eexists|by vm_compute]|]. next_op; [split; [by eexists|by vm_compute]|]. done.
Qed.

Definition A' : gmap nat (list Z) := <[0%nat := [1; 2; 3; 4]]> (<[1%nat := [7; 8]]> A).

Lemma script_spec : spec_ops A script = Ok ([Done_; Done_; Bytes [7; 8]; Bytes [2; 3; 4]], A').
Proof. vm_compute. reflexivity. Qed.

Lemma stack_refines_bytes_witness :
  exists C, new (E := memory_fault) o = Ok C /\
    match spec_ops A script with
    | Ok (rs, A') => exists C' d', run_ops 100 C d script = Ok (rs, C', d') /\ lens d' = length <$> A'
    | _ => run_ops 100 C d script = Panic
    end.
Proof.
  apply (stack_refines_bytes block_length o d A script 100); [apply cache_sane|done|apply d_opened|apply A_addressable|apply script_legal|by vm_compute|
    apply (bool_decide_unpack _); vm_compute; exact I|done].
Defined.

Lemma sync_makes_durable_witness :
  exists C C1 d1 C2 d2, new (E := memory_fault) o = Ok C /\
    run_ops 100 C d script = Ok ([Done_; Done_; Bytes [7; 8]; Bytes [2; 3; 4]], C1, d1) /\
    sync_all_files C1 d1 [0; 1]%nat = Ok (true, C2, d2) /\ forall sc, sc ∈ [0; 1]%nat -> disk d2 !! sc = A' !! sc.
Proof.
  apply (sync_makes_durable block_length o d A script [0; 1]%nat 100); [apply cache_sane|done|apply d_opened|apply A_addressable|apply script_legal|by vm_compute|
    apply (bool_decide_unpack _); vm_compute; exact I|done|apply script_spec|repeat constructor; vm_compute; by eexists].
Defined.

End example.
End stack_facts.
