(* ===== verification/FileStackLimits.v ===== *)
(** * Where the promise of the file stack ends (tskv/src/direct_io/file/scope.rs,
      file/system.rs)

    FileStackFacts asks that a write starts inside the file or at its end, that a
    file is opened without truncating it, and that a read of the operating system is
    short only at the end of the file.  Each condition is needed. *)
From S2P Require Import Prelude FileIO PageLock PageCache PageClock PageHands PageReplace PageCacheFacts FileScope.
From S2P Require Import FileScopeFacts FileStackFacts.

Module stack_limits.
Import page internal cache file_scope file_system file_stack stack_spec.

Definition o : cache_inner.Options := cache_inner.mkOptions 4 4 512 512.
Definition empty_file : FS := open (mkFS {[0%nat := []]} ∅ 0) 0.
Definition small_file : FS := open (mkFS {[0%nat := [1; 2; 3]]} ∅ 0) 0.

Section posix.
Context {P : BuildProfile}.
#[local] Existing Instance posix.

(** A byte is written behind a gap, then the gap is read. *)
Definition read_gap : res (list reply * Cache * FS) :=
  c ← new o; run_ops 100 c empty_file [Write 0 1024 [9]; Read 0 1024 1; Read 0 512 1; Read 0 1024 1].

(** A file is read, created again, read again and synced. *)
Definition create_again : res (list reply * list reply * Cache * FS) :=
  c ← new o;
  '(r1, c, d) ← run_ops 100 c small_file [Read 0 0 3];
  '(r2, c, d) ← run_ops 100 c (create d 0) [Read 0 0 3; Sync 0];
  Ok (r1, r2, c, d).

End posix.

(** ** In general *)

Section losses.
Context {P : BuildProfile} {Sys : Os} {OL : OsLaws Sys} (pl : nat).

(** Behind the end of the file the operating system has no bytes. *)
Lemma read_nothing t f pos l buf :
  scope_facts.page_length pl -> length buf = pl -> (0 < l <= pl)%nat -> (pos mod BLOCK_ALIGN = 0)%nat -> (length f <= pos)%nat ->
  exists t', read_all_at (rounds buf) t f pos l buf = Ok (0, buf, t').
Proof.
  intros Hpl Hbuf Hl Hpos Hf. unfold read_all_at, rounds. rewrite Hbuf, Hpos, (scope_facts.pl_block _ Hpl).
  rewrite (proj2 (Nat.leb_le _ _)) by lia. cbn [assert_ Nat.eqb]. run.
  destruct (os_read_settles t f pos pl) as (k & Hk & Hint & Hread).
  destruct (scope_facts.patience_rounds (S pl) k) as (m & -> & _); [lia|done|].
  rewrite scope_facts.read_repeats by (rewrite ?Hbuf; done || lia). cbn [read_all_loop]. rewrite Hbuf.
  rewrite (proj2 (Nat.eqb_neq pl 0)), (proj2 (Z.eqb_neq 0 _)) by lia. cbn [orb]. rewrite Hread, drop_ge, take_nil by done. by eexists.
Qed.

(** C36. Bytes can be lost above the page cache.  Let a file be open with length [n].
    First, when page [i] is inside this length but behind the bytes on disk, as in
    a gap before bytes that were written to the cache only, loading the page sets
    the length of the file to the start of the page: no page from there on has
    bytes any more.  Second, creating the file again while it is open truncates the
    file on disk but keeps its length, so that the next change of length on disk,
    which a sync makes, gives a file of [n] zeros. *)
Theorem stack_loses_bytes d sc n :
  lens d !! sc = Some n ->
  (forall i buf, scope_facts.page_length pl -> length buf = pl -> is_page_id (Z.of_nat i) = true ->
     (length (on_disk d sc) <= page_pos i pl < n)%nat ->
     exists d', file_scope.read d sc i buf = Ok (buf, d') /\ disk d' = disk d /\ len d' sc = page_pos i pl /\
       forall j, (i <= j)%nat -> (page_span (len d' sc) j pl).2 = 0%nat) /\
  (let d' := create d sc in
   len d' sc = n /\ on_disk d' sc = [] /\ disk (sync_len d' sc) !! sc = Some (replicate n 0)).
Proof.
  intros Hn. assert (len d sc = n) as Hlen by (unfold len; by rewrite Hn). split.
  - intros i buf Hpl Hbuf Hi Hgap. unfold file_scope.read. rewrite Hbuf, Hlen. unfold page_span.
    rewrite (proj2 (Nat.ltb_lt (page_pos i pl) n)) by lia. pose proof (scope_facts.pl_pos _ Hpl). rewrite (proj2 (Nat.ltb_lt 0 _)) by lia.
    destruct (read_nothing (calls d) (on_disk d sc) (page_pos i pl) (Nat.min (n - page_pos i pl) pl) buf) as (t & ->);
      [done|done|lia|by apply scope_facts.pos_block|lia|]. run.
    rewrite (proj2 (Z.eqb_neq 0 _)) by lia. rewrite clock_list.debug_assert_true by (apply Z.ltb_lt; lia). run.
    pose proof (scope_facts.pos_u64 pl i Hpl Hi) as Hu. unfold scope_facts.pos_of in Hu.
    rewrite add_u64_ok by (unfold is_u64; lia). run. eexists. split; [reflexivity|]. split; [done|].
    rewrite scope_facts.len_set_len. case_decide; [|done]. rewrite Z.add_0_r, Nat2Z.id. split; [done|]. intros j Hj. cbn [snd].
    rewrite (proj2 (Nat.ltb_ge _ _)); [done|]. unfold page_pos. nia.
  - cbv zeta. unfold create, open_with. cbn [lens set_disk]. rewrite Hn. change (len (set_disk d sc []) sc) with (len d sc).
    split_and!; [done|rewrite scope_facts.on_disk_set; by case_decide|].
    unfold sync_len, set_disk at 1. cbn [disk]. rewrite lookup_insert_eq. change (len (set_disk d sc []) sc) with (len d sc).
    rewrite scope_facts.on_disk_set, Hlen. rewrite decide_True by done. unfold resize. rewrite take_nil. cbn. by rewrite Nat.sub_0_r.
Qed.

End losses.

(** A file of length 1025 with nothing on disk: its second page is read. *)
Lemma stack_loses_bytes_witness : let P : BuildProfile := true in let Sys := fitful in
  let d := mkFS {[0%nat := []]} {[0%nat := 1025%nat]} 0 in
  exists d', file_scope.read d 0 1 (replicate 512 0) = Ok (replicate 512 0, d') /\ len d' 0 = 512%nat /\
    disk (sync_len (create d 0) 0) !! 0%nat = Some (replicate 1025 0).
Proof.
  intros P Sys d. destruct (stack_loses_bytes (P := P) (Sys := Sys) 512 d 0 1025 eq_refl) as [H1 (_ & _ & H2)].
  destruct (H1 1%nat (replicate 512 0)) as (d' & E & _ & Hl & _).
  - split; [lia|reflexivity|by vm_compute].
  - apply length_replicate.
  - reflexivity.
  - apply (bool_decide_unpack _). vm_compute. exact I.
  - exists d'. split; [exact E|]. split; [exact Hl|exact H2].
Defined.

(** The two losses through the whole stack: what was written behind a gap cannot be
    read any more after the gap was read, and the old bytes of a file that was
    created again are read, but a sync makes the file on disk as many zeros. *)
Theorem losses_observed (P : BuildProfile) :
  (exists c d, read_gap = Ok ([Done_; Bytes [9]; Bytes []; Bytes []], c, d) /\ len d 0 = 512%nat) /\
  (exists c d, create_again = Ok ([Bytes [1; 2; 3]], [Bytes [1; 2; 3]; Done_], c, d) /\ disk d !! 0%nat = Some [0; 0; 0]).
Proof. destruct P; split; eexists _, _; vm_compute; split; reflexivity. Qed.

(** An operating system that reads at most one block at a time. *)
Definition short_reads : Os := {|
  os_read _ f pos n := Done (take (Nat.min n BLOCK_ALIGN) (drop pos f)); os_write := os_write (Os := posix); os_patience := 0 |}.

(** [read_all_at] adds the bytes read before twice: a page that arrives in two
    pieces makes the file one and a half pages long, or fails the assertion of a
    checked build. *)
Theorem short_read_grows_file :
  let d := open (mkFS {[0%nat := replicate 1024 5]} ∅ 0) 0 in let buf := replicate 1024 0 in
  (exists d', file_scope.read (P := (false : BuildProfile)) (Sys := short_reads) d 0 0 buf = Ok (replicate 1024 5, d') /\ len d' 0 = 1536%nat) /\
  file_scope.read (P := (true : BuildProfile)) (Sys := short_reads) d 0 0 buf = Panic.
Proof. split; [eexists; split|]; vm_compute; reflexivity. Qed.

End stack_limits.
