(* ===== verification/AsyncRt.v ===== *)
(** * The asynchronous IO runtime (tskv/src/direct_io/async_rt.rs, file_manager.rs)

    Clients put IO tasks into three bounded queues; a pool of threads takes them out,
    runs them and answers through the channel of the task.  A thread that finds
    nothing to do sleeps on a condition variable until a client wakes it up.

    [async_rt] is the code of the worker, of the client and of closing the runtime,
    cut into steps at every access to shared memory: a program counter per thread
    and the step each thread can take.  An execution is a sequence of threads.  A
    queue is linearizable, the mutex and the condition variable have no spurious
    effects; the reads and writes of the files are a parameter.

    [runtime_facts] has the theorems, over all interleavings. *)
From S2P Require Import Prelude.

Module async_rt.

Definition QUEUE_SIZE : nat := Nat.pow 2 10.
Definition WAKEUP_THRESHOLD : nat := 3.

Inductive TaskType := BackRead | BackWrite | FrontRead | FrontWrite | Wal.

(** [cb] names the channel of the answer. *)
Record IoTask := mkIoTask { task_type : TaskType; priority : Z; size : Z; offset : Z; fd : nat; cb : nat }.

Definition make_io_task (ty : TaskType) (size offset : Z) (fd cb : nat) : IoTask := mkIoTask ty 0 size offset fd cb.

Definition is_pri_high (t : IoTask) : bool :=
  match task_type t with
  | FrontWrite | FrontRead | Wal => true
  | _ => 0 <? priority t
  end.

(** What arrives on the channel: the result of the file (the number of bytes, or an
    error), [Error::Cancel], or that the sender was dropped. *)
Inductive answer := Io (r : option Z) | Cancel | Dropped.

(** [AsyncContext]; [owner] is the thread that holds [thread_state]. *)
Inductive thread := Worker (i : nat) | Client (j : nat) | Closer (k : nat).
#[global] Instance thread_eq : EqDecision thread.
Proof. solve_decision. Defined.

Record AsyncContext := mkAsyncContext {
  read_queue : list IoTask; write_queue : list IoTask; high_op_queue : list IoTask;
  worker_count : Z; total_count : nat; thread_state : list bool; owner : option thread; closed : bool }.

Definition new (thread_num : nat) : AsyncContext :=
  mkAsyncContext [] [] [] (Z.of_nat thread_num) thread_num (replicate thread_num false) None false.

Definition with_read q c := mkAsyncContext q (write_queue c) (high_op_queue c) (worker_count c) (total_count c) (thread_state c) (owner c) (closed c).
Definition with_write q c := mkAsyncContext (read_queue c) q (high_op_queue c) (worker_count c) (total_count c) (thread_state c) (owner c) (closed c).
Definition with_high q c := mkAsyncContext (read_queue c) (write_queue c) q (worker_count c) (total_count c) (thread_state c) (owner c) (closed c).
Definition with_count n c := mkAsyncContext (read_queue c) (write_queue c) (high_op_queue c) n (total_count c) (thread_state c) (owner c) (closed c).
Definition with_state s c := mkAsyncContext (read_queue c) (write_queue c) (high_op_queue c) (worker_count c) (total_count c) s (owner c) (closed c).
Definition with_owner o c := mkAsyncContext (read_queue c) (write_queue c) (high_op_queue c) (worker_count c) (total_count c) (thread_state c) o (closed c).
Definition with_closed b c := mkAsyncContext (read_queue c) (write_queue c) (high_op_queue c) (worker_count c) (total_count c) (thread_state c) (owner c) b.

(** [ArrayQueue::push]: a full queue gives the task back. *)
Definition push (q : list IoTask) (t : IoTask) : option (list IoTask) :=
  if (length q <? QUEUE_SIZE)%nat then Some (q ++ [t]) else None.

(** ** The worker *)

(** Where [run_io_task] goes on after a task. *)
Inductive after := ToHigh | ToWrite | ToSpin | ToTop.

Inductive wpc :=
| Top | High | Read | Write | Spin (n : nat) | Run (t : IoTask) (k : after)   (* run_io_task *)
| Lock | CheckHigh | CheckRead | CheckWrite | Mark | Sub | Loop | Asleep | Relock | Add   (* wait *)
| Exit | Panicked.

Definition resume (k : after) : wpc := match k with ToHigh => High | ToWrite => Write | ToSpin => Spin 50 | ToTop => Top end.

Section runtime.
Context (read_at write_at : IoTask -> option Z).

(** [IoTask::run]. *)
Definition run (t : IoTask) : answer :=
  match task_type t with
  | BackRead | FrontRead => Io (read_at t)
  | BackWrite | FrontWrite | Wal => Io (write_at t)
  end.

(** The guard is dropped when [wait] returns. *)
Definition unless_empty (q : list IoTask) (next : wpc) (c : AsyncContext) : wpc * AsyncContext :=
  match q with [] => (next, c) | _ :: _ => (Top, with_owner None c) end.

(** One step of worker [i]: its next position, the shared memory, and what it
    answers; [None] where it has to wait. *)
Definition worker_step (i : nat) (p : wpc) (c : AsyncContext) : option (wpc * AsyncContext * list (nat * answer)) :=
  let quiet r := Some (r, []) in
  match p with
  | Top => quiet (if closed c then Exit else High, c)
  | High => quiet (match high_op_queue c with t :: q => (Run t ToHigh, with_high q c) | [] => (Read, c) end)
  | Read => quiet (match read_queue c with t :: q => (Run t ToWrite, with_read q c) | [] => (Write, c) end)
  | Write => quiet (match write_queue c with t :: q => (Run t ToSpin, with_write q c) | [] => (Spin 50, c) end)
  | Spin 0 => quiet (Lock, c)
  | Spin (S n) => quiet (match high_op_queue c with t :: q => (Run t ToTop, with_high q c) | [] => (Spin n, c) end)
  | Run t k => Some (resume k, c, [(cb t, run t)])
  | Lock => match owner c with None => quiet (CheckHigh, with_owner (Some (Worker i)) c) | Some _ => None end
  | CheckHigh => quiet (unless_empty (high_op_queue c) CheckRead c)
  | CheckRead => quiet (unless_empty (read_queue c) CheckWrite c)
  | CheckWrite => quiet (unless_empty (write_queue c) Mark c)
  | Mark =>
      quiet (match thread_state c !! i with
             | Some _ => (Sub, with_state (<[i := true]> (thread_state c)) c)
             | None => (Panicked, with_owner None c)
             end)
  | Sub => quiet (Loop, with_count (u64 (worker_count c - 1)) c)
  | Loop =>
      quiet (match thread_state c !! i with
             | Some true => (Asleep, with_owner None c)
             | Some false => (Add, c)
             | None => (Panicked, with_owner None c)
             end)
  | Asleep => None
  | Relock => match owner c with None => quiet (Loop, with_owner (Some (Worker i)) c) | Some _ => None end
  | Add => quiet (Top, with_owner None (with_count (u64 (worker_count c + 1)) c))
  | Exit | Panicked => None
  end.

(** ** The client: [FileManager::write_at] with a task of any type *)

Inductive cpc :=
| Put (t : IoTask) | Push (t : IoTask)   (* put_io_task *)
| LenRead (id : nat) | LenWrite (id sum : nat) | LenHigh (id sum : nat) | Active (id sum : nat)   (* try_wakeup *)
| Count (id : nat) | WakeLock (id : nat) | Clear (id : nat) | Notify (id : nat)   (* wake_up_one *)
| Await (id : nat) | Returned (a : answer) | Failed.

Fixpoint clear_first (l : list bool) : list bool :=
  match l with [] => [] | true :: l => false :: l | false :: l => false :: clear_first l end.

(** The push of [put_io_task]: the result of the push is ignored. *)
Definition put (t : IoTask) (c : AsyncContext) : AsyncContext * list (nat * answer) :=
  let pushed q set := match push q t with Some q => (set q c, []) | None => (c, [(cb t, Dropped)]) end in
  if is_pri_high t then pushed (high_op_queue c) with_high
  else match task_type t with
  | BackRead => pushed (read_queue c) with_read
  | BackWrite => pushed (write_queue c) with_write
  | _ => (c, [(cb t, Dropped)])
  end.

Definition need_wakeup (sum : nat) (active : Z) : bool :=
  if active =? 0 then true else Z.of_nat WAKEUP_THRESHOLD <? Z.of_nat sum / active.

(** One step of client [j], given the answer that has arrived for it; the flag says
    that every sleeping worker is notified. *)
Definition client_step (j : nat) (p : cpc) (c : AsyncContext) (received : nat -> option answer)
    : option (cpc * AsyncContext * list (nat * answer) * bool) :=
  let quiet p := Some (p, c, [], false) in
  match p with
  | Put t => if closed c then Some (Failed, c, [(cb t, Dropped)], false) else quiet (Push t)
  | Push t => let '(c, sent) := put t c in Some (LenRead (cb t), c, sent, false)
  | LenRead id => quiet (LenWrite id (length (read_queue c)))
  | LenWrite id sum => quiet (LenHigh id (sum + length (write_queue c)))
  | LenHigh id sum => quiet (Active id (sum + length (high_op_queue c)))
  | Active id sum => quiet (if need_wakeup sum (worker_count c) then Count id else Await id)
  | Count id => quiet (if Z.of_nat (total_count c) <=? worker_count c then Await id else WakeLock id)
  | WakeLock id => match owner c with None => Some (Clear id, with_owner (Some (Client j)) c, [], false) | Some _ => None end
  | Clear id => Some (Notify id, with_state (clear_first (thread_state c)) c, [], false)
  | Notify id => Some (Await id, with_owner None c, [], true)
  | Await id =>
      match received id with
      | None => None
      | Some Dropped => quiet Failed
      | Some a => quiet (Returned a)
      end
  | Returned _ | Failed => None
  end.

(** ** Closing *)

Inductive kpc := Swap | DrainRead | DrainWrite | DrainHigh | Closed.

Definition closer_step (p : kpc) (c : AsyncContext) : option (kpc * AsyncContext * list (nat * answer)) :=
  match p with
  | Swap => Some (if closed c then Closed else DrainRead, with_closed true c, [])
  | DrainRead => Some (match read_queue c with t :: q => (DrainRead, with_read q c, [(cb t, Cancel)]) | [] => (DrainWrite, c, []) end)
  | DrainWrite => Some (match write_queue c with t :: q => (DrainWrite, with_write q c, [(cb t, Cancel)]) | [] => (DrainHigh, c, []) end)
  | DrainHigh => Some (match high_op_queue c with t :: q => (DrainHigh, with_high q c, [(cb t, Cancel)]) | [] => (Closed, c, []) end)
  | Closed => None
  end.

(** ** The runtime *)

Record Runtime := mkRuntime {
  rt : AsyncContext; workers : list wpc; clients : list cpc; closers : list kpc; answers : list (nat * answer) }.

(** [FileManager::new] and [ts], the tasks its clients are about to put. *)
Definition start (thread_num : nat) (ts : list IoTask) (closers : nat) : Runtime :=
  mkRuntime (new thread_num) (replicate thread_num Top) (Put <$> ts) (replicate closers Swap) [].

Definition received (s : Runtime) (id : nat) : option answer := snd <$> find (fun x => (x.1 =? id)%nat) (answers s).

Definition wake (p : wpc) : wpc := match p with Asleep => Relock | _ => p end.

Definition step (s : Runtime) (th : thread) : option Runtime :=
  match th with
  | Worker i =>
      p ← workers s !! i;
      '(p, c, sent) ← worker_step i p (rt s);
      Some (mkRuntime c (<[i := p]> (workers s)) (clients s) (closers s) (answers s ++ sent))
  | Client j =>
      p ← clients s !! j;
      '(p, c, sent, notified) ← client_step j p (rt s) (received s);
      Some (mkRuntime c (if notified : bool then wake <$> workers s else workers s) (<[j := p]> (clients s)) (closers s) (answers s ++ sent))
  | Closer k =>
      p ← closers s !! k;
      '(p, c, sent) ← closer_step p (rt s);
      Some (mkRuntime c (workers s) (clients s) (<[k := p]> (closers s)) (answers s ++ sent))
  end.

Fixpoint steps (s : Runtime) (sched : list thread) : option Runtime :=
  match sched with
  | [] => Some s
  | th :: sched => s ← step s th; steps s sched
  end.

End runtime.
End async_rt.

Module runtime_facts.
Import async_rt.

(** ** Where a task is *)

Definition one (x y : nat) : nat := if (x =? y)%nat then 1 else 0.
Definition queued (x : nat) (q : list IoTask) : nat := sum_list_with (fun t => one x (cb t)) q.
Definition pending (x : nat) (p : cpc) : nat := match p with Put t | Push t => one x (cb t) | _ => 0 end.
Definition running (x : nat) (p : wpc) : nat := match p with Run t _ => one x (cb t) | _ => 0 end.
Definition answered (x : nat) (l : list (nat * answer)) : nat := sum_list_with (fun a => one x a.1) l.
Definition waiting (x : nat) (c : AsyncContext) : nat :=
  (queued x (read_queue c) + queued x (write_queue c) + queued x (high_op_queue c))%nat.

(** How often the channel [x] is still held: by a client that has not put its task,
    in a queue, by a worker, or used. *)
Definition places (x : nat) (s : Runtime) : nat :=
  (sum_list_with (pending x) (clients s) + waiting x (rt s) + sum_list_with (running x) (workers s) + answered x (answers s))%nat.

Lemma sum_insert {A} (f : A -> nat) l i p p' : l !! i = Some p ->
  (sum_list_with f (<[i := p']> l) + f p = sum_list_with f l + f p')%nat.
Proof.
  revert i. induction l as [|a l IH]; intros [|i] H; simplify_eq/=; [lia|]. specialize (IH i H). lia.
Qed.

Lemma sum_same {A} (f : A -> nat) g l : (forall a, f (g a) = f a) -> sum_list_with f (g <$> l) = sum_list_with f l.
Proof. intros H. induction l as [|a l IH]; [done|]. cbn. by rewrite H, IH. Qed.

Lemma sum_member {A} (f : A -> nat) l i p : l !! i = Some p -> (f p <= sum_list_with f l)%nat.
Proof. revert i. induction l as [|a l IH]; intros [|i] H; simplify_eq/=; [lia|]. specialize (IH i H). lia. Qed.

Lemma sum_zero {A} (f : A -> nat) l : (forall i p, l !! i = Some p -> f p = 0%nat) -> sum_list_with f l = 0%nat.
Proof. intros H. induction l as [|a l IH]; [done|]. cbn. rewrite (H 0%nat a eq_refl), IH; [done|]. intros i p. apply (H (S i)). Qed.

Lemma queued_app x q t : queued x (q ++ [t]) = (queued x q + one x (cb t))%nat.
Proof. unfold queued. rewrite sum_list_with_app. cbn. lia. Qed.

Section facts.
Context (read_at write_at : IoTask -> option Z).
Notation step := (step read_at write_at).
Notation steps := (steps read_at write_at).
Notation worker_step := (worker_step read_at write_at).
Notation run := (run read_at write_at).

(** Splits a step into its cases. *)
Ltac cases := repeat (case_match; simplify_eq/=); try done; simplify_eq/=.
Ltac queues :=
  repeat match goal with
  | E : read_queue _ = _ |- _ => rewrite E | E : write_queue _ = _ |- _ => rewrite E | E : high_op_queue _ = _ |- _ => rewrite E
  end.

Lemma worker_places x i p c p' c' sent : worker_step i p c = Some (p', c', sent) ->
  (running x p' + waiting x c' + answered x sent = running x p + waiting x c)%nat.
Proof.
  unfold waiting, worker_step, unless_empty. intros H. destruct p; cbn in H; cases; queues; cbn; try (destruct k; cbn); unfold answered, queued; cbn; lia.
Qed.

Lemma put_places x t c c' sent : put t c = (c', sent) -> (waiting x c' + answered x sent = waiting x c + one x (cb t))%nat.
Proof.
  unfold put, push, waiting. intros H. cases; rewrite ?queued_app; unfold answered; cbn; lia.
Qed.

Lemma client_places x j p c rc p' c' sent b : client_step j p c rc = Some (p', c', sent, b) ->
  (pending x p' + waiting x c' + answered x sent = pending x p + waiting x c)%nat.
Proof.
  unfold client_step. intros H. destruct p as [|t| | | | | | | | | | |]; cbn in H;
    [|destruct (put t c) as [c1 s1] eqn:E; simplify_eq; pose proof (put_places x t c c' sent E); cbn; lia|..];
    cases; unfold waiting, answered, queued; cbn; lia.
Qed.

Lemma closer_places x p c p' c' sent : closer_step p c = Some (p', c', sent) ->
  (waiting x c' + answered x sent = waiting x c)%nat.
Proof.
  unfold waiting, closer_step. intros H. destruct p; cbn in H; cases; queues;
    unfold answered, queued; cbn; lia.
Qed.

(** What a step of a thread is. *)
Inductive Step (s : Runtime) : Runtime -> Prop :=
| SWorker i p p' c sent : workers s !! i = Some p -> worker_step i p (rt s) = Some (p', c, sent) ->
    Step s (mkRuntime c (<[i := p']> (workers s)) (clients s) (closers s) (answers s ++ sent))
| SClient j p p' c sent b : clients s !! j = Some p -> client_step j p (rt s) (received s) = Some (p', c, sent, b) ->
    Step s (mkRuntime c (if b then wake <$> workers s else workers s) (<[j := p']> (clients s)) (closers s) (answers s ++ sent))
| SCloser k p p' c sent : closers s !! k = Some p -> closer_step p (rt s) = Some (p', c, sent) ->
    Step s (mkRuntime c (workers s) (clients s) (<[k := p']> (closers s)) (answers s ++ sent)).

Lemma step_Step s th s' : step s th = Some s' -> Step s s'.
Proof.
  destruct th as [i|j|k]; cbn; intros H; apply bind_Some in H as (p & Hp & H).
  - apply bind_Some in H as ([[p' c] sent] & Hs & H). simplify_eq. by eapply SWorker.
  - apply bind_Some in H as ([[[p' c] sent] b] & Hs & H). simplify_eq. by eapply SClient.
  - apply bind_Some in H as ([[p' c] sent] & Hs & H). simplify_eq. by eapply SCloser.
Qed.

(** Rule induction over an execution. *)
Lemma steps_ind (I : Runtime -> Prop) sched : (forall s s', I s -> Step s s' -> I s') ->
  forall s s', I s -> steps s sched = Some s' -> I s'.
Proof.
  intros HI. induction sched as [|th sched IH]; cbn; intros s s' Hs H; [by simplify_eq|].
  apply bind_Some in H as (s1 & H1 & H). eapply IH; [|exact H]. eapply HI; [exact Hs|by eapply step_Step].
Qed.

Lemma step_places x s s' : Step s s' -> places x s' = places x s.
Proof.
  intros H. unfold places, answered. destruct H as [i p p' c sent Hp Hs|j p p' c sent b Hp Hs|k p p' c sent Hp Hs]; cbn;
    rewrite sum_list_with_app.
  - pose proof (worker_places x _ _ _ _ _ _ Hs). pose proof (sum_insert (running x) _ _ _ p' Hp). unfold answered in *. lia.
  - pose proof (client_places x _ _ _ _ _ _ _ _ Hs). pose proof (sum_insert (pending x) _ _ _ p' Hp).
    assert (sum_list_with (running x) (if b then wake <$> workers s else workers s) = sum_list_with (running x) (workers s)) as ->.
    { destruct b; [|done]. apply sum_same. by intros []. }
    unfold answered in *. lia.
  - pose proof (closer_places x _ _ _ _ _ Hs). unfold answered in *. lia.
Qed.

Lemma start_places x n ts k : places x (start n ts k) = queued x ts.
Proof.
  unfold places, start, waiting, queued. cbn. rewrite (sum_zero (running x)).
  2:{ intros i p [-> _]%lookup_replicate. done. }
  induction ts as [|t ts IH]; [done|]. cbn in *. lia.
Qed.

(** ** The mutex and the number of workers *)

Definition inside (p : wpc) : bool :=
  match p with CheckHigh | CheckRead | CheckWrite | Mark | Sub | Loop | Add => true | _ => false end.
Definition client_inside (p : cpc) : bool := match p with Clear _ | Notify _ => true | _ => false end.

(** Between the two changes of [worker_count] in [wait]. *)
Definition dozing (p : wpc) : nat := match p with Loop | Asleep | Relock | Add => 1 | _ => 0 end.

Definition owned (c : AsyncContext) (th : thread) : bool := bool_decide (owner c = Some th).

Record inv (n : nat) (s : Runtime) : Prop := {
  inv_total : total_count (rt s) = n;
  inv_workers : length (workers s) = n;
  inv_state : length (thread_state (rt s)) = n;
  inv_count : worker_count (rt s) = Z.of_nat n - Z.of_nat (sum_list_with dozing (workers s));
  inv_inside i p : workers s !! i = Some p -> inside p = owned (rt s) (Worker i);
  inv_client j p : clients s !! j = Some p -> client_inside p = owned (rt s) (Client j);
  inv_owner th : owner (rt s) = Some th ->
    match th with Worker i => is_Some (workers s !! i) | Client j => is_Some (clients s !! j) | Closer _ => False end;
  inv_flag i : workers s !! i = Some Asleep ->
    thread_state (rt s) !! i = Some true \/ exists j id, clients s !! j = Some (Notify id);
  inv_running i : workers s !! i <> Some Panicked
}.

Lemma dozing_le l : (sum_list_with dozing l <= length l)%nat.
Proof. induction l as [|a l IH]; [done|]. cbn. assert (dozing a <= 1)%nat by (destruct a; cbn; lia). lia. Qed.

Lemma dozing_room l i p : l !! i = Some p -> (sum_list_with dozing l + 1 <= length l + dozing p)%nat.
Proof.
  revert i. induction l as [|a l IH]; intros [|i] H; simplify_eq/=; [pose proof (dozing_le l); lia|]. specialize (IH i H).
  assert (dozing a <= 1)%nat by (destruct a; cbn; lia). lia.
Qed.

(** A step of a worker or client only takes the mutex for itself when it is free, or
    frees its own. *)
Definition takes (th : thread) (c c' : AsyncContext) : Prop :=
  owner c' = owner c \/ (owner c = None /\ owner c' = Some th) \/ (owner c = Some th /\ owner c' = None).

Lemma takes_other th c c' th' : takes th c c' -> th' <> th -> owned c' th' = owned c th'.
Proof. unfold owned. intros [->|[[-> ->]|[-> ->]]] Hne; [done|..]; apply bool_decide_ext; split; congruence. Qed.

Lemma takes_owner th c c' th' : takes th c c' -> th' <> th -> owner c' = Some th' -> owner c = Some th'.
Proof. intros [->|[[-> ->]|[-> ->]]] Hne; congruence. Qed.

Lemma worker_takes i p c p' c' sent : worker_step i p c = Some (p', c', sent) -> inside p = owned c (Worker i) ->
  takes (Worker i) c c' /\ inside p' = owned c' (Worker i).
Proof.
  unfold worker_step, unless_empty, owned, takes. intros H Hi.
  destruct p as [| | | |[|n]|t k| | | | | | | | | | | |]; cbn in H, Hi; try (symmetry in Hi; first [apply bool_decide_eq_true_1 in Hi|apply bool_decide_eq_false_1 in Hi]);
    cases; try (destruct k; cbn); split; auto; try (symmetry; first [by apply bool_decide_eq_true_2|by apply bool_decide_eq_false_2]); congruence.
Qed.

Lemma worker_keeps i p c p' c' sent : worker_step i p c = Some (p', c', sent) -> (i < length (thread_state c))%nat -> p <> Panicked ->
  total_count c' = total_count c /\ length (thread_state c') = length (thread_state c) /\ p' <> Panicked /\
  (p' = Asleep -> thread_state c' !! i = Some true) /\ (forall k, k <> i -> thread_state c' !! k = thread_state c !! k).
Proof.
  unfold worker_step, unless_empty. intros H Hi Hp. apply lookup_lt_is_Some_2 in Hi as [b Hb].
  destruct p as [| | | |[|n]|t k| | | | | | | | | | | |]; cbn in H; rewrite ?Hb in H; cases; try (destruct k);
    rewrite ?length_insert; split_and!; try done; intros k Hk; by rewrite list_lookup_insert_ne.
Qed.

Lemma worker_counts i p c p' c' sent : worker_step i p c = Some (p', c', sent) -> p <> Panicked ->
  (i < length (thread_state c))%nat -> (p = Sub -> 0 < worker_count c < U64) -> (p = Add -> 0 <= worker_count c < U64 - 1) ->
  worker_count c' = worker_count c + Z.of_nat (dozing p) - Z.of_nat (dozing p').
Proof.
  unfold worker_step, unless_empty. intros H Hp Hi Hs Ha. apply lookup_lt_is_Some_2 in Hi as [b Hb].
  destruct p as [| | | |[|n]|t k| | | | | | | | | | | |]; cbn in H; rewrite ?Hb in H; cases; try (destruct k; cbn); try lia.
  - specialize (Hs eq_refl). rewrite u64_id by (unfold is_u64; lia). lia.
  - specialize (Ha eq_refl). rewrite u64_id by (unfold is_u64; lia). lia.
Qed.

Lemma put_keeps t c c' sent : put t c = (c', sent) ->
  owner c' = owner c /\ total_count c' = total_count c /\ worker_count c' = worker_count c /\ thread_state c' = thread_state c.
Proof. unfold put, push. intros H. cases. Qed.

Lemma client_takes j p c rc p' c' sent b : client_step j p c rc = Some (p', c', sent, b) -> client_inside p = owned c (Client j) ->
  takes (Client j) c c' /\ client_inside p' = owned c' (Client j).
Proof.
  unfold client_step, owned, takes. intros H Hi.
  destruct p as [|t| | | | | | | | | | |]; cbn in H, Hi;
    try (symmetry in Hi; first [apply bool_decide_eq_true_1 in Hi|apply bool_decide_eq_false_1 in Hi]);
    [|destruct (put t c) as [c1 s1] eqn:E; simplify_eq; destruct (put_keeps _ _ _ _ E) as [-> _]|..];
    cases; split; auto; try (symmetry; first [by apply bool_decide_eq_true_2|by apply bool_decide_eq_false_2]); congruence.
Qed.

Lemma length_clear_first l : length (clear_first l) = length l.
Proof. induction l as [|[] l IH]; cbn; congruence. Qed.

Lemma client_keeps j p c rc p' c' sent b : client_step j p c rc = Some (p', c', sent, b) ->
  total_count c' = total_count c /\ worker_count c' = worker_count c /\ length (thread_state c') = length (thread_state c) /\
  ((exists id, p' = Notify id) \/ b = true \/ (thread_state c' = thread_state c /\ forall id, p <> Notify id)).
Proof.
  unfold client_step. intros H.
  destruct p as [|t| | | | | | | | | | |]; cbn in H;
    [|destruct (put t c) as [c1 s1] eqn:E; simplify_eq; destruct (put_keeps _ _ _ _ E) as (_ & -> & -> & ->)|..];
    cases; rewrite ?length_clear_first; split_and!; auto; try (right; right; done); left; by eexists.
Qed.

Lemma closer_keeps p c p' c' sent : closer_step p c = Some (p', c', sent) ->
  owner c' = owner c /\ total_count c' = total_count c /\ worker_count c' = worker_count c /\ thread_state c' = thread_state c.
Proof. unfold closer_step. intros H. destruct p; cbn in H; cases. Qed.

Lemma worker_inv n s i p p' c sent : Z.of_nat n < U64 -> inv n s -> workers s !! i = Some p -> worker_step i p (rt s) = Some (p', c, sent) ->
  inv n (mkRuntime c (<[i := p']> (workers s)) (clients s) (closers s) (answers s ++ sent)).
Proof.
  intros Hn I Hp Hs. pose proof (lookup_lt_Some _ _ _ Hp) as Hi.
  assert (i < length (thread_state (rt s)))%nat as Hi' by (rewrite (inv_state _ _ I), <- (inv_workers _ _ I); done).
  assert (p <> Panicked) as Hpp by (intros ->; by apply (inv_running _ _ I i)).
  destruct (worker_takes _ _ _ _ _ _ Hs (inv_inside _ _ I i p Hp)) as [Ht Hin].
  destruct (worker_keeps _ _ _ _ _ _ Hs Hi' Hpp) as (K1 & K2 & K3 & K4 & K5).
  pose proof (dozing_room _ _ _ Hp) as Hr. pose proof (sum_member dozing _ _ _ Hp) as Hm. pose proof (sum_insert dozing _ _ _ p' Hp) as Hu.
  pose proof (inv_count _ _ I) as Hc. rewrite (inv_workers _ _ I) in Hr.
  assert (worker_count c = worker_count (rt s) + Z.of_nat (dozing p) - Z.of_nat (dozing p')) as Hc'.
  { apply (worker_counts _ _ _ _ _ _ Hs Hpp Hi'); intros ->; cbn in *; lia. }
  split; cbn; try congruence.
  - rewrite K1. apply (inv_total _ _ I).
  - rewrite length_insert. apply (inv_workers _ _ I).
  - rewrite K2. apply (inv_state _ _ I).
  - lia.
  - intros i' q. destruct (decide (i' = i)) as [->|Hne].
    + rewrite list_lookup_insert_eq by done. by intros [= <-].
    + rewrite list_lookup_insert_ne by done. intros Hq. rewrite (inv_inside _ _ I i' q Hq). symmetry. eapply takes_other; [exact Ht|congruence].
  - intros j q Hq. rewrite (inv_client _ _ I j q Hq). symmetry. by eapply takes_other.
  - intros th Hth. destruct (decide (th = Worker i)) as [->|Hne]; [by rewrite list_lookup_insert_eq|].
    pose proof (inv_owner _ _ I th (takes_owner _ _ _ _ Ht Hne Hth)) as H. destruct th as [i'| |]; [|done..]. by rewrite list_lookup_insert_ne by congruence.
  - intros i'. destruct (decide (i' = i)) as [->|Hne].
    + rewrite list_lookup_insert_eq by done. intros [= ->]. left. by apply K4.
    + rewrite list_lookup_insert_ne by done. rewrite K5 by done. apply (inv_flag _ _ I).
  - intros i'. destruct (decide (i' = i)) as [->|Hne]; [rewrite list_lookup_insert_eq by done; congruence|].
    rewrite list_lookup_insert_ne by done. apply (inv_running _ _ I).
Qed.

Lemma wake_lookup (b : bool) (ws : list wpc) (i : nat) p : (if b then wake <$> ws else ws) !! i = Some p ->
  exists q, ws !! i = Some q /\ inside p = inside q /\ (p = Panicked -> q = Panicked) /\ (p = Asleep -> b = false /\ q = Asleep).
Proof.
  destruct b; [|intros H; by exists p]. rewrite list_lookup_fmap, fmap_Some. intros (q & Hq & ->). exists q.
  split; [done|]. by destruct q.
Qed.

Lemma client_inv n s j p p' c sent b : inv n s -> clients s !! j = Some p -> client_step j p (rt s) (received s) = Some (p', c, sent, b) ->
  inv n (mkRuntime c (if b then wake <$> workers s else workers s) (<[j := p']> (clients s)) (closers s) (answers s ++ sent)).
Proof.
  intros I Hp Hs. pose proof (lookup_lt_Some _ _ _ Hp) as Hj.
  destruct (client_takes _ _ _ _ _ _ _ _ Hs (inv_client _ _ I j p Hp)) as [Ht Hin].
  destruct (client_keeps _ _ _ _ _ _ _ _ Hs) as (K1 & K2 & K3 & K4). split; cbn.
  - rewrite K1. apply (inv_total _ _ I).
  - destruct b; rewrite ?length_fmap; apply (inv_workers _ _ I).
  - rewrite K3. apply (inv_state _ _ I).
  - rewrite K2, (inv_count _ _ I). do 2 f_equal. destruct b; [|done]. symmetry. apply sum_same. by intros [].
  - intros i q Hq. destruct (wake_lookup _ _ _ _ Hq) as (q0 & Hq0 & -> & _). rewrite (inv_inside _ _ I i q0 Hq0). symmetry. by eapply takes_other.
  - intros j' q. destruct (decide (j' = j)) as [->|Hne].
    + rewrite list_lookup_insert_eq by done. by intros [= <-].
    + rewrite list_lookup_insert_ne by done. intros Hq. rewrite (inv_client _ _ I j' q Hq). symmetry. eapply takes_other; [exact Ht|congruence].
  - intros th Hth. destruct (decide (th = Client j)) as [->|Hne]; [by rewrite list_lookup_insert_eq|].
    pose proof (inv_owner _ _ I th (takes_owner _ _ _ _ Ht Hne Hth)) as H. destruct th as [i'|j'|]; [|by rewrite list_lookup_insert_ne by congruence|done].
    destruct b; [|done]. rewrite list_lookup_fmap. by apply fmap_is_Some.
  - intros i Hi. destruct (wake_lookup _ _ _ _ Hi) as (q & Hq & _ & _ & Ha). destruct (Ha eq_refl) as [-> ->].
    destruct K4 as [[id ->]|[[=]|[Es Hno]]]; [right; exists j, id; by rewrite list_lookup_insert_eq|].
    rewrite Es. destruct (inv_flag _ _ I i Hq) as [?|(j' & id & Hn)]; [by left|right]. exists j', id.
    rewrite list_lookup_insert_ne; [done|]. intros <-. apply (Hno id). congruence.
  - intros i Hi. destruct (wake_lookup _ _ _ _ Hi) as (q & Hq & _ & Hpq & _). rewrite (Hpq eq_refl) in Hq. by apply (inv_running _ _ I i).
Qed.

Lemma step_inv n s s' : Z.of_nat n < U64 -> inv n s -> Step s s' -> inv n s'.
Proof.
  intros Hn I [i p p' c sent Hp Hs|j p p' c sent b Hp Hs|k p p' c sent Hp Hs].
  - by eapply worker_inv.
  - by eapply client_inv.
  - destruct (closer_keeps _ _ _ _ _ Hs) as (K1 & K2 & K3 & K4).
    destruct I. split; cbn; unfold owned; rewrite ?K1, ?K2, ?K3, ?K4; done.
Qed.

Lemma start_inv n ts k : inv n (start n ts k).
Proof.
  split; cbn; rewrite ?length_replicate; try done.
  - rewrite (sum_zero dozing); [lia|]. intros i p [-> _]%lookup_replicate. done.
  - intros i p [-> _]%lookup_replicate. done.
  - intros j p. rewrite list_lookup_fmap, fmap_Some. by intros (t & _ & ->).
  - intros i [[=] _]%lookup_replicate.
  - intros i [[=] _]%lookup_replicate.
Qed.

(** ** The tasks and their answers *)

Definition honest (ts : list IoTask) (x : nat) (a : answer) : Prop :=
  a = Cancel \/ a = Dropped \/ exists t, t ∈ ts /\ cb t = x /\ a = run t.

(** What client [j] is doing is about its own task. *)
Definition about (t : IoTask) (s : list (nat * answer)) (p : cpc) : Prop :=
  match p with
  | Put u | Push u => u = t
  | LenRead id | LenWrite id _ | LenHigh id _ | Active id _ | Count id | WakeLock id | Clear id | Notify id | Await id => id = cb t
  | Returned a => (cb t, a) ∈ s /\ a <> Dropped
  | Failed => True
  end.

Definition from (ts : list IoTask) (c : AsyncContext) : Prop :=
  Forall (.∈ ts) (read_queue c) /\ Forall (.∈ ts) (write_queue c) /\ Forall (.∈ ts) (high_op_queue c).

Record data (ts : list IoTask) (s : Runtime) : Prop := {
  data_queues : from ts (rt s);
  data_run i t k : workers s !! i = Some (Run t k) -> t ∈ ts;
  data_client j p : clients s !! j = Some p -> exists t, ts !! j = Some t /\ about t (answers s) p;
  data_answers x a : (x, a) ∈ answers s -> honest ts x a
}.

Lemma worker_data ts i p c p' c' sent : worker_step i p c = Some (p', c', sent) -> from ts c -> (forall t k, p = Run t k -> t ∈ ts) ->
  from ts c' /\ (forall t k, p' = Run t k -> t ∈ ts) /\ (forall x a, (x, a) ∈ sent -> honest ts x a).
Proof.
  unfold worker_step, unless_empty, from. intros H (F1 & F2 & F3) Hr.
  destruct p as [| | | |[|n]|u k| | | | | | | | | | | |]; cbn in H; cases;
    repeat match goal with E : _ = _ :: _ |- _ => rewrite E in *; clear E | F : Forall _ (_ :: _) |- _ => apply Forall_cons in F as [??] end;
    (split; [split_and!; queues; first [done|apply Forall_nil_2|by apply Forall_cons_2]|split; [intros t' k' E; try (destruct k); by simplify_eq/=|intros x a Hx]]); try by apply not_elem_of_nil in Hx.
  apply list_elem_of_singleton in Hx. simplify_eq. right. right. exists u. split; [by eapply Hr|done].
Qed.

Lemma put_data ts t c c' sent : put t c = (c', sent) -> from ts c -> t ∈ ts -> from ts c' /\ forall x a, (x, a) ∈ sent -> honest ts x a.
Proof.
  unfold put, push, from. intros H (F1 & F2 & F3) Ht.
  cases; (split; [split_and!; first [done|apply Forall_app_2; [done|by apply Forall_singleton]]|intros x a Hx]);
    first [by apply not_elem_of_nil in Hx|apply list_elem_of_singleton in Hx; simplify_eq; right; by left].
Qed.

Lemma received_elem s id a : received s id = Some a -> (id, a) ∈ answers s.
Proof.
  unfold received. rewrite fmap_Some. intros ([x b] & Hf & ->). apply List.find_some in Hf as [Hin Hx].
  cbn in Hx. apply Nat.eqb_eq in Hx as ->. by apply list_elem_of_In.
Qed.

Lemma client_data ts j p s t p' c sent b : client_step j p (rt s) (received s) = Some (p', c, sent, b) ->
  from ts (rt s) -> t ∈ ts -> about t (answers s) p ->
  from ts c /\ about t (answers s ++ sent) p' /\ forall x a, (x, a) ∈ sent -> honest ts x a.
Proof.
  unfold client_step. intros H F Ht Ha. assert (Hnil : forall x a, (x, a) ∈ [] -> honest ts x a) by (intros x a Hx; by apply not_elem_of_nil in Hx).
  destruct p as [u|u| | | | | | | | | | |]; cbn in H, Ha; subst; [| |by cases..| | |].
  - cases. split_and!; try done. intros x a Hx. apply list_elem_of_singleton in Hx. simplify_eq. right. by left.
  - destruct (put t (rt s)) as [c1 s1] eqn:E. simplify_eq. destruct (put_data _ _ _ _ _ E F Ht). done.
  - destruct (received s (cb t)) as [a|] eqn:E; [|done]. apply received_elem in E.
    assert (a <> Dropped -> about t (answers s ++ []) (Returned a)) as Hr by (intros; split; [by rewrite app_nil_r|done]).
    destruct a; simplify_eq; (split; [done|split; [first [done|by apply Hr]|done]]).
  - done.
  - done.
Qed.

Lemma about_app t l l' p : about t l p -> about t (l ++ l') p.
Proof. destruct p; cbn; try done. intros [? ?]. split; [apply elem_of_app; by left|done]. Qed.

Lemma closer_data ts p c p' c' sent : closer_step p c = Some (p', c', sent) -> from ts c ->
  from ts c' /\ forall x a, (x, a) ∈ sent -> honest ts x a.
Proof.
  unfold closer_step, from. intros H (F1 & F2 & F3). destruct p; cbn in H; cases;
    repeat match goal with E : _ = _ :: _ |- _ => rewrite E in *; clear E | F : Forall _ (_ :: _) |- _ => apply Forall_cons in F as [??] end;
    (split; [split_and!; queues; first [done|apply Forall_nil_2]|intros x a Hx]);
    first [by apply not_elem_of_nil in Hx|apply list_elem_of_singleton in Hx; simplify_eq; by left].
Qed.

Lemma step_data ts s s' : data ts s -> Step s s' -> data ts s'.
Proof.
  intros [D1 D2 D3 D4] [i p p' c sent Hp Hs|j p p' c sent b Hp Hs|k p p' c sent Hp Hs].
  - destruct (worker_data ts _ _ _ _ _ _ Hs D1) as (E1 & E2 & E3); [intros t k ->; by eapply D2|]. split; cbn; [done|..].
    + intros i' t k. rewrite list_lookup_insert_Some. intros [(_ & -> & _)|[_ H]]; [by eapply E2|by eapply D2].
    + intros j q Hq. destruct (D3 j q Hq) as (t & Ht & Ha). exists t. split; [done|by apply about_app].
    + intros x a [?|?]%elem_of_app; auto.
  - destruct (D3 j p Hp) as (t & Ht & Ha). destruct (client_data ts j p s t _ _ _ _ Hs D1 (list_elem_of_lookup_2 _ _ _ Ht) Ha) as (E1 & E2 & E3).
    split; cbn; [done|..].
    + intros i u k. destruct b; [|apply D2]. rewrite list_lookup_fmap, fmap_Some. intros (q & Hq & Eq). destruct q; simplify_eq/=. by eapply D2.
    + intros j' q. rewrite list_lookup_insert_Some. intros [(<- & <- & _)|[_ H]]; [by exists t|].
      destruct (D3 j' q H) as (u & Hu & Hau). exists u. split; [done|by apply about_app].
    + intros x a [?|?]%elem_of_app; auto.
  - destruct (closer_data ts _ _ _ _ _ Hs D1) as (E1 & E3). split; cbn; [done|done|..].
    + intros j q Hq. destruct (D3 j q Hq) as (t & Ht & Ha). exists t. split; [done|by apply about_app].
    + intros x a [?|?]%elem_of_app; auto.
Qed.

Lemma start_data n ts k : data ts (start n ts k).
Proof.
  split; cbn; [by split_and!|intros i t a [[=] _]%lookup_replicate| |intros x a Hx; by apply not_elem_of_nil in Hx].
  intros j p. rewrite list_lookup_fmap, fmap_Some. intros (t & Ht & ->). by exists t.
Qed.

(** ** Deadlock *)

Definition stuck (s : Runtime) : Prop := forall th, step s th = None.

Lemma queued_elem x t ts : t ∈ ts -> cb t = x -> (0 < queued x ts)%nat.
Proof.
  intros [i Hi]%list_elem_of_lookup <-. pose proof (sum_member (fun u => one (cb t) (cb u)) ts i t Hi) as H.
  unfold one in H at 1. rewrite Nat.eqb_refl in H. unfold queued. lia.
Qed.

Lemma stuck_worker s i p : stuck s -> workers s !! i = Some p -> worker_step i p (rt s) = None.
Proof.
  intros H Hp. specialize (H (Worker i)). cbn in H. rewrite Hp in H. cbn in H.
  by destruct (worker_step i p (rt s)) as [[[? ?] ?]|].
Qed.

Lemma stuck_client s j p : stuck s -> clients s !! j = Some p -> client_step j p (rt s) (received s) = None.
Proof.
  intros H Hp. specialize (H (Client j)). cbn in H. rewrite Hp in H. cbn in H.
  by destruct (client_step j p (rt s) (received s)) as [[[[? ?] ?] ?]|].
Qed.

(** Who holds the mutex can go on. *)
Lemma stuck_free n s : inv n s -> stuck s -> owner (rt s) = None.
Proof.
  intros I H. destruct (owner (rt s)) as [th|] eqn:Ho; [|done]. pose proof (inv_owner _ _ I th Ho) as Hth.
  destruct th as [i|j|k]; [destruct Hth as [p Hp]..|done].
  - pose proof (inv_inside _ _ I i p Hp) as Hi. unfold owned in Hi. rewrite bool_decide_eq_true_2 in Hi by done.
    pose proof (stuck_worker s i p H Hp) as Hs. by destruct p.
  - pose proof (inv_client _ _ I j p Hp) as Hi. unfold owned in Hi. rewrite bool_decide_eq_true_2 in Hi by done.
    pose proof (stuck_client s j p H Hp) as Hs. by destruct p.
Qed.

Lemma stuck_workers n s i p : inv n s -> stuck s -> workers s !! i = Some p -> p = Asleep \/ p = Exit.
Proof.
  intros I H Hp. pose proof (stuck_free n s I H) as Ho. pose proof (stuck_worker s i p H Hp) as Hs. unfold worker_step in Hs. rewrite Ho in Hs.
  destruct p as [| | | |[|m]|t k| | | | | | | | | | | |]; try done; [by left|by right|]. by destruct (inv_running _ _ I i).
Qed.

Lemma stuck_clients n s j p : inv n s -> stuck s -> clients s !! j = Some p ->
  (exists a, p = Returned a) \/ p = Failed \/ exists id, p = Await id /\ received s id = None.
Proof.
  intros I H Hp. pose proof (stuck_free n s I H) as Ho. pose proof (stuck_client s j p H Hp) as Hs. unfold client_step in Hs. rewrite Ho in Hs.
  destruct p as [u|u| | | | | | | | |id|a|]; try done; [by destruct (closed _)|by destruct (put _ _)| |left; by eexists|by right; left].
  right. right. exists id. split; [done|]. by destruct (received s id) as [[]|].
Qed.

Lemma unanswered s id : received s id = None -> answered id (answers s) = 0%nat.
Proof.
  unfold received. intros H. apply fmap_None in H. apply sum_zero. intros i [x a] Hi. cbn. unfold one.
  apply list_elem_of_lookup_2, list_elem_of_In in Hi. pose proof (List.find_none _ _ H _ Hi) as Hx. cbn in Hx. by rewrite Nat.eqb_sym, Hx.
Qed.

(** Every execution keeps the invariants. *)
Lemma reach n ts k sched s : Z.of_nat n < U64 -> steps (start n ts k) sched = Some s ->
  inv n s /\ data ts s /\ forall x, places x s = queued x ts.
Proof.
  intros Hn. apply (steps_ind (fun s => inv n s /\ data ts s /\ forall x, places x s = queued x ts)).
  - intros s1 s2 (I & D & P) H. split_and!; [by eapply step_inv|by eapply step_data|]. intros x. by rewrite (step_places x _ _ H).
  - split_and!; [apply start_inv|apply start_data|]. intros x. apply start_places.
Qed.

(** C9. No task is lost and none is answered twice.  In every execution of any number of
    workers, clients and closing threads, each task is in exactly one place (with
    its client, in a queue, with one worker, or answered once); every answer but a
    cancellation is the result of running the task it belongs to, and that is what
    the client returns. *)
Theorem tasks_conserved n ts k sched s :
  Z.of_nat n < U64 -> NoDup (cb <$> ts) -> steps (start n ts k) sched = Some s ->
  (forall t, t ∈ ts -> places (cb t) s = 1%nat) /\
  (forall x a, (x, a) ∈ answers s -> honest ts x a) /\
  (forall j a, clients s !! j = Some (Returned a) -> exists t, ts !! j = Some t /\ (a = Cancel \/ a = run t)).
Proof.
  intros Hn Hd H. destruct (reach _ _ _ _ _ Hn H) as (I & D & P). split_and!.
  - intros t Ht. rewrite P. clear -Hd Ht. induction ts as [|u ts IH]; [by apply not_elem_of_nil in Ht|].
    rewrite fmap_cons in Hd. apply NoDup_cons in Hd as [Hu Hd]. unfold queued. cbn. fold (queued (cb t) ts). unfold one.
    apply elem_of_cons in Ht as [->|Ht].
    + rewrite Nat.eqb_refl. replace (queued (cb u) ts) with 0%nat; [done|]. symmetry. apply sum_zero. intros i v Hv. unfold one.
      destruct (Nat.eqb_spec (cb u) (cb v)) as [E|]; [|done]. destruct Hu. rewrite E. apply list_elem_of_fmap_2. by eapply list_elem_of_lookup_2.
    + rewrite IH by done. destruct (Nat.eqb_spec (cb t) (cb u)) as [E|]; [|done]. destruct Hu. rewrite <- E. by apply list_elem_of_fmap_2.
  - apply (data_answers _ _ D).
  - intros j a Hj. destruct (data_client _ _ D j _ Hj) as (t & Ht & Ha & Hne). exists t. split; [done|].
    destruct (data_answers _ _ D _ _ Ha) as [->|[->|(u & Hu & Ec & ->)]]; [by left|done|right].
    apply list_elem_of_lookup in Hu as [i Hi].
    assert (i = j) as ->; [|congruence]. eapply (NoDup_lookup _ i j (cb t) Hd); rewrite list_lookup_fmap; [rewrite Hi|rewrite Ht]; cbn; congruence.
Qed.

(** C39. In every execution the number of active workers is exact (the threads of the pool
    but for those that sleep, are about to, or have not yet counted themselves in
    again), so that it neither underflows nor exceeds the pool; the mutex has one
    holder, no thread of the pool panics, and a sleeping thread has its flag set or
    is about to be notified. *)
Theorem worker_count_exact n ts k sched s :
  Z.of_nat n < U64 -> steps (start n ts k) sched = Some s ->
  worker_count (rt s) = Z.of_nat n - Z.of_nat (sum_list_with dozing (workers s)) /\ 0 <= worker_count (rt s) <= Z.of_nat n /\
  (forall i p, workers s !! i = Some p -> p <> Panicked /\ inside p = owned (rt s) (Worker i)) /\
  (forall j p, clients s !! j = Some p -> client_inside p = owned (rt s) (Client j)) /\
  (forall i, workers s !! i = Some Asleep -> thread_state (rt s) !! i = Some true \/ exists j id, clients s !! j = Some (Notify id)).
Proof.
  intros Hn H. destruct (reach _ _ _ _ _ Hn H) as (I & _ & _). pose proof (inv_count _ _ I) as Hc. split_and!; try done.
  - rewrite Hc, <- (inv_workers _ _ I). pose proof (dozing_le (workers s)). lia.
  - lia.
  - intros i p Hp. split; [|by apply (inv_inside _ _ I)]. intros ->. by apply (inv_running _ _ I i).
  - apply (inv_client _ _ I).
  - apply (inv_flag _ _ I).
Qed.

(** C38. The runtime stops in one way only: when no thread can go on, nobody holds the
    mutex, every thread of the pool sleeps or has left, every closing thread is
    done, and a client that still waits has its task in a queue. *)
Theorem stuck_runtime n ts k sched s :
  Z.of_nat n < U64 -> steps (start n ts k) sched = Some s -> stuck s ->
  owner (rt s) = None /\
  (forall i p, workers s !! i = Some p -> (p = Asleep /\ thread_state (rt s) !! i = Some true) \/ p = Exit) /\
  (forall i p, closers s !! i = Some p -> p = Closed) /\
  (forall j p, clients s !! j = Some p ->
    (exists a, p = Returned a) \/ p = Failed \/ exists t, ts !! j = Some t /\ p = Await (cb t) /\ (0 < waiting (cb t) (rt s))%nat).
Proof.
  intros Hn H Hs. destruct (reach _ _ _ _ _ Hn H) as (I & D & P). split_and!; [by eapply stuck_free|..].
  - intros i p Hp. destruct (stuck_workers _ _ _ _ I Hs Hp) as [->| ->]; [left|by right]. split; [done|].
    destruct (inv_flag _ _ I i Hp) as [?|(j & id & Hj)]; [done|]. pose proof (stuck_client s j _ Hs Hj). done.
  - intros i p Hp. specialize (Hs (Closer i)). cbn in Hs. rewrite Hp in Hs. cbn in Hs. unfold closer_step in Hs. destruct p; by cases.
  - intros j p Hp. destruct (stuck_clients _ _ _ _ I Hs Hp) as [?|[?|(id & -> & Hr)]]; [by left|by right; left|right; right].
    destruct (data_client _ _ D j _ Hp) as (t & Ht & Hid). cbn in Hid. subst id. exists t. split_and!; [done|done|].
    pose proof (P (cb t)) as Hp'. pose proof (queued_elem (cb t) t ts (list_elem_of_lookup_2 _ _ _ Ht) eq_refl).
    unfold places in Hp'. rewrite (unanswered _ _ Hr) in Hp'.
    rewrite (sum_zero (pending (cb t))), (sum_zero (running (cb t))) in Hp'; [lia|..].
    + intros i p Hi. by destruct (stuck_workers _ _ _ _ I Hs Hi) as [->| ->].
    + intros i p Hi. by destruct (stuck_clients _ _ _ _ I Hs Hi) as [[a ->]|[->|(id & -> & _)]].
Qed.

End facts.

(** *** Examples *)
Module example.

Definition moved (t : IoTask) : option Z := Some (size t).
Definition t0 : IoTask := make_io_task FrontWrite 7 0 0 10.
Definition t1 : IoTask := make_io_task BackRead 9 0 0 11.

(** Two threads; a write is run and answered while a read waits in its queue. *)
Definition sched : list thread :=
  replicate 6 (Client 0) ++ [Worker 1; Worker 1] ++ replicate 2 (Client 1) ++ [Worker 1; Client 0; Worker 0].
(** The only thread checks the queues before the client puts its task, and sleeps after it. *)
Definition late : list thread := replicate 59 (Worker 0) ++ replicate 6 (Client 0) ++ replicate 3 (Worker 0).

Lemma tasks_conserved_witness : exists s, steps moved moved (start 2 [t0; t1] 1) sched = Some s /\
  clients s !! 0%nat = Some (Returned (Io (Some 7))) /\ places 10 s = 1%nat /\ places 11 s = 1%nat.
Proof.
  assert (forall s, steps moved moved (start 2 [t0; t1] 1) sched = Some s -> places 10 s = 1%nat /\ places 11 s = 1%nat) as H.
  { intros s Hs. assert (NoDup (cb <$> [t0; t1])) as Hd by (apply (bool_decide_unpack _); vm_compute; exact I).
    destruct (tasks_conserved moved moved 2 [t0; t1] 1 sched s eq_refl Hd Hs) as (Hp & _ & _). clear Hs.
    split; [apply (Hp t0), list_elem_of_here|apply (Hp t1), list_elem_of_further, list_elem_of_here]. }
  eexists. split; [vm_compute; reflexivity|]. split; [reflexivity|]. apply H. vm_compute. reflexivity.
Defined.

Lemma worker_count_exact_witness : exists s, steps moved moved (start 1 [t0] 0) late = Some s /\ 0 <= worker_count (rt s) <= 1.
Proof.
  assert (forall s, steps moved moved (start 1 [t0] 0) late = Some s -> 0 <= worker_count (rt s) <= 1) as H.
  { intros s Hs. destruct (worker_count_exact moved moved 1 [t0] 0 late s eq_refl Hs) as (_ & Hc & _). exact Hc. }
  eexists. split; [vm_compute; reflexivity|]. apply H. vm_compute. reflexivity.
Defined.

(** Where it leads to. *)
Definition stranded : Runtime := default (start 1 [t0] 0) (steps moved moved (start 1 [t0] 0) late).

Lemma stuck_runtime_witness : stuck moved moved stranded /\ owner (rt stranded) = None.
Proof.
  assert (stuck moved moved stranded) as Hst by (intros [[|i]|[|j]|k]; vm_compute; reflexivity).
  destruct (stuck_runtime moved moved 1 [t0] 0 late stranded eq_refl ltac:(vm_compute; reflexivity) Hst) as (Ho & _).
  exact (conj Hst Ho).
Defined.

End example.
End runtime_facts.
