(* ===== verification/AsyncWakeup.v ===== *)
(** * Waking up the IO threads

    When the pool sleeps, a task that is put into the runtime is answered, whatever
    the interleaving; when a thread is on its way to sleep, the wake-up can be lost
    and the task waits for ever.  The other ways in which a task is not run: a full
    queue and a task put while the runtime closes. *)
From S2P Require Import Prelude AsyncRt.

Module wakeup_facts.
Import async_rt runtime_facts.

Section wakeup.
Context (read_at write_at : IoTask -> option Z).
Notation step := (step read_at write_at).
Notation steps := (steps read_at write_at).
Notation worker_step := (worker_step read_at write_at).
Notation run := (run read_at write_at).
Notation stuck := (stuck read_at write_at).

Definition leads (s s' : Runtime) : Prop := exists sched, steps s sched = Some s'.

Lemma steps_app s a b : steps s (a ++ b) = (s' ← steps s a; steps s' b).
Proof. revert s. induction a as [|th a IH]; intros s; cbn; [done|]. destruct (step s th); cbn; [apply IH|done]. Qed.

Lemma leads_trans s1 s2 s3 : leads s1 s2 -> leads s2 s3 -> leads s1 s3.
Proof. intros [a Ha] [b Hb]. exists (a ++ b). rewrite steps_app, Ha. done. Qed.

(** *** One worker alone *)

Fixpoint solo (k i : nat) (p : wpc) (c : AsyncContext) : option (wpc * AsyncContext) :=
  match k with
  | O => Some (p, c)
  | S k => '(p, c, sent) ← worker_step i p c; match sent with [] => solo k i p c | _ => None end
  end.

Lemma solo_leads k i p c p' c' ws cs ks l : solo k i p c = Some (p', c') -> ws !! i = Some p ->
  leads (mkRuntime c ws cs ks l) (mkRuntime c' (<[i := p']> ws) cs ks l).
Proof.
  intros H Hw. exists (replicate k (Worker i)). revert p c ws H Hw. induction k as [|k IH]; intros p c ws H Hw; cbn in *.
  - simplify_eq. by rewrite list_insert_id.
  - rewrite Hw. cbn. destruct (worker_step i p c) as [[[p1 c1] [|]]|] eqn:E; cbn in *; try done. rewrite app_nil_r.
    rewrite (IH p1 c1 (<[i := p1]> ws)); [by rewrite list_insert_insert_eq|done|]. apply list_lookup_insert_eq. by eapply lookup_lt_Some.
Qed.

(** With nothing to do a worker takes the mutex, finds the queues empty, and sleeps. *)
Lemma solo_check i cnt n st :
  solo 59 i Top (mkAsyncContext [] [] [] cnt n st None false) = Some (Mark, mkAsyncContext [] [] [] cnt n st (Some (Worker i)) false).
Proof. reflexivity. Qed.

Lemma solo_sleep i r w h cnt n st b : st !! i = Some b ->
  solo 3 i Mark (mkAsyncContext r w h cnt n st (Some (Worker i)) false) =
  Some (Asleep, mkAsyncContext r w h (u64 (cnt - 1)) n (<[i := true]> st) None false).
Proof.
  intros Hb. cbn -[u64]. rewrite Hb. cbn -[u64]. rewrite list_lookup_insert_eq by by eapply lookup_lt_Some. done.
Qed.

(** [m] threads sleep and [r] are active. *)
Definition dozed (m r : nat) (cs : list cpc) : Runtime :=
  mkRuntime (mkAsyncContext [] [] [] (Z.of_nat r) (m + r) (replicate m true ++ replicate r false) None false)
    (replicate m Asleep ++ replicate r Top) cs [] [].

Lemma insert_middle {A} m r (a b : A) : <[m := a]> (replicate m a ++ b :: replicate r b) = replicate (S m) a ++ replicate r b.
Proof.
  rewrite insert_app_r_alt by (by rewrite length_replicate). rewrite length_replicate, Nat.sub_diag. cbn [insert list_insert].
  by rewrite (replicate_S_end m), <- app_assoc.
Qed.

Lemma lookup_middle {A} m r (a b : A) : (replicate m a ++ b :: replicate r b) !! m = Some b.
Proof. rewrite lookup_app_r by (by rewrite length_replicate). by rewrite length_replicate, Nat.sub_diag. Qed.

Lemma dozed_next m r cs : Z.of_nat (S r) < U64 -> leads (dozed m (S r) cs) (dozed (S m) r cs).
Proof.
  intros Hr. unfold dozed. cbn [replicate]. eapply leads_trans; [eapply (solo_leads 59 m); [apply solo_check|apply lookup_middle]|].
  eapply leads_trans; [eapply (solo_leads 3 m); [by apply (solo_sleep m _ _ _ _ _ _ false), lookup_middle|]|].
  { apply list_lookup_insert_eq. rewrite length_app, length_replicate. cbn. lia. }
  rewrite list_insert_insert_eq. cbn -[u64]. rewrite !insert_middle, u64_id by (unfold is_u64; lia). exists [].
  cbn -[u64]. repeat f_equal; lia.
Qed.

Lemma dozed_more m r q cs : Z.of_nat (r + q) < U64 -> leads (dozed m (r + q) cs) (dozed (m + r) q cs).
Proof.
  revert m. induction r as [|r IH]; intros m Hr.
  { rewrite Nat.add_0_r. by exists []. }
  eapply leads_trans; [by apply dozed_next|]. replace (m + S r)%nat with (S m + r)%nat by lia. apply IH. lia.
Qed.

(** *** The lost wake-up *)

(** The queues with [t] in its queue. *)
Definition holding (t : IoTask) (c : AsyncContext) : Prop :=
  if is_pri_high t then high_op_queue c = [t] /\ read_queue c = [] /\ write_queue c = []
  else match task_type t with
  | BackRead => read_queue c = [t] /\ high_op_queue c = [] /\ write_queue c = []
  | _ => write_queue c = [t] /\ high_op_queue c = [] /\ read_queue c = []
  end.

Lemma put_empty t cnt n st o cl :
  exists r w h, put t (mkAsyncContext [] [] [] cnt n st o cl) = (mkAsyncContext r w h cnt n st o cl, []) /\
    (length r + length w + length h = 1)%nat /\ forall cnt n st o, holding t (mkAsyncContext r w h cnt n st o cl).
Proof.
  unfold put, holding. destruct (is_pri_high t) eqn:Hp.
  { by exists [], [], [t]. }
  unfold is_pri_high in Hp. destruct (task_type t); try discriminate Hp; [by exists [t], [], []|by exists [], [t], []].
Qed.

(** A client that reads the counters while one thread is counted as active does not
    wake anybody. *)
Lemma client_alone t n st o ws : exists r w h,
  leads (mkRuntime (mkAsyncContext [] [] [] 1 n st o false) ws [Put t] [] []) (mkRuntime (mkAsyncContext r w h 1 n st o false) ws [Await (cb t)] [] []) /\
  forall cnt n st o, holding t (mkAsyncContext r w h cnt n st o false).
Proof.
  destruct (put_empty t 1 n st o false) as (r & w & h & Hput & Hl & Hh). exists r, w, h. split; [|done].
  exists (replicate 6 (Client 0)). cbn -[put need_wakeup]. rewrite Hput. cbn -[need_wakeup].
  replace (length r + length w + length h)%nat with 1%nat by lia. done.
Qed.

(** C11. A wake-up can be lost: for every number of threads and every task there is an
    execution after which the task is in its queue, its client waits for the answer,
    and all threads sleep with nobody left to wake them.  The last thread has seen
    the queues empty and not yet counted itself out when the client puts its task
    and finds a thread active. *)
Theorem wakeup_lost n t : (0 < n)%nat -> Z.of_nat n < U64 ->
  exists sched s, steps (start n [t] 0) sched = Some s /\ stuck s /\
    workers s = replicate n Asleep /\ clients s = [Await (cb t)] /\ holding t (rt s) /\ answers s = [].
Proof.
  intros H0 Hn. destruct n as [|m]; [lia|].
  assert (leads (start (S m) [t] 0) (dozed m 1 [Put t])) as H1.
  { change (start (S m) [t] 0) with (dozed 0 (S m) [Put t]). rewrite <- (Nat.add_1_r m). apply (dozed_more 0 m 1). lia. }
  set (st := replicate m true ++ [false]). set (ws := replicate m Asleep ++ [Top]).
  assert (st !! m = Some false) as Hst by apply (lookup_middle m 0). assert (ws !! m = Some Top) as Hws by apply (lookup_middle m 0).
  destruct (client_alone t (m + 1) st (Some (Worker m)) (<[m := Mark]> ws)) as (r & w & h & H2 & Hh).
  assert (exists s, leads (start (S m) [t] 0) s /\ s = mkRuntime (mkAsyncContext r w h (u64 (1 - 1)) (m + 1) (<[m := true]> st) None false)
    (replicate (S m) Asleep) [Await (cb t)] [] []) as (s & [sched Hs] & ->).
  { eexists. split; [|done]. eapply leads_trans; [exact H1|].
    eapply leads_trans; [eapply (solo_leads 59 m); [apply solo_check|exact Hws]|]. eapply leads_trans; [exact H2|].
    assert (replicate (S m) Asleep = <[m := Asleep]> (<[m := Mark]> ws)) as ->.
    { rewrite list_insert_insert_eq. unfold ws. change [Top] with (Top :: replicate 0 Top). by rewrite insert_middle, app_nil_r. }
    eapply (solo_leads 3 m); [by apply (solo_sleep m _ _ _ _ _ _ false)|]. apply list_lookup_insert_eq. by eapply lookup_lt_Some. }
  eexists sched, _. split; [exact Hs|]. split; [|split; [done|split; [done|split; [apply Hh|done]]]]. intros [i|[|j]|k]; try done. cbn -[replicate].
  destruct (replicate (S m) Asleep !! i) as [p|] eqn:Hi; [|done]. apply lookup_replicate in Hi as [-> _]. done.
Qed.

(** *** A sleeping pool *)

Definition emptied (c : AsyncContext) : Prop := read_queue c = [] /\ write_queue c = [] /\ high_op_queue c = [].

(** The other threads wake up, find their flag set, and sleep again. *)
Definition resting (p : wpc) : Prop := match p with Asleep | Relock | Loop => True | _ => False end.

(** The first thread is on its way to the queue of [t]. *)
Definition fetches (t : IoTask) (w : wpc) : Prop :=
  match w with
  | Relock | Loop | Add | Top | High => True
  | Read => is_pri_high t = false
  | Write => is_pri_high t = false /\ task_type t <> BackRead
  | _ => False
  end.

Definition settled (f : bool) (w : wpc) : Prop :=
  match w with Run _ _ | Exit | Panicked => False | Sub => f = true | _ => True end.

(** Where the client [p] and the first thread [w] with its flag [f] are. *)
Definition stage (t : IoTask) (c : AsyncContext) (f : bool) (w : wpc) (l : list (nat * answer)) (p : cpc) : Prop :=
  match p with
  | Put u | Push u => u = t /\ emptied c /\ w = Asleep /\ f = true /\ worker_count c = 0 /\ l = []
  | LenRead id | LenWrite id _ | LenHigh id _ | Active id _ | Count id | WakeLock id | Clear id =>
      id = cb t /\ holding t c /\ w = Asleep /\ f = true /\ worker_count c = 0 /\ l = []
  | Notify id => id = cb t /\ holding t c /\ w = Asleep /\ f = false /\ l = []
  | Await id => id = cb t /\
      ((holding t c /\ f = false /\ fetches t w /\ l = []) \/
       (emptied c /\ (exists k, w = Run t k) /\ l = []) \/
       (emptied c /\ settled f w /\ l = [(cb t, run t)]))
  | Returned a => a = run t /\ emptied c /\ settled f w /\ l = [(cb t, run t)]
  | Failed => False
  end.

(** How many steps are left at most. *)
Definition worker_left (f high : bool) (p : wpc) : nat :=
  match p with
  | Relock => if f then 2 else 200 | Loop => if f then 1 else 199 | Add => 198 | Top => 197
  | High => if high then 196 else 194 | Run _ ToHigh => 195 | Read => 193 | Run _ ToWrite => 192 | Write => 191 | Run _ ToSpin => 190
  | Run _ ToTop => 198 | Spin n => 60 + n | Lock => 59 | CheckHigh => 6 | CheckRead => 5 | CheckWrite => 4 | Mark => 3 | Sub => 2
  | Asleep | Exit | Panicked => 0
  end.
Definition client_left (m : nat) (p : cpc) : nat :=
  match p with
  | Put _ => 11 + m | Push _ => 10 + m | LenRead _ => 9 + m | LenWrite _ _ => 8 + m | LenHigh _ _ => 7 + m | Active _ _ => 6 + m
  | Count _ => 5 + m | WakeLock _ => 4 + m | Clear _ => 3 + m | Notify _ => 2 + m | Await _ => 1 | Returned _ | Failed => 0
  end.

Definition busy (c : AsyncContext) : bool := match high_op_queue c with [] => false | _ => true end.
Definition rest_left (rest : list wpc) : nat := sum_list_with (worker_left true false) rest.

(** At most [left] steps are left. *)
Definition phase (t : IoTask) (left : nat) (s : Runtime) : Prop :=
  exists p w rest f frest,
    clients s = [p] /\ closers s = [] /\ workers s = w :: rest /\ thread_state (rt s) = f :: frest /\
    closed (rt s) = false /\ (0 < total_count (rt s))%nat /\ length frest = length rest /\
    Forall resting rest /\ Forall (eq true) frest /\ stage t (rt s) f w (answers s) p /\
    (client_left (200 + 2 * length rest) p + worker_left f (busy (rt s)) w + rest_left rest <= left)%nat.

(** What a step of the first thread does in each part of the stage. *)
Definition keeps (c c' : AsyncContext) : Prop := closed c' = closed c /\ total_count c' = total_count c.

Lemma settled_step c f frest w w' c' sent : emptied c -> settled f w -> closed c = false -> thread_state c = f :: frest ->
  worker_step 0 w c = Some (w', c', sent) ->
  exists f', sent = [] /\ emptied c' /\ settled f' w' /\ thread_state c' = f' :: frest /\ keeps c c' /\
    (worker_left f' (busy c') w' < worker_left f (busy c) w)%nat.
Proof.
  destruct c as [r q h cnt n st o cl]. unfold emptied, keeps, busy. cbn. intros (-> & -> & ->) Hw -> -> H.
  destruct w as [| | | |[|k]|u k| | | | | | | | | | | |]; cbn in H, Hw; try done; try (destruct o as [o|]; [discriminate H|]); try destruct f; simplify_eq/=;
    first [exists true; split_and!; (done || lia)|exists false; split_and!; (done || lia)].
Qed.

Lemma fetch_step t c frest w w' c' sent : holding t c -> fetches t w -> closed c = false -> thread_state c = false :: frest ->
  worker_step 0 w c = Some (w', c', sent) ->
  sent = [] /\ thread_state c' = false :: frest /\ keeps c c' /\
  (holding t c' /\ fetches t w' \/ emptied c' /\ exists k, w' = Run t k) /\
  (worker_left false (busy c') w' < worker_left false (busy c) w)%nat.
Proof.
  destruct c as [r q h cnt n st o cl]. unfold holding, emptied, keeps, busy. cbn. intros Hh Hw -> -> H.
  destruct w as [| | | |[|k]|u k| | | | | | | | | | | |]; cbn in H, Hw; try done; try (destruct o as [o|]; [discriminate H|]); simplify_eq/=.
  - destruct h; split_and!; try done; try lia; by left.
  - destruct (is_pri_high t) eqn:Hp; [destruct Hh as (-> & -> & ->)|].
    + simplify_eq/=. split_and!; try done; [|lia]. right. split; [by split_and!|by eexists].
    + assert (h = []) as -> by (destruct (task_type t); by destruct Hh as (_ & -> & _)). simplify_eq/=. split_and!; try done; [by left|lia].
  - rewrite Hw in Hh. destruct (task_type t) eqn:Ht; destruct Hh as (-> & -> & ->); simplify_eq/=; split_and!; try done; try lia;
      first [right; split; [by split_and!|by eexists]|left; rewrite Hw, Ht; done].
  - destruct Hw as [Hp Ht]. rewrite Hp in Hh. destruct (task_type t); try done; destruct Hh as (-> & -> & ->); simplify_eq/=; split_and!; try done; try lia;
      right; (split; [by split_and!|by eexists]).
  - split_and!; try done; [by left|lia].
  - split_and!; try done; [by left|lia].
  - split_and!; try done; [by left|lia].
Qed.

Lemma rest_step i c p p' c' sent : resting p -> thread_state c !! i = Some true -> worker_step i p c = Some (p', c', sent) ->
  resting p' /\ sent = [] /\ c' = with_owner (owner c') c /\ (worker_left true false p' < worker_left true false p)%nat.
Proof.
  destruct c as [r q h cnt n st o cl]. cbn. intros Hp Hf H. destruct p; cbn in H, Hp; try done; try rewrite Hf in H; try destruct o; simplify_eq/=; split_and!; (done || lia).
Qed.

Lemma received_none s id : answers s = [] -> received s id = None.
Proof. unfold received. by intros ->. Qed.

Lemma received_run s t : answers s = [(cb t, run t)] -> received s (cb t) = Some (run t).
Proof. unfold received. intros ->. cbn. by rewrite Nat.eqb_refl. Qed.

Lemma put_holding t c : emptied c -> closed c = false ->
  exists c', put t c = (c', []) /\ holding t c' /\ thread_state c' = thread_state c /\ keeps c c' /\ worker_count c' = worker_count c.
Proof.
  destruct c as [r q h cnt n st o cl]. unfold emptied. cbn. intros (-> & -> & ->) ->.
  destruct (put_empty t cnt n st o false) as (r & w & h & -> & _ & Hh). eexists. split; [done|]. split; [apply Hh|done].
Qed.

(** A step that only moves the program counter. *)
Ltac same := simplify_eq; split; [done|]; split; [done|]; eexists; split_and!; try done; cbn; lia.

Lemma client_stage t s f frest w p p' c' sent b m :
  stage t (rt s) f w (answers s) p -> closed (rt s) = false -> (0 < total_count (rt s))%nat -> thread_state (rt s) = f :: frest ->
  client_step 0 p (rt s) (received s) = Some (p', c', sent, b) ->
  sent = [] /\ keeps (rt s) c' /\ exists f', thread_state c' = f' :: frest /\
  stage t c' f' (if b then wake w else w) (answers s) p' /\
  (if b then (client_left m p' + m < client_left m p)%nat /\ w = Asleep
   else (client_left m p' + worker_left f' (busy c') w < client_left m p + worker_left f (busy (rt s)) w)%nat).
Proof.
  intros Hs Hcl Ht Hst H. unfold client_step in H.
  destruct p as [u|u|id|id sum|id sum|id sum|id|id|id|id|id|a|]; cbn in Hs, H.
  - destruct Hs as (-> & Hs). rewrite Hcl in H. same.
  - destruct Hs as (-> & He & -> & -> & Hc & Hl). destruct (put_holding t (rt s) He Hcl) as (c1 & Hp & Hh & Hst' & Hk & Hc').
    rewrite Hp in H. simplify_eq. split; [done|]. split; [done|]. exists true. rewrite Hst', Hst. split; [done|]. split; [cbn; rewrite Hc'; done|cbn; lia].
  - same.
  - same.
  - same.
  - destruct Hs as (? & ? & ? & ? & Hc & ?). rewrite Hc in H. cbn in H. same.
  - destruct Hs as (? & ? & ? & ? & Hc & ?). rewrite Hc, (proj2 (Z.leb_gt _ _)) in H by lia. same.
  - destruct (owner (rt s)); [done|]. destruct Hs as (-> & Hh & -> & -> & Hc & Hl). simplify_eq. split; [done|]. split; [done|].
    exists true. split; [done|]. split; [by split_and!|cbn; lia].
  - destruct Hs as (-> & Hh & -> & -> & Hc & Hl). simplify_eq. split; [done|]. split; [done|]. exists false. cbn. rewrite Hst. split_and!; try done; lia.
  - destruct Hs as (-> & Hh & -> & -> & Hl). simplify_eq. split; [done|]. split; [done|]. exists false. split; [done|]. split; [|cbn; split; [lia|done]].
    split; [done|]. left. by split_and!.
  - destruct Hs as [-> [(_ & _ & _ & Hl)|[(_ & _ & Hl)|(He & Hw & Hl)]]]; [rewrite received_none in H by done; done..|].
    rewrite received_run in H by done. assert (run t <> Dropped) as Hd by (unfold async_rt.run; by destruct (task_type t)).
    destruct (run t) as [r| |] eqn:Er; simplify_eq; (split; [done|]; split; [done|]; exists f; split; [done|]; split; [cbn; by rewrite Er|cbn; lia]).
  - done.
  - done.
Qed.

Lemma first_step t c f frest w l p w' c' sent :
  stage t c f w l p -> closed c = false -> thread_state c = f :: frest -> worker_step 0 w c = Some (w', c', sent) ->
  exists f', thread_state c' = f' :: frest /\ keeps c c' /\ stage t c' f' w' (l ++ sent) p /\
    (worker_left f' (busy c') w' < worker_left f (busy c) w)%nat.
Proof.
  intros Hs Hcl Hst H.
  destruct p as [u|u|id|id sum|id sum|id sum|id|id|id|id|id|a|]; cbn in Hs; try (destruct Hs as (_ & _ & -> & _); done).
  - destruct Hs as [-> [(Hh & -> & Hw & ->)|[(He & [k ->] & ->)|(He & Hw & ->)]]].
    + destruct (fetch_step _ _ _ _ _ _ _ Hh Hw Hcl Hst H) as (-> & Hst' & Hk & Hor & Hl). exists false. split_and!; try done. cbn.
      split; [done|]. destruct Hor as [[? ?]|[? ?]]; [by left|by right; left].
    + cbn in H. simplify_eq. exists f. split_and!; try done; [|destruct He as (_ & _ & Hq); unfold busy; rewrite Hq; destruct k; cbn; lia].
      split; [done|]. right. right. split_and!; try apply He; [by destruct k|done].
    + destruct (settled_step _ _ _ _ _ _ _ He Hw Hcl Hst H) as (f' & -> & He' & Hw' & Hst' & Hk & Hl). exists f'. split_and!; try done.
      split; [done|]. right. right. done.
  - destruct Hs as (-> & He & Hw & ->). destruct (settled_step _ _ _ _ _ _ _ He Hw Hcl Hst H) as (f' & -> & He' & Hw' & Hst' & Hk & Hl).
    exists f'. by split_and!.
  - done.
Qed.

Lemma rest_left_wake rest : Forall resting rest -> Forall resting (wake <$> rest) /\ (rest_left (wake <$> rest) <= rest_left rest + 2 * length rest)%nat.
Proof.
  unfold rest_left. induction 1 as [|p rest Hp Hr [IH1 IH2]]; [by split|]. cbn. split; [constructor; [by destruct p|done]|].
  assert (worker_left true false (wake p) <= worker_left true false p + 2)%nat by (destruct p; cbn; lia). lia.
Qed.

(** Reads off the fields of a new state. *)
Ltac fields := cbn [clients closers workers rt answers].

Lemma phase_step t N s s' : phase t N s -> Step read_at write_at s s' -> exists N', N = S N' /\ phase t N' s'.
Proof.
  intros (p & w & rest & f & frest & Hp & Hk & Hw & Hst & Hcl & Ht & Hlen & Hr & Hf & Hs & HN) H.
  assert (forall m s', (m < N)%nat -> phase t m s' -> exists N', N = S N' /\ phase t N' s') as Hdone.
  { intros m s1 Hm (p1 & w1 & r1 & f1 & fr1 & ? & ? & ? & ? & ? & ? & ? & ? & ? & ? & ?). exists (N - 1)%nat. split; [lia|].
    exists p1, w1, r1, f1, fr1. split_and!; try done. lia. }
  destruct H as [i q q' c sent Hq Hstep|j q q' c sent b Hq Hstep|k q q' c sent Hq Hstep].
  - rewrite Hw in Hq. destruct i as [|i]; cbn in Hq.
    + simplify_eq. destruct (first_step _ _ _ _ _ _ _ _ _ _ Hs Hcl Hst Hstep) as (f' & Hst' & [K1 K2] & Hs' & Hl).
      eapply Hdone; [|exists p, q', rest, f', frest; fields; rewrite Hw, K1, K2; cbn [insert list_insert]; split_and!; try done; reflexivity]. lia.
    + assert (thread_state (rt s) !! S i = Some true) as Hfl.
      { destruct (lookup_lt_is_Some_2 frest i) as [x Hx]; [rewrite Hlen; by eapply lookup_lt_Some|].
        rewrite (Forall_lookup_1 _ _ _ _ Hf Hx), Hst. exact Hx. }
      destruct (rest_step _ _ _ _ _ _ (Forall_lookup_1 _ _ _ _ Hr Hq) Hfl Hstep) as (Hq' & -> & -> & Hl).
      pose proof (sum_insert (worker_left true false) _ _ _ q' Hq) as Hsum. fold (rest_left rest) (rest_left (<[i := q']> rest)) in Hsum.
      eapply Hdone; [|exists p, w, (<[i := q']> rest), f, frest; fields; rewrite Hw, length_insert, app_nil_r; split_and!; first [by apply Forall_insert|exact Hs|reflexivity|done]].
      cbn [rt] in *. change (busy (with_owner _ (rt s))) with (busy (rt s)). lia.
  - rewrite Hp in Hq. destruct j as [|j]; cbn in Hq; [|done]. simplify_eq.
    destruct (client_stage t s f frest w q q' c sent b (200 + 2 * length rest) Hs Hcl Ht Hst Hstep) as (-> & [K1 K2] & f' & Hst' & Hs' & Hm).
    rewrite app_nil_r. destruct b.
    + destruct Hm as [Hm ->]. destruct (rest_left_wake rest Hr) as [Hr' Hl].
      eapply Hdone; [|exists q', Relock, (wake <$> rest), f', frest; fields; rewrite Hw, Hp, length_fmap, K1, K2; split_and!; try done; reflexivity].
      assert (worker_left f' (busy c) Relock <= 200)%nat by (destruct f'; cbn; lia). lia.
    + eapply Hdone; [|exists q', w, rest, f', frest; fields; rewrite Hp, K1, K2; split_and!; try done; reflexivity]. lia.
  - by rewrite Hk in Hq.
Qed.

Lemma phase_steps t sched : forall N s s', phase t N s -> steps s sched = Some s' -> (length sched <= N)%nat /\ exists N', phase t N' s'.
Proof.
  induction sched as [|th sched IH]; cbn; intros N s s' Hp H; [simplify_eq; split; [lia|by exists N]|].
  apply bind_Some in H as (s1 & H1 & H). destruct (phase_step t N s s1 Hp) as (N' & -> & Hp'); [by eapply step_Step|].
  destruct (IH N' s1 s' Hp' H). split; [lia|done].
Qed.

Lemma phase_dozed t n : (0 < n)%nat -> phase t (211 + 2 * n) (dozed n 0 [Put t]).
Proof.
  intros Hn. destruct n as [|m]; [lia|]. exists (Put t), Asleep, (replicate m Asleep), true, (replicate m true). cbn -[Nat.mul].
  rewrite !app_nil_r, !length_replicate. unfold rest_left. rewrite (sum_zero (worker_left true false)) by (by intros i p [-> _]%lookup_replicate).
  split_and!; try done; try lia; by apply Forall_replicate.
Qed.

(** C10. A pool that sleeps answers: whatever thread moves next, a client that puts a task
    when all threads sleep gets the result of running it.  No execution has more
    than a bounded number of steps, and one that cannot go on has ended with the
    client returning that result and every thread asleep again. *)
Theorem sleeping_pool_answers n t sched s : (0 < n)%nat -> Z.of_nat n < U64 ->
  steps (dozed n 0 [Put t]) sched = Some s ->
  (length sched <= 211 + 2 * n)%nat /\
  (stuck s -> clients s = [Returned (run t)] /\ answers s = [(cb t, run t)] /\ Forall (eq Asleep) (workers s)).
Proof.
  intros Hn HU H. destruct (phase_steps t sched _ _ _ (phase_dozed t n Hn) H) as (Hlen & N & Hp). split; [done|]. intros Hs.
  assert (inv n s) as I.
  { destruct (dozed_more 0 n 0 [Put t]) as [pre Hpre]; [lia|]. rewrite Nat.add_0_r in Hpre. change (dozed 0 n [Put t]) with (start n [t] 0) in Hpre.
    apply (reach read_at write_at n [t] 0 (pre ++ sched) s HU). rewrite steps_app, Hpre. exact H. }
  destruct Hp as (p & w & rest & f & frest & Hc & _ & Hw & _ & Hcl & _ & _ & Hr & _ & Hst & _).
  assert (forall i q, workers s !! i = Some q -> resting q \/ settled f q -> q = Asleep) as Hall.
  { intros i q Hq Hrq. destruct (stuck_workers _ _ _ _ _ _ I Hs Hq) as [->| ->]; [done|]. by destruct Hrq. }
  pose proof (stuck_workers _ _ _ _ 0%nat w I Hs ltac:(by rewrite Hw)) as Hw0.
  destruct (stuck_clients _ _ _ _ 0%nat p I Hs) as [[a ->]|[->|(id & -> & Hrec)]]; [by rewrite Hc|..].
  - destruct Hst as (-> & He & Hset & Hl). split_and!; [done|done|]. rewrite Hw. constructor; [symmetry; apply (Hall 0%nat); [by rewrite Hw|by right]|].
    apply Forall_lookup_2. intros i q Hq. symmetry. apply (Hall (S i)); [by rewrite Hw|]. left. by apply (Forall_lookup_1 _ _ _ _ Hr Hq).
  - done.
  - destruct Hst as [-> [(_ & _ & Hf & _)|[(_ & [k ->] & _)|(_ & _ & Hl)]]].
    + by destruct Hw0 as [->| ->].
    + by destruct Hw0.
    + by rewrite received_run in Hrec.
Qed.

(** *** Tasks that are never run *)

(** A push into a full queue is ignored: the channel is closed and the client panics. *)
Lemma full_queue_drops j t c rc : is_pri_high t = true -> (QUEUE_SIZE <= length (high_op_queue c))%nat ->
  client_step j (Push t) c rc = Some (LenRead (cb t), c, [(cb t, Dropped)], false).
Proof.
  intros Hp Hl. unfold client_step, put, push. rewrite Hp. by rewrite (proj2 (Nat.ltb_ge _ _)).
Qed.

(** Closing strands clients and threads.  A client that found the runtime open before
    it was closed puts its task behind the back of the closing thread, which has
    emptied the queues, and waits for ever as every thread has left; and a thread
    that sleeps is not woken up by the closing and never leaves. *)
Theorem closing_strands t :
  (exists sched s, steps (start 1 [t] 1) sched = Some s /\ stuck s /\ workers s = [Exit] /\ closers s = [Closed] /\
    clients s = [Await (cb t)] /\ answers s = []) /\
  (exists sched s, steps (start 1 [] 1) sched = Some s /\ stuck s /\ workers s = [Asleep] /\ closers s = [Closed]).
Proof.
  split.
  - exists ([Client 0] ++ replicate 4 (Closer 0) ++ [Worker 0] ++ replicate 5 (Client 0)).
    destruct (put_empty t 1 1 [false] None true) as (r & w & h & Hput & Hl & _). eexists.
    split; [cbn -[put need_wakeup]; change (with_closed true (new 1)) with (mkAsyncContext [] [] [] 1 1 [false] None true); rewrite Hput; cbn -[need_wakeup];
      replace (length r + length w + length h)%nat with 1%nat by lia; reflexivity|].
    split; [intros [[|i]|[|j]|[|k]]; reflexivity|by split_and!].
  - exists (replicate 62 (Worker 0) ++ replicate 4 (Closer 0)). eexists. split; [vm_compute; reflexivity|].
    split; [intros [[|i]|[|j]|[|k]]; reflexivity|by split].
Qed.

End wakeup.

(** *** Examples *)
Module example.
Import runtime_facts.example.

(** The client, then the first of two threads, then the client again; the second
    thread goes back to sleep. *)
Definition sched : list thread :=
  replicate 10 (Client 0) ++ replicate 66 (Worker 0) ++ replicate 2 (Worker 1) ++ [Client 0].

Lemma wakeup_lost_witness : exists sched s, steps moved moved (start 2 [t0] 0) sched = Some s /\ stuck moved moved s /\
  workers s = [Asleep; Asleep] /\ clients s = [Await 10] /\ holding t0 (rt s) /\ answers s = [].
Proof. apply (wakeup_lost moved moved 2 t0); [lia|done]. Defined.

Definition answered_ : Runtime := default (dozed 2 0 []) (steps moved moved (dozed 2 0 [Put t1]) sched).

Lemma sleeping_pool_answers_witness : stuck moved moved answered_ /\ clients answered_ = [Returned (Io (Some 9))].
Proof.
  assert (stuck moved moved answered_) as Hst by (intros [[|[|i]]|[|j]|k]; vm_compute; reflexivity).
  destruct (sleeping_pool_answers moved moved 2 t1 sched answered_ ltac:(lia) eq_refl ltac:(vm_compute; reflexivity)) as [_ H].
  exact (conj Hst (proj1 (H Hst))).
Defined.

End example.
End wakeup_facts.
